(* ===== verification/_CoqProject ===== *)
-Q . S2P
Prelude.v
Prog.v
CString.v
Posix.v
GetNum.v
ErrorFunctions.v
FileSys.v
Kernels.v
CopyProgram.v
FileTools.v
IoCalls.v
KvServer.v
SeqServers.v
Popen.v
Procfs.v
FdReader.v
PsTree.v
Conc.v
ThreadTree.v
SearchTree.v
TreeThreads.v
TreeDelete.v
ThreadCounters.v
InetSockets.v
EchoServer.v
DirObserver.v
TsdPaths.v
NiceProg.v
ChildStatus.v
Execlp.v
UnixSockets.v
MqSeqnum.v
SignalTools.v
ChildWait.v
Environ.v
DList.v
Uthash.v
UthashInv.v
UthashTable.v
UthashSort.v
UthashMore.v
UthashSelect.v
Timers.v
Pipes.v
Getopt.v
Tail.v
MqTools.v
SigSpeed.v
FileRaces.v
SignalDemos.v
ProcDemos.v
SysTools.v
LibTools.v
