(* ===== verification/Prelude.v ===== *)
(** * Solutions to the exercises of "The Linux Programming Interface", verified

    The repository holds some seventy independent C programs, one directory per
    exercise, grouped by chapter ([src/CHnn-...]).  This library models the
    programs that have logic of their own and proves what makes each correct,
    or, where the code does not do what it means to, exactly what it does.

    ** How a program is modelled

    A C function is a [prog S A] (file Prog): a tree of the calls it makes to
    its environment, the text it writes through stdio, and the ways it ends
    (return, [exit], [_exit], abort, undefined behaviour with its reason).  The
    signature [S] lists the calls: [posix] (file Posix) for most programs,
    smaller ones where the state is memory shared by threads (ThreadTree,
    ThreadCounters), thread-specific data (TsdPaths) or the heap (Environ).
    What is outside of the program is a [kernel], that answers each call or
    does not return; it is an argument of [run].  Theorems hold for every
    kernel, or for every kernel that keeps a contract of the manual pages:
    [FileKernel] (FileSys) for files, [ProcKernel] (Procfs) for /proc,
    [NetKernel] (InetSockets) for descriptors and processes.  Kernels, Procfs
    and the files that use them define concrete kernels that keep the
    contracts; the witnesses run the programs on them.

    Every call may fail, and reads and writes may be short, unless a hypothesis
    says otherwise.  [int] and [long] are integers of 32 and 64 bits with their
    conversions written out ([to_int], [to_size], ...); signed overflow, an
    access to a null pointer, past a block or to freed memory is [Undef].
    Buffers are lists of bytes ([CString]), and the formats of messages are
    rendered as printf does.  [fork] is one call with two answers, and the model
    follows either side.  Signals: the handlers run where the environment
    answers the pseudo-call [Deliver] (EchoServer, SignalTools, SignalDemos), or
    as steps of a machine that interleaves two processes (ChildWait, SigSpeed).
    Threads (Conc): all interleavings of single calls over a shared state, with a
    rely/guarantee logic for invariants, absence of deadlock and termination;
    processes that share a file or a lock are threads of the same kind
    (FileRaces).

    ** Fuel

    Recursion and unbounded loops take [fuel], and running out of it is the
    outcome [Cut].  For programs that end, theorems give a bound that is enough
    and so exclude [Cut]: the number of bytes plus two for the copies, the size
    of the tree plus the number of requests for the threads, the length of a
    directory or of a status file for the readers of /proc, two iterations
    for child_status, the length of a file plus two for tail, the letters of the
    command line for getopt.  The servers and the loops that wait for input are meant
    to run for ever: their theorems hold after any number of iterations, [Cut]
    then being the state between two of them.

    ** Files and what they model (paths under src/)

    - Prelude, Prog, CString, Posix: machine integers and generic lemmas; the
      programs and their logic ([wp], [wpa], loop rules); <string.h>,
      <ctype.h>, [strtol], [snprintf]; the calls and their constants.
    - GetNum: get_num.c, of which every chapter has a copy.  ErrorFunctions:
      error_functions.c, likewise copied.
    - FileSys, Kernels: the file contract and an in-memory kernel.
      CopyProgram: CH13/Exercise_13-1/copy.c, CH13/Exercise_13-2/write_bytes.c,
      CH49/cp/cp.c.  FileTools: CH04 cp_sparse.c, hole_maker.c, tee_append.c
      and CH05 append_and_seek.c.  IoCalls: CH05 readv_writev.c,
      fcntln_as_dupn.c.
    - DList, Uthash, UthashInv, UthashTable: uthash.h (CH59/Exercise_59-4), the
      macros the server uses and the check of a debug build, on a heap of
      elements.  UthashSort: HASH_SRT.  UthashMore: insertion in order,
      replacement, the other hash functions.  UthashSelect: HASH_SELECT.
      KvServer: the UDP key-value store server.c, proved over a class [StrTable]
      that states what it relies on; UthashTable is an instance.
    - SeqServers: the FIFO sequence-number servers and client of CH44
      (server_fifo_remove, seqnum_with_backup).  MqSeqnum: the same service
      over message queues (CH52).  Popen: CH44 popen_pclose.c.  Pipes: CH44
      bidirectional_pipes.c.
    - Procfs (with users_processes.c), FdReader, PsTree: the programs of CH12
      that read /proc.
    - Conc, ThreadTree, SearchTree, TreeThreads, TreeDelete: the interleaving
      semantics and thread_safe_tree.c (CH30).  ThreadCounters: one_time_init.c
      (CH31), thread_incr.c (CH30).  TsdPaths: dirname_basename_tsd.c (CH31).
    - InetSockets: inet_sockets.c and become_daemon.c (CH60).  EchoServer:
      is_echo_sv.c, which uses both.  UnixSockets: the four programs of CH57.
    - DirObserver: directory_observer.c (CH19).
    - Environ: environ.c (CH06).  NiceProg: nice.c (CH35).  ChildStatus:
      child_status.c (CH26).  Execlp: execlp_from_execve.c (CH27).
      SignalTools: signal_functions.c, signal_to_sigaction.c (CH20).
      ChildWait: child_wait_parent.c (CH24).  SigSpeed: the two sig_speed
      programs of CH22.  FileRaces: atomic_append.c (CH05) and
      flock_deadlock.c (CH55), processes that share a file or locks.
    - SignalDemos: [my_abort], [my_siginterrupt] and the programs that show
      dispositions and masks (CH20 to CH22).  ProcDemos: the programs about
      children, zombies and sessions (CH24 to CH29, CH34).  SysTools:
      scheduling, limits, memory, semaphores, the bandwidth of pipes (CH07, CH35,
      CH36, CH43, CH50, CH53).  LibTools: isatty, ttyname and getpwnam rebuilt,
      and programs on terminals, shared objects, stdio, memory and threads
      (CH06, CH08, CH13, CH33, CH42, CH49, CH62).
    - Timers: itimerspec_from_str.c, curr_time.c, ptmr_sigev_signal.c,
      setitimer_alarm.c, timer_create_versus.c (CH23).
    - Getopt: glibc's getopt, call by call.  Tail: tail.c (CH13).  MqTools:
      talk.c and pmsg_receive_with_timeout.c (CH52).

    A C function has the definition of the same name; [main] of x.c is
    [x_main]; the body of a loop is a definition of its own ([x_step]), and the
    loop's variables are its argument and result.  GetNum and ErrorFunctions
    are used by most programs, IoCalls and the like by none.

    ** What is proved

    - Refinement and invariants: the key-value server answers as an abstract
      store does, also on the hash table of uthash.h, whose invariant is that
      of HASH_FSCK, and only the owner of a key changes it; the search tree and
      the process tree are what they should be after every operation; the
      servers give out consecutive ranges; the echo server counts its children.
    - The rest of uthash.h: the sort in place is a stable sort that keeps the
      table intact; insertion in order and replacement; what HASH_SELECT makes.
    - Functional correctness of the tools, on every branch: what is in the
      files, on stdout and in the exit status, for every way calls can fail.
    - Safety, liveness and termination: any interleaving of [add] and [lookup]
      keeps the tree, ends, and is free of deadlock and of undefined
      behaviour; [one_time_init] runs its function once; the parent that waits
      for its child is always woken; the dialogues over two pipes and over a
      message queue deliver every line once and in order; the processes that
      signal each other in turn never lose a signal; with O_APPEND no
      interleaving loses a byte.
    - Round trips and equivalences: [getInt] reads what it prints in three
      bases; the walk through inotify's buffer finds the events laid out in it;
      [itimerspecFromStr] reads back the text of a timer specification;
      [basename_ts] and [dirname_ts] against the definition of POSIX.
    - Well-formedness: which calls of environ.c keep the environment well
      formed.
    - Errors: the diagnostics, [add] without memory, what the loops do with
      failing calls.

    Several theorems state a defect of the code precisely: the backup server
    that fails on its first run, [my_pclose] that never closes the stream,
    [delete] that leaves a dangling pointer at an inner node, paths on which
    [dirname_ts] overflows its block, programs that compare the result of
    [mq_send] with a size, an environment that points to freed memory, the tail
    that HASH_SELECT leaves behind.

    A theorem that covers several programs has a part for each; the lemmas
    [x_ok] of their files are the parts.

    ** Not modelled

    The copies of get_num.c and error_functions.c and the second copy of the FIFO
    client (the same text), the generated ename.c.inc (a parameter), what uthash.h
    compiles out (the Bloom filter, the recovery of HASH_NONFATAL_OOM, the keys
    HASH_EMIT_KEYS writes).  malloc_and_free.c (CH07) does not compile, so there
    is no program to model.  test.c of exercise_8-1 and Exercise_27-3.c are one or
    two calls and nothing else.  Of the memory model of C only sequential
    consistency is modelled, and of the file system what the contracts name. *)
From Stdlib Require Import ZArith Lia Ascii String.
From stdpp Require Import base gmap strings list fin_maps.

#[global] Set Default Goal Selector "!".

(** ** Machine integers

    [int] is 32 bits, [long] and [ssize_t] are 64 bits, the widths of the
    platform the repository is written for (x86-64 Linux). *)

Definition INT_MAX : Z := 2147483647.
Definition INT_MIN : Z := -2147483648.
Definition LONG_MAX : Z := 9223372036854775807.
Definition LONG_MIN : Z := -9223372036854775808.

(** Conversion of an integer to a signed type of [w] bits (two's complement,
    what gcc and clang do for an out-of-range conversion). *)
Definition wrap (w z : Z) : Z := (z + 2 ^ (w - 1)) mod 2 ^ w - 2 ^ (w - 1).
Definition to_int (z : Z) : Z := wrap 32 z.
Definition to_long (z : Z) : Z := wrap 64 z.
Definition to_uint (z : Z) : Z := z mod 2 ^ 32.
Definition to_size (z : Z) : Z := z mod 2 ^ 64.

Definition in_int (z : Z) : Prop := (INT_MIN <= z <= INT_MAX)%Z.
Definition in_long (z : Z) : Prop := (LONG_MIN <= z <= LONG_MAX)%Z.

#[global] Instance in_int_dec z : Decision (in_int z).
Proof. unfold in_int. apply _. Defined.
#[global] Instance in_long_dec z : Decision (in_long z).
Proof. unfold in_long. apply _. Defined.

(** [flag_set f b] is the C test [f & b]. *)
Definition flag_set (f b : Z) : bool := negb (Z.land f b =? 0)%Z.

Create HintDb posix discriminated.

Lemma wrap_id w z :
  (0 < w)%Z → (- 2 ^ (w - 1) <= z < 2 ^ (w - 1))%Z → wrap w z = z.
Proof.
  intros Hw Hz. unfold wrap.
  assert (2 ^ w = 2 * 2 ^ (w - 1))%Z as Hp.
  { rewrite <- Z.pow_succ_r by lia. f_equal. lia. }
  rewrite Z.mod_small by lia. lia.
Qed.

Lemma to_int_id z : in_int z → to_int z = z.
Proof.
  intros H. apply wrap_id; [lia|]. unfold in_int, INT_MIN, INT_MAX in H.
  change (2 ^ (32 - 1))%Z with 2147483648%Z. lia.
Qed.

Lemma to_long_id z : in_long z → to_long z = z.
Proof.
  intros H. apply wrap_id; [lia|]. unfold in_long, LONG_MIN, LONG_MAX in H.
  change (2 ^ (64 - 1))%Z with 9223372036854775808%Z. lia.
Qed.

Lemma wrap_range w z :
  (0 < w)%Z → (- 2 ^ (w - 1) <= wrap w z < 2 ^ (w - 1))%Z.
Proof.
  intros Hw. unfold wrap.
  assert (2 ^ w = 2 * 2 ^ (w - 1))%Z as Hp.
  { rewrite <- Z.pow_succ_r by lia. f_equal. lia. }
  assert (0 < 2 ^ (w - 1))%Z by (apply Z.pow_pos_nonneg; lia).
  pose proof (Z.mod_pos_bound (z + 2 ^ (w - 1)) (2 ^ w)). lia.
Qed.

Lemma to_int_range z : in_int (to_int z).
Proof.
  pose proof (wrap_range 32 z ltac:(lia)) as H.
  change (2 ^ (32 - 1))%Z with 2147483648%Z in H.
  unfold in_int, INT_MIN, INT_MAX, to_int. lia.
Qed.

(** ** Lists *)

Lemma take_app_exact {A} (l k : list A) n : n = length l → take n (l ++ k) = l.
Proof. intros ->. apply take_app_length. Qed.

Lemma drop_app_exact {A} (l k : list A) n : n = length l → drop n (l ++ k) = k.
Proof. intros ->. apply drop_app_length. Qed.

Lemma length_omap_le {X Y} (f : X → option Y) xs : length (omap f xs) ≤ length xs.
Proof. induction xs as [|x xs IH]; cbn; [done|]. destruct (f x); cbn; lia. Qed.

(** ** Tactics *)

(** Case analysis on the scrutinee of the first match or [if] of the goal. *)
Ltac split_match :=
  match goal with
  | |- context [match ?x with _ => _ end] =>
      first [is_var x; destruct x | destruct x eqn:?]
  end.

(** Boolean comparisons of [Z] and [nat] to propositions. *)
Ltac zbool :=
  repeat match goal with
  | H : (_ =? _)%Z = true |- _ => apply Z.eqb_eq in H
  | H : (_ =? _)%Z = false |- _ => apply Z.eqb_neq in H
  | H : (_ <? _)%Z = true |- _ => apply Z.ltb_lt in H
  | H : (_ <? _)%Z = false |- _ => apply Z.ltb_ge in H
  | H : (_ <=? _)%Z = true |- _ => apply Z.leb_le in H
  | H : (_ <=? _)%Z = false |- _ => apply Z.leb_gt in H
  | H : (_ && _) = true |- _ => apply andb_true_iff in H as [? ?]
  | H : (_ || _) = false |- _ => apply orb_false_iff in H as [? ?]
  | H : negb _ = true |- _ => apply negb_true_iff in H
  | H : negb _ = false |- _ => apply negb_false_iff in H
  end.
