(* ===== verification/Prog.v ===== *)
(** * Interaction programs

    A C program of the repository is modelled as a value of [prog S A]: a tree
    whose nodes are the calls the program makes to its environment (the
    signature [S]), the text it writes, and the ways it ends.  The environment
    is a [kernel], an argument of [run]: nothing is assumed of it but what a
    theorem's hypotheses say. *)
From S2P Require Import Prelude.
From stdpp Require Import base gmap strings list.

(** What a program writes through stdio: the text on stdout, on stderr, a
    [perror] (the caller's prefix and the [errno] whose message it appends), a
    [syslog] line, and an [fflush]. *)
Inductive output :=
| Out (s : string)
| Err (s : string)
| Perror (s : string) (errno : Z)
| Syslog (s : string)
| Flush (stream : Z).

(** How a process ends by itself: [exit(3)], [_exit(2)], [abort(3)], undefined
    behaviour reached (with the reason), or the bound of a loop of the model
    used up ([Cut], excluded by the termination theorems). *)
Inductive halt :=
| Exited (code : Z)
| QuickExited (code : Z)
| Aborted
| Undef (why : string)
| Cut.

#[global] Instance output_eq_dec : EqDecision output.
Proof. solve_decision. Defined.
#[global] Instance halt_eq_dec : EqDecision halt.
Proof. solve_decision. Defined.

Record sig := Sig { op : Type; ans : op → Type }.

Inductive prog (S : sig) (A : Type) : Type :=
| Ret (a : A)
| Stop (h : halt)
| Put (o : output) (k : prog S A)
| Sys (c : op S) (k : ans S c → prog S A).
Arguments Ret {S A} a.
Arguments Stop {S A} h.
Arguments Put {S A} o k.
Arguments Sys {S A} c k.

Section monad.
Context {S : sig}.

Fixpoint bind {A B} (f : A → prog S B) (p : prog S A) : prog S B :=
  match p with
  | Ret a => f a
  | Stop h => Stop h
  | Put o k => Put o (bind f k)
  | Sys c k => Sys c (λ a, bind f (k a))
  end.

(** One call of the environment. *)
Definition sys (c : op S) : prog S (ans S c) := Sys c Ret.
Definition put (o : output) : prog S unit := Put o (Ret tt).
Definition printf (s : string) : prog S unit := put (Out s).
Definition eprintf (s : string) : prog S unit := put (Err s).
Definition perror (s : string) (e : Z) : prog S unit := put (Perror s e).
Definition exit {A} (code : Z) : prog S A := Stop (Exited code).
Definition quick_exit {A} (code : Z) : prog S A := Stop (QuickExited code).
Definition undef {A} (why : string) : prog S A := Stop (Undef why).

(** [if (b) { p }]. *)
Definition when (b : bool) (p : prog S unit) : prog S unit :=
  if b then p else Ret tt.

(** A loop: the body gives the next loop state ([inl]) or leaves the loop
    ([inr]).  [fuel] bounds the number of iterations. *)
Fixpoint loop {St R} (fuel : nat) (body : St → prog S (St + R)) (s : St) : prog S R :=
  match fuel with
  | O => Stop Cut
  | Datatypes.S f =>
      bind (λ r, match r with inl s' => loop f body s' | inr b => Ret b end) (body s)
  end.

(** A loop over a list ([for] over the arguments, over a buffer, ...). *)
Fixpoint for_each {X St} (xs : list X) (body : X → St → prog S St) (s : St) : prog S St :=
  match xs with
  | [] => Ret s
  | x :: xs' => bind (λ s', for_each xs' body s') (body x s)
  end.

(** Handlers registered with [atexit]: [h] runs when [p] ends by [exit]. *)
Fixpoint with_atexit {A} (h : prog S unit) (p : prog S A) : prog S A :=
  match p with
  | Stop (Exited n) => bind (λ _, Stop (Exited n)) h
  | Ret a => Ret a
  | Stop x => Stop x
  | Put o k => Put o (with_atexit h k)
  | Sys c k => Sys c (λ a, with_atexit h (k a))
  end.

End monad.

Declare Scope prog_scope.
Delimit Scope prog_scope with prog.
Notation "x <- p ;; q" := (bind (λ x, q) p)
  (at level 20, p at level 99, q at level 200, only parsing) : prog_scope.
Notation "' x <- p ;; q" := (bind (λ x : _, q) p)
  (at level 20, x pattern, p at level 99, q at level 200, only parsing) : prog_scope.
Notation "p ;;; q" := (bind (λ _, q) p)
  (at level 100, q at level 200, right associativity, only parsing) : prog_scope.

(** ** Running a program against a kernel *)

(** A call is answered, or does not return: [execve] that succeeds, a signal
    that kills the caller, a call that blocks for ever. *)
Inductive reaction (A W : Type) :=
| Answer (a : A) (w : W)
| NoReturn (w : W).
Arguments Answer {A W} a w.
Arguments NoReturn {A W} w.

Definition kernel (S : sig) (W : Type) := ∀ c : op S, W → reaction (ans S c) W.

(** The trace of a run: the calls with their answers and the text written. *)
Inductive event (S : sig) :=
| EOut (o : output)
| ECall (c : op S) (a : ans S c)
| EGone (c : op S).
Arguments EOut {S} o.
Arguments ECall {S} c a.
Arguments EGone {S} c.

Inductive outcome (A : Type) :=
| Returned (a : A)
| Halted (h : halt)
| Gone.
Arguments Returned {A} a.
Arguments Halted {A} h.
Arguments Gone {A}.

(** The texts written on stdout, in order. *)
Fixpoint outs {S} (t : list (event S)) : list string :=
  match t with
  | [] => []
  | EOut (Out s) :: t' => s :: outs t'
  | _ :: t' => outs t'
  end.

Lemma outs_app {S} (t1 t2 : list (event S)) : outs (t1 ++ t2) = outs t1 ++ outs t2.
Proof.
  induction t1 as [|[o|c a|c] t1 IH]; cbn; [done| |done..]. destruct o; cbn; by rewrite ?IH.
Qed.

(** The trace of a program that only writes the given texts. *)
Definition says {S} (l : list string) : list (event S) := (λ s, EOut (Out s)) <$> l.

Lemma says_app {S} l1 l2 : says (S := S) (l1 ++ l2) = says l1 ++ says l2.
Proof. apply fmap_app. Qed.
Lemma outs_says {S} l : outs (says (S := S) l) = l.
Proof. induction l as [|s l IH]; [done|]. cbn. by f_equal. Qed.

Fixpoint prints {S} (l : list string) : prog S unit :=
  match l with [] => Ret tt | s :: l' => Put (Out s) (prints l') end.

(** The last thing that happened is a [perror]. *)
Definition perror_last {S} (t : list (event S)) : Prop := ∃ s e, last t = Some (EOut (Perror s e)).

Lemma perror_last_snoc {S} (t : list (event S)) s e : perror_last (t ++ [EOut (Perror s e)]).
Proof. exists s, e. by rewrite last_snoc. Qed.
#[export] Hint Resolve perror_last_snoc : posix.

(** [P] holds of the trace before every event of the kind [sel]. *)
Definition before_each {S} (sel : event S → Prop) (P : list (event S) → Prop) (t : list (event S)) : Prop :=
  ∀ t1 e t2, t = t1 ++ e :: t2 → sel e → P t1.

Lemma before_each_nil {S} sel (P : list (event S) → Prop) : before_each sel P [].
Proof. by intros [|] ? ? ?. Qed.

Lemma before_each_snoc {S} sel (P : list (event S) → Prop) t e :
  before_each sel P t → (sel e → P t) → before_each sel P (t ++ [e]).
Proof.
  intros Ht He t1 e1 t2 E Hs. apply app_eq_inv in E as [(k & E1 & E2)|(k & E1 & E2)].
  - destruct k as [|x k]; cbn in E2; [|by eapply Ht; simplify_eq]. rewrite app_nil_r in E1. simplify_eq. by apply He.
  - destruct k as [|x [|y k]]; cbn in E2; simplify_eq. rewrite app_nil_r. by apply He.
Qed.

Section run.
Context {S : sig} {W : Type} (K : kernel S W).

Fixpoint run {A} (p : prog S A) (w : W) : outcome A * W * list (event S) :=
  match p with
  | Ret a => (Returned a, w, [])
  | Stop h => (Halted h, w, [])
  | Put o k => let '(r, w', t) := run k w in (r, w', EOut o :: t)
  | Sys c k =>
      match K c w with
      | Answer a w' => let '(r, w'', t) := run (k a) w' in (r, w'', ECall c a :: t)
      | NoReturn w' => (Gone, w', [EGone c])
      end
  end.

(** The weakest precondition of a run: what its outcome, its final world and
    its trace satisfy. *)
Definition wp {A} (p : prog S A) (w : W)
    (Q : outcome A → W → list (event S) → Prop) : Prop :=
  let '(r, w', t) := run p w in Q r w' t.

Lemma wp_run {A} (p : prog S A) w Q r w' t :
  wp p w Q → run p w = (r, w', t) → Q r w' t.
Proof. unfold wp. intros H E. by rewrite E in H. Qed.

Lemma wp_intro {A} (p : prog S A) w (Q : outcome A → W → list (event S) → Prop) :
  (∀ r w' t, run p w = (r, w', t) → Q r w' t) → wp p w Q.
Proof. unfold wp. intros H. destruct (run p w) as [[r w'] t]. by apply H. Qed.

Lemma wp_mono {A} (p : prog S A) w (Q R : outcome A → W → list (event S) → Prop) :
  wp p w Q → (∀ r w' t, Q r w' t → R r w' t) → wp p w R.
Proof. unfold wp. destruct (run p w) as [[r w'] t]. auto. Qed.

Lemma wp_ret {A} (a : A) w (Q : outcome A → W → list (event S) → Prop) :
  Q (Returned a) w [] → wp (Ret a) w Q.
Proof. done. Qed.

Lemma wp_stop {A} h w (Q : outcome A → W → list (event S) → Prop) :
  Q (Halted h) w [] → wp (Stop h) w Q.
Proof. done. Qed.

Lemma wp_put {A} o (k : prog S A) w Q :
  wp k w (λ r w' t, Q r w' (EOut o :: t)) → wp (Put o k) w Q.
Proof. unfold wp. simpl. by destruct (run k w) as [[r w'] t]. Qed.

Lemma wp_sys {A} c (k : ans S c → prog S A) w Q :
  (∀ a w', K c w = Answer a w' →
     wp (k a) w' (λ r w'' t, Q r w'' (ECall c a :: t))) →
  (∀ w', K c w = NoReturn w' → Q Gone w' [EGone c]) →
  wp (Sys c k) w Q.
Proof.
  unfold wp. simpl. destruct (K c w) as [a w'|w'] eqn:E; intros H1 H2.
  - specialize (H1 a w' eq_refl). by destruct (run (k a) w') as [[r w''] t].
  - by apply H2.
Qed.

(** A call whose answer is known. *)
Lemma wp_answer {A} c (k : ans S c → prog S A) w a w' Q :
  K c w = Answer a w' → wp (k a) w' (λ r w'' t, Q r w'' (ECall c a :: t)) → wp (Sys c k) w Q.
Proof. unfold wp. simpl. intros ->. by destruct (run (k a) w') as [[r w''] t]. Qed.

Lemma wp_bind {A B} (f : A → prog S B) p w Q :
  wp p w (λ r w' t, match r with
                    | Returned a => wp (f a) w' (λ r2 w2 t2, Q r2 w2 (t ++ t2))
                    | Halted h => Q (Halted h) w' t
                    | Gone => Q Gone w' t
                    end) →
  wp (bind f p) w Q.
Proof.
  revert w Q. induction p as [a|h|o k IH|c k IH]; intros w Q H; simpl.
  - exact H.
  - exact H.
  - apply wp_put, IH. unfold wp in *. simpl in H.
    destruct (run k w) as [[r w'] t]. destruct r; exact H.
  - unfold wp in *. simpl in *. destruct (K c w) as [a w'|w']; [|exact H].
    specialize (IH a w' (λ r w'' t, Q r w'' (ECall c a :: t))).
    destruct (run (k a) w') as [[r w''] t].
    destruct (run (bind f (k a)) w') as [[r2 w2] t2]. apply IH.
    destruct r; exact H.
Qed.

Lemma wp_with_atexit {A} (h : prog S unit) (p : prog S A) w Q :
  wp p w (λ r w' t, match r with
    | Halted (Exited n) => wp h w' (λ r2 w2 t2, match r2 with
        | Returned _ => Q (Halted (Exited n)) w2 (t ++ t2)
        | Halted x => Q (Halted x) w2 (t ++ t2)
        | Gone => Q Gone w2 (t ++ t2)
        end)
    | r => Q r w' t
    end) →
  wp (with_atexit h p) w Q.
Proof.
  revert w Q. induction p as [a|x|o k IH|c k IH]; intros w Q H; simpl.
  - exact H.
  - destruct x; try exact H. apply wp_bind. unfold wp at 1 in H. simpl in H.
    eapply wp_mono; [exact H|]. intros [u|x|] w2 t2 H2; [|done..].
    apply wp_stop. by rewrite app_nil_r.
  - apply wp_put, IH. unfold wp in *. simpl in H.
    destruct (run k w) as [[r w'] t]. destruct r as [?|[]|]; exact H.
  - unfold wp in *. simpl in *. destruct (K c w) as [a w'|w']; [|exact H].
    specialize (IH a w' (λ r w'' t, Q r w'' (ECall c a :: t))).
    destruct (run (k a) w') as [[r w''] t].
    destruct (run (with_atexit h (k a)) w') as [[r2 w2] t2]. apply IH.
    destruct r as [?|[]|]; exact H.
Qed.

Lemma run_bind {A B} (f : A → prog S B) p w r w' t :
  run p w = (r, w', t) →
  run (bind f p) w =
    match r with
    | Returned a => let '(r2, w2, t2) := run (f a) w' in (r2, w2, t ++ t2)
    | Halted h => (Halted h, w', t)
    | Gone => (Gone, w', t)
    end.
Proof.
  intros E. destruct (run (bind f p) w) as [[r1 w1] t1] eqn:E1.
  refine (wp_run (bind f p) w (λ r1 w1 t1, (r1, w1, t1) = _) r1 w1 t1 _ E1).
  apply wp_bind. unfold wp at 1. rewrite E. destruct r as [a|h|]; [|done..].
  unfold wp. by destruct (run (f a) w') as [[r2 w2] t2].
Qed.

(** The same with the trace so far as an argument: the postcondition is on the
    whole trace.  Invariants of every moment of an execution are proved in this
    form. *)
Definition wpa {A} (t : list (event S)) (p : prog S A) (w : W)
    (Q : outcome A → W → list (event S) → Prop) : Prop :=
  wp p w (λ r w' t', Q r w' (t ++ t')).

Lemma wpa_wp {A} (p : prog S A) w Q : wpa [] p w Q → wp p w Q.
Proof. done. Qed.

Lemma wpa_mono {A} t (p : prog S A) w (Q R : outcome A → W → list (event S) → Prop) :
  wpa t p w Q → (∀ r w' t', Q r w' t' → R r w' t') → wpa t p w R.
Proof. intros H HQ. eapply wp_mono; [exact H|]. intros r w' t'. apply HQ. Qed.

Lemma wpa_ret {A} t (a : A) w (Q : outcome A → W → list (event S) → Prop) :
  Q (Returned a) w t → wpa t (Ret a) w Q.
Proof. intros H. apply wp_ret. by rewrite app_nil_r. Qed.

Lemma wpa_stop {A} t h w (Q : outcome A → W → list (event S) → Prop) :
  Q (Halted h) w t → wpa t (Stop h : prog S A) w Q.
Proof. intros H. apply wp_stop. by rewrite app_nil_r. Qed.

Lemma wpa_put {A} t o (k : prog S A) w Q :
  wpa (t ++ [EOut o]) k w Q → wpa t (Put o k) w Q.
Proof.
  intros H. apply wp_put. eapply wp_mono; [exact H|]. intros r w' t'. cbn. by rewrite <- app_assoc.
Qed.

Lemma wpa_prints t l w (Q : outcome unit → W → list (event S) → Prop) :
  Q (Returned tt) w (t ++ says l) → wpa t (prints l) w Q.
Proof.
  revert t. induction l as [|s l IH]; intros t H; cbn [prints].
  - apply wpa_ret. cbn in H. by rewrite app_nil_r in H.
  - apply wpa_put, IH. by rewrite <- app_assoc.
Qed.

Lemma wpa_sys {A} t c (k : ans S c → prog S A) w Q :
  (∀ a w', K c w = Answer a w' → wpa (t ++ [ECall c a]) (k a) w' Q) →
  (∀ w', K c w = NoReturn w' → Q Gone w' (t ++ [EGone c])) →
  wpa t (Sys c k) w Q.
Proof.
  intros H1 H2. apply wp_sys; [|done]. intros a w' E. eapply wp_mono; [by apply H1|].
  intros r w2 t'. cbn. by rewrite <- app_assoc.
Qed.

Lemma wpa_bind {A B} t (f : A → prog S B) p w Q :
  wpa t p w (λ r w' t', match r with
                    | Returned a => wpa t' (f a) w' Q
                    | Halted h => Q (Halted h) w' t'
                    | Gone => Q Gone w' t'
                    end) →
  wpa t (bind f p) w Q.
Proof.
  intros H. apply wp_bind. eapply wp_mono; [exact H|]. intros [a|h|] w' t' H'; [|exact H'..].
  eapply wp_mono; [exact H'|]. intros r w2 t2. cbn. by rewrite <- app_assoc.
Qed.

Lemma wpa_true {A} t (p : prog S A) w : wpa t p w (λ _ _ _, True).
Proof. unfold wpa, wp. by destruct (run p w) as [[r w'] t']. Qed.

Lemma wpa_both {A} t (p : prog S A) w (Q1 Q2 : outcome A → W → list (event S) → Prop) :
  wpa t p w Q1 → wpa t p w Q2 → wpa t p w (λ r w' t', Q1 r w' t' ∧ Q2 r w' t').
Proof. unfold wpa, wp. destruct (run p w) as [[r w'] t']. by split. Qed.

(** Once [P] holds of the trace it holds before every later event of the kind. *)
Lemma wpa_before {A} sel (P : list (event S) → Prop) (p : prog S A) t w :
  (∀ t e, P t → P (t ++ [e])) → P t → before_each sel P t → wpa t p w (λ _ _ t', before_each sel P t').
Proof.
  intros HP. revert t w. induction p as [a|h|o k IH|c k IH]; intros t w Ht Hb.
  - by apply wpa_ret.
  - by apply wpa_stop.
  - apply wpa_put, IH; [by apply HP|]. by apply before_each_snoc.
  - apply wpa_sys; [intros a w' _; apply IH; [by apply HP|]|intros w' _]; by apply before_each_snoc.
Qed.

Lemma wpa_loop {St R} (I : St → W → list (event S) → Prop)
    (body : St → prog S (St + R)) (Q : outcome R → W → list (event S) → Prop) :
  (∀ s w t, I s w t → wpa t (body s) w (λ r w' t', match r with
       | Returned (inl s') => I s' w' t'
       | Returned (inr b) => Q (Returned b) w' t'
       | Halted h => Q (Halted h) w' t'
       | Gone => Q Gone w' t'
       end)) →
  (∀ s w t, I s w t → Q (Halted Cut) w t) →
  ∀ fuel s w t, I s w t → wpa t (loop fuel body s) w Q.
Proof.
  intros Hbody Hcut fuel. induction fuel as [|fuel IH]; intros s w t HI.
  { apply wpa_stop. by eapply Hcut. }
  simpl. apply wpa_bind. eapply wpa_mono; [by apply Hbody|].
  intros [[s'|b]|h|] w' t' H; [by apply IH|by apply wpa_ret|exact H..].
Qed.

(** The same for a loop with a measure. *)
Lemma wpa_loop_total {St R} (I : St → W → list (event S) → Prop) (m : St → nat)
    (body : St → prog S (St + R)) (Q : outcome R → W → list (event S) → Prop) :
  (∀ s w t, I s w t → wpa t (body s) w (λ r w' t', match r with
       | Returned (inl s') => I s' w' t' ∧ m s' < m s
       | Returned (inr b) => Q (Returned b) w' t'
       | Halted h => Q (Halted h) w' t'
       | Gone => Q Gone w' t'
       end)) →
  ∀ fuel s w t, I s w t → m s < fuel → wpa t (loop fuel body s) w Q.
Proof.
  intros Hbody fuel. induction fuel as [|fuel IH]; intros s w t HI Hm; [lia|].
  simpl. apply wpa_bind. eapply wpa_mono; [by apply Hbody|].
  intros [[s'|b]|h|] w' t' H; [apply IH; [apply H|lia]|by apply wpa_ret|exact H..].
Qed.

Lemma wpa_for_each {X St} (I : list X → St → W → list (event S) → Prop)
    (body : X → St → prog S St) (Q : outcome St → W → list (event S) → Prop) :
  (∀ x xs s w t, I (x :: xs) s w t → wpa t (body x s) w (λ r w' t', match r with
       | Returned s' => I xs s' w' t'
       | Halted h => Q (Halted h) w' t'
       | Gone => Q Gone w' t'
       end)) →
  (∀ s w t, I [] s w t → Q (Returned s) w t) →
  ∀ xs s w t, I xs s w t → wpa t (for_each xs body s) w Q.
Proof.
  intros Hbody Hend xs. induction xs as [|x xs IH]; intros s w t HI; simpl.
  { apply wpa_ret. by apply Hend. }
  apply wpa_bind. eapply wpa_mono; [by apply Hbody|].
  intros [s'|h|] w' t' H; [by apply IH|exact H..].
Qed.

(** Total rule for loops: an invariant [I] (of the loop state, the world and
    the trace so far) and a measure that decreases. *)
Lemma wp_loop {St R} (I : St → W → list (event S) → Prop) (m : St → W → nat)
    (body : St → prog S (St + R)) (Q : outcome R → W → list (event S) → Prop) :
  (∀ s w t, I s w t →
     wp (body s) w (λ r w' t', match r with
       | Returned (inl s') => I s' w' (t ++ t') ∧ m s' w' < m s w
       | Returned (inr b) => Q (Returned b) w' (t ++ t')
       | Halted h => Q (Halted h) w' (t ++ t')
       | Gone => Q Gone w' (t ++ t')
       end)) →
  ∀ fuel s w t, I s w t → m s w < fuel →
  wp (loop fuel body s) w (λ r w' t', Q r w' (t ++ t')).
Proof.
  intros Hbody fuel. induction fuel as [|fuel IH]; intros s w t HI Hm; [lia|].
  simpl. apply wp_bind. eapply wp_mono; [by apply Hbody|].
  intros r w' t' H. destruct r as [[s'|b]|h|]; try exact H.
  - destruct H as [HI' Hm'].
    eapply wp_mono; [apply IH; [exact HI'|lia]|].
    intros r2 w2 t2 H2. cbn beta in H2. by rewrite <- app_assoc in H2.
  - apply wp_ret. by rewrite app_nil_r.
Qed.

(** Partial rule: no measure; the bound of the loop may be used up. *)
Lemma wp_loop_partial {St R} (I : St → W → list (event S) → Prop)
    (body : St → prog S (St + R)) (Q : outcome R → W → list (event S) → Prop) :
  (∀ s w t, I s w t →
     wp (body s) w (λ r w' t', match r with
       | Returned (inl s') => I s' w' (t ++ t')
       | Returned (inr b) => Q (Returned b) w' (t ++ t')
       | Halted h => Q (Halted h) w' (t ++ t')
       | Gone => Q Gone w' (t ++ t')
       end)) →
  (∀ s w t, I s w t → Q (Halted Cut) w t) →
  ∀ fuel s w t, I s w t →
  wp (loop fuel body s) w (λ r w' t', Q r w' (t ++ t')).
Proof.
  intros Hbody Hcut fuel. induction fuel as [|fuel IH]; intros s w t HI.
  { apply wp_stop. rewrite app_nil_r. by eapply Hcut. }
  simpl. apply wp_bind. eapply wp_mono; [by apply Hbody|].
  intros r w' t' H. destruct r as [[s'|b]|h|]; try exact H.
  - eapply wp_mono; [by apply IH|].
    intros r2 w2 t2 H2. cbn beta in H2. by rewrite <- app_assoc in H2.
  - apply wp_ret. by rewrite app_nil_r.
Qed.

Lemma wp_for_each {X St} (I : list X → St → W → list (event S) → Prop)
    (body : X → St → prog S St) (Q : outcome St → W → list (event S) → Prop) :
  (∀ x xs s w t, I (x :: xs) s w t →
     wp (body x s) w (λ r w' t', match r with
       | Returned s' => I xs s' w' (t ++ t')
       | Halted h => Q (Halted h) w' (t ++ t')
       | Gone => Q Gone w' (t ++ t')
       end)) →
  (∀ s w t, I [] s w t → Q (Returned s) w t) →
  ∀ xs s w t, I xs s w t →
  wp (for_each xs body s) w (λ r w' t', Q r w' (t ++ t')).
Proof.
  intros Hbody Hend xs. induction xs as [|x xs IH]; intros s w t HI; simpl.
  { apply wp_ret. rewrite app_nil_r. by apply Hend. }
  apply wp_bind. eapply wp_mono; [by apply Hbody|].
  intros r w' t' H. destruct r as [s'|h|]; try exact H.
  eapply wp_mono; [by apply IH|].
  intros r2 w2 t2 H2. cbn beta in H2. by rewrite <- app_assoc in H2.
Qed.

End run.

(** One symbolic step of a run. *)
Ltac prog_step :=
  lazymatch goal with
  | |- wp _ (bind _ (sys _)) _ _ => unfold sys; cbn [bind]
  | |- wp _ (bind _ (bind _ _)) _ _ => apply wp_bind
  | |- wp _ (bind _ (Ret _)) _ _ => cbn [bind]
  | |- wp _ (bind _ (Stop _)) _ _ => cbn [bind]
  | |- wp _ (bind _ (Put _ _)) _ _ => cbn [bind]
  | |- wp _ (bind _ (Sys _ _)) _ _ => cbn [bind]
  | |- wp _ (bind _ (printf _)) _ _ => unfold printf, put; cbn [bind]
  | |- wp _ (bind _ (eprintf _)) _ _ => unfold eprintf, put; cbn [bind]
  | |- wp _ (bind _ (perror _ _)) _ _ => unfold perror, put; cbn [bind]
  | |- wp _ (bind _ (put _)) _ _ => unfold put; cbn [bind]
  | |- wp _ (bind _ (exit _)) _ _ => unfold exit; cbn [bind]
  | |- wp _ (bind _ (quick_exit _)) _ _ => unfold quick_exit; cbn [bind]
  | |- wp _ (bind _ (undef _)) _ _ => unfold undef; cbn [bind]
  | |- wp _ (bind _ (if ?b then _ else _)) _ _ => destruct b eqn:?
  | |- wp _ (bind _ (match ?x with pair _ _ => _ end)) _ _ => is_var x; destruct x
  | |- wp _ (match ?x with pair _ _ => _ end) _ _ => is_var x; destruct x
  | |- wp _ (bind _ (when ?b _)) _ _ => unfold when; destruct b eqn:?
  | |- wp _ (if ?b then _ else _) _ _ => destruct b eqn:?
  | |- wp _ (when ?b _) _ _ => unfold when; destruct b eqn:?
  | |- wp _ (printf _) _ _ => unfold printf, put
  | |- wp _ (eprintf _) _ _ => unfold eprintf, put
  | |- wp _ (perror _ _) _ _ => unfold perror, put
  | |- wp _ (sys _) _ _ => unfold sys
  | |- wp _ (exit _) _ _ => unfold exit
  | |- wp _ (quick_exit _) _ _ => unfold quick_exit
  | |- wp _ (undef _) _ _ => unfold undef
  | |- wp _ (Ret _) _ _ => apply wp_ret
  | |- wp _ (Stop _) _ _ => apply wp_stop
  | |- wp _ (Put _ _) _ _ => apply wp_put
  | |- wp _ (Sys _ _) _ _ => apply wp_sys; intros
  end.
Ltac prog_steps := repeat prog_step.

(** Up to and over the next call of the environment; a call that does not
    return is left to [done]. *)
Ltac prog_call :=
  lazymatch goal with
  | |- wp _ (Sys _ _) _ _ => apply wp_sys; [intros ? ? ?|intros ? ?; try done]
  | |- wp _ (if _ then _ else _) _ _ => idtac
  | |- wp _ (bind _ (if _ then _ else _)) _ _ => idtac
  | _ => prog_step; prog_call
  end.

(** One symbolic step, with the trace so far. *)
Ltac acc_step :=
  lazymatch goal with
  | |- wpa _ _ (bind _ (sys _)) _ _ => unfold sys; cbn [bind]
  | |- wpa _ _ (bind _ (bind _ _)) _ _ => apply wpa_bind
  | |- wpa _ _ (bind _ (Ret _)) _ _ => cbn [bind]
  | |- wpa _ _ (bind _ (Put _ _)) _ _ => cbn [bind]
  | |- wpa _ _ (bind _ (Stop _)) _ _ => cbn [bind]
  | |- wpa _ _ (bind _ (Sys _ _)) _ _ => cbn [bind]
  | |- wpa _ _ (bind _ (printf _)) _ _ => unfold printf, put; cbn [bind]
  | |- wpa _ _ (bind _ (eprintf _)) _ _ => unfold eprintf, put; cbn [bind]
  | |- wpa _ _ (bind _ (perror _ _)) _ _ => unfold perror, put; cbn [bind]
  | |- wpa _ _ (bind _ (put _)) _ _ => unfold put; cbn [bind]
  | |- wpa _ _ (bind _ (exit _)) _ _ => unfold exit; cbn [bind]
  | |- wpa _ _ (bind _ (quick_exit _)) _ _ => unfold quick_exit; cbn [bind]
  | |- wpa _ _ (bind _ (undef _)) _ _ => unfold undef; cbn [bind]
  | |- wpa _ _ (printf _) _ _ => unfold printf, put
  | |- wpa _ _ (eprintf _) _ _ => unfold eprintf, put
  | |- wpa _ _ (perror _ _) _ _ => unfold perror, put
  | |- wpa _ _ (put _) _ _ => unfold put
  | |- wpa _ _ (sys _) _ _ => unfold sys
  | |- wpa _ _ (exit _) _ _ => unfold exit
  | |- wpa _ _ (quick_exit _) _ _ => unfold quick_exit
  | |- wpa _ _ (undef _) _ _ => unfold undef
  | |- wpa _ _ (Ret _) _ _ => apply wpa_ret
  | |- wpa _ _ (Stop _) _ _ => apply wpa_stop
  | |- wpa _ _ (Put _ _) _ _ => apply wpa_put
  end.
Ltac acc_steps := repeat acc_step.

(** Up to and over the next call. *)
Ltac acc_call := acc_steps;
  lazymatch goal with |- wpa _ _ (Sys _ _) _ _ => apply wpa_sys; [intros ? ? ?|intros ? ?] end.
