(* ===== verification/CString.v ===== *)
(** * C strings and buffers

    Buffers are lists of characters ([bytes]); a C string held in a buffer is
    its prefix up to the first NUL ([cstr]).  The functions of <string.h>,
    <ctype.h> and <stdlib.h> the programs call are defined here, with the
    lemmas the components share. *)
From Stdlib Require Import ZArith Lia Ascii String.
From stdpp Require Import base gmap strings list.
From S2P Require Import Prelude.

Abbreviation bytes := (list ascii).
Definition to_bytes : string → bytes := list_ascii_of_string.
Definition of_bytes : bytes → string := string_of_list_ascii.

Definition NUL : ascii := Ascii.zero.
Definition TAB : ascii := "009"%char.
Definition LF : ascii := "010"%char.
Definition nl : string := String LF EmptyString.
Definition tab : string := String TAB EmptyString.

(** [argv[0]]; the kernel always passes at least one argument. *)
Definition argv_0 (argv : list string) : string := default EmptyString (head argv).

(** The C string that starts a buffer. *)
Fixpoint cstr (b : bytes) : bytes :=
  match b with
  | [] => []
  | c :: b' => if Ascii.eqb c NUL then [] else c :: cstr b'
  end.

(** [no_nul s]: [s] is the content of a C string. *)
Definition no_nul (s : bytes) : Prop := NUL ∉ s.

(** The buffer [b] after [n = length d] bytes have been stored at its start. *)
Definition buf_store (d b : bytes) : bytes := d ++ drop (length d) b.

Definition code (c : ascii) : Z := Z.of_N (N_of_ascii c).
Definition chr (z : Z) : ascii := ascii_of_N (Z.to_N (z mod 256)).

(** [strcmp(3)]: the sign of the comparison as unsigned characters. *)
Fixpoint strcmp (a b : string) : Z :=
  match a, b with
  | EmptyString, EmptyString => 0
  | EmptyString, String _ _ => -1
  | String _ _, EmptyString => 1
  | String x a', String y b' =>
      if (code x <? code y)%Z then -1
      else if (code y <? code x)%Z then 1 else strcmp a' b'
  end.

Definition streq (a b : string) : bool := (strcmp a b =? 0)%Z.

(** [break_at d s]: what precedes the first [d], and what follows it. *)
Fixpoint break_at (d : ascii) (s : bytes) : bytes * option bytes :=
  match s with
  | [] => ([], None)
  | c :: s' =>
      if Ascii.eqb c d then ([], Some s')
      else let '(h, t) := break_at d s' in (c :: h, t)
  end.

(** [break_last d s]: what precedes the last [d], and what follows it. *)
Fixpoint break_last (d : ascii) (s : bytes) : option (bytes * bytes) :=
  match s with
  | [] => None
  | c :: s' =>
      match break_last d s' with
      | Some (h, t) => Some (c :: h, t)
      | None => if Ascii.eqb c d then Some ([], s') else None
      end
  end.

(** [strchr(3)] in a buffer: the index of the first [c], the null pointer, or a
    search that runs over the end of the buffer. *)
Inductive chr_result := ChrAt (i : nat) | ChrNull | ChrOver.
Fixpoint strchr (s : bytes) (c : ascii) : chr_result :=
  match s with
  | [] => ChrOver
  | x :: s' =>
      if Ascii.eqb x c then ChrAt 0
      else if Ascii.eqb x NUL then ChrNull
      else match strchr s' c with ChrAt i => ChrAt (S i) | r => r end
  end.

(** [strtok(3)] with a one-character set: the token and the rest the next call
    ([strtok(NULL, d)]) resumes from. *)
Fixpoint skip_delim (d : ascii) (s : bytes) : bytes :=
  match s with
  | [] => []
  | c :: s' => if Ascii.eqb c d then skip_delim d s' else s
  end.
Definition strtok (d : ascii) (s : bytes) : option bytes * bytes :=
  match skip_delim d s with
  | [] => (None, [])
  | s' => let '(tok, r) := break_at d s' in (Some tok, default [] r)
  end.

(** ** Numbers *)

Definition isspace (c : ascii) : bool :=
  (code c =? 32)%Z || ((9 <=? code c)%Z && (code c <=? 13)%Z).

Definition digit_val (c : ascii) : option Z :=
  let z := code c in
  if (48 <=? z)%Z && (z <=? 57)%Z then Some (z - 48)%Z
  else if (97 <=? z)%Z && (z <=? 122)%Z then Some (z - 87)%Z
  else if (65 <=? z)%Z && (z <=? 90)%Z then Some (z - 55)%Z
  else None.

Definition digit_in (b : Z) (c : ascii) : option Z :=
  match digit_val c with
  | Some d => if (d <? b)%Z then Some d else None
  | None => None
  end.

Fixpoint skip_space (s : bytes) : bytes :=
  match s with
  | [] => []
  | c :: s' => if isspace c then skip_space s' else s
  end.

Fixpoint scan_digits (b acc : Z) (s : bytes) : Z * bytes :=
  match s with
  | [] => (acc, [])
  | c :: s' =>
      match digit_in b c with
      | Some d => scan_digits b (acc * b + d) s'
      | None => (acc, s)
      end
  end.

Definition scan_sign (s : bytes) : bool * bytes :=
  match s with
  | c :: s' =>
      if Ascii.eqb c "-" then (true, s')
      else if Ascii.eqb c "+" then (false, s') else (false, s)
  | [] => (false, s)
  end.

Definition hex_prefix (s : bytes) : bool :=
  match s with
  | z :: x :: c :: _ =>
      Ascii.eqb z "0" && (Ascii.eqb x "x" || Ascii.eqb x "X") &&
      match digit_in 16 c with Some _ => true | None => false end
  | _ => false
  end.

Definition scan_base (base : Z) (s : bytes) : Z * bytes :=
  if ((base =? 0)%Z || (base =? 16)%Z) && hex_prefix s then (16%Z, drop 2 s)
  else if (base =? 0)%Z
       then (match s with
             | c :: _ => if Ascii.eqb c "0" then 8%Z else 10%Z
             | [] => 10%Z
             end, s)
       else (base, s).

Definition ERANGE : Z := 34.
Definition EINVAL : Z := 22.

(** [strtol(3)]: the value, what follows the number ([*endptr]), and the value
    [errno] is set to (0 when it is left alone). *)
Record strtol_result := StrtolResult { st_val : Z; st_end : bytes; st_errno : Z }.

Definition strtol (s : bytes) (base : Z) : strtol_result :=
  let '(neg, s2) := scan_sign (skip_space s) in
  let '(b, s3) := scan_base base s2 in
  match s3 with
  | c :: _ =>
      match digit_in b c with
      | Some _ =>
          let '(v, rest) := scan_digits b 0 s3 in
          let z := if neg then (- v)%Z else v in
          if (LONG_MAX <? z)%Z then StrtolResult LONG_MAX rest ERANGE
          else if (z <? LONG_MIN)%Z then StrtolResult LONG_MIN rest ERANGE
          else StrtolResult z rest 0
      | None => StrtolResult 0 s 0
      end
  | [] => StrtolResult 0 s 0
  end.

(** [atoi(3)] is [(int) strtol(s, NULL, 10)]. *)
Definition atoi (s : bytes) : Z := to_int (st_val (strtol s 10)).

(** Decimal, octal and hexadecimal numerals ([%d], [%ld], [%o], [%x]). *)
Definition digit_char (d : Z) : ascii :=
  if (d <? 10)%Z then chr (48 + d) else chr (87 + d).

Fixpoint digits (fuel : nat) (b n : Z) : bytes :=
  match fuel with
  | O => []
  | S f => if (n <? b)%Z then [digit_char n]
           else digits f b (n / b) ++ [digit_char (n mod b)]
  end.
Definition numeral (b n : Z) : bytes := digits (S (Z.to_nat (Z.log2 n))) b n.

Definition zdec (n : Z) : bytes :=
  if (n <? 0)%Z then "-"%char :: numeral 10 (- n) else numeral 10 n.
Definition zstr (n : Z) : string := of_bytes (zdec n).

(** ** Lemmas *)

Lemma to_of_bytes b : to_bytes (of_bytes b) = b.
Proof. apply list_ascii_of_string_of_list_ascii. Qed.

Lemma of_to_bytes s : of_bytes (to_bytes s) = s.
Proof. apply string_of_list_ascii_of_string. Qed.

Lemma to_bytes_inj a b : to_bytes a = to_bytes b → a = b.
Proof. intros H. by rewrite <- (of_to_bytes a), H, of_to_bytes. Qed.

Lemma to_bytes_app a b : to_bytes (a +:+ b) = to_bytes a ++ to_bytes b.
Proof. induction a as [|c a IH]; [done|]. simpl. f_equal. exact IH. Qed.

Lemma code_inj x y : code x = code y → x = y.
Proof.
  unfold code. intros H. apply N2Z.inj in H.
  rewrite <- (ascii_N_embedding x), <- (ascii_N_embedding y). by rewrite H.
Qed.

Lemma code_range x : (0 <= code x < 256)%Z.
Proof. unfold code. pose proof (N_ascii_bounded x). lia. Qed.

Lemma code_chr z : (0 <= z < 256)%Z → code (chr z) = z.
Proof.
  intros H. unfold code, chr. rewrite Z.mod_small by lia.
  rewrite N_ascii_embedding by lia. lia.
Qed.

Lemma chr_code c : chr (code c) = c.
Proof. apply code_inj. rewrite code_chr; [done|apply code_range]. Qed.

Lemma strcmp_eq a b : strcmp a b = 0%Z ↔ a = b.
Proof.
  revert b. induction a as [|x a IH]; intros [|y b]; simpl; try done.
  destruct (code x <? code y)%Z eqn:E1; [zbool; split; [lia|intros [= -> ->]; lia]|].
  destruct (code y <? code x)%Z eqn:E2; [zbool; split; [lia|intros [= -> ->]; lia]|].
  zbool. assert (x = y) as -> by (apply code_inj; lia).
  rewrite IH. split; [by intros ->|by intros [= ->]].
Qed.

Lemma strcmp_opp a b : strcmp a b = (- strcmp b a)%Z.
Proof.
  revert b. induction a as [|x a IH]; intros [|y b]; simpl; try done.
  destruct (code x <? code y)%Z eqn:E1, (code y <? code x)%Z eqn:E2; zbool; try lia.
  apply IH.
Qed.

Lemma strcmp_trans a b c : (strcmp a b < 0)%Z → (strcmp b c < 0)%Z → (strcmp a c < 0)%Z.
Proof.
  revert b c. induction a as [|x a IH]; intros [|y b] [|z c]; simpl; try lia.
  repeat case_match; zbool; try lia. apply IH.
Qed.

Lemma streq_true a b : streq a b = true ↔ a = b.
Proof. unfold streq. rewrite Z.eqb_eq. apply strcmp_eq. Qed.

Lemma streq_refl a : streq a a = true.
Proof. by apply streq_true. Qed.

Lemma cstr_no_nul s : no_nul s → cstr s = s.
Proof.
  unfold no_nul. induction s as [|c s IH]; [done|]. intros H. simpl.
  rewrite not_elem_of_cons in H. destruct H as [H1 H2].
  destruct (Ascii.eqb_spec c NUL) as [->|]; [done|]. by rewrite IH.
Qed.

Lemma cstr_app_nul s r : no_nul s → cstr (s ++ NUL :: r) = s.
Proof.
  unfold no_nul. induction s as [|c s IH]; [done|]. intros H. simpl.
  rewrite not_elem_of_cons in H. destruct H as [H1 H2].
  destruct (Ascii.eqb_spec c NUL) as [->|]; [done|]. by rewrite IH.
Qed.

Lemma cstr_length b : length (cstr b) ≤ length b.
Proof. induction b as [|c b IH]; simpl; [lia|]. case_match; simpl; lia. Qed.

Lemma cstr_is_no_nul b : no_nul (cstr b).
Proof.
  unfold no_nul. induction b as [|c b IH]; simpl; [set_solver|].
  destruct (Ascii.eqb_spec c NUL); [set_solver|].
  rewrite not_elem_of_cons. auto.
Qed.

Lemma break_at_None d s : d ∉ s → break_at d s = (s, None).
Proof.
  induction s as [|c s IH]; [done|]. rewrite not_elem_of_cons. intros [H1 H2]. simpl.
  destruct (Ascii.eqb_spec c d) as [->|]; [done|]. by rewrite IH.
Qed.

Lemma break_at_Some d s r : d ∉ s → break_at d (s ++ d :: r) = (s, Some r).
Proof.
  induction s as [|c s IH]; simpl.
  - by rewrite Ascii.eqb_refl.
  - rewrite not_elem_of_cons. intros [H1 H2].
    destruct (Ascii.eqb_spec c d) as [->|]; [done|]. by rewrite IH.
Qed.

Lemma strchr_found c s r : no_nul s → c ∉ s → strchr (s ++ c :: r) c = ChrAt (length s).
Proof.
  unfold no_nul. induction s as [|x s IH]; cbn [app strchr length]; [by rewrite Ascii.eqb_refl|].
  rewrite !not_elem_of_cons. intros [H1 H2] [H3 H4].
  destruct (Ascii.eqb_spec x c) as [->|]; [done|]. destruct (Ascii.eqb_spec x NUL) as [->|]; [done|]. by rewrite IH.
Qed.

Lemma strchr_null c s r : no_nul s → c ∉ s → c ≠ NUL → strchr (s ++ NUL :: r) c = ChrNull.
Proof.
  unfold no_nul. intros H1 H2 Hc. revert H1 H2. induction s as [|x s IH]; cbn [app strchr].
  - intros _ _. destruct (Ascii.eqb_spec NUL c) as [E|]; [by rewrite E in Hc|done].
  - rewrite !not_elem_of_cons. intros [H1 H2] [H3 H4].
    destruct (Ascii.eqb_spec x c) as [->|]; [done|]. destruct (Ascii.eqb_spec x NUL) as [->|]; [done|]. by rewrite IH.
Qed.

Lemma break_last_None d s : d ∉ s → break_last d s = None.
Proof.
  induction s as [|c s IH]; [done|]. rewrite not_elem_of_cons. intros [H1 H2]. simpl.
  rewrite IH by done. destruct (Ascii.eqb_spec c d) as [->|]; done.
Qed.

Lemma break_last_Some d s r : d ∉ r → break_last d (s ++ d :: r) = Some (s, r).
Proof.
  intros H. induction s as [|c s IH]; simpl.
  - by rewrite break_last_None, Ascii.eqb_refl.
  - by rewrite IH.
Qed.

Lemma digit_in_char b d :
  (0 <= d < b)%Z → (b <= 16)%Z → digit_in b (digit_char d) = Some d.
Proof.
  intros Hd Hb. unfold digit_in, digit_char, digit_val.
  destruct (d <? 10)%Z eqn:E; zbool.
  - rewrite code_chr by lia.
    replace ((48 <=? 48 + d)%Z && (48 + d <=? 57)%Z) with true.
    2:{ symmetry. apply andb_true_iff. split; apply Z.leb_le; lia. }
    replace (48 + d - 48)%Z with d by lia.
    by replace (d <? b)%Z with true by (symmetry; apply Z.ltb_lt; lia).
  - rewrite code_chr by lia.
    replace ((48 <=? 87 + d)%Z && (87 + d <=? 57)%Z) with false.
    2:{ symmetry. apply andb_false_iff. right. apply Z.leb_gt. lia. }
    replace ((97 <=? 87 + d)%Z && (87 + d <=? 122)%Z) with true.
    2:{ symmetry. apply andb_true_iff. split; apply Z.leb_le; lia. }
    replace (87 + d - 87)%Z with d by lia.
    by replace (d <? b)%Z with true by (symmetry; apply Z.ltb_lt; lia).
Qed.

(** [ends_number b r]: [r] does not continue a number in base [b]. *)
Definition ends_number (b : Z) (r : bytes) : Prop :=
  match r with [] => True | c :: _ => digit_in b c = None end.

Lemma scan_digits_end b acc r : ends_number b r → scan_digits b acc r = (acc, r).
Proof. destruct r as [|c r]; simpl; [done|]. by intros ->. Qed.

Lemma scan_digits_digits fuel b n acc r :
  (2 <= b <= 16)%Z → (0 <= n < 2 ^ Z.of_nat fuel)%Z → 0 < fuel →
  ∃ k : nat, scan_digits b acc (digits fuel b n ++ r)
             = scan_digits b (acc * b ^ Z.of_nat k + n) r.
Proof.
  intros Hb. revert n acc r. induction fuel as [|fuel IH]; intros n acc r Hn Hf; [lia|].
  simpl. destruct (n <? b)%Z eqn:E; zbool.
  - exists 1. simpl. rewrite digit_in_char by lia. by rewrite Z.pow_1_r.
  - assert (fuel ≠ 0).
    { intros ->. change (2 ^ Z.of_nat 1)%Z with 2%Z in Hn. lia. }
    assert (0 <= n / b < 2 ^ Z.of_nat fuel)%Z as Hdiv.
    { split; [apply Z.div_pos; lia|]. apply Z.div_lt_upper_bound; [lia|].
      rewrite Nat2Z.inj_succ, Z.pow_succ_r in Hn by lia. nia. }
    rewrite <- app_assoc. destruct (IH (n / b)%Z acc ([digit_char (n mod b)] ++ r) Hdiv ltac:(lia))
      as [k ->].
    exists (S k). simpl. rewrite digit_in_char.
    2:{ pose proof (Z.mod_pos_bound n b); lia. } 2: lia.
    f_equal. rewrite Nat2Z.inj_succ, Z.pow_succ_r by lia.
    pose proof (Z.div_mod n b ltac:(lia)). nia.
Qed.

Lemma numeral_bound n : (0 <= n)%Z → (n < 2 ^ Z.of_nat (S (Z.to_nat (Z.log2 n))))%Z.
Proof.
  intros Hn. rewrite Nat2Z.inj_succ, Z2Nat.id by apply Z.log2_nonneg.
  destruct (decide (n = 0%Z)) as [->|]; [done|]. apply Z.log2_spec. lia.
Qed.

Lemma scan_numeral b n r :
  (2 <= b <= 16)%Z → (0 <= n)%Z → ends_number b r →
  scan_digits b 0 (numeral b n ++ r) = (n, r).
Proof.
  intros Hb Hn Hr. unfold numeral.
  pose proof (numeral_bound n Hn) as Hbd.
  destruct (scan_digits_digits _ b n 0 r Hb (conj Hn Hbd) ltac:(lia)) as [k ->].
  rewrite scan_digits_end by done. f_equal; lia.
Qed.

(** The characters of a numeral are digits of its base. *)
Lemma digits_in fuel b n c :
  (2 <= b <= 16)%Z → (0 <= n)%Z → c ∈ digits fuel b n → is_Some (digit_in b c).
Proof.
  intros Hb. revert n. induction fuel as [|fuel IH]; intros n Hn; simpl.
  - by intros ?%not_elem_of_nil.
  - destruct (n <? b)%Z eqn:E; zbool.
    + rewrite list_elem_of_singleton. intros ->. rewrite digit_in_char by lia. by eexists.
    + rewrite elem_of_app, list_elem_of_singleton. intros [H| ->].
      * apply (IH (n / b)%Z); [apply Z.div_pos; lia|done].
      * pose proof (Z.mod_pos_bound n b ltac:(lia)).
        rewrite digit_in_char by lia. by eexists.
Qed.

Lemma numeral_in b n c :
  (2 <= b <= 16)%Z → (0 <= n)%Z → c ∈ numeral b n → is_Some (digit_in b c).
Proof. apply digits_in. Qed.

Lemma digits_nonempty fuel b n : 0 < fuel → digits fuel b n ≠ [].
Proof.
  destruct fuel as [|f]; [lia|]. intros _. simpl. destruct (n <? b)%Z; [done|].
  intros Hnil. by apply app_eq_nil in Hnil as [_ ?].
Qed.

Lemma numeral_cons b n :
  (2 <= b <= 16)%Z → (0 <= n)%Z →
  ∃ c l d, numeral b n = c :: l ∧ digit_in b c = Some d.
Proof.
  intros Hb Hn. destruct (numeral b n) as [|c l] eqn:E.
  { exfalso. eapply (digits_nonempty _ b n); [|exact E]. lia. }
  destruct (numeral_in b n c Hb Hn) as [d Hd]; [rewrite E; left|].
  by exists c, l, d.
Qed.

(** A character that is a digit is neither a blank, a sign nor a NUL. *)
Lemma digit_in_not c b d : digit_in b c = Some d →
  isspace c = false ∧ Ascii.eqb c "-" = false ∧ Ascii.eqb c "+" = false ∧
  Ascii.eqb c NUL = false.
Proof.
  intros H. destruct c as [[] [] [] [] [] [] [] []]; try done;
  unfold digit_in, digit_val in H; simpl in H; discriminate H.
Qed.

Lemma digit_in_10_range c d : digit_in 10 c = Some d → (48 <= code c <= 57)%Z.
Proof.
  unfold digit_in, digit_val. intros H. repeat case_match; zbool; simplify_eq; lia.
Qed.

Lemma numeral_no_nul b n : (2 <= b <= 16)%Z → (0 <= n)%Z → no_nul (numeral b n).
Proof.
  intros Hb Hn Hin. destruct (numeral_in b n NUL Hb Hn Hin) as [d Hd].
  by apply digit_in_not in Hd as (_ & _ & _ & ?).
Qed.

Lemma zdec_no_nul n : no_nul (zdec n).
Proof.
  unfold zdec, no_nul. case_match; zbool.
  - rewrite not_elem_of_cons. split; [done|]. apply numeral_no_nul; lia.
  - apply numeral_no_nul; lia.
Qed.

(** [strtol] reads back what [%ld] prints. *)
Lemma strtol_zdec n r :
  in_long n → ends_number 10 r → strtol (zdec n ++ r) 10 = StrtolResult n r 0.
Proof.
  intros Hn Hr. unfold strtol, zdec, in_long in *.
  destruct (n <? 0)%Z eqn:E; zbool.
  - destruct (numeral_cons 10 (- n) ltac:(lia) ltac:(lia)) as (c & l & d & El & Hd).
    simpl. rewrite El. simpl. unfold scan_base. simpl. rewrite Hd.
    pose proof (scan_numeral 10 (- n) r ltac:(lia) ltac:(lia) Hr) as Hs.
    rewrite El in Hs. simpl in Hs. rewrite Hd in Hs. rewrite Hs.
    rewrite Z.opp_involutive.
    destruct (LONG_MAX <? n)%Z eqn:E1; zbool; [unfold LONG_MAX in *; lia|].
    destruct (n <? LONG_MIN)%Z eqn:E2; zbool; [lia|done].
  - destruct (numeral_cons 10 n ltac:(lia) ltac:(lia)) as (c & l & d & El & Hd).
    pose proof (digit_in_not _ _ _ Hd) as (Hsp & Hm & Hp & _).
    rewrite El. simpl. rewrite Hsp. simpl. rewrite Hm, Hp.
    unfold scan_base. simpl. rewrite Hd.
    pose proof (scan_numeral 10 n r ltac:(lia) ltac:(lia) Hr) as Hs.
    rewrite El in Hs. simpl in Hs. rewrite Hd in Hs. rewrite Hs.
    destruct (LONG_MAX <? n)%Z eqn:E1; zbool; [lia|].
    destruct (n <? LONG_MIN)%Z eqn:E2; zbool; [lia|done].
Qed.

Lemma atoi_zdec n r : in_int n → ends_number 10 r → atoi (zdec n ++ r) = n.
Proof.
  intros Hn Hr. unfold atoi. rewrite strtol_zdec; [|unfold in_int, in_long, INT_MIN, INT_MAX, LONG_MIN, LONG_MAX in *; lia|done].
  by apply to_int_id.
Qed.

Lemma strtol_range s b : in_long (st_val (strtol s b)).
Proof.
  unfold strtol. destruct (scan_sign _) as [neg s2]. destruct (scan_base b s2) as [b' s3].
  unfold in_long, LONG_MIN, LONG_MAX.
  destruct s3 as [|c s3]; simpl; [lia|]. destruct (digit_in b' c); simpl; [|lia].
  destruct (scan_digits _ _ _) as [v rest].
  repeat case_match; simpl; zbool; unfold LONG_MIN, LONG_MAX in *; lia.
Qed.

(** How long a numeral is. *)
Lemma length_digits fuel n k :
  (0 <= n < 10 ^ Z.of_nat k)%Z → 0 < k → length (digits fuel 10 n) ≤ k.
Proof.
  revert n k. induction fuel as [|fuel IH]; intros n k Hn Hk; simpl; [lia|].
  destruct (n <? 10)%Z eqn:E; [simpl; lia|]. apply Z.ltb_ge in E.
  destruct k as [|[|k]]; [lia|simpl in Hn; lia|].
  rewrite length_app. simpl. enough (length (digits fuel 10 (n / 10)) ≤ S k) by lia.
  apply IH; [|lia]. split; [apply Z.div_pos; lia|]. apply Z.div_lt_upper_bound; [lia|].
  rewrite <- Z.pow_succ_r by lia. rewrite <- Nat2Z.inj_succ. lia.
Qed.

Lemma length_zdec_int n : in_int n → length (zdec n) ≤ 11.
Proof.
  unfold in_int, INT_MIN, INT_MAX, zdec. intros Hn.
  assert (∀ m, (0 <= m <= 2147483648)%Z → length (numeral 10 m) ≤ 10) as Hm.
  { intros m Hm. unfold numeral. apply length_digits; [|lia].
    change (10 ^ Z.of_nat 10)%Z with 10000000000%Z. lia. }
  destruct (n <? 0)%Z eqn:E.
  - apply Z.ltb_lt in E. specialize (Hm (- n)%Z). cbn [length]. lia.
  - apply Z.ltb_ge in E. specialize (Hm n). lia.
Qed.

(** ** Integers in memory *)

(** A 32-bit integer in memory, little-endian; read back as unsigned and as
    [int]. *)
Definition le32 (z : Z) : bytes :=
  [chr z; chr (Z.shiftr z 8); chr (Z.shiftr z 16); chr (Z.shiftr z 24)].
Definition of_leu32 (b : bytes) : Z :=
  (code (nth 0 b NUL) + code (nth 1 b NUL) * 2 ^ 8 +
   code (nth 2 b NUL) * 2 ^ 16 + code (nth 3 b NUL) * 2 ^ 24)%Z.
Definition of_le32 (b : bytes) : Z := to_int (of_leu32 b).

Lemma of_leu32_le32_mod z : of_leu32 (le32 z) = (z mod 2 ^ 32)%Z.
Proof.
  unfold of_leu32, le32. cbn [nth].
  assert (∀ x, code (chr x) = x mod 256)%Z as Hc.
  { intros x. rewrite <- (code_chr (x mod 256)) by (apply Z.mod_pos_bound; lia).
    unfold chr. by rewrite Z.mod_mod by lia. }
  rewrite !Hc, !Z.shiftr_div_pow2 by lia.
  change (2 ^ 8)%Z with 256%Z. change (2 ^ 16)%Z with 65536%Z. change (2 ^ 24)%Z with 16777216%Z.
  change (2 ^ 32)%Z with 4294967296%Z.
  replace 65536%Z with (256 * 256)%Z by lia. replace 16777216%Z with (256 * 256 * 256)%Z by lia.
  replace 4294967296%Z with (256 * (256 * (256 * 256)))%Z by lia.
  rewrite !Z.rem_mul_r by lia. rewrite !Z.div_div by lia. lia.
Qed.

Lemma of_leu32_le32 z : (0 <= z < 2 ^ 32)%Z → of_leu32 (le32 z) = z.
Proof. intros H. by rewrite of_leu32_le32_mod, Z.mod_small. Qed.

Lemma of_le32_le32 z : in_int z → of_le32 (le32 z) = z.
Proof.
  intros Hz. unfold of_le32. rewrite of_leu32_le32_mod. unfold in_int, INT_MIN, INT_MAX in Hz. unfold to_int, wrap.
  change (2 ^ (32 - 1))%Z with 2147483648%Z. change (2 ^ 32)%Z with 4294967296%Z.
  rewrite Zplus_mod_idemp_l, Z.mod_small by lia. lia.
Qed.
