(* ===== verification/Posix.v ===== *)
(** * The system interface

    The calls the programs make to the kernel and to the services of libc that
    are not plain computations, as a signature [posix].  Each call carries its
    arguments; [posix_ans] gives the type of what it returns.  [rc] is the
    return value with the value of [errno] after the call; buffers and
    structures filled by the call come with it.  [Deliver] is not a call of the
    program: it asks the environment whether the handler of a signal runs at
    that point. *)
From stdpp Require Import base gmap strings list.
From S2P Require Import Prelude Prog CString.

Record rc := Rc { ret : Z; errno : Z }.

(** What a signal does: [SIG_DFL], [SIG_IGN] or a handler of the program. *)
Inductive disposition := SigDfl | SigIgn | Handler (name : string).

Record sigact := Sigact { sa_handler : disposition; sa_mask : Z; sa_flags : Z }.

Record siginfo := Siginfo { si_pid : Z; si_status : Z; si_code : Z }.

(** One entry of the list [getaddrinfo] returns. *)
Record addrinfo := Addrinfo {
  ai_family : Z; ai_socktype : Z; ai_protocol : Z; ai_addr : string; ai_addrlen : Z }.

Record dirent := Dirent { d_name : string; d_isdir : bool }.

(** What [dladdr] finds: the object's name and base, and the symbol, if any. *)
Record dlinfo := Dlinfo { dli_fname : string; dli_fbase : Z; dli_sname : option string; dli_saddr : Z }.

Record passwd := Passwd { pw_name : string; pw_uid : Z }.

Inductive posix_op :=
(* files *)
| Open (path : string) (flags mode : Z)
| Creat (path : string) (mode : Z)
| Close (fd : Z)
| Read (fd n : Z)
| Write (fd : Z) (buf : bytes)
| Lseek (fd off whence : Z)
| Fcntl (fd cmd arg : Z)
| Dup2 (oldfd newfd : Z)
| Pipe
| Fstat (fd : Z)
| Ftruncate (fd len : Z)
| Mmap (len prot flags fd : Z)
| Munmap (addr len : Z)
| Msync (addr len : Z)
| MemRead (addr len : Z)
| MemWrite (addr : Z) (b : bytes)
| Unlink (path : string)
| Remove (path : string)
| Readlink (path : string) (n : Z)
| Mkfifo (path : string) (mode : Z)
| Umask (mask : Z)
| Chdir (path : string)
| Flock (fd oper : Z)
| Fdopen (fd : Z) (type : string)
| Fileno (stream : Z)
(* directories and streams *)
| Opendir (path : string)
| Readdir (dir : Z)
| Closedir (dir : Z)
| Fopen (path : string)
| Fgets (f n : Z)
| Fclose (f : Z)
(* processes *)
| Fork
| Vfork
| Execve (path : string) (argv : list string)
| ExecveEnv (path : string) (argv envp : list string)
| Execvp (file : string) (argv : list string)
| Getpid
| Getppid
| Getpgrp
| Setpgid (pid pgid : Z)
| Setsid
| Wait
| Waitpid (pid options : Z)
| Waitid (options : Z)
| Sysconf (name : Z)
| Sleep (secs : Z)
| Pause
| Getenv (name : string)
| Malloc (size : Z)
| Sbrk
(* signals *)
| Sigaction_get (sig : Z)
| Sigaction (sig : Z) (act : sigact)
| Sigprocmask (how : Z) (set : Z)
| Sigpending
| Sigsuspend (mask : Z)
| Sigwaitinfo (set : Z)
| Kill (pid sig : Z)
| Raise (sig : Z)
| Signal (sig : Z) (d : disposition)
| Atexit
| Deliver (sig : Z) (point : nat)
(* users *)
| Getpwent
| Endpwent
| Getpwnam (name : string)
(* scheduling *)
| Getpriority
| Setpriority (prio : Z)
| SchedSetscheduler (policy prio : Z)
(* sockets *)
| Socket (family type protocol : Z)
| Bind (fd : Z) (addr : string)
| Connect (fd : Z) (addr : string)
| Listen (fd backlog : Z)
| Accept (fd : Z)
| Setsockopt (fd opt : Z)
| Sendto (fd : Z) (buf : bytes) (addr : string)
| Recvfrom (fd n : Z)
| Getaddrinfo (host : option string) (service : string) (socktype flags : Z)
| Freeaddrinfo
| Getnameinfo (addr : string)
(* message queues *)
| MqOpen (name : string) (flags : Z)
| MqSend (mq : Z) (msg : bytes)
| MqReceive (mq n : Z)
| MqClose (mq : Z)
| MqUnlink (name : string)
(* inotify *)
| InotifyInit
| InotifyAddWatch (fd : Z) (path : string) (mask : Z)
| Nftw (path : string)
(* time: a [timespec] or [timeval] is a pair; [sev] is the signal and its value *)
| Time
| Localtime (t : Z)
| Strftime (max : Z) (format : string)
| ClockGettime
| TimerCreate (sev : option (Z * Z))
| TimerSettime (id : Z) (value interval : Z * Z)
| TimerGetoverrun (id : Z)
| Setitimer (value interval : Z * Z)
| Usleep (usecs : Z)
(* message queues: the size of a message, receiving with a deadline *)
| MqGetattr (mq : Z)
| MqTimedreceive (mq n : Z) (deadline : Z * Z)
(* the standard input of a dialogue: [scanf("%d")], [getline] with its size *)
| ScanInt
| Getline (n : Z)
(* threads of a process *)
| PthreadCreate
| PthreadCancel
| PthreadJoin
| PthreadSelf
| PthreadKill (thread sig : Z)
(* named semaphores *)
| SemOpen (name : string)
| SemTimedwait (sem : Z) (deadline : Z * Z)
(* terminals: [tcgetattr] gives [c_lflag], [c_cc[VTIME]] and [c_cc[VMIN]] *)
| Tcgetattr (fd : Z)
| Tcgetpgrp (fd : Z)
(* CPU time, limits and scheduling: [times] gives [tms_utime] *)
| Times
| Getrusage (who : Z)
| Getrlimit (resource : Z)
| Setrlimit (resource : Z) (cur max : Z)
| Mlock (addr len : Z)
| SchedSetaffinity (pid cpus : Z)
| SchedGetPriorityMin (policy : Z)
| SchedYield
| Alarm (secs : Z)
(* the dynamic linker; [CallAddr] calls a function by its address *)
| Dlopen (path : string) (flags : Z)
| Dlerror
| Dlsym (handle : Z) (symbol : string)
| Dladdr (addr : Z)
| CallAddr (addr : Z)
| Dlclose (handle : Z)
(* the shell, the heap *)
| System (command : string)
| Free (ptr : Z).

Definition posix_ans (c : posix_op) : Type :=
  match c with
  | Read _ _ | Readlink _ _ | MqReceive _ _ => rc * bytes
  | Pipe => rc * (Z * Z)
  | Fstat _ => rc * Z
  | MemRead _ _ => bytes
  | Readdir _ => option dirent
  | Fgets _ _ => option bytes
  | Wait | Waitpid _ _ => rc * Z
  | Waitid _ => rc * siginfo
  | Getenv _ => option string
  | Sigaction_get _ => rc * sigact
  | Sigprocmask _ _ | Sigpending => rc * Z
  | Getpwent | Getpwnam _ => option passwd
  | Recvfrom _ _ => rc * (bytes * string)
  | Getaddrinfo _ _ _ _ => rc * list addrinfo
  | Getnameinfo _ => rc * (string * string)
  | Nftw _ => rc * list (string * bool)
  | Strftime _ _ => rc * string
  | ClockGettime => rc * (Z * Z)
  | TimerCreate _ => rc * Z
  | Setitimer _ _ => rc * (Z * Z)
  | MqGetattr _ | ScanInt => rc * Z
  | MqTimedreceive _ _ _ | Getline _ => rc * (bytes * Z)
  | Tcgetattr _ => rc * (Z * (Z * Z))
  | Times => rc * Z
  | Getrusage _ => rc * ((Z * Z) * (Z * Z))
  | Getrlimit _ => rc * (Z * Z)
  | Dlerror => option string
  | Dladdr _ => rc * dlinfo
  | _ => rc
  end.

Canonical Structure posix : sig := Sig posix_op posix_ans.

(** Constants of the Linux ABI used by the programs. *)
Definition O_RDONLY : Z := 0.
Definition O_WRONLY : Z := 1.
Definition O_RDWR : Z := 2.
Definition O_CREAT : Z := 64.
Definition O_EXCL : Z := 128.
Definition O_TRUNC : Z := 512.
Definition O_APPEND : Z := 1024.
Definition O_NONBLOCK : Z := 2048.
Definition O_SYNC : Z := 1052672.
Definition SEEK_SET : Z := 0.
Definition SEEK_CUR : Z := 1.
Definition SEEK_END : Z := 2.
Definition EXIT_SUCCESS : Z := 0.
Definition EXIT_FAILURE : Z := 1.
Definition ENOENT : Z := 2.
Definition ESRCH : Z := 3.
Definition EINTR : Z := 4.
Definition EBADF : Z := 9.
Definition EFAULT : Z := 14.
Definition EAGAIN : Z := 11.
Definition ENOMEM : Z := 12.
Definition EWOULDBLOCK : Z := 11.
Definition EEXIST : Z := 17.
Definition ENOTTY : Z := 25.
Definition ENOSYS : Z := 38.
Definition STDIN_FILENO : Z := 0.
Definition STDOUT_FILENO : Z := 1.
Definition STDERR_FILENO : Z := 2.
Definition F_DUPFD : Z := 0.
Definition F_GETFL : Z := 3.
Definition SIGHUP : Z := 1.
Definition SIGINT : Z := 2.
Definition SIGABRT : Z := 6.
Definition SIGKILL : Z := 9.
Definition SIGUSR1 : Z := 10.
Definition SIGUSR2 : Z := 12.
Definition SIGPIPE : Z := 13.
Definition SIGALRM : Z := 14.
Definition SIGTERM : Z := 15.
Definition SIGCHLD : Z := 17.
Definition SIGCONT : Z := 18.
Definition SIGTSTP : Z := 20.
Definition SIGTTIN : Z := 21.
Definition SIGRTMAX : Z := 64.
Definition NSIG : Z := 65.
Definition SA_RESTART : Z := 268435456.
Definition SIG_BLOCK : Z := 0.
Definition SIG_UNBLOCK : Z := 1.
Definition SIG_SETMASK : Z := 2.

(** [S_IRUSR | S_IWUSR | S_IRGRP | S_IWGRP | S_IROTH | S_IWOTH]. *)
Definition MODE_0666 : Z := 438.
Definition MODE_0600 : Z := 384.

(** ** What a trace says *)

(** The data read from and accepted by [fd]. *)
Fixpoint got (fd : Z) (t : list (event posix)) : bytes :=
  match t with
  | [] => []
  | ECall (Read fd' _) a :: t' => (if (fd' =? fd)%Z then take (Z.to_nat (ret a.1)) a.2 else []) ++ got fd t'
  | _ :: t' => got fd t'
  end.
(** The data read from any descriptor. *)
Fixpoint gets (t : list (event posix)) : bytes :=
  match t with
  | [] => []
  | ECall (Read _ _) a :: t' => take (Z.to_nat (ret a.1)) a.2 ++ gets t'
  | _ :: t' => gets t'
  end.
Fixpoint sent (fd : Z) (t : list (event posix)) : bytes :=
  match t with
  | [] => []
  | ECall (Write fd' b) a :: t' => (if (fd' =? fd)%Z then take (Z.to_nat (ret a)) b else []) ++ sent fd t'
  | _ :: t' => sent fd t'
  end.

Lemma got_app fd t1 t2 : got fd (t1 ++ t2) = got fd t1 ++ got fd t2.
Proof.
  induction t1 as [|[o|c a|c] t1 IH]; cbn; [done..| |done]. destruct c; rewrite ?IH, ?app_assoc; done.
Qed.
Lemma gets_app t1 t2 : gets (t1 ++ t2) = gets t1 ++ gets t2.
Proof.
  induction t1 as [|[o|c a|c] t1 IH]; cbn; [done..| |done]. destruct c; rewrite ?IH, ?app_assoc; done.
Qed.
Lemma sent_app fd t1 t2 : sent fd (t1 ++ t2) = sent fd t1 ++ sent fd t2.
Proof.
  induction t1 as [|[o|c a|c] t1 IH]; cbn; [done..| |done]. destruct c; rewrite ?IH, ?app_assoc; done.
Qed.

(** The datagrams received in a trace, and those sent. *)
Definition datagram (c : posix_op) : posix_ans c → option (bytes * string) :=
  match c with
  | Recvfrom _ _ => λ a, if (ret a.1 =? -1)%Z then None else Some a.2
  | _ => λ _, None
  end.

Fixpoint datagrams (t : list (event posix)) : list (bytes * string) :=
  match t with
  | [] => []
  | ECall c a :: t' => match datagram c a with Some d => d :: datagrams t' | None => datagrams t' end
  | _ :: t' => datagrams t'
  end.

Definition reply (c : posix_op) : option (bytes * string) :=
  match c with Sendto _ b a => Some (b, a) | _ => None end.

Fixpoint replies (t : list (event posix)) : list (bytes * string) :=
  match t with
  | [] => []
  | ECall c _ :: t' | EGone c :: t' => match reply c with Some d => d :: replies t' | None => replies t' end
  | _ :: t' => replies t'
  end.

Lemma datagrams_app t1 t2 : datagrams (t1 ++ t2) = datagrams t1 ++ datagrams t2.
Proof.
  induction t1 as [|[o|c a|c] t1 IH]; cbn; [done|done| |done]. destruct (datagram c a); cbn; congruence.
Qed.
Lemma replies_app t1 t2 : replies (t1 ++ t2) = replies t1 ++ replies t2.
Proof. induction t1 as [|[o|c a|c] t1 IH]; cbn; [done|done|..]; destruct (reply c); cbn; congruence. Qed.

(** The trace [t] contains the call [c] with an answer that satisfies [P]. *)
Definition called (t : list (event posix)) (c : posix_op) (P : posix_ans c → Prop) : Prop :=
  ∃ a : posix_ans c, (ECall c a : event posix) ∈ t ∧ P a.

Lemma called_app_l t1 t2 c P : called t1 c P → called (t1 ++ t2) c P.
Proof. intros (a & Ha & HP). exists a. split; [|done]. apply elem_of_app. by left. Qed.
Lemma called_app_r t1 t2 c P : called t2 c P → called (t1 ++ t2) c P.
Proof. intros (a & Ha & HP). exists a. split; [|done]. apply elem_of_app. by right. Qed.
Lemma called_cons e t c P : called t c P → called (e :: t) c P.
Proof. intros (a & Ha & HP). exists a. split; [by right|done]. Qed.
Lemma called_last t (c : posix_op) (a : posix_ans c) (P : posix_ans c → Prop) : P a → called (t ++ [ECall (S := posix) c a]) c P.
Proof. intros H. exists a. split; [|done]. apply elem_of_app. right. left. Qed.

(** The calls of a trace. *)
Definition calls (t : list (event posix)) : list posix_op :=
  omap (λ e, match e with ECall c _ | EGone c => Some c | EOut _ => None end) t.

Lemma calls_app t1 t2 : calls (t1 ++ t2) = calls t1 ++ calls t2.
Proof. apply omap_app. Qed.

(** Programs that do not fork. *)
Fixpoint forkless {B} (p : prog posix B) : Prop :=
  match p with
  | Ret _ | Stop _ => True
  | Put _ k => forkless k
  | Sys c k => c ≠ Fork ∧ ∀ a, forkless (k a)
  end.
Definition is_fork (e : event posix) : Prop := match e with ECall Fork _ | EGone Fork => True | _ => False end.

Lemma forkless_bind {A B} (f : A → prog posix B) p : forkless p → (∀ a, forkless (f a)) → forkless (bind f p).
Proof.
  intros Hp Hf. induction p as [a|h|o k IH|c k IH]; cbn in *; [done|done|by apply IH|].
  destruct Hp as [H1 H2]. split; [done|]. intros a. by apply IH.
Qed.

Lemma forkless_ok {W B} (K : kernel posix W) (p : prog posix B) P t w : forkless p → before_each is_fork P t →
  wpa K t p w (λ _ _ t', before_each is_fork P t').
Proof.
  revert t w. induction p as [a|h|o k IH|c k IH]; intros t w Hp Ht; cbn in Hp.
  - by apply wpa_ret.
  - by apply wpa_stop.
  - apply wpa_put, IH; [done|]. by apply before_each_snoc.
  - destruct Hp as [Hc Hk]. apply wpa_sys; [intros a w' _; apply IH; [done|]|intros w' _];
      (apply before_each_snoc; [done|]; intros H; by destruct c).
Qed.
