(* ===== verification/GetNum.v ===== *)
(** * get_num.c: numeric command-line arguments

    [getLong] and [getInt] convert a command-line argument or end the program
    with a diagnostic.  The file is copied unchanged next to every program that
    uses it. *)
From Stdlib Require Import ZArith Lia Ascii String.
From stdpp Require Import base gmap strings list.
From S2P Require Import Prelude Prog CString.

(** The flags of get_num.h (octal in the source: 01, 02, 0100, 0200, 0400). *)
Definition GN_NONNEG : Z := 1.
Definition GN_GT_0 : Z := 2.
Definition GN_ANY_BASE : Z := 64.
Definition GN_BASE_8 : Z := 128.
Definition GN_BASE_16 : Z := 256.

Section get_num.
Context {S : sig}.

(** [gnFail]: the diagnostic on stderr, then [exit(EXIT_FAILURE)].  A null
    pointer is [None]. *)
Definition gnFail {A} (fname msg : string) (arg name : option string) : prog S A :=
  (eprintf (fname +:+ " error") ;;;
   match name with
   | Some n => eprintf (" (in " +:+ n +:+ ")")
   | None => Ret tt
   end ;;;
   eprintf (": (" +:+ msg +:+ nl +:+ ")") ;;;
   match arg with
   | Some (String c a) => eprintf (tab +:+ tab +:+ "offending text: " +:+ String c a +:+ nl)
   | _ => Ret tt
   end ;;;
   exit 1)%prog.

Definition gn_base (flags : Z) : Z :=
  if flag_set flags GN_ANY_BASE then 0
  else if flag_set flags GN_BASE_8 then 8
  else if flag_set flags GN_BASE_16 then 16 else 10.

Definition getNum (fname : string) (arg : option string) (flags : Z)
    (name : option string) : prog S Z :=
  match arg with
  | None | Some EmptyString => gnFail fname "null or empty string" arg name
  | Some a =>
      let r := strtol (to_bytes a) (gn_base flags) in
      if negb (st_errno r =? 0)%Z then gnFail fname "strtol() failed" arg name
      else match st_end r with
      | _ :: _ => gnFail fname "nonnumeric characters" arg name
      | [] =>
          if flag_set flags GN_NONNEG && (st_val r <? 0)%Z
          then gnFail fname "negative value not allowed" arg name
          else if flag_set flags GN_GT_0 && (st_val r <=? 0)%Z
          then gnFail fname "value must be > 0" arg name
          else Ret (st_val r)
      end
  end.

Definition getLong (arg : option string) (flags : Z) (name : option string) : prog S Z :=
  getNum "getLong" arg flags name.

Definition getInt (arg : option string) (flags : Z) (name : option string) : prog S Z :=
  (res <- getNum "getInt" arg flags name ;;
   if ((INT_MAX <? res) || (res <? INT_MIN))%Z
   then gnFail "getInt" "Integer out of range" arg name
   else Ret res)%prog.

End get_num.

(** ** Specification

    What text denotes a number in a base, as a grammar independent of the
    scanner: blanks, a sign, a base prefix, and at least one digit. *)

Definition value (b acc : Z) (ds : bytes) : Z :=
  fold_left (λ a c, (a * b + default 0 (digit_in b c))%Z) ds acc.

Arguments value : simpl never.

Inductive sign_text : bytes → bool → Prop :=
| sign_none : sign_text [] false
| sign_plus : sign_text ["+"%char] false
| sign_minus : sign_text ["-"%char] true.

(** [prefix_text base pre ds b]: after the sign, the prefix [pre] and the digits
    [ds] are read in base [b] when the requested base is [base]. *)
Inductive prefix_text (base : Z) : bytes → bytes → Z → Prop :=
| prefix_hex x ds :
    base = 0%Z ∨ base = 16%Z → x = "x"%char ∨ x = "X"%char →
    prefix_text base ["0"%char; x] ds 16
| prefix_octal ds : base = 0%Z → head ds = Some "0"%char → prefix_text base [] ds 8
| prefix_decimal ds : base = 0%Z → head ds ≠ Some "0"%char → prefix_text base [] ds 10
| prefix_fixed ds : base ≠ 0%Z → prefix_text base [] ds base.

Definition number_text (base : Z) (s : bytes) (z : Z) : Prop :=
  ∃ sp sg neg pre ds b,
    s = sp ++ sg ++ pre ++ ds ∧ Forall (λ c, isspace c = true) sp ∧
    sign_text sg neg ∧ prefix_text base pre ds b ∧ ds ≠ [] ∧
    Forall (λ c, is_Some (digit_in b c)) ds ∧
    z = if neg then (- value b 0 ds)%Z else value b 0 ds.

(** A value an argument may have under [flags]. *)
Definition flags_allow (flags z : Z) : Prop :=
  (flag_set flags GN_NONNEG = true → (0 <= z)%Z) ∧
  (flag_set flags GN_GT_0 = true → (0 < z)%Z).

Definition long_arg (arg : option string) (flags z : Z) : Prop :=
  ∃ a, arg = Some a ∧ number_text (gn_base flags) (to_bytes a) z ∧
       in_long z ∧ flags_allow flags z.

Definition int_arg (arg : option string) (flags z : Z) : Prop :=
  long_arg arg flags z ∧ in_int z.

(** A program that only writes to stderr and exits with status 1. *)
Inductive diagnoses {S : sig} {A} : prog S A → Prop :=
| diagnoses_exit : diagnoses (Stop (Exited 1))
| diagnoses_err s k : diagnoses k → diagnoses (Put (Err s) k).

(** ** Lemmas *)

Lemma value_cons b acc c d ds :
  digit_in b c = Some d → value b acc (c :: ds) = value b (acc * b + d) ds.
Proof. unfold value. cbn [fold_left]. by intros ->. Qed.

Lemma scan_digits_span b acc s :
  ∃ ds r, s = ds ++ r ∧ Forall (λ c, is_Some (digit_in b c)) ds ∧ ends_number b r ∧
          scan_digits b acc s = (value b acc ds, r).
Proof.
  revert acc. induction s as [|c s IH]; intros acc; simpl.
  - exists [], []. repeat split; constructor.
  - destruct (digit_in b c) as [d|] eqn:E.
    + destruct (IH (acc * b + d)%Z) as (ds & r & -> & Hds & Hr & ->).
      exists (c :: ds), r. split; [done|]. split; [by constructor; [exists d|]|].
      split; [done|]. by rewrite (value_cons _ _ _ d).
    + exists [], (c :: s). repeat split; [constructor|exact E].
Qed.

Lemma scan_digits_all b acc ds :
  Forall (λ c, is_Some (digit_in b c)) ds → scan_digits b acc ds = (value b acc ds, []).
Proof.
  intros H. revert acc. induction H as [|c ds [d Hd] H IH]; intros acc; simpl; [done|].
  by rewrite Hd, IH, (value_cons _ _ _ d).
Qed.

Lemma skip_space_span s :
  ∃ sp, s = sp ++ skip_space s ∧ Forall (λ c, isspace c = true) sp.
Proof.
  induction s as [|c s (sp & E & H)]; simpl; [by exists []|].
  destruct (isspace c) eqn:Ec.
  - exists (c :: sp). simpl. by rewrite <- E; auto.
  - by exists [].
Qed.

Lemma skip_space_app sp s :
  Forall (λ c, isspace c = true) sp → skip_space (sp ++ s) = skip_space s.
Proof. induction 1 as [|c sp H _ IH]; simpl; [done|]. by rewrite H. Qed.

Lemma scan_sign_span s :
  ∃ sg, s = sg ++ (scan_sign s).2 ∧ sign_text sg (scan_sign s).1.
Proof.
  destruct s as [|c s]; simpl; [exists []; split; [done|constructor]|].
  destruct (Ascii.eqb_spec c "-") as [->|]; [exists ["-"%char]; split; [done|constructor]|].
  destruct (Ascii.eqb_spec c "+") as [->|]; [exists ["+"%char]; split; [done|constructor]|].
  exists []. split; [done|constructor].
Qed.

Lemma digits_no_hex_prefix b ds :
  (b <= 16)%Z → Forall (λ c, is_Some (digit_in b c)) ds → hex_prefix ds = false.
Proof.
  intros Hb H. destruct ds as [|z [|x [|c ds]]]; try done.
  apply Forall_cons in H as [_ H]. apply Forall_cons in H as [[d Hd] _].
  unfold hex_prefix.
  destruct (Ascii.eqb_spec x "x") as [->|].
  { exfalso. unfold digit_in in Hd. change (digit_val "x") with (Some 33%Z) in Hd; cbv iota beta in Hd.
    destruct (33 <? b)%Z eqn:E; zbool; [lia|done]. }
  destruct (Ascii.eqb_spec x "X") as [->|]; [|by rewrite andb_false_r].
  exfalso. unfold digit_in in Hd. change (digit_val "X") with (Some 33%Z) in Hd; cbv iota beta in Hd.
  destruct (33 <? b)%Z eqn:E; zbool; [lia|done].
Qed.

Lemma hex_prefix_inv s : hex_prefix s = true →
  ∃ x c r, s = "0"%char :: x :: c :: r ∧ (x = "x"%char ∨ x = "X"%char).
Proof.
  destruct s as [|z [|x [|c r]]]; try done. unfold hex_prefix.
  intros H. apply andb_true_iff in H as [H _]. apply andb_true_iff in H as [H1 H2].
  apply Ascii.eqb_eq in H1 as ->. exists x, c, r. split; [done|].
  apply orb_true_iff in H2 as [H%Ascii.eqb_eq|H%Ascii.eqb_eq]; auto.
Qed.

Definition base_ok (base : Z) : Prop := base = 0%Z ∨ base = 8%Z ∨ base = 10%Z ∨ base = 16%Z.

Lemma gn_base_ok flags : base_ok (gn_base flags).
Proof. unfold gn_base, base_ok. repeat case_match; auto. Qed.

Lemma scan_base_span base s :
  ∃ pre, s = pre ++ (scan_base base s).2 ∧
    ∀ ds r, (scan_base base s).2 = ds ++ r → ds ≠ [] →
      prefix_text base pre ds (scan_base base s).1.
Proof.
  unfold scan_base.
  destruct (((base =? 0) || (base =? 16))%Z && hex_prefix s) eqn:E; zbool.
  { apply hex_prefix_inv in H0 as (x & c & r & -> & Hx).
    exists ["0"%char; x]. split; [done|]. intros ds r' _ _. constructor; [|done].
    apply orb_true_iff in H as [?|?]; zbool; auto. }
  exists []. destruct (base =? 0)%Z eqn:E0; zbool; simpl.
  - split; [done|]. intros ds r -> Hds. destruct ds as [|c ds]; [done|]. simpl.
    destruct (Ascii.eqb_spec c "0") as [->|Hc].
    + by apply prefix_octal.
    + apply prefix_decimal; [done|]. by intros [= ->].
  - split; [done|]. intros ds r _ _. by apply prefix_fixed.
Qed.

Lemma scan_base_text base pre ds b :
  base_ok base → prefix_text base pre ds b → ds ≠ [] →
  Forall (λ c, is_Some (digit_in b c)) ds → scan_base base (pre ++ ds) = (b, ds).
Proof.
  intros Hok Hp Hne Hds. unfold scan_base.
  destruct Hp as [x ds Hb Hx|ds -> Hh|ds -> Hh|ds Hb]; cbn [app].
  - destruct ds as [|c ds]; [done|]. apply Forall_cons in Hds as [[d Hd] _].
    assert (hex_prefix ("0"%char :: x :: c :: ds) = true) as Hhex.
    { unfold hex_prefix. rewrite Hd. destruct Hx as [-> | ->]; done. }
    rewrite Hhex. by destruct Hb as [-> | ->].
  - rewrite (digits_no_hex_prefix 8) by (done || lia).
    destruct ds as [|c ds]; [done|]. injection Hh as ->. done.
  - rewrite (digits_no_hex_prefix 10) by (done || lia).
    destruct ds as [|c ds]; [done|]. simpl.
    destruct (Ascii.eqb_spec c "0") as [->|]; done.
  - rewrite (digits_no_hex_prefix base); [|unfold base_ok in Hok; lia|done].
    rewrite andb_false_r. by destruct (Z.eqb_spec base 0).
Qed.

Lemma prefix_text_base base pre ds b : base_ok base → prefix_text base pre ds b → (2 <= b <= 16)%Z.
Proof. unfold base_ok. intros H Hp. destruct Hp; lia. Qed.

(** The first character after the sign is neither a blank nor a sign. *)
Lemma prefix_text_head base pre ds b :
  prefix_text base pre ds b → ds ≠ [] → Forall (λ c, is_Some (digit_in b c)) ds →
  ∃ c r, pre ++ ds = c :: r ∧ isspace c = false ∧ Ascii.eqb c "-" = false ∧ Ascii.eqb c "+" = false.
Proof.
  intros Hp Hne Hds. destruct Hp; simpl.
  1: by eexists _, _.
  all: destruct ds as [|c ds]; [done|]; apply Forall_cons in Hds as [[d Hd] _];
    apply digit_in_not in Hd as (? & ? & ? & _); by eexists _, _.
Qed.

(** The result of [strtol] on a text of the grammar. *)
Definition strtol_clamped (z : Z) : strtol_result :=
  if (LONG_MAX <? z)%Z then StrtolResult LONG_MAX [] ERANGE
  else if (z <? LONG_MIN)%Z then StrtolResult LONG_MIN [] ERANGE
  else StrtolResult z [] 0.

Lemma strtol_complete base s z :
  base_ok base → number_text base s z → strtol s base = strtol_clamped z.
Proof.
  intros Hok (sp & sg & neg & pre & ds & b & -> & Hsp & Hsg & Hp & Hne & Hds & ->).
  unfold strtol. rewrite skip_space_app by done.
  destruct (prefix_text_head _ _ _ _ Hp Hne Hds) as (c & r & E & Hc1 & Hc2 & Hc3).
  assert (scan_sign (skip_space (sg ++ pre ++ ds)) = (neg, pre ++ ds)) as ->.
  { destruct Hsg; simpl; rewrite E; simpl; [|done..].
    rewrite Hc1. simpl. by rewrite Hc2, Hc3. }
  rewrite (scan_base_text _ _ _ b) by done.
  destruct ds as [|c' ds]; [done|].
  rewrite scan_digits_all by done.
  apply Forall_cons in Hds as [[d ->] _]. by destruct neg.
Qed.

Lemma strtol_sound base s :
  base_ok base → st_end (strtol s base) = [] → s ≠ [] →
  ∃ z, number_text base s z ∧ strtol s base = strtol_clamped z.
Proof.
  intros Hok Hend Hs. unfold strtol in Hend |- *.
  destruct (skip_space_span s) as (sp & Es & Hsp).
  destruct (scan_sign_span (skip_space s)) as (sg & Eg & Hsg).
  destruct (scan_sign (skip_space s)) as [neg s2]. simpl in Eg, Hsg.
  destruct (scan_base_span base s2) as (pre & Ep & Hpre).
  destruct (scan_base base s2) as [b s3]. simpl in Ep, Hpre.
  destruct s3 as [|c s3]; [by simpl in Hend|].
  destruct (digit_in b c) as [d|] eqn:Ed; [|by simpl in Hend].
  destruct (scan_digits_span b 0 (c :: s3)) as (ds & r & Eds & Hds & Hr & Escan).
  rewrite Escan in Hend |- *.
  assert (r = []) as -> by (repeat case_match; by simpl in Hend).
  rewrite app_nil_r in Eds. subst ds.
  exists (if neg then (- value b 0 (c :: s3))%Z else value b 0 (c :: s3)). split.
  - exists sp, sg, neg, pre, (c :: s3), b. subst s2. rewrite <- Eg, <- Es.
    repeat split; [done|done| |done|done].
    apply (Hpre _ []); [by rewrite app_nil_r|done].
  - by destruct neg.
Qed.

Lemma number_text_nonempty base s z : number_text base s z → s ≠ [].
Proof.
  intros (sp & sg & neg & pre & ds & b & -> & _ & _ & _ & Hne & _) H.
  apply app_eq_nil in H as [_ H]. apply app_eq_nil in H as [_ H].
  by apply app_eq_nil in H as [_ ->].
Qed.

Lemma number_text_unique base s z1 z2 :
  base_ok base → number_text base s z1 → number_text base s z2 →
  in_long z1 → in_long z2 → z1 = z2.
Proof.
  intros Hok H1%strtol_complete H2%strtol_complete I1 I2; [|done..].
  rewrite H1 in H2. unfold strtol_clamped, in_long in *.
  repeat case_match; zbool; simplify_eq; lia.
Qed.

Lemma gnFail_diagnoses {S : sig} {A} fname msg arg name :
  diagnoses (@gnFail S A fname msg arg name).
Proof.
  unfold gnFail, eprintf, put, exit. cbn [bind].
  constructor. destruct name; cbn [bind]; repeat constructor;
  destruct arg as [[|c a]|]; cbn [bind]; repeat constructor.
Qed.
#[export] Hint Resolve gnFail_diagnoses : posix.

Lemma diagnoses_bind {S : sig} {A B} (f : A → prog S B) p :
  diagnoses p → diagnoses (bind f p).
Proof. induction 1; simpl; by constructor. Qed.
#[export] Hint Resolve diagnoses_bind : posix.

(** [getNum] returns the number its argument denotes, or diagnoses an argument
    that denotes no acceptable number. *)
Lemma getNum_correct {S : sig} fname arg flags name :
  (∃ z, long_arg arg flags z ∧ @getNum S fname arg flags name = Ret z)
  ∨ ((∀ z, ¬ long_arg arg flags z) ∧ diagnoses (@getNum S fname arg flags name)).
Proof.
  unfold getNum. destruct arg as [[|c a]|]; cbv beta iota.
  - right. split; [|auto with posix].
    intros z (a & [= <-] & H%number_text_nonempty & _). done.
  - pose proof (gn_base_ok flags) as Hok. set (s := to_bytes (String c a)); cbv zeta.
    assert (s ≠ []) as Hs by done.
    destruct (st_end (strtol s (gn_base flags))) as [|c' e] eqn:Eend.
    + destruct (strtol_sound _ s Hok Eend Hs) as (z & Hz & Ez). rewrite Ez in Eend |- *.
      unfold strtol_clamped in *.
      destruct (LONG_MAX <? z)%Z eqn:E1; [|destruct (z <? LONG_MIN)%Z eqn:E2]; simpl; zbool.
      1-2: right; split; [|auto with posix];
        intros z' (a' & [= <-] & Hz' & Hl & _); apply strtol_complete in Hz'; [|done];
        fold s in Hz'; rewrite Hz' in Ez; unfold strtol_clamped, in_long in *;
        repeat case_match; zbool; simplify_eq; lia.
      assert (in_long z) as Hl by (unfold in_long; lia).
      destruct (flag_set flags GN_NONNEG && (z <? 0)%Z) eqn:E3;
        [|destruct (flag_set flags GN_GT_0 && (z <=? 0)%Z) eqn:E4]; zbool.
      1-2: right; split; [|auto with posix];
        intros z' (a' & [= <-] & Hz' & Hl' & Hf1 & Hf2);
        assert (z' = z) as -> by (by eapply number_text_unique);
        first [specialize (Hf1 ltac:(done)); lia|specialize (Hf2 ltac:(done)); lia].
      left. exists z. split; [|done]. exists (String c a).
      repeat split; try done; intros Hf; rewrite Hf in *; simpl in *; zbool; lia.
    + right. split.
      * intros z (a' & [= <-] & Hz & _). apply strtol_complete in Hz; [|done].
        fold s in Hz. rewrite Hz in Eend. unfold strtol_clamped in Eend. repeat case_match; done.
      * case_match; auto with posix.
  - right. split; [|auto with posix]. by intros z (a & ? & _).
Qed.

(** What the other components use. [getInt] on an argument that denotes [z]. *)
Lemma getInt_accepts {S : sig} arg flags name z :
  int_arg arg flags z → @getInt S arg flags name = Ret z.
Proof.
  intros [Hl Hi]. unfold getInt.
  destruct (getNum_correct (S := S) "getInt" arg flags name) as [(z' & Hl' & ->)|[H _]].
  - assert (z' = z) as ->.
    { destruct Hl as (a & -> & Hz & Hz2 & _), Hl' as (a' & [= <-] & Hz' & Hz2' & _).
      eapply number_text_unique; eauto using gn_base_ok. }
    cbn [bind]. unfold in_int in Hi.
    destruct (INT_MAX <? z)%Z eqn:E1, (z <? INT_MIN)%Z eqn:E2; zbool; try lia. done.
  - by destruct (H z).
Qed.

Lemma getLong_accepts {S : sig} arg flags name z :
  long_arg arg flags z → @getLong S arg flags name = Ret z.
Proof.
  intros Hl. unfold getLong.
  destruct (getNum_correct (S := S) "getLong" arg flags name) as [(z' & Hl' & ->)|[H _]].
  - destruct Hl as (a & -> & Hz & Hz2 & _), Hl' as (a' & [= <-] & Hz' & Hz2' & _).
    f_equal. eapply number_text_unique; eauto using gn_base_ok.
  - by destruct (H z).
Qed.

Lemma getInt_or_diagnoses {S : sig} arg flags name :
  (∃ z, int_arg arg flags z ∧ @getInt S arg flags name = Ret z) ∨
  ((∀ z, ¬ int_arg arg flags z) ∧ diagnoses (@getInt S arg flags name)).
Proof.
  destruct (getNum_correct (S := S) "getInt" arg flags name) as [(z & Hz & E)|[H Hd]].
  - destruct (decide (in_int z)) as [Hi|Hi].
    + left. exists z. split; [done|]. by apply getInt_accepts.
    + right. split.
      * intros z' [(a' & -> & Hz' & Hl' & _) Hi'].
        destruct Hz as (a & [= <-] & Hz & Hl & _).
        apply Hi. by rewrite (number_text_unique _ _ z z' (gn_base_ok flags) Hz Hz' Hl Hl').
      * unfold getInt. rewrite E. cbn [bind].
        destruct (INT_MAX <? z)%Z eqn:E1, (z <? INT_MIN)%Z eqn:E2; simpl; auto with posix.
        exfalso. apply Hi. zbool. unfold in_int. lia.
  - right. split; [intros z [Hz _]; by apply (H z)|]. unfold getInt. auto with posix.
Qed.

(** Reading a numeric argument inside a program. *)
Lemma wp_diagnoses {S : sig} {W A B} (K : kernel S W) (f : A → prog S B) p w
    (Q : outcome B → W → list (event S) → Prop) :
  diagnoses p → (∀ t, Q (Halted (Exited 1)) w t) → wp K (bind f p) w Q.
Proof.
  intros Hp HQ. revert Q HQ. induction Hp as [|s k Hk IH]; intros Q HQ; cbn [bind].
  - apply wp_stop, HQ.
  - apply wp_put, IH. intros t. apply HQ.
Qed.

Lemma wp_getInt {S : sig} {W A} (K : kernel S W) arg flags name (f : Z → prog S A) w Q :
  (∀ z, int_arg arg flags z → wp K (f z) w Q) →
  (∀ t, Q (Halted (Exited 1)) w t) → wp K (bind f (getInt arg flags name)) w Q.
Proof.
  intros Hf HQ. destruct (getInt_or_diagnoses (S := S) arg flags name) as [(z & Hz & ->)|[_ Hd]].
  - by apply Hf.
  - by apply wp_diagnoses.
Qed.

Lemma wp_getLong {S : sig} {W A} (K : kernel S W) arg flags name (f : Z → prog S A) w Q :
  (∀ z, long_arg arg flags z → wp K (f z) w Q) →
  (∀ t, Q (Halted (Exited 1)) w t) → wp K (bind f (getLong arg flags name)) w Q.
Proof.
  intros Hf HQ. destruct (getNum_correct (S := S) "getLong" arg flags name) as [(z & Hz & E)|[_ Hd]].
  - unfold getLong. rewrite E. by apply Hf.
  - by apply wp_diagnoses.
Qed.

Lemma number_text_numeral base sg neg pre n b :
  sign_text sg neg → prefix_text base pre (numeral b n) b → (2 <= b <= 16)%Z → (0 <= n)%Z →
  number_text base (sg ++ pre ++ numeral b n) (if neg then - n else n)%Z.
Proof.
  intros Hsg Hp Hb Hn. exists [], sg, neg, pre, (numeral b n), b.
  assert (Forall (λ c, is_Some (digit_in b c)) (numeral b n)) as Hds.
  { apply Forall_forall. intros c Hc. by apply (numeral_in b n). }
  assert (value b 0 (numeral b n) = n) as ->.
  { pose proof (scan_numeral b n [] Hb Hn I) as H1.
    rewrite app_nil_r, scan_digits_all in H1 by done. by injection H1. }
  repeat split; try done.
  destruct (numeral_cons b n Hb Hn) as (c & l & d & -> & _). done.
Qed.

Lemma number_text_zdec n : number_text 10 (zdec n) n.
Proof.
  unfold zdec. destruct (n <? 0)%Z eqn:E; zbool.
  - rewrite <- (Z.opp_involutive n) at 2.
    apply (number_text_numeral 10 ["-"%char] true [] (- n) 10); [constructor| |lia..].
    by apply prefix_fixed.
  - apply (number_text_numeral 10 [] false [] n 10); [constructor| |lia..].
    by apply prefix_fixed.
Qed.

(** ** Properties *)

(** C10: [getInt] and [getLong] implement the grammar of numeric arguments.
    They return [z] exactly when the argument is a text of the grammar (in the
    base the flags select) denoting [z], within the range of the type and the
    sign constraints; otherwise they write only to stderr and exit with status
    1.  No other outcome exists. *)
Theorem getInt_getLong_correct {S : sig} (arg : option string) (flags : Z) (name : option string) :
  ((∃ z, int_arg arg flags z ∧ @getInt S arg flags name = Ret z)
   ∨ ((∀ z, ¬ int_arg arg flags z) ∧ diagnoses (@getInt S arg flags name))) ∧
  ((∃ z, long_arg arg flags z ∧ @getLong S arg flags name = Ret z)
   ∨ ((∀ z, ¬ long_arg arg flags z) ∧ diagnoses (@getLong S arg flags name))).
Proof.
  split; [apply getInt_or_diagnoses|apply getNum_correct].
Qed.

(** [getInt] reads back the decimal text of every [int] the
    flags allow, its octal text under [GN_BASE_8], and its [0x] text under
    [GN_ANY_BASE]. *)
Theorem getInt_roundtrip {S : sig} (n : Z) (name : option string) :
  in_int n →
  (∀ flags, gn_base flags = 10%Z → flags_allow flags n →
     @getInt S (Some (zstr n)) flags name = Ret n) ∧
  ((0 <= n)%Z → @getInt S (Some (of_bytes (numeral 8 n))) GN_BASE_8 name = Ret n) ∧
  ((0 <= n)%Z → @getInt S (Some ("0x" +:+ of_bytes (numeral 16 n))) GN_ANY_BASE name = Ret n).
Proof.
  intros Hn. assert (in_long n) as Hl.
  { unfold in_int, in_long, INT_MIN, INT_MAX, LONG_MIN, LONG_MAX in *. lia. }
  repeat split; intros; apply getInt_accepts; (split; [|done]); eexists;
    (split; [reflexivity|split; [|split; [done|]]]); try done.
  - rewrite H. unfold zstr. rewrite to_of_bytes. apply number_text_zdec.
  - rewrite to_of_bytes. apply (number_text_numeral 8 [] false [] n 8); [constructor| |lia..].
    by apply prefix_fixed.
  - rewrite to_bytes_app, to_of_bytes.
    apply (number_text_numeral 0 [] false ["0"; "x"]%char n 16); [constructor| |lia..].
    apply prefix_hex; auto.
Qed.

Lemma getInt_roundtrip_witness :
  @getInt (Sig Empty_set (λ _, Empty_set)) (Some "-42"%string) 0 None = Ret (-42)%Z ∧
  @getInt (Sig Empty_set (λ _, Empty_set)) (Some "0x2a"%string) GN_ANY_BASE None = Ret 42%Z.
Proof.
  split.
  - apply (getInt_roundtrip (-42) None); [by vm_compute|reflexivity|].
    split; intros H; by vm_compute in H.
  - apply (getInt_roundtrip 42 None); by vm_compute.
Defined.
