(* ===== verification/ErrorFunctions.v ===== *)
(** * error_functions.c: the diagnostics library

    The functions that report an error and end the program.  The file is copied
    unchanged next to the programs that use it.  [ename] (the generated table of
    ename.c.inc) and [strerror] are parameters. *)
From Stdlib Require Import ZArith Lia Ascii String.
From stdpp Require Import base gmap strings list.
From S2P Require Import Prelude Prog CString Posix.

Definition BUF_SIZE : nat := 500.
Definition MAX_ENAME : Z := 133.

(** The streams [fflush] is called on. *)
Definition stdout : Z := 1.
Definition stderr : Z := 2.

(** The arguments of a [printf]-style format, and the text it produces for the
    conversions the callers use; [None] is an argument list that does not match
    the format. *)
Inductive farg := AStr (s : string) | AInt (z : Z).

Fixpoint vformat (f : bytes) (args : list farg) : option bytes :=
  match f with
  | [] => Some []
  | c :: f' =>
      if Ascii.eqb c "%" then
        match f' with
        | d :: f'' =>
            if Ascii.eqb d "%" then cons "%"%char <$> vformat f'' args
            else match args with
            | AStr s :: args' =>
                if Ascii.eqb d "s" then app (to_bytes s) <$> vformat f'' args' else None
            | AInt z :: args' =>
                if Ascii.eqb d "d" then app (zdec z) <$> vformat f'' args' else None
            | [] => None
            end
        | [] => None
        end
      else cons c <$> vformat f' args
  end.

(** [snprintf(buf, n, ...)] keeps at most [n - 1] characters. *)
Definition snprintf (n : nat) (s : bytes) : bytes := take (n - 1) s.

Section error_functions.
Variable ename : Z → string.
Variable strerror : Z → string.

Local Open Scope prog_scope.

(** [terminate(useExit3)]: dump core if [EF_DUMPCORE] is defined and not empty. *)
Definition terminate {A} (useExit3 : bool) : prog posix A :=
  s <- sys (Getenv "EF_DUMPCORE") ;;
  match s with
  | Some (String _ _) => Stop Aborted
  | _ => if useExit3 then exit EXIT_FAILURE else quick_exit EXIT_FAILURE
  end.

Definition errText (useErr : bool) (err : Z) : bytes :=
  if useErr then
    snprintf BUF_SIZE (to_bytes (" [" +:+
      (if (0 <? err)%Z && (err <=? MAX_ENAME)%Z then ename err else "?UNKNOWN?") +:+
      " " +:+ strerror err +:+ "]"))
  else snprintf BUF_SIZE (to_bytes ":").

Definition outputError (useErr : bool) (err : Z) (flushStdout : bool)
    (format : string) (ap : list farg) : prog posix unit :=
  match vformat (to_bytes format) ap with
  | None => undef "format"
  | Some text =>
      let userMsg := snprintf BUF_SIZE text in
      let buf := snprintf BUF_SIZE
                   (to_bytes "ERROR" ++ errText useErr err ++ to_bytes " " ++ userMsg ++ [LF]) in
      when flushStdout (put (Flush stdout)) ;;;
      eprintf (of_bytes buf) ;;;
      put (Flush stderr)
  end.

(** [errMsg] saves [errno] in [savedErrno], a local variable the code never
    assigns: the value it restores is whatever the variable held. *)
Definition errMsg (errno savedErrno : Z) (format : string) (ap : list farg) : prog posix Z :=
  outputError true errno true format ap ;;; Ret savedErrno.

Definition errExit {A} (errno : Z) (format : string) (ap : list farg) : prog posix A :=
  outputError true errno true format ap ;;; terminate true.

Definition err_exit {A} (errno : Z) (format : string) (ap : list farg) : prog posix A :=
  outputError true errno false format ap ;;; terminate false.

Definition errExitEN {A} (errnum : Z) (format : string) (ap : list farg) : prog posix A :=
  outputError true errnum true format ap ;;; terminate true.

Definition fatal {A} (format : string) (ap : list farg) : prog posix A :=
  outputError false 0 true format ap ;;; terminate true.

Definition usageErr {A} (format : string) (ap : list farg) : prog posix A :=
  match vformat (to_bytes format) ap with
  | None => undef "format"
  | Some text =>
      put (Flush stdout) ;;;
      eprintf "Usage: " ;;; eprintf (of_bytes text) ;;;
      put (Flush stderr) ;;; exit EXIT_FAILURE
  end.

Definition cmdLineErr {A} (format : string) (ap : list farg) : prog posix A :=
  match vformat (to_bytes format) ap with
  | None => undef "format"
  | Some text =>
      put (Flush stdout) ;;;
      eprintf "Command-line usage error: " ;;; eprintf (of_bytes text) ;;;
      put (Flush stderr) ;;; exit EXIT_FAILURE
  end.

(** ** Properties *)

(** A run that ends in a reported failure. *)
Definition failed {A} (r : outcome A) : Prop :=
  match r with
  | Halted (Exited c) | Halted (QuickExited c) => c ≠ 0%Z
  | Halted Aborted | Gone => True
  | _ => False
  end.

(** A run that ends: in a reported failure, or with status 0 and then [Q]. *)
Definition ends_with {A} (Q : Prop) (r : outcome A) : Prop :=
  match r with
  | Halted (Exited c) => c = 0%Z → Q
  | _ => failed r
  end.

Lemma failed_ends_with {A B} Q h :
  failed (A := A) (Halted h) → ends_with (A := B) Q (Halted h).
Proof. destruct h; simpl; done. Qed.

(** How [terminate] ends, from the value of [EF_DUMPCORE]. *)
Definition ends_as (useExit3 : bool) (dump : option string) : halt :=
  match dump with
  | Some (String _ _) => Aborted
  | _ => if useExit3 then Exited EXIT_FAILURE else QuickExited EXIT_FAILURE
  end.

(** The trace of a fatal report: stdout is flushed first (if it is), then the
    message goes to stderr, which is flushed, then [EF_DUMPCORE] is looked up. *)
Definition report (flushed : bool) (msg : bytes) : list (event posix) :=
  (if flushed then [EOut (Flush stdout)] else []) ++
  [EOut (Err (of_bytes msg)); EOut (Flush stderr)].

Definition full_line (useErr : bool) (err : Z) (text : bytes) : bytes :=
  to_bytes "ERROR" ++ errText useErr err ++ to_bytes " " ++ text ++ [LF].

Lemma outputError_runs {W} (K : kernel posix W) w useErr err fl format ap text :
  vformat (to_bytes format) ap = Some text →
  ∃ msg, length msg < BUF_SIZE ∧
    (length (full_line useErr err text) < BUF_SIZE → msg = full_line useErr err text) ∧
    run K (outputError useErr err fl format ap) w = (Returned tt, w, report fl msg).
Proof.
  intros E. unfold outputError. rewrite E. cbv zeta.
  eexists (snprintf BUF_SIZE _). split; [|split; [|by destruct fl]].
  - unfold snprintf, BUF_SIZE. rewrite length_take. lia.
  - intros Hlen. unfold full_line in *. unfold snprintf at 1. rewrite !length_app in Hlen.
    unfold snprintf, BUF_SIZE in *. rewrite (take_ge text) by (simpl in Hlen; lia).
    apply take_ge. rewrite !length_app. lia.
Qed.

(** What a fatal function must do in world [w]: write one line shorter than its
    buffer (the whole line when it fits) and end the process as [EF_DUMPCORE]
    and [useExit3] say. *)
Definition reports_and_ends {W} (K : kernel posix W) (w : W) (useErr : bool) (err : Z)
    (fl useExit3 : bool) (text : bytes) (p : prog posix unit) : Prop :=
  ∃ msg, length msg < BUF_SIZE ∧
    (length (full_line useErr err text) < BUF_SIZE → msg = full_line useErr err text) ∧
    run K p w =
      match K (Getenv "EF_DUMPCORE") w with
      | Answer dump w' =>
          (Halted (ends_as useExit3 dump), w',
           report fl msg ++ [ECall (S := posix) (Getenv "EF_DUMPCORE") dump])
      | NoReturn w' => (Gone, w', report fl msg ++ [EGone (S := posix) (Getenv "EF_DUMPCORE")])
      end.

Lemma report_terminate {W} (K : kernel posix W) w useErr err fl format ap text useExit3 :
  vformat (to_bytes format) ap = Some text →
  reports_and_ends K w useErr err fl useExit3 text
    (outputError useErr err fl format ap ;;; terminate useExit3).
Proof.
  intros E. destruct (outputError_runs K w useErr err fl format ap text E) as (msg & H1 & H2 & H3).
  exists msg. split; [done|]. split; [done|].
  rewrite (run_bind _ _ _ _ _ _ _ H3). unfold terminate, sys. simpl.
  destruct (K _ w) as [dump w'|w']; [|done].
  by destruct dump as [[|c s]|]; destruct useExit3.
Qed.

(** The events of a fatal report. *)
Definition report_event (e : event posix) : Prop :=
  match e with
  | EOut (Out _) => False
  | EOut _ | ECall (Getenv _) _ | EGone (Getenv _) => True
  | _ => False
  end.

Definition reported {W A} (r : outcome A) (_ : W) (t : list (event posix)) : Prop :=
  failed r ∧ Forall report_event t.

Lemma wp_terminate {W A} (K : kernel posix W) w useExit3 :
  wp K (terminate (A := A) useExit3) w reported.
Proof.
  unfold terminate, reported. prog_steps; [|by repeat constructor].
  destruct a as [[|c s]|]; prog_steps; by repeat constructor.
Qed.

Lemma wp_report_terminate {W A} (K : kernel posix W) w useErr err fl format ap text useExit3 :
  vformat (to_bytes format) ap = Some text →
  wp K (outputError useErr err fl format ap ;;; terminate (A := A) useExit3) w reported.
Proof.
  intros E. apply wp_bind. destruct (outputError_runs K w useErr err fl format ap text E) as (m & _ & _ & H).
  unfold wp at 1. rewrite H. eapply wp_mono; [apply wp_terminate|].
  intros r w' t [H1 H2]. split; [done|]. apply Forall_app. split; [|done].
  unfold report. destruct fl; by repeat constructor.
Qed.

Lemma wp_errExit {W A} (K : kernel posix W) w e format ap text :
  vformat (to_bytes format) ap = Some text →
  wp K (errExit (A := A) e format ap) w reported.
Proof. apply wp_report_terminate. Qed.

Lemma wp_fatal {W A} (K : kernel posix W) w format ap text :
  vformat (to_bytes format) ap = Some text →
  wp K (fatal (A := A) format ap) w reported.
Proof. apply wp_report_terminate. Qed.

Lemma wp_usageErr {W A} (K : kernel posix W) w format ap text :
  vformat (to_bytes format) ap = Some text →
  wp K (usageErr (A := A) format ap) w reported.
Proof. unfold usageErr, reported. intros ->. prog_steps. by repeat constructor. Qed.

Lemma wp_errMsg {W} (K : kernel posix W) w e saved format ap text Q :
  vformat (to_bytes format) ap = Some text →
  (∀ msg, Q (Returned saved) w (report true msg)) → wp K (errMsg e saved format ap) w Q.
Proof.
  intros E HQ. unfold errMsg. apply wp_bind.
  destruct (outputError_runs K w true e true format ap text E) as (m & _ & _ & H).
  unfold wp at 1. rewrite H. apply wp_ret. rewrite app_nil_r. apply HQ.
Qed.

(** C16: every function of the diagnostics library, in any environment.  The
    fatal ones write one line, shorter than the 500-byte buffer whatever the
    arguments and untruncated when it fits, after flushing stdout (except
    [err_exit]) and before flushing stderr; then they call abort when
    [EF_DUMPCORE] is a nonempty string, and otherwise end with status 1, by
    [exit] ([errExit], [errExitEN], [fatal]) or by [_exit] ([err_exit]).
    [errMsg] returns to its caller, leaving in [errno] the indeterminate value
    of [savedErrno] and not the value it had. [usageErr] and [cmdLineErr]
    write the usage text and exit with status 1. *)
Theorem error_functions_correct {W} (K : kernel posix W) (w : W) (errno saved : Z)
    (format : string) (ap : list farg) (text : bytes) :
  vformat (to_bytes format) ap = Some text →
  reports_and_ends K w true errno true true text (errExit errno format ap) ∧
  reports_and_ends K w true errno false false text (err_exit errno format ap) ∧
  reports_and_ends K w true errno true true text (errExitEN errno format ap) ∧
  reports_and_ends K w false 0 true true text (fatal format ap) ∧
  (∃ msg, length msg < BUF_SIZE ∧
     run K (errMsg errno saved format ap) w = (Returned saved, w, report true msg)) ∧
  run K (usageErr (A := unit) format ap) w =
    (Halted (Exited 1), w,
     [EOut (Flush stdout); EOut (Err "Usage: "); EOut (Err (of_bytes text)); EOut (Flush stderr)]) ∧
  run K (cmdLineErr (A := unit) format ap) w =
    (Halted (Exited 1), w,
     [EOut (Flush stdout); EOut (Err "Command-line usage error: ");
      EOut (Err (of_bytes text)); EOut (Flush stderr)]).
Proof.
  intros E. repeat split; try by apply report_terminate.
  - destruct (outputError_runs K w true errno true format ap text E) as (msg & H1 & _ & H3).
    exists msg. split; [done|]. unfold errMsg.
    rewrite (run_bind _ _ _ _ _ _ _ H3). simpl. by rewrite ?app_nil_r.
  - unfold usageErr. by rewrite E.
  - unfold cmdLineErr. by rewrite E.
Qed.

End error_functions.

(** A kernel that answers [getenv] from a fixed environment. *)
Definition env_kernel (dump : option string) : kernel posix unit := λ c w,
  match c as c return reaction (posix_ans c) unit with
  | Getenv _ => Answer dump w
  | _ => NoReturn w
  end.

Lemma error_functions_correct_witness :
  reports_and_ends (λ _, "ENOENT"%string) (λ _, "No such file"%string)
    (env_kernel (Some "1"%string)) tt true 2 true true (to_bytes "open x")
    (errExit (λ _, "ENOENT"%string) (λ _, "No such file"%string) 2 "open %s" [AStr "x"]).
Proof.
  exact (proj1 (error_functions_correct (λ _, "ENOENT"%string) (λ _, "No such file"%string)
    (env_kernel (Some "1"%string)) tt 2 77 "open %s" [AStr "x"] (to_bytes "open x") eq_refl)).
Defined.

(** A run that ends in a report: [report_run] leaves what is known of its
    outcome and trace; [by_report] closes the goal when the postcondition
    reduces to [failed] on such an outcome. *)
Ltac report_run :=
  lazymatch goal with
  | |- wp _ (bind _ _) _ _ => apply wp_bind
  | _ => idtac
  end;
  eapply wp_mono;
  [ lazymatch goal with
    | |- wp _ (errExit _ _ _ _ _) _ _ => eapply wp_errExit
    | |- wp _ (fatal _ _ _ _) _ _ => eapply wp_fatal
    | |- wp _ (usageErr _ _) _ _ => eapply wp_usageErr
    end; reflexivity
  | let r := fresh "r" in let Hr := fresh "Hr" in let Ht := fresh "Ht" in
    intros r ? ? [Hr Ht]; destruct r as [?|[]|]; cbn [failed] in Hr; try contradiction ].
Ltac by_report := report_run; cbn [failed ends_with] in *; (done || by intros).
