(* ===== verification/FileSys.v ===== *)
(** * The file contract

    What the manual pages promise of the file calls, as a relation [file_step]
    between an abstract view of the file system before a call, the call, its
    answer and the view after it.  The kernel itself is not modelled: a theorem
    about a file program holds for every kernel whose answers satisfy the
    contract ([FileKernel]).  Calls may fail, reads and writes may be short.
    [memfs] is a kernel that satisfies it, for the witnesses. *)
From Stdlib Require Import ZArith Lia Ascii String.
From stdpp Require Import base gmap strings list.
From S2P Require Import Prelude Prog CString Posix.

(** An open file description: the file, the offset, the status flags. *)
Record ofd := Ofd { of_path : string; of_off : nat; of_flags : Z }.

(** A memory mapping of the first [m_len] bytes of a file. *)
Record mapping := Mapping { m_path : string; m_len : Z; m_shared : bool }.

(** The view: the contents of the regular files by name, the descriptors of the
    process (which several descriptors may share a description), the open file
    descriptions, and the mappings by address. *)
Record fsview := FsView {
  files : gmap string bytes;
  fds : gmap Z nat;
  ofds : gmap nat ofd;
  maps : gmap Z mapping }.

Definition set_files (f : gmap string bytes) (v : fsview) : fsview :=
  FsView f (fds v) (ofds v) (maps v).
Definition set_fds (f : gmap Z nat) (v : fsview) : fsview :=
  FsView (files v) f (ofds v) (maps v).
Definition set_ofds (o : gmap nat ofd) (v : fsview) : fsview :=
  FsView (files v) (fds v) o (maps v).
Definition set_maps (m : gmap Z mapping) (v : fsview) : fsview :=
  FsView (files v) (fds v) (ofds v) m.

(** The description a descriptor refers to. *)
Definition fd_ofd (v : fsview) (fd : Z) : option (nat * ofd) :=
  match fds v !! fd with
  | Some id => match ofds v !! id with Some o => Some (id, o) | None => None end
  | None => None
  end.

Definition set_off (id : nat) (o : ofd) (off : nat) (v : fsview) : fsview :=
  set_ofds (<[id := Ofd (of_path o) off (of_flags o)]> (ofds v)) v.

(** [write_at off content d]: the content after [d] is stored at [off]; a gap
    before [off] reads as NULs. *)
Definition write_at (off : nat) (content d : bytes) : bytes :=
  take off (content ++ repeat NUL (off - length content)) ++ d ++ drop (off + length d) content.

(** The file content after [open] with [flags]. *)
Definition opened_files (path : string) (flags : Z) (f : gmap string bytes) : gmap string bytes :=
  match f !! path with
  | Some _ => if flag_set flags O_TRUNC then <[path := []]> f else f
  | None => <[path := []]> f
  end.

(** The lowest descriptor not in use from [from] on. *)
Definition lowest_fd (v : fsview) (from fd : Z) : Prop :=
  (from <= fd)%Z ∧ fds v !! fd = None ∧ ∀ k, (from <= k < fd)%Z → is_Some (fds v !! k).

Definition open_step (path : string) (flags : Z) (v : fsview) (a : rc) (v' : fsview) : Prop :=
  (ret a = (-1)%Z ∧ v' = v) ∨
  ∃ id, lowest_fd v 0 (ret a) ∧ ofds v !! id = None ∧
    (is_Some (files v !! path) ∨ flag_set flags O_CREAT = true) ∧
    v' = FsView (opened_files path flags (files v)) (<[ret a := id]> (fds v))
           (<[id := Ofd path 0 flags]> (ofds v)) (maps v).

Definition read_step (fd n : Z) (v : fsview) (a : rc * bytes) (v' : fsview) : Prop :=
  (ret a.1 = (-1)%Z ∧ a.2 = [] ∧ v' = v) ∨
  ∃ id o content, fd_ofd v fd = Some (id, o) ∧ files v !! of_path o = Some content ∧
    ret a.1 = Z.of_nat (length a.2) ∧ (ret a.1 <= n)%Z ∧
    a.2 = take (length a.2) (drop (of_off o) content) ∧
    (a.2 = [] → (n <= 0)%Z ∨ length content ≤ of_off o) ∧
    v' = set_off id o (of_off o + length a.2) v.

(** Where [write] stores: at the end of the file under [O_APPEND]. *)
Definition write_off (o : ofd) (content : bytes) : nat :=
  if flag_set (of_flags o) O_APPEND then length content else of_off o.

Definition write_step (fd : Z) (buf : bytes) (v : fsview) (a : rc) (v' : fsview) : Prop :=
  (ret a = (-1)%Z ∧ v' = v) ∨
  ∃ id o content k, fd_ofd v fd = Some (id, o) ∧ files v !! of_path o = Some content ∧
    k ≤ length buf ∧ ret a = Z.of_nat k ∧
    let off := write_off o content in
    v' = set_off id o (off + k)
           (set_files (<[of_path o := write_at off content (take k buf)]> (files v)) v).

Definition seek_base (o : ofd) (content : bytes) (whence : Z) : Z :=
  if (whence =? SEEK_SET)%Z then 0
  else if (whence =? SEEK_CUR)%Z then Z.of_nat (of_off o) else Z.of_nat (length content).

Definition lseek_step (fd off whence : Z) (v : fsview) (a : rc) (v' : fsview) : Prop :=
  match fd_ofd v fd with
  | Some (id, o) =>
      match files v !! of_path o with
      | Some content =>
          let pos := (seek_base o content whence + off)%Z in
          if (pos <? 0)%Z then ret a = (-1)%Z ∧ v' = v
          else ret a = pos ∧ v' = set_off id o (Z.to_nat pos) v
      | None => ret a = (-1)%Z ∧ v' = v
      end
  | None => ret a = (-1)%Z ∧ v' = v
  end.

Definition close_step (fd : Z) (v : fsview) (a : rc) (v' : fsview) : Prop :=
  (ret a = 0%Z ∧ is_Some (fds v !! fd) ∧ v' = set_fds (delete fd (fds v)) v) ∨
  (ret a = (-1)%Z ∧ (v' = v ∨ v' = set_fds (delete fd (fds v)) v)).

Definition fcntl_step (fd cmd arg : Z) (v : fsview) (a : rc) (v' : fsview) : Prop :=
  if (cmd =? F_GETFL)%Z then
    v' = v ∧
    match fd_ofd v fd with Some (_, o) => ret a = of_flags o | None => ret a = (-1)%Z end
  else if (cmd =? F_DUPFD)%Z then
    (ret a = (-1)%Z ∧ v' = v) ∨
    (∃ id, (0 <= arg)%Z ∧ fds v !! fd = Some id ∧ lowest_fd v arg (ret a) ∧
           v' = set_fds (<[ret a := id]> (fds v)) v)
  else True.

Definition ftruncate_step (fd len : Z) (v : fsview) (a : rc) (v' : fsview) : Prop :=
  (ret a = (-1)%Z ∧ v' = v) ∨
  ∃ id o content, fd_ofd v fd = Some (id, o) ∧ files v !! of_path o = Some content ∧
    (0 <= len)%Z ∧ ret a = 0%Z ∧
    let n := Z.to_nat len in
    v' = set_files (<[of_path o := take n content ++ repeat NUL (n - length content)]> (files v)) v.

Definition fstat_step (fd : Z) (v : fsview) (a : rc * Z) (v' : fsview) : Prop :=
  v' = v ∧
  (ret a.1 = (-1)%Z ∨
   ∃ id o content, fd_ofd v fd = Some (id, o) ∧ files v !! of_path o = Some content ∧
     ret a.1 = 0%Z ∧ a.2 = Z.of_nat (length content)).

(** A mapping of length 0 is refused (EINVAL). *)
Definition mmap_step (len flags fd : Z) (v : fsview) (a : rc) (v' : fsview) : Prop :=
  (ret a = (-1)%Z ∧ v' = v) ∨
  ∃ id o, fd_ofd v fd = Some (id, o) ∧ (0 < len)%Z ∧ maps v !! ret a = None ∧ ret a ≠ (-1)%Z ∧
    v' = set_maps (<[ret a := Mapping (of_path o) len (flag_set flags 1)]> (maps v)) v.

Definition memread_step (addr len : Z) (v : fsview) (a : bytes) (v' : fsview) : Prop :=
  v' = v ∧
  ∀ m content, maps v !! addr = Some m → files v !! m_path m = Some content →
    (len <= m_len m)%Z → (len <= Z.of_nat (length content))%Z →
    a = take (Z.to_nat len) content.

(** A store through a shared mapping changes the file. *)
Definition memwrite_step (addr : Z) (b : bytes) (v v' : fsview) : Prop :=
  ∀ m content, maps v !! addr = Some m → files v !! m_path m = Some content →
    (Z.of_nat (length b) <= m_len m)%Z → length b ≤ length content → m_shared m = true →
    v' = set_files (<[m_path m := write_at 0 content b]> (files v)) v.

Definition munmap_step (addr : Z) (v : fsview) (a : rc) (v' : fsview) : Prop :=
  (ret a = 0%Z ∧ v' = set_maps (delete addr (maps v)) v) ∨ (ret a = (-1)%Z ∧ v' = v).

Definition file_step (v : fsview) (c : posix_op) : posix_ans c → fsview → Prop :=
  match c with
  | Open path flags _ => open_step path flags v
  | Creat path _ => open_step path (O_CREAT + O_WRONLY + O_TRUNC) v
  | Close fd => close_step fd v
  | Read fd n => read_step fd n v
  | Write fd buf => write_step fd buf v
  | Lseek fd off whence => lseek_step fd off whence v
  | Fcntl fd cmd arg => fcntl_step fd cmd arg v
  | Fstat fd => fstat_step fd v
  | Ftruncate fd len => ftruncate_step fd len v
  | Mmap len _ flags fd => mmap_step len flags fd v
  | Munmap addr _ => munmap_step addr v
  | Msync _ _ => λ _ v', v' = v
  | MemRead addr len => memread_step addr len v
  | MemWrite addr b => λ _ v', memwrite_step addr b v v'
  | Getenv _ => λ _ v', v' = v
  | Malloc _ => λ _ v', v' = v
  | _ => λ _ _, True
  end.

(** A kernel whose file calls keep the contract, seen through [view]. *)
Class FileKernel {W} (K : kernel posix W) (view : W → fsview) : Prop :=
  file_kernel c w a w' : K c w = Answer a w' → file_step (view w) c a (view w').

(** ** Views *)

Lemma fd_ofd_set_files f v fd : fd_ofd (set_files f v) fd = fd_ofd v fd.
Proof. done. Qed.
Lemma fd_ofd_set_maps m v fd : fd_ofd (set_maps m v) fd = fd_ofd v fd.
Proof. done. Qed.
Lemma files_set_off id o n v : files (set_off id o n v) = files v.
Proof. done. Qed.
Lemma files_set_files f v : files (set_files f v) = f.
Proof. done. Qed.

Lemma fd_ofd_set_off id o n v fd o' :
  fd_ofd v fd = Some (id, o') →
  fd_ofd (set_off id o n v) fd = Some (id, Ofd (of_path o) n (of_flags o)).
Proof.
  unfold fd_ofd, set_off, set_ofds. cbn. destruct (fds v !! fd) as [id'|]; [|done].
  destruct (ofds v !! id'); [|done]. intros [= -> _]. by rewrite lookup_insert_eq.
Qed.

Lemma fd_ofd_set_off_ne id o n v fd id' o' :
  id ≠ id' → fd_ofd v fd = Some (id', o') →
  fd_ofd (set_off id o n v) fd = Some (id', o').
Proof.
  unfold fd_ofd, set_off, set_ofds. cbn. intros Hne.
  destruct (fds v !! fd) as [id2|]; [|done].
  destruct (ofds v !! id2) eqn:E; [|done]. intros [= -> ->].
  by rewrite lookup_insert_ne, E.
Qed.

Lemma fd_ofd_open v path flags fd id fs mp :
  ofds v !! id = None →
  fd_ofd (FsView fs (<[fd := id]> (fds v)) (<[id := Ofd path 0 flags]> (ofds v)) mp) fd
  = Some (id, Ofd path 0 flags).
Proof. intros _. unfold fd_ofd. cbn. by rewrite !lookup_insert_eq. Qed.

Lemma fd_ofd_open_ne v path flags fd id fs mp fd' id' o' :
  fds v !! fd = None → ofds v !! id = None → fd_ofd v fd' = Some (id', o') →
  fd_ofd (FsView fs (<[fd := id]> (fds v)) (<[id := Ofd path 0 flags]> (ofds v)) mp) fd'
  = Some (id', o') ∧ id' ≠ id ∧ fd' ≠ fd.
Proof.
  intros H1 H2 H3. unfold fd_ofd in *. cbn.
  destruct (fds v !! fd') as [id2|] eqn:E; [|done].
  destruct (ofds v !! id2) eqn:E2; [|done]. injection H3 as -> ->.
  assert (fd' ≠ fd) by congruence. assert (id' ≠ id) by congruence.
  by rewrite lookup_insert_ne, E, lookup_insert_ne, E2.
Qed.

Lemma write_at_end content d : write_at (length content) content d = content ++ d.
Proof.
  unfold write_at. rewrite Nat.sub_diag, app_nil_r, firstn_all, drop_ge by lia.
  by rewrite app_nil_r.
Qed.

Lemma length_write_at off content d :
  length (write_at off content d) = Nat.max (length content) (off + length d).
Proof.
  unfold write_at. rewrite !length_app, length_take, length_app, repeat_length, length_drop. lia.
Qed.

(** Taking [k] more characters of a file. *)
Lemma take_extend (content : bytes) off k :
  take off content ++ take k (drop off content) = take (off + k) content.
Proof. by rewrite take_take_drop. Qed.

(** Storing right after [data] in a file whose first bytes are [data]. *)
Lemma write_at_extend (data old d : bytes) off :
  off = length data →
  write_at off (data ++ drop off old) d = (data ++ d) ++ drop (off + length d) old.
Proof.
  intros ->. unfold write_at. rewrite <- !app_assoc, take_app_length.
  f_equal. f_equal. rewrite drop_app_ge by lia. rewrite drop_drop. f_equal. lia.
Qed.

(** The last step of a file call: what the view became, in a file that is open. *)
Lemma write_files fd buf v a v' id o content :
  write_step fd buf v a v' → ret a = Z.of_nat (length buf) →
  fd_ofd v fd = Some (id, o) → files v !! of_path o = Some content →
  v' = set_off id o (write_off o content + length buf)
         (set_files (<[of_path o := write_at (write_off o content) content buf]> (files v)) v).
Proof.
  intros [[Ha _]|(id' & o' & content' & k & H1 & H2 & H3 & H4 & H5)] Hr E1 E2; [lia|].
  assert (k = length buf) as -> by lia. rewrite firstn_all in H5. by simplify_eq.
Qed.

Lemma close_files {W} (K : kernel posix W) (view : W → fsview) `{!FileKernel K view} fd (w w' : W) a :
  K (Close fd) w = Answer a w' → files (view w') = files (view w).
Proof.
  intros H. apply file_kernel in H. cbn in H.
  by destruct H as [(_ & _ & ->)|(_ & [->| ->])].
Qed.
