(* ===== verification/Kernels.v ===== *)
(** * An in-memory file kernel

    A deterministic kernel that keeps the file contract: calls succeed whenever
    they can, reads and writes are complete.  It shows that the contract can be
    met, and the witnesses run the programs on it. *)
From Stdlib Require Import ZArith Lia Ascii String.
From stdpp Require Import base gmap strings list.
From S2P Require Import Prelude Prog CString Posix FileSys.

Definition fail (e : Z) : rc := Rc (-1) e.

(** The lowest descriptor not in [used], from [from] on. *)
Fixpoint find_fd {A} (fuel : nat) (used : gmap Z A) (from : Z) : Z :=
  match fuel with
  | O => from
  | S f => match used !! from with
           | None => from
           | Some _ => find_fd f used (from + 1)
           end
  end.
Definition free_fd (v : fsview) (from : Z) : Z := find_fd (S (size (fds v))) (fds v) from.

Definition with_file {A} (v : fsview) (fd : Z) (fallback : reaction A fsview)
    (f : nat → ofd → bytes → reaction A fsview) : reaction A fsview :=
  match fd_ofd v fd with
  | Some (id, o) =>
      match files v !! of_path o with Some content => f id o content | None => fallback end
  | None => fallback
  end.

Definition mem_open (path : string) (flags : Z) (v : fsview) : reaction rc fsview :=
  match files v !! path, flag_set flags O_CREAT with
  | None, false => Answer (fail ENOENT) v
  | _, _ =>
      let fd := free_fd v 0 in
      let id := fresh (dom (ofds v)) in
      Answer (Rc fd 0)
        (FsView (opened_files path flags (files v)) (<[fd := id]> (fds v))
           (<[id := Ofd path 0 flags]> (ofds v)) (maps v))
  end.

Definition mem_lseek (fd off whence : Z) (v : fsview) : reaction rc fsview :=
  with_file v fd (Answer (fail EBADF) v) (λ id o content,
    let pos := (seek_base o content whence + off)%Z in
    if (pos <? 0)%Z then Answer (fail EINVAL) v
    else Answer (Rc pos 0) (set_off id o (Z.to_nat pos) v)).

Definition mem_fcntl (fd cmd arg : Z) (v : fsview) : reaction rc fsview :=
  if (cmd =? F_GETFL)%Z then
    match fd_ofd v fd with
    | Some (_, o) => Answer (Rc (of_flags o) 0) v
    | None => Answer (fail EBADF) v
    end
  else if (cmd =? F_DUPFD)%Z then
    if (arg <? 0)%Z then Answer (fail EINVAL) v else
    match fds v !! fd with
    | Some id => let n := free_fd v arg in Answer (Rc n 0) (set_fds (<[n := id]> (fds v)) v)
    | None => Answer (fail EBADF) v
    end
  else NoReturn v.

Definition memfs : kernel posix fsview := λ c v,
  match c as c return reaction (posix_ans c) fsview with
  | Open path flags _ => mem_open path flags v
  | Creat path _ => mem_open path (O_CREAT + O_WRONLY + O_TRUNC) v
  | Close fd =>
      match fds v !! fd with
      | Some _ => Answer (Rc 0 0) (set_fds (delete fd (fds v)) v)
      | None => Answer (fail EBADF) v
      end
  | Read fd n =>
      if (n <? 0)%Z then Answer (fail EINVAL, []) v else
      with_file v fd (Answer (fail EBADF, []) v) (λ id o content,
        let d := take (Z.to_nat n) (drop (of_off o) content) in
        Answer (Rc (Z.of_nat (length d)) 0, d) (set_off id o (of_off o + length d) v))
  | Write fd buf =>
      with_file v fd (Answer (fail EBADF) v) (λ id o content,
        let off := write_off o content in
        Answer (Rc (Z.of_nat (length buf)) 0)
          (set_off id o (off + length buf)
             (set_files (<[of_path o := write_at off content buf]> (files v)) v)))
  | Lseek fd off whence => mem_lseek fd off whence v
  | Fcntl fd cmd arg => mem_fcntl fd cmd arg v
  | Fstat fd =>
      with_file v fd (Answer (fail EBADF, 0%Z) v) (λ id o content,
        Answer (Rc 0 0, Z.of_nat (length content)) v)
  | Ftruncate fd len =>
      with_file v fd (Answer (fail EBADF) v) (λ id o content,
        if (len <? 0)%Z then Answer (fail EINVAL) v
        else let n := Z.to_nat len in
          Answer (Rc 0 0)
            (set_files (<[of_path o := take n content ++ repeat NUL (n - length content)]> (files v)) v))
  | Mmap len _ flags fd =>
      with_file v fd (Answer (fail EBADF) v) (λ id o content,
        if (len <=? 0)%Z then Answer (fail EINVAL) v
        else let addr := (4096 * (1 + Z.of_nat (size (maps v))))%Z in
          match maps v !! addr with
          | None => Answer (Rc addr 0)
              (set_maps (<[addr := Mapping (of_path o) len (flag_set flags 1)]> (maps v)) v)
          | Some _ => Answer (fail ENOMEM) v
          end)
  | Munmap addr _ => Answer (Rc 0 0) (set_maps (delete addr (maps v)) v)
  | Msync _ _ => Answer (Rc 0 0) v
  | MemRead addr len =>
      match maps v !! addr with
      | Some m => match files v !! m_path m with
                  | Some content => Answer (take (Z.to_nat len) content) v
                  | None => NoReturn v
                  end
      | None => NoReturn v
      end
  | MemWrite addr b =>
      match maps v !! addr with
      | Some m => match files v !! m_path m with
                  | Some content =>
                      Answer (Rc 0 0) (set_files (<[m_path m := write_at 0 content b]> (files v)) v)
                  | None => NoReturn v
                  end
      | None => NoReturn v
      end
  | Getenv _ => Answer None v
  | Malloc _ => Answer (Rc 1 0) v
  | _ => NoReturn v
  end.

(** ** The contract holds *)

Lemma find_fd_spec {A} fuel (used : gmap Z A) from :
  (∃ k, (from <= k < from + Z.of_nat fuel)%Z ∧ used !! k = None) →
  let fd := find_fd fuel used from in
  (from <= fd)%Z ∧ used !! fd = None ∧ ∀ k, (from <= k < fd)%Z → is_Some (used !! k).
Proof.
  revert from. induction fuel as [|fuel IH]; intros from (k & Hk & Hnone); [lia|].
  simpl. destruct (used !! from) as [id|] eqn:E.
  - destruct (IH (from + 1)%Z) as (H1 & H2 & H3).
    { exists k. split; [|done]. destruct (decide (k = from)) as [->|]; [congruence|lia]. }
    split; [lia|]. split; [done|]. intros j Hj.
    destruct (decide (j = from)) as [->|]; [by rewrite E|]. apply H3. lia.
  - split; [lia|]. split; [done|]. intros j Hj. lia.
Qed.

Lemma free_fd_exists {A} (used : gmap Z A) from :
  ∃ k, (from <= k < from + Z.of_nat (S (size used)))%Z ∧ used !! k = None.
Proof.
  set (l := seqZ from (Z.of_nat (S (size used)))).
  destruct (decide (Exists (λ k, used !! k = None) l)) as [H|H].
  - apply Exists_exists in H as (k & Hk & Hn). exists k. split; [|done].
    by apply elem_of_seqZ in Hk.
  - exfalso. assert ((list_to_set l : gset Z) ⊆ dom used) as Hsub.
    { intros k Hk. apply elem_of_list_to_set in Hk. apply elem_of_dom.
      destruct (used !! k) as [id|] eqn:E; [by eexists|].
      destruct H. apply Exists_exists. by exists k. }
    apply subseteq_size in Hsub. rewrite size_list_to_set in Hsub by apply NoDup_seqZ.
    unfold l in Hsub. rewrite length_seqZ, size_dom in Hsub. lia.
Qed.

Lemma free_fd_lowest v from : lowest_fd v from (free_fd v from).
Proof. apply find_fd_spec, free_fd_exists. Qed.

Lemma mem_open_ok path flags v a v' :
  mem_open path flags v = Answer a v' → open_step path flags v a v'.
Proof.
  unfold mem_open, open_step.
  assert (∀ H : is_Some (files v !! path) ∨ flag_set flags O_CREAT = true,
    let fd := free_fd v 0 in let id := fresh (dom (ofds v)) in
    ∃ id', lowest_fd v 0 (ret (Rc fd 0)) ∧ ofds v !! id' = None ∧
      (is_Some (files v !! path) ∨ flag_set flags O_CREAT = true) ∧
      FsView (opened_files path flags (files v)) (<[fd := id]> (fds v))
           (<[id := Ofd path 0 flags]> (ofds v)) (maps v) =
      FsView (opened_files path flags (files v)) (<[ret (Rc fd 0) := id']> (fds v))
           (<[id' := Ofd path 0 flags]> (ofds v)) (maps v)) as Hok.
  { intros H. exists (fresh (dom (ofds v))). split; [apply free_fd_lowest|].
    split; [|done]. apply not_elem_of_dom, is_fresh. }
  destruct (files v !! path) as [content|] eqn:E;
    [|destruct (flag_set flags O_CREAT) eqn:E2].
  - intros [= <- <-]. right. destruct (Hok ltac:(eauto)) as (id' & ? & ? & ? & ?).
    exists id'. eauto.
  - intros [= <- <-]. right. destruct (Hok ltac:(eauto)) as (id' & ? & ? & ? & ?).
    exists id'. eauto.
  - intros [= <- <-]. by left.
Qed.

Lemma with_file_inv {A} v fd (fb : reaction A fsview) f (Q : reaction A fsview → Prop) :
  Q fb →
  (∀ id o content, fd_ofd v fd = Some (id, o) → files v !! of_path o = Some content →
     Q (f id o content)) →
  Q (with_file v fd fb f).
Proof.
  intros H1 H2. unfold with_file. destruct (fd_ofd v fd) as [[id o]|] eqn:E; [|done].
  destruct (files v !! of_path o) eqn:E2; [|done]. by eapply H2.
Qed.

Lemma take_length_take {A} n (l : list A) : take (length (take n l)) l = take n l.
Proof.
  rewrite length_take. destruct (Nat.min_spec n (length l)) as [[_ ->]|[H ->]]; [done|].
  by rewrite firstn_all, take_ge.
Qed.

Lemma mem_read_ok fd n v a v' :
  memfs (Read fd n) v = Answer a v' → read_step fd n v a v'.
Proof.
  cbn. destruct (n <? 0)%Z eqn:En; zbool; [intros [= <- <-]; by left|].
  apply with_file_inv; [intros [= <- <-]; by left|].
  intros id o content H1 H2 [= <- <-]. right. exists id, o, content. cbn.
  split; [done|]. split; [done|]. split; [done|]. split; [rewrite length_take; lia|].
  split; [by rewrite take_length_take|]. split; [|done].
  intros H. apply (f_equal length) in H. rewrite length_take, length_drop in H. simpl in H. lia.
Qed.

Lemma mem_write_ok fd buf v a v' :
  memfs (Write fd buf) v = Answer a v' → write_step fd buf v a v'.
Proof.
  cbn. apply with_file_inv; [intros [= <- <-]; by left|].
  intros id o content H1 H2 [= <- <-]. right. exists id, o, content, (length buf).
  rewrite firstn_all. repeat split; try done; lia.
Qed.

Lemma mem_lseek_ok fd off whence v a v' :
  mem_lseek fd off whence v = Answer a v' → lseek_step fd off whence v a v'.
Proof.
  unfold mem_lseek, with_file, lseek_step.
  destruct (fd_ofd v fd) as [[id o]|]; [|intros [= <- <-]; done].
  destruct (files v !! of_path o); [|by intros [= <- <-]].
  cbv zeta. case_match; by intros [= <- <-].
Qed.

Lemma mem_fcntl_ok fd cmd arg v a v' :
  mem_fcntl fd cmd arg v = Answer a v' → fcntl_step fd cmd arg v a v'.
Proof.
  unfold mem_fcntl, fcntl_step. case_match.
  { destruct (fd_ofd v fd) as [[id o]|]; by intros [= <- <-]. }
  case_match; [|done]. destruct (arg <? 0)%Z eqn:Ea; zbool; [intros [= <- <-]; by left|].
  destruct (fds v !! fd) as [id|] eqn:E; intros [= <- <-]; [right|by left].
  exists id. split; [done|]. split; [done|]. split; [apply free_fd_lowest|done].
Qed.

Lemma mem_ftruncate_ok fd len v a v' :
  memfs (Ftruncate fd len) v = Answer a v' → ftruncate_step fd len v a v'.
Proof.
  cbn. apply with_file_inv; [intros [= <- <-]; by left|].
  intros id o content H1 H2. case_match; zbool; intros [= <- <-]; [by left|].
  right. exists id, o, content. repeat split; done || lia.
Qed.

Lemma mem_mmap_ok len prot flags fd v a v' :
  memfs (Mmap len prot flags fd) v = Answer a v' → mmap_step len flags fd v a v'.
Proof.
  cbn. apply with_file_inv; [intros [= <- <-]; by left|].
  intros id o content H1 H2. case_match; zbool; [intros [= <- <-]; by left|].
  destruct (maps v !! _) eqn:E; intros [= <- <-]; [by left|].
  right. exists id, o. repeat split; try done; try lia. simpl. lia.
Qed.

#[export] Instance memfs_ok : FileKernel memfs id.
Proof.
  intros c v a v' E. unfold id.
  destruct c; try done; try by (cbn in E |- *; simplify_eq).
  - by eapply mem_open_ok.
  - by eapply mem_open_ok.
  - cbn in E |- *. unfold close_step. destruct (fds v !! fd) eqn:E1; simplify_eq; [left|right; by auto].
    split; [done|]. split; [by eexists|done].
  - by apply mem_read_ok.
  - by apply mem_write_ok.
  - by apply mem_lseek_ok.
  - by apply mem_fcntl_ok.
  - revert E. cbn. apply with_file_inv; [intros [= <- <-]; split; [done|by left]|].
    intros id o content H1 H2 [= <- <-]. split; [done|]. right. by exists id, o, content.
  - by apply mem_ftruncate_ok.
  - by eapply mem_mmap_ok.
  - cbn in E |- *. simplify_eq. by left.
  - revert E. cbn. unfold memread_step. destruct (maps v !! addr) as [m|]; [|done].
    destruct (files v !! m_path m) as [content|] eqn:Ec; [|done].
    intros [= <- <-]. split; [done|]. intros m' c' E1 E2 _ _. by simplify_eq.
  - revert E. cbn. unfold memwrite_step. destruct (maps v !! addr) as [m|]; [|done].
    destruct (files v !! m_path m) as [content|] eqn:E1; [|done].
    intros [= <- <-] m' c' E2 Hc _ _ _. simplify_eq. congruence.
Qed.
