(* ===== verification/CopyProgram.v ===== *)
(** * Copying files: copy.c, write_bytes.c and the mmap cp

    [copy_main] is CH13/Exercise_13-1/copy.c, [write_bytes_main]
    CH13/Exercise_13-2/write_bytes.c, [cp_main] CH49/cp/cp.c.  They run against
    any kernel that keeps the file contract. *)
From Stdlib Require Import ZArith Lia Ascii String.
From stdpp Require Import base gmap strings list.
From S2P Require Import Prelude Prog CString Posix GetNum ErrorFunctions FileSys Kernels.

Section programs.
Variable ename : Z → string.
Variable strerror : Z → string.

Local Abbreviation errExit := (errExit ename strerror).
Local Abbreviation fatal := (fatal ename strerror).
Local Open Scope prog_scope.

(** ** copy.c *)

Definition COPY_BUF_SIZE : Z := 1024.

(** One iteration of the transfer loop: [inl tt] to go on, [inr] with the last
    [read] when it returned 0 or -1. *)
Definition copy_step (inputFd outputFd : Z) (_ : unit) : prog posix (unit + rc) :=
  '(numRead, buf) <- sys (Read inputFd COPY_BUF_SIZE) ;;
  if (0 <? ret numRead)%Z then
    nw <- sys (Write outputFd buf) ;;
    if negb (ret nw =? ret numRead)%Z
    then fatal "write() returned error or partial write occurred" []
    else Ret (inl tt)
  else Ret (inr numRead).

Definition copy_main (fuel : nat) (argv : list string) : prog posix unit :=
  match argv with
  | [argv0; argv1; argv2] =>
      if streq argv1 "--help" then usageErr ("%s old-file new-file" +:+ nl) [AStr argv0] else
      inputFd <- sys (Open argv1 O_RDONLY 0) ;;
      if (ret inputFd =? -1)%Z then errExit (errno inputFd) "opening file %s" [AStr argv1] else
      let openFlags := Z.lor (Z.lor O_CREAT O_WRONLY) (Z.lor O_TRUNC O_SYNC) in
      outputFd <- sys (Open argv2 openFlags MODE_0666) ;;
      if (ret outputFd =? -1)%Z then errExit (errno outputFd) "opening file %s" [AStr argv2] else
      numRead <- loop fuel (copy_step (ret inputFd) (ret outputFd)) tt ;;
      if (ret numRead =? -1)%Z then errExit (errno numRead) "read" [] else
      c1 <- sys (Close (ret inputFd)) ;;
      if (ret c1 =? -1)%Z then errExit (errno c1) "close input" [] else
      c2 <- sys (Close (ret outputFd)) ;;
      if (ret c2 =? -1)%Z then errExit (errno c2) "close output" [] else
      exit EXIT_SUCCESS
  | _ => usageErr ("%s old-file new-file" +:+ nl) [AStr (argv_0 argv)]
  end.

(** ** write_bytes.c (compiled without the USE_ options) *)

(** One iteration of the loop; [buf] is the content of the malloc'ed buffer. *)
Definition write_step_c (fd numBytes bufSize : Z) (buf : bytes) (totWritten : Z) :
    prog posix (Z + unit) :=
  if (totWritten <? numBytes)%Z then
    let thisWrite := Z.min bufSize (to_size (numBytes - totWritten)) in
    n <- sys (Write fd (take (Z.to_nat thisWrite) buf)) ;;
    if negb (to_size (ret n) =? thisWrite)%Z then fatal "partial/failed write" [] else
    Ret (inl (to_size (totWritten + thisWrite)))
  else Ret (inr tt).

(** [heap n] is what an uninitialised block of [n] bytes holds. *)
Definition write_bytes_main (fuel : nat) (heap : Z → bytes) (argv : list string) : prog posix unit :=
  match argv with
  | [argv0; argv1; argv2; argv3] =>
      if streq argv1 "--help" then usageErr ("%s file num-bytes buf-size" +:+ nl) [AStr argv0] else
      n <- getLong (Some argv2) GN_GT_0 (Some "num-bytes"%string) ;;
      let numBytes := to_size n in
      b <- getLong (Some argv3) GN_GT_0 (Some "buf-size"%string) ;;
      let bufSize := to_size b in
      p <- sys (Malloc bufSize) ;;
      if (ret p =? 0)%Z then errExit (errno p) "malloc" [] else
      let openFlags := Z.lor O_CREAT O_WRONLY in
      fd <- sys (Open argv1 openFlags MODE_0600) ;;
      if (ret fd =? -1)%Z then errExit (errno fd) "open" [] else
      loop fuel (write_step_c (ret fd) numBytes bufSize (heap bufSize)) 0%Z ;;;
      c <- sys (Close (ret fd)) ;;
      if (ret c =? -1)%Z then errExit (errno c) "close" [] else
      exit EXIT_SUCCESS
  | _ => usageErr ("%s file num-bytes buf-size" +:+ nl) [AStr (argv_0 argv)]
  end.

(** ** cp.c *)

Definition PROT_READ : Z := 1.
Definition PROT_WRITE : Z := 2.
Definition MAP_SHARED : Z := 1.
Definition MAP_PRIVATE : Z := 2.
Definition MAP_FAILED : Z := -1.

(** [open] with [O_CREAT] and no mode: the mode is whatever the register holds. *)
Definition cp_main (mode : Z) (argv : list string) : prog posix unit :=
  let usage := eprintf ("Usage: " +:+ argv_0 argv +:+ " source destination" +:+ nl) ;;;
               exit EXIT_FAILURE in
  let failure (s : string) (r : rc) := perror s (errno r) ;;; exit EXIT_FAILURE in
  match argv with
  | [argv0; argv1; argv2] =>
      if streq argv1 "--help" then usage else
      sourceFD <- sys (Open argv1 O_RDONLY 0) ;;
      if (ret sourceFD =? -1)%Z then failure "open"%string sourceFD else
      '(st, st_size) <- sys (Fstat (ret sourceFD)) ;;
      if (ret st =? -1)%Z then failure "fstat"%string st else
      sourceMap <- sys (Mmap st_size PROT_READ MAP_PRIVATE (ret sourceFD)) ;;
      if (ret sourceMap =? MAP_FAILED)%Z then failure "mmap"%string sourceMap else
      c <- sys (Close (ret sourceFD)) ;;
      if (ret c =? -1)%Z then failure "close"%string c else
      destinationFD <- sys (Open argv2 (Z.lor O_RDWR O_CREAT) mode) ;;
      if (ret destinationFD =? -1)%Z then failure "open"%string destinationFD else
      t <- sys (Ftruncate (ret destinationFD) st_size) ;;
      if (ret t =? -1)%Z then failure "ftruncate"%string t else
      destinationMap <- sys (Mmap st_size (Z.lor PROT_WRITE PROT_READ) MAP_SHARED (ret destinationFD)) ;;
      if (ret destinationMap =? MAP_FAILED)%Z then failure "mmap"%string destinationMap else
      bytes <- sys (MemRead (ret sourceMap) st_size) ;;
      sys (MemWrite (ret destinationMap) bytes) ;;;
      sys (Msync (ret destinationMap) st_size) ;;;
      u1 <- sys (Munmap (ret sourceMap) st_size) ;;
      if (ret u1 =? -1)%Z then failure "munmap"%string u1 else
      u2 <- sys (Munmap (ret destinationMap) st_size) ;;
      if (ret u2 =? -1)%Z then failure "munmap"%string u2 else
      exit EXIT_SUCCESS
  | _ => usage
  end.

(** ** Correctness of copy.c *)

Section copy.
Context {W : Type} (K : kernel posix W) (view : W → fsview) `{!FileKernel K view}.

(** The state of a copy in progress: the first [k] bytes of [content] are in
    the destination and both offsets are at [k]. *)
Record copying (src dst : string) (content : bytes) (f0 : gmap string bytes)
    (inFd outFd : Z) (k : nat) (w : W) : Prop := Copying {
  cp_le : k ≤ length content;
  cp_files : files (view w) = <[dst := take k content]> f0;
  cp_src : files (view w) !! src = Some content;
  cp_fds : ∃ i fi j fj, i ≠ j ∧ flag_set fj O_APPEND = false ∧
    fd_ofd (view w) inFd = Some (i, Ofd src k fi) ∧
    fd_ofd (view w) outFd = Some (j, Ofd dst k fj) }.

Lemma copy_loop src dst content f0 inFd outFd fuel w k :
  (src = dst → content = []) → copying src dst content f0 inFd outFd k w →
  length content - k < fuel →
  wp K (loop fuel (copy_step inFd outFd) tt) w (λ r w' _,
    match r with
    | Returned a => (ret a = -1)%Z ∨ files (view w') = <[dst := content]> f0
    | _ => failed r
    end).
Proof.
  intros Hne. revert w k. induction fuel as [|fuel IH]; intros w k Hcp Hfuel; [lia|].
  cbn [loop]. apply wp_bind. unfold copy_step. prog_call.
  apply file_kernel in H. cbn in H. destruct a as [numRead buf]. cbn in H.
  destruct Hcp as [Hle Hf Hs (i & fi & j & fj & Hij & Happ & Hi & Hj)].
  destruct (0 <? ret numRead)%Z eqn:Hr; zbool.
  - destruct H as [[H _]|(i' & o & c & Hi' & Hc & H1 & _ & H2 & _ & Hv)];
      cbn [fst snd] in *; [lia|].
    rewrite Hi in Hi'. injection Hi' as <- <-. cbn in Hc, H2, Hv.
    rewrite Hs in Hc. injection Hc as <-.
    prog_call.
    destruct (negb _) eqn:Hn; [by_report|]. zbool.
    assert (length buf ≤ length content - k) as Hlb.
    { rewrite H2, length_take, length_drop. lia. }
    apply wp_ret. eapply wp_mono.
    { apply (IH _ (k + length buf)).
      - apply file_kernel in H. cbn in H.
        apply (write_files _ _ _ _ _ j (Ofd dst k fj) (take k content)) in H;
          [|lia|by rewrite Hv; apply fd_ofd_set_off_ne
           |by rewrite Hv, files_set_off, Hf; cbn; rewrite lookup_insert_eq].
        unfold write_off in H. cbn in H. rewrite Happ in H.
        assert (files (view w'0) = <[dst := take (k + length buf) content]> f0) as Hf'.
        { rewrite H, files_set_off, files_set_files, Hv, files_set_off, Hf.
          rewrite insert_insert_eq. f_equal.
          rewrite <- (take_extend content k (length buf)), <- H2.
          rewrite <- (app_nil_r (take k content)) at 1.
          rewrite <- (drop_nil k) at 1. rewrite write_at_extend by (rewrite length_take; lia).
          by rewrite drop_nil, app_nil_r. }
        split; [lia|done| |].
        + rewrite Hf'. destruct (decide (src = dst)) as [->|Hd].
          * rewrite lookup_insert_eq, (Hne eq_refl). by rewrite take_nil.
          * rewrite lookup_insert_ne by done. rewrite Hf, lookup_insert_ne in Hs; done.
        + exists i, fi, j, fj. repeat split; try done.
          * rewrite H. apply (fd_ofd_set_off_ne); [done|]. rewrite fd_ofd_set_files, Hv.
            by eapply (fd_ofd_set_off i (Ofd src k fi)).
          * rewrite H. eapply (fd_ofd_set_off j (Ofd dst k fj)). rewrite fd_ofd_set_files, Hv.
            by apply fd_ofd_set_off_ne.
      - lia. }
    intros [?|?|] ? ?; done.
  - apply wp_ret. apply wp_ret. destruct H as [[H [_ Hv]]|(i' & o & c & Hi' & Hc & H1 & _ & _ & H2 & Hv)];
      cbn [fst snd] in *; [by left|right].
    rewrite Hi in Hi'. injection Hi' as <- <-. cbn in Hc, H2, Hv.
    rewrite Hs in Hc. injection Hc as <-.
    rewrite Hv, files_set_off, Hf. f_equal. apply take_ge.
    destruct H2 as [?|?]; [|unfold COPY_BUF_SIZE in *; lia|lia].
    apply length_zero_iff_nil. lia.
Qed.

(** copy.c.  With two file names and enough iterations for the source, the
    program ends; when it exits with status 0 the destination holds exactly the
    bytes the source held and no other file has changed, whatever short or
    failed transfers the kernel answers with; every other run ends in a
    reported failure.  A destination that is the source itself is emptied. *)
Lemma copy_ok (w : W) (fuel : nat) (argv0 src dst : string) (content : bytes) :
  files (view w) !! src = Some content → length content < fuel →
  wp K (copy_main fuel [argv0; src; dst]) w (λ r w' _,
    ends_with (files (view w') =
      <[dst := if decide (src = dst) then [] else content]> (files (view w))) r).
Proof.
  intros Hsrc Hfuel. cbn [copy_main]. destruct (streq src "--help"); [by_report|].
  prog_call. destruct (ret a =? -1)%Z eqn:Ha; zbool; [by_report|].
  apply file_kernel in H. cbn in H. destruct H as [[? _]|(i & Hfd & Hid & _ & Hv)]; [done|].
  prog_call. destruct (ret a0 =? -1)%Z eqn:Ha0; zbool; [by_report|].
  apply file_kernel in H. cbn in H. destruct H as [[? _]|(j & Hfd' & Hjd & _ & Hv')]; [done|].
  apply wp_bind. eapply wp_mono.
  { apply (copy_loop src dst (if decide (src = dst) then [] else content) (files (view w))
             (ret a) (ret a0) fuel _ 0); [intros ->; by rewrite decide_True| |case_decide; simpl; lia].
    assert (files (view w') = files (view w)) as Hf.
    { rewrite Hv. cbn. unfold opened_files. by rewrite Hsrc. }
    assert (files (view w'0) = <[dst := []]> (files (view w))) as Hf'.
    { rewrite Hv'. cbn. unfold opened_files. rewrite Hf.
      by destruct (files (view w) !! dst). }
    split; [lia|by rewrite Hf', take_0| |].
    - rewrite Hf'. case_decide as Hd; [subst; by rewrite lookup_insert_eq|].
      by rewrite lookup_insert_ne.
    - assert (fd_ofd (view w') (ret a) = Some (i, Ofd src 0 O_RDONLY)) as Hi.
      { rewrite Hv. by apply fd_ofd_open. }
      destruct (fd_ofd_open_ne (view w') dst (Z.lor (Z.lor O_CREAT O_WRONLY) (Z.lor O_TRUNC O_SYNC))
         (ret a0) j (opened_files dst (Z.lor (Z.lor O_CREAT O_WRONLY) (Z.lor O_TRUNC O_SYNC))
            (files (view w'))) (maps (view w')) (ret a) i _ ltac:(apply Hfd') Hjd Hi) as (Hi' & Hij & _).
      eexists i, _, j, _. split; [done|]. split; [|rewrite Hv'; split; [exact Hi'|by apply fd_ofd_open]].
      done. }
  intros r w'1 t Hr. destruct r as [r|h|]; [|by apply (failed_ends_with (A := rc))|done].
  destruct (ret r =? -1)%Z eqn:Hm; zbool; [by_report|].
  destruct Hr as [?|Hr]; [done|].
  prog_call. destruct (ret a1 =? -1)%Z eqn:Ha1; zbool; [by_report|].
  prog_call. destruct (ret a2 =? -1)%Z eqn:Ha2; zbool; [by_report|].
  prog_steps. intros _. apply (close_files K view) in H, H0. congruence.
Qed.

(** ** Correctness of write_bytes.c *)

(** The first [n] bytes of [buf] repeated. *)
Definition cycle (buf : bytes) (n : nat) : bytes :=
  (λ i, nth (i mod length buf) buf NUL) <$> seq 0 n.

Lemma cycle_block buf j t :
  t ≤ length buf →
  cycle buf (j * length buf) ++ take t buf = cycle buf (j * length buf + t).
Proof.
  intros Ht. unfold cycle. rewrite seq_app, fmap_app. f_equal.
  apply list_eq. intros i. destruct (decide (i < t)) as [Hi|Hi].
  - rewrite lookup_take_lt, list_lookup_fmap, lookup_seq_lt by lia. cbn [fmap option_fmap option_map].
    replace (0 + j * length buf + i) with (i + j * length buf) by lia.
    rewrite Nat.Div0.mod_add, Nat.mod_small by lia.
    destruct (lookup_lt_is_Some_2 buf i) as [x Hx]; [lia|].
    by rewrite Hx, (nth_lookup_Some _ _ _ _ Hx).
  - rewrite !lookup_ge_None_2; [done| |]; rewrite ?length_fmap, ?length_seq, ?length_take; lia.
Qed.

Lemma length_cycle buf n : length (cycle buf n) = n.
Proof. unfold cycle. by rewrite length_fmap, length_seq. Qed.

(** The file while [tot] bytes have been written over [old]. *)
Record writing (path : string) (buf old : bytes) (f0 : gmap string bytes)
    (fd : Z) (tot : nat) (w : W) : Prop := Writing {
  wr_files : files (view w) = <[path := cycle buf tot ++ drop tot old]> f0;
  wr_fd : ∃ j fl, flag_set fl O_APPEND = false ∧ fd_ofd (view w) fd = Some (j, Ofd path tot fl) }.

Lemma write_bytes_loop path buf old f0 fd (numBytes bufSize : Z) fuel j tot w :
  (0 < bufSize)%Z → Z.of_nat (length buf) = bufSize → (numBytes <= LONG_MAX)%Z →
  (bufSize <= LONG_MAX)%Z →
  tot = Z.min (Z.of_nat j * bufSize) numBytes →
  (0 <= tot)%Z →
  writing path buf old f0 fd (Z.to_nat tot) w →
  (numBytes <= Z.of_nat (j + fuel - 1) * bufSize)%Z → 0 < fuel →
  wp K (loop fuel (write_step_c fd numBytes bufSize buf) tot) w (λ r w' _,
    match r with
    | Returned _ => files (view w') =
        <[path := cycle buf (Z.to_nat numBytes) ++ drop (Z.to_nat numBytes) old]> f0
    | _ => failed r
    end).
Proof.
  intros Hbs Hbuf Hn Hb. revert j tot w.
  induction fuel as [|fuel IH]; intros j tot w Hmin Htot Hwr Hfuel Hpos; [lia|].
  unfold LONG_MAX in *.
  cbn [loop]. apply wp_bind. unfold write_step_c at 1. destruct (tot <? numBytes)%Z eqn:Ht; zbool.
  2:{ apply wp_ret. apply wp_ret. destruct Hwr as [Hwr _].
      by replace tot with numBytes in Hwr by lia. }
  assert (tot = Z.of_nat j * bufSize)%Z as Hj by lia.
  cbv zeta. unfold to_size. rewrite (Z.mod_small (numBytes - tot)) by lia.
  set (this := Z.min bufSize (numBytes - tot)).
  prog_call. destruct (negb _) eqn:He; [by_report|]. zbool.
  apply wp_ret. rewrite Z.mod_small by lia.
  replace (tot + this)%Z with (Z.min (Z.of_nat (S j) * bufSize) numBytes) by lia.
  assert (ret a = Z.of_nat (length (take (Z.to_nat this) buf))) as Ha.
  { rewrite length_take. apply file_kernel in H. cbn in H.
    destruct H as [[Ha _]|(id' & o' & content' & k & H1 & H2 & H3 & H4 & H5)].
    - rewrite Ha in He. change (-1 mod 2 ^ 64)%Z with 18446744073709551615%Z in He. lia.
    - rewrite length_take in H3. rewrite H4, Z.mod_small in He by lia. lia. }
  destruct Hwr as [Hf (id & fl & Hfl & Hfd)].
  apply file_kernel in H. cbn in H.
  eapply write_files in H; [|done|done|by rewrite Hf, lookup_insert_eq].
  unfold write_off in H. cbn in H. rewrite Hfl in H.
  eapply wp_mono.
  { apply (IH (S j)); [done|lia| |lia|].
    - assert (Z.to_nat (Z.min (Z.of_nat (S j) * bufSize) numBytes) = Z.to_nat tot + Z.to_nat this) as Hk by lia.
      assert (length (take (Z.to_nat this) buf) = Z.to_nat this) as Hl by (rewrite length_take; lia).
      assert (Z.to_nat tot = j * length buf) as Htj by lia.
      split.
      + rewrite H, files_set_off, files_set_files, Hf, insert_insert_eq. f_equal.
        rewrite write_at_extend by (by rewrite length_cycle).
        rewrite Hk, Hl. f_equal. rewrite Htj. apply cycle_block. lia.
      + exists id, fl. split; [done|]. rewrite H, Hk, Hl. by eapply fd_ofd_set_off.
    - destruct fuel; [|lia]. replace (j + 1 - 1) with j in Hfuel by lia. lia. }
  intros r ? ?. by destruct r.
Qed.

(** write_bytes.c.  For a file name, a positive count [n] and a positive
    buffer size [b], the loop ends after at most [n / b + 1] iterations and the
    program ends; with status 0 exactly [n] bytes have been stored from offset
    0, each block a prefix of the buffer, the rest of an existing file is
    unchanged (the file is not truncated) and no other file has changed; a
    partial or failed write is never taken for success. *)
Lemma write_bytes_ok (heap : Z → bytes) (w : W) (fuel : nat)
    (argv0 path argv2 argv3 : string) (n b : Z) (old : bytes) :
  (∀ k, length (heap k) = Z.to_nat k) →
  long_arg (Some argv2) GN_GT_0 n → long_arg (Some argv3) GN_GT_0 b →
  default [] (files (view w) !! path) = old →
  (n / b + 1 < Z.of_nat fuel)%Z →
  wp K (write_bytes_main fuel heap [argv0; path; argv2; argv3]) w (λ r w' _,
    ends_with (files (view w') =
      <[path := cycle (heap b) (Z.to_nat n) ++ drop (Z.to_nat n) old]> (files (view w))) r).
Proof.
  intros Hheap Hn Hb Hold Hfuel. cbn [write_bytes_main].
  destruct (streq path "--help"); [by_report|].
  rewrite (getLong_accepts _ _ _ n Hn). cbn [bind].
  rewrite (getLong_accepts _ _ _ b Hb). cbn [bind].
  destruct Hn as (? & _ & _ & Hn & _ & Hn0), Hb as (? & _ & _ & Hb & _ & Hb0).
  specialize (Hn0 eq_refl). specialize (Hb0 eq_refl).
  unfold in_long, LONG_MAX, LONG_MIN in Hn, Hb.
  unfold to_size. rewrite (Z.mod_small n), (Z.mod_small b) by lia.
  prog_call. destruct (ret a =? 0)%Z eqn:Ha; zbool; [by_report|].
  apply file_kernel in H. cbn in H.
  prog_call. destruct (ret a0 =? -1)%Z eqn:Ha0; zbool; [by_report|].
  apply file_kernel in H0. cbn in H0. destruct H0 as [[? _]|(i & Hfd & Hid & _ & Hv)]; [done|].
  rewrite H in *. assert (0 <= n / b)%Z by (apply Z.div_pos; lia).
  apply wp_bind. eapply wp_mono.
  { apply (write_bytes_loop path (heap b) old (files (view w)) (ret a0) n b fuel 0 0 w'0);
      unfold LONG_MAX; rewrite ?Hheap; try lia.
    - split.
      + rewrite Hv. cbn. unfold opened_files. rewrite <- Hold, drop_0.
        destruct (files (view w) !! path) eqn:E; [|done].
        transitivity (files (view w)); [done|]. by rewrite insert_id.
      + eexists i, _. split; [|rewrite Hv; by apply fd_ofd_open]. done.
    - pose proof (Z.mod_pos_bound n b). pose proof (Z.div_mod n b). nia. }
  intros r w'1 t Hr. destruct r as [u|h|]; [|by apply (failed_ends_with (A := unit))|done].
  prog_call. destruct (ret a1 =? -1)%Z eqn:Ha1; zbool; [by_report|].
  prog_steps. intros _. apply (close_files K view) in H1. congruence.
Qed.

(** ** Correctness of cp.c *)

(** Closes the goal of a [perror]-and-exit branch. *)
Local Ltac by_perror := prog_steps; cbn [failed ends_with]; (done || by intros).

(** A file overwritten from its start with as many bytes as it has. *)
Lemma write_at_full (d c : bytes) : length c = length d → write_at 0 c d = d.
Proof. intros H. unfold write_at. rewrite take_0, drop_ge by lia. by rewrite app_nil_r. Qed.

Lemma close_maps fd (w w' : W) a : K (Close fd) w = Answer a w' → maps (view w') = maps (view w).
Proof.
  intros H. apply file_kernel in H. cbn in H.
  by destruct H as [(_ & _ & ->)|(_ & [->| ->])].
Qed.

Lemma munmap_files addr len (w w' : W) a :
  K (Munmap addr len) w = Answer a w' → files (view w') = files (view w).
Proof. intros H. apply file_kernel in H. cbn in H. by destruct H as [(_ & ->)|(_ & ->)]. Qed.

(** Setting the length of the file open at [fd], which only [path] names. *)
Lemma ftruncate_files fd path j o (w w' : W) a (n : nat) (old : bytes) f0 :
  K (Ftruncate fd (Z.of_nat n)) w = Answer a w' → ret a ≠ (-1)%Z →
  fd_ofd (view w) fd = Some (j, o) → of_path o = path → files (view w) = <[path := old]> f0 →
  ∃ new, length new = n ∧ files (view w') = <[path := new]> f0 ∧
    maps (view w') = maps (view w) ∧ fd_ofd (view w') fd = Some (j, o).
Proof.
  intros H Ha Hfd Hp Hf. apply file_kernel in H. cbn in H.
  destruct H as [[? _]|(j' & o' & c & Hi & Hc & _ & _ & ->)]; [done|]. simplify_eq.
  rewrite Nat2Z.id. eexists. split; [|split; [|split]]; [|cbn; by rewrite Hf, insert_insert_eq|done|done].
  rewrite length_app, length_take, repeat_length. lia.
Qed.

(** cp.c.  With two different file names, the program ends; when it exits
    with status 0 the destination, old content or not, holds exactly the bytes
    of the source and no other file has changed.  An empty source is never
    copied: the run ends in a reported failure, because a mapping of length 0
    is refused. *)
Lemma cp_ok (w : W) (mode : Z) (argv0 src dst : string) (content : bytes) :
  files (view w) !! src = Some content → src ≠ dst →
  wp K (cp_main mode [argv0; src; dst]) w (λ r w' _,
    ends_with (content ≠ [] ∧ files (view w') = <[dst := content]> (files (view w))) r).
Proof.
  intros Hsrc Hne. cbn [cp_main]. cbv zeta. destruct (streq src "--help"); [by_perror|].
  prog_call. destruct (ret a =? -1)%Z eqn:Ha; zbool; [by_perror|].
  apply file_kernel in H. cbn in H. destruct H as [[? _]|(i & Hfd & Hid & _ & Hv)]; [done|].
  assert (files (view w') = files (view w)) as Hf by (rewrite Hv; cbn; unfold opened_files; by rewrite Hsrc).
  assert (fd_ofd (view w') (ret a) = Some (i, Ofd src 0 O_RDONLY)) as Hfd' by (rewrite Hv; by apply fd_ofd_open).
  clear Hv. prog_call. prog_step. prog_step; zbool; [by_perror|].
  apply file_kernel in H. unfold file_step, fstat_step in H. cbn [fst snd] in H.
  destruct H as [Hv1 [?|(i' & o & c & Hi & Hc & _ & ->)]]; [done|].
  rewrite Hfd' in Hi. injection Hi as <- <-. cbn in Hc. rewrite Hf, Hsrc in Hc. injection Hc as <-.
  rewrite <- Hv1 in Hfd', Hf. clear Hv1.
  prog_call. destruct (ret a0 =? MAP_FAILED)%Z eqn:Hm; zbool; [by_perror|].
  apply file_kernel in H. cbn in H. destruct H as [[? _]|(i' & o & Hi & Hn & _ & _ & Hv)]; [done|].
  rewrite Hfd' in Hi. injection Hi as <- <-. cbn in Hv.
  assert (maps (view w'1) !! ret a0 = Some (Mapping src (Z.of_nat (length content)) false)) as HM
    by (rewrite Hv; cbn; by rewrite lookup_insert_eq).
  assert (files (view w'1) = files (view w)) as Hf1 by (rewrite Hv; done). clear Hv.
  prog_call. destruct (ret a1 =? -1)%Z eqn:Ha1; zbool; [by_perror|].
  rewrite <- (close_files K view _ _ _ _ H) in Hf1. rewrite <- (close_maps _ _ _ _ H) in HM.
  prog_call. destruct (ret a2 =? -1)%Z eqn:Ha2; zbool; [by_perror|].
  apply file_kernel in H0. cbn in H0. destruct H0 as [[? _]|(j & Hfd2 & Hjd & _ & Hv)]; [done|].
  assert (files (view w'3) = <[dst := default [] (files (view w) !! dst)]> (files (view w))) as Hf2.
  { rewrite Hv. cbn. unfold opened_files. rewrite Hf1. destruct (files (view w) !! dst) eqn:E; [|done].
    transitivity (files (view w)); [done|]. by rewrite insert_id. }
  assert (fd_ofd (view w'3) (ret a2) = Some (j, Ofd dst 0 (Z.lor O_RDWR O_CREAT))) as Hj
    by (rewrite Hv; by apply fd_ofd_open).
  assert (maps (view w'3) = maps (view w'2)) as Hm3 by (by rewrite Hv). rewrite <- Hm3 in HM. clear Hv.
  prog_call. destruct (ret a3 =? -1)%Z eqn:Ha3; zbool; [by_perror|].
  destruct (ftruncate_files _ dst j _ _ _ _ _ _ _ H0 Ha3 Hj eq_refl Hf2) as (new & Hlen & Hf4 & Hm4 & Hj4).
  rewrite <- Hm4 in HM.
  prog_call. destruct (ret a4 =? MAP_FAILED)%Z eqn:Ha4; zbool; [by_perror|].
  apply file_kernel in H1. cbn in H1. destruct H1 as [[? _]|(j' & o & Hi & _ & Hfree & _ & Hv)]; [done|].
  rewrite Hj4 in Hi. injection Hi as <- <-. cbn in Hv.
  prog_call. apply file_kernel in H1. cbn in H1. destruct H1 as [Hv6 Hread].
  prog_call. apply file_kernel in H1. cbn in H1.
  assert (a5 = content) as ->.
  { transitivity (take (Z.to_nat (Z.of_nat (length content))) content); [|by rewrite Nat2Z.id, firstn_all].
    apply (Hread (Mapping src (Z.of_nat (length content)) false)); cbn; [|by rewrite Hv; cbn; rewrite Hf4, lookup_insert_ne|lia..].
    rewrite Hv. cbn. rewrite lookup_insert_ne; [done|]. congruence. }
  match type of H1 with memwrite_step _ _ ?v ?v' => assert (files v' = <[dst := content]> (files (view w))) as Hf7 end.
  { erewrite (H1 (Mapping dst (Z.of_nat (length content)) true) new);
      [|by rewrite Hv6, Hv; cbn; rewrite lookup_insert_eq|by rewrite Hv6, Hv; cbn; rewrite Hf4, lookup_insert_eq
       |cbn; lia|lia|done].
    cbn. rewrite Hv6, Hv. cbn. by rewrite Hf4, insert_insert_eq, write_at_full. }
  prog_call. apply file_kernel in H2. cbn in H2.
  prog_call. destruct (ret a7 =? -1)%Z eqn:Ha7; zbool; [by_perror|].
  prog_call. destruct (ret a8 =? -1)%Z eqn:Ha8; zbool; [by_perror|].
  prog_steps. cbn [ends_with]. intros _. split; [intros ->; simpl in Hn; lia|].
  apply munmap_files in H3, H4. congruence.
Qed.

(** C11: copy.c, cp.c and write_bytes.c, for every kernel that keeps the file
    contract, whatever short or failed transfers it answers with.  Given two
    file names copy.c ends, and with status 0 the destination holds exactly the
    source (nothing when both are one file).  The same of cp.c for two different
    files, which copies through mappings; an empty source is never copied,
    because a mapping of length 0 is refused.  write_bytes.c ends within
    [n / b + 1] iterations, and with status 0 exactly [n] bytes have been stored
    from offset 0, each block a prefix of the buffer; the rest of an existing
    file is unchanged.  In every case no other file has changed, and every other
    end is a reported failure. *)
Theorem copying_programs_correct (heap : Z → bytes) (w : W) (fuel : nat) (mode : Z)
    (argv0 src dst argv2 argv3 : string) (n b : Z) (content : bytes) :
  files (view w) !! src = Some content → (∀ k, length (heap k) = Z.to_nat k) →
  (length content < fuel → wp K (copy_main fuel [argv0; src; dst]) w (λ r w' _,
     ends_with (files (view w') =
       <[dst := if decide (src = dst) then [] else content]> (files (view w))) r)) ∧
  (src ≠ dst → wp K (cp_main mode [argv0; src; dst]) w (λ r w' _,
     ends_with (content ≠ [] ∧ files (view w') = <[dst := content]> (files (view w))) r)) ∧
  (long_arg (Some argv2) GN_GT_0 n → long_arg (Some argv3) GN_GT_0 b → (n / b + 1 < Z.of_nat fuel)%Z →
   wp K (write_bytes_main fuel heap [argv0; dst; argv2; argv3]) w (λ r w' _,
     ends_with (files (view w') =
       <[dst := cycle (heap b) (Z.to_nat n) ++ drop (Z.to_nat n) (default [] (files (view w) !! dst))]>
         (files (view w))) r)).
Proof.
  intros Hsrc Hheap. split; [|split].
  - intros Hf. by apply copy_ok.
  - intros Hne. by apply cp_ok.
  - intros Hn Hb Hf. by apply (write_bytes_ok heap w fuel argv0 dst argv2 argv3 n b).
Qed.
End copy.
End programs.

(** ** The programs at work *)

(** A disk with one file; error texts do not matter here. *)
Definition disk (path : string) (content : string) : fsview :=
  FsView {[ path := to_bytes content ]} ∅ ∅ ∅.
Definition no_text (z : Z) : string := "".

Lemma copying_programs_correct_witness :
  wp memfs (copy_main no_text no_text 9 ["copy"; "a"; "b"]) (disk "a" "hello") (λ r w' _,
    ends_with (files w' = <["b"%string := to_bytes "hello"]> (files (disk "a" "hello"))) r) ∧
  wp memfs (cp_main 0 ["copy"; "a"; "b"]) (disk "a" "hello") (λ r w' _,
    ends_with (to_bytes "hello" ≠ [] ∧
      files w' = <["b"%string := to_bytes "hello"]> (files (disk "a" "hello"))) r) ∧
  wp memfs (write_bytes_main no_text no_text 9 (λ k, replicate (Z.to_nat k) "x"%char)
      ["copy"; "b"; "7"; "3"]) (disk "a" "hello") (λ r w' _,
    ends_with (files w' = <["b"%string := to_bytes "xxxxxxx"]> (files (disk "a" "hello"))) r) ∧
  (run memfs (copy_main no_text no_text 9 ["copy"; "a"; "b"]) (disk "a" "hello")).1.1 = Halted (Exited 0) ∧
  (run memfs (cp_main 0 ["cp"; "a"; "b"]) (disk "a" "hello")).1.1 = Halted (Exited 0).
Proof.
  destruct (copying_programs_correct no_text no_text memfs id (λ k, replicate (Z.to_nat k) "x"%char) (disk "a" "hello") 9 0
    "copy" "a" "b" "7" "3" 7 3 (to_bytes "hello")) as (H1 & H2 & H3); [reflexivity|intros k; apply length_replicate|].
  split; [apply H1; cbn; lia|]. split; [apply H2; done|]. split; [|split; reflexivity]. apply H3.
  - exists "7"%string. split; [done|]. split; [apply (number_text_zdec 7)|]. by vm_compute.
  - exists "3"%string. split; [done|]. split; [apply (number_text_zdec 3)|]. by vm_compute.
  - reflexivity.
Defined.
