(* ===== verification/FileTools.v ===== *)
(** * Small file tools: cp_sparse.c, append_and_seek.c, hole_maker.c, tee_append.c

    [cp_sparse_main] is CH04-FILE_IO/cp_sparse/cp_sparse.c, [append_main]
    CH05-FILE_IO_Further_Details/append_and_seek/append_and_seek.c,
    [hole_maker_main] CH04-FILE_IO/cp_sparse/hole_maker.c, [tee_main]
    CH04-FILE_IO/tee_append/tee_append.c. *)
From Stdlib Require Import ZArith Lia Ascii String.
From stdpp Require Import base gmap strings list.
From S2P Require Import Prelude Prog CString Posix ErrorFunctions FileSys Kernels.

Section programs.
Variable ename : Z → string.
Variable strerror : Z → string.

Local Abbreviation errExit := (errExit ename strerror).
Local Abbreviation fatal := (fatal ename strerror).
Local Open Scope prog_scope.

(** [open] of an element of [argv], which may be the terminating NULL. *)
Definition open_arg (path : option string) (flags mode : Z) : prog posix rc :=
  match path with
  | Some p => sys (Open p flags mode)
  | None => Ret (Rc (-1) EFAULT)
  end.

(** ** cp_sparse.c *)

Definition SPARSE_BUF_SIZE : Z := 1024.

(** The body of the [for] loop: one byte of the buffer. *)
Definition sparse_byte (dF : Z) (c : ascii) (nullSeqLen : Z) : prog posix Z :=
  if Ascii.eqb c NUL then Ret (to_size (nullSeqLen + 1))
  else if (0 <? nullSeqLen)%Z then
    sys (Lseek dF (to_long nullSeqLen) SEEK_CUR) ;;;
    sys (Write dF [c]) ;;;
    Ret 0%Z
  else sys (Write dF [c]) ;;; Ret nullSeqLen.

Definition sparse_step (sF dF : Z) (nullSeqLen : Z) : prog posix (Z + unit) :=
  '(readAmount, buf) <- sys (Read sF SPARSE_BUF_SIZE) ;;
  if (0 <? ret readAmount)%Z then
    n <- for_each buf (sparse_byte dF) nullSeqLen ;; Ret (inl n)
  else Ret (inr tt).

(** [garbage] is what the uninitialised [nullSeqLen] holds. *)
Definition cp_sparse_main (fuel : nat) (garbage : Z) (argv : list string) : prog posix unit :=
  match argv with
  | argv0 :: argv1 :: rest =>
      if negb (length argv =? 3) && streq argv1 "--help" then
        printf ("Usage:" +:+ tab +:+ argv0 +:+ " srcfile dstfile") ;;; exit EXIT_FAILURE else
      sF <- sys (Open argv1 O_RDONLY 0) ;;
      if (ret sF =? -1)%Z then errExit (errno sF) "open source file" [] else
      dF <- open_arg (head rest) (Z.lor O_RDWR (Z.lor O_CREAT O_TRUNC)) MODE_0666 ;;
      if (ret dF =? -1)%Z then errExit (errno dF) "open destination file" [] else
      loop fuel (sparse_step (ret sF) (ret dF)) garbage ;;;
      c1 <- sys (Close (ret sF)) ;;
      if (ret c1 =? -1)%Z then errExit (errno c1) "close input" [] else
      c2 <- sys (Close (ret dF)) ;;
      if (ret c2 =? -1)%Z then errExit (errno c2) "close output" [] else
      exit EXIT_SUCCESS
  | _ => undef "strcmp(NULL)"
  end.

(** ** append_and_seek.c and hole_maker.c *)

(** [buf] with its terminating NUL: 27 bytes are written. *)
Definition append_buf : bytes := to_bytes "THIS IS THE TEXT TO APPEND" ++ [NUL].

Definition append_main (argv : list string) : prog posix unit :=
  let usage := printf ("Usage: " +:+ argv_0 argv +:+ " file" +:+ nl) ;;; exit EXIT_FAILURE in
  match argv with
  | [argv0; argv1] =>
      if streq argv1 "--help" then usage else
      fD <- sys (Open argv1 (Z.lor O_APPEND O_RDWR) 0) ;;
      if (ret fD =? -1)%Z then printf ("cannot open file" +:+ nl) ;;; exit EXIT_FAILURE else
      offset <- sys (Lseek (ret fD) 0 SEEK_SET) ;;
      if (ret offset =? -1)%Z then printf ("lseeek error" +:+ nl) ;;; exit EXIT_FAILURE else
      n <- sys (Write (ret fD) append_buf) ;;
      let writeAmount := to_int (ret n) in
      if (writeAmount =? -1)%Z || negb (writeAmount =? 27)%Z then
        printf ("write error or partial write" +:+ nl) ;;; exit EXIT_FAILURE else
      exit EXIT_SUCCESS
  | _ => usage
  end.

Definition hole_maker_main : prog posix unit :=
  fd <- sys (Open "./test_intput_with_hole" (Z.lor O_CREAT (Z.lor O_TRUNC O_WRONLY)) MODE_0666) ;;
  if (ret fd <? 0)%Z then errExit (errno fd) "creat error" [] else
  n <- sys (Write (ret fd) (to_bytes "ABCDE")) ;;
  if negb (ret n =? 5)%Z then errExit (errno n) "buf1 write error" [] else
  o <- sys (Lseek (ret fd) 40 SEEK_SET) ;;
  if (ret o =? -1)%Z then errExit (errno o) "lseek error" [] else
  n <- sys (Write (ret fd) (to_bytes "abcde")) ;;
  if negb (ret n =? 5)%Z then errExit (errno n) "buf2 write error" [] else
  exit 0.

(** ** tee_append.c *)

(** What the first call of [getopt(argc, argv, "a:")] returns, and the message
    it writes to stderr: 'a', '?' for an unknown option or a missing argument, -1
    when no option is left.  Words that are not options are skipped, and [argv]
    is not yet permuted. *)
Fixpoint getopt_a (argv0 : string) (args : list string) : Z * string :=
  match args with
  | [] => (-1, "")%Z
  | a :: rest =>
      match to_bytes a with
      | d :: o :: more =>
          if negb (Ascii.eqb d "-") then getopt_a argv0 rest
          else if streq a "--" then (-1, "")%Z
          else if negb (Ascii.eqb o "a") then
            (code "?", argv0 +:+ ": invalid option -- '" +:+ String o ("'" +:+ nl))
          else match more, rest with
               | [], [] => (code "?", argv0 +:+ ": option requires an argument -- 'a'" +:+ nl)
               | _, _ => (code "a", ""%string)
               end
      | _ => getopt_a argv0 rest
      end
  end.

Definition TEE_BUF_SIZE : Z := 1024.

(** [getopt] leaves [errno] as it was: [errno0]. *)
Definition tee_main (errno0 : Z) (argv : list string) : prog posix unit :=
  let '(opt, msg) := getopt_a (argv_0 argv) (tail argv) in
  eprintf msg ;;;
  if (opt =? -1)%Z then errExit errno0 "getopts" [] else
  if (opt =? code "a")%Z then
    fileD <- open_arg (nth_error argv 2) (Z.lor O_RDWR (Z.lor O_APPEND O_CREAT)) MODE_0666 ;;
    if (ret fileD =? -1)%Z then errExit (errno fileD) "open" [] else
    '(i, buf) <- sys (Read STDIN_FILENO TEE_BUF_SIZE) ;;
    if (ret i <? 0)%Z then fatal "EOF or error occured when reading from STDIN" [] else
    j <- sys (Write (ret fileD) buf) ;;
    if (ret j =? -1)%Z then errExit (errno j) "write" [] else
    sys (Close (ret fileD)) ;;;
    exit EXIT_SUCCESS
  else
    e <- sys (Execve "/usr/bin/tee" argv) ;;
    errExit (errno e) "tee" [].

(** ** Properties *)

Section correctness.
Context {W : Type} (K : kernel posix W) (view : W → fsview) `{!FileKernel K view}.

(** A kernel whose reads do not fail and whose writes are complete, on a
    descriptor open on an existing file. *)
Class Reliable : Prop := {
  reliable_read fd n w a w' id o : K (Read fd n) w = Answer a w' → (0 <= n)%Z →
    fd_ofd (view w) fd = Some (id, o) → is_Some (files (view w) !! of_path o) → ret a.1 ≠ (-1)%Z;
  reliable_write fd buf w a w' id o : K (Write fd buf) w = Answer a w' →
    fd_ofd (view w) fd = Some (id, o) → is_Some (files (view w) !! of_path o) →
    ret a = Z.of_nat (length buf) }.

(** Without the NULs at its end. *)
Definition strip (d : bytes) : bytes :=
  foldr (λ c r, if Ascii.eqb c NUL && bool_decide (r = []) then [] else c :: r) [] d.

Lemma strip_snoc d c : strip (d ++ [c]) = if Ascii.eqb c NUL then strip d else d ++ [c].
Proof.
  induction d as [|x d IH]; simpl; [by destruct (Ascii.eqb c NUL)|].
  unfold strip in *. simpl. rewrite IH. destruct (Ascii.eqb c NUL); [done|].
  rewrite bool_decide_eq_false_2; [by rewrite andb_false_r|by destruct d].
Qed.

Lemma strip_pad d : ∃ n, d = strip d ++ repeat NUL n.
Proof.
  induction d as [|x d [n IH]] using rev_ind; [by exists 0|].
  rewrite strip_snoc. destruct (Ascii.eqb_spec x NUL) as [->|_].
  - exists (S n). rewrite IH at 1. rewrite <- app_assoc. f_equal. by rewrite <- repeat_cons.
  - exists 0. by rewrite app_nil_r.
Qed.

(** The state of the sparse copy after the bytes [d]: the destination holds
    them without the NULs at the end, of which [nullSeqLen] counts. *)
Record sparse (src dst : string) (content : bytes) (f0 : gmap string bytes)
    (sF dF : Z) (pos : nat) (d : bytes) (n : Z) (w : W) : Prop := Sparse {
  sp_files : files (view w) = <[dst := strip d]> f0;
  sp_src : f0 !! src = Some content;
  sp_n : Z.of_nat (length d) = (Z.of_nat (length (strip d)) + n)%Z;
  sp_fds : ∃ i fi j fj, i ≠ j ∧ flag_set fj O_APPEND = false ∧
    fd_ofd (view w) sF = Some (i, Ofd src pos fi) ∧
    fd_ofd (view w) dF = Some (j, Ofd dst (length (strip d)) fj) }.


Lemma sparse_byte_ok `{HR : !Reliable} src dst content f0 sF dF pos d n c w :
  (Z.of_nat (length content) <= LONG_MAX)%Z → length d < length content → (0 <= n)%Z →
  (src = dst → content = []) →
  sparse src dst content f0 sF dF pos d n w →
  wp K (sparse_byte dF c n) w (λ r w' _, match r with
    | Returned n' => sparse src dst content f0 sF dF pos (d ++ [c]) n' w' ∧ (0 <= n')%Z
    | r => r = Gone
    end).
Proof.
  intros Hmax Hlen Hn Hne [Hf Hs Hc (i & fi & j & fj & Hij & Happ & Hi & Hj)].
  unfold LONG_MAX in Hmax.
  destruct (strip_pad d) as [k Hk].
  assert (n = Z.of_nat k) as Hnk.
  { apply (f_equal length) in Hk. rewrite length_app, repeat_length in Hk. lia. }
  assert (∀ off w1 w2 a, off = length d →
    files (view w1) = <[dst := strip d]> f0 → fd_ofd (view w1) sF = Some (i, Ofd src pos fi) →
    fd_ofd (view w1) dF = Some (j, Ofd dst off fj) → K (Write dF [c]) w1 = Answer a w2 →
    Ascii.eqb c NUL = false →
    sparse src dst content f0 sF dF pos (d ++ [c]) 0 w2) as Hwrite.
  { intros off w1 w2 a -> Hf1 Hi1 Hj1 Hw Hcn.
    pose proof (reliable_write _ _ _ _ _ _ _ Hw Hj1 ltac:(rewrite Hf1; cbn; rewrite lookup_insert_eq; eauto)) as Ha.
    apply file_kernel in Hw. cbn in Hw.
    eapply write_files in Hw; [|done|done|by rewrite Hf1, lookup_insert_eq].
    unfold write_off in Hw. cbn [of_flags of_off of_path] in Hw. rewrite Happ in Hw.
    assert (strip (d ++ [c]) = d ++ [c]) as Hsd by (by rewrite strip_snoc, Hcn).
    split; rewrite ?Hsd.
    - rewrite Hw, files_set_off, files_set_files, Hf1, insert_insert_eq. f_equal.
      unfold write_at. rewrite drop_ge by (rewrite Hk at 2; rewrite length_app; cbn; lia).
      assert (strip d ++ repeat NUL (length d - length (strip d)) = d) as ->.
      { rewrite Hk at 4. f_equal. f_equal. apply (f_equal length) in Hk.
        rewrite length_app, repeat_length in Hk. lia. }
      by rewrite firstn_all.
    - done.
    - lia.
    - exists i, fi, j, fj. repeat split; [done|done| |].
      + rewrite Hw. by apply fd_ofd_set_off_ne.
      + rewrite Hw. rewrite length_app. by eapply (fd_ofd_set_off j (Ofd dst (length d) fj)). }
  unfold sparse_byte. destruct (Ascii.eqb c NUL) eqn:Hcn.
  - apply wp_ret. unfold to_size. rewrite Z.mod_small by lia. split; [|lia].
    split; rewrite ?strip_snoc, ?Hcn; try done; [rewrite length_app; cbn; lia|].
    by exists i, fi, j, fj.
  - destruct (0 <? n)%Z eqn:Hpos; zbool.
    + prog_call. apply file_kernel in H. cbn in H. unfold lseek_step in H. rewrite Hj in H.
      cbn [of_path] in H. rewrite Hf, lookup_insert_eq in H. cbv zeta in H.
      unfold seek_base in H. cbn [of_off] in H.
      rewrite (to_long_id n) in H by (unfold in_long, LONG_MIN, LONG_MAX; lia).
      change (SEEK_CUR =? SEEK_SET)%Z with false in H. change (SEEK_CUR =? SEEK_CUR)%Z with true in H.
      cbv iota in H. rewrite (proj2 (Z.ltb_ge _ _)) in H by lia. destruct H as [_ H].
      prog_call. prog_steps. split; [|done].
      apply (Hwrite (length d) w' w'0 a0); try done.
      * by rewrite H.
      * rewrite H. by apply fd_ofd_set_off_ne.
      * rewrite H. erewrite fd_ofd_set_off by done. cbn. do 3 f_equal. lia.
    + prog_call. prog_steps. assert (n = 0%Z) as -> by lia. split; [|done].
      apply (Hwrite (length (strip d)) w w' a); try done. lia.
Qed.

Lemma sparse_bytes_ok `{HR : !Reliable} src dst content f0 sF dF pos d buf n w :
  (Z.of_nat (length content) <= LONG_MAX)%Z → length d + length buf ≤ length content → (0 <= n)%Z →
  (src = dst → content = []) →
  sparse src dst content f0 sF dF pos d n w →
  wp K (for_each buf (sparse_byte dF) n) w (λ r w' _, match r with
    | Returned n' => sparse src dst content f0 sF dF pos (d ++ buf) n' w' ∧ (0 <= n')%Z
    | r => r = Gone
    end).
Proof.
  intros Hmax. revert d n w. induction buf as [|c buf IH]; intros d n w Hlen Hn Hne Hsp; cbn [for_each].
  { apply wp_ret. by rewrite app_nil_r. }
  apply wp_bind. eapply wp_mono.
  { apply sparse_byte_ok; try done. cbn in Hlen. lia. }
  intros [n'|h|] w' t; [intros [Hsp' Hn']|done|done].
  replace (d ++ c :: buf) with ((d ++ [c]) ++ buf) by (by rewrite <- app_assoc).
  apply IH; try done. rewrite length_app. cbn in *. lia.
Qed.

Lemma sparse_loop `{HR : !Reliable} src dst content f0 sF dF n w fuel k :
  (Z.of_nat (length content) <= LONG_MAX)%Z → (0 <= n)%Z → (src = dst → content = []) → src ≠ dst →
  k ≤ length content → length content - k < fuel →
  sparse src dst content f0 sF dF k (take k content) n w →
  wp K (loop fuel (sparse_step sF dF) n) w (λ r w' _, match r with
    | Returned _ => files (view w') = <[dst := strip content]> f0
    | r => r = Gone
    end).
Proof.
  intros Hmax Hn Hne Hd. revert n w k Hn.
  induction fuel as [|fuel IH]; intros n w k Hn Hk Hfuel Hsp; [lia|].
  cbn [loop]. apply wp_bind. unfold sparse_step. prog_call. destruct a as [ra buf].
  destruct Hsp as [Hf Hs Hc (i & fi & j & fj & Hij & Happ & Hi & Hj)].
  assert (files (view w) !! src = Some content) as Hs' by (by rewrite Hf, lookup_insert_ne).
  pose proof (reliable_read _ _ _ _ _ _ _ H ltac:(done) Hi ltac:(eauto)) as Hra.
  apply file_kernel in H. unfold file_step, read_step in H. cbn [fst snd] in *.
  destruct H as [[? _]|(i' & o & c & Hi' & Hc' & H1 & _ & H2 & H3 & Hv)]; [done|].
  rewrite Hi in Hi'. injection Hi' as <- <-. cbn in Hc', H2, H3, Hv.
  rewrite Hs' in Hc'. injection Hc' as <-.
  assert (length buf ≤ length content - k) as Hlb.
  { rewrite H2, length_take, length_drop. lia. }
  destruct (0 <? ret ra)%Z eqn:Hr; zbool.
  - apply wp_bind. eapply wp_mono.
    { apply (sparse_bytes_ok src dst content f0 sF dF (k + length buf) (take k content));
        [done|rewrite length_take; lia|done|done|].
      split; [by rewrite Hv|done|done|].
      exists i, fi, j, fj. repeat split; [done|done| |].
      - rewrite Hv. by eapply (fd_ofd_set_off i (Ofd src k fi)).
      - rewrite Hv. by apply fd_ofd_set_off_ne. }
    intros [n'|h|] w'' t; [intros [Hsp' Hn']|done|done].
    apply wp_ret. eapply wp_mono.
    { apply (IH _ _ (k + length buf)); [done|lia|lia|].
      rewrite H2 in Hsp' at 2. by rewrite take_extend in Hsp'. }
    by intros [?|?|].
  - apply wp_ret. apply wp_ret. rewrite Hv, files_set_off, Hf. f_equal. f_equal. apply take_ge.
    destruct H3 as [?|?]; [|unfold SPARSE_BUF_SIZE in *; lia|lia].
    apply length_zero_iff_nil. lia.
Qed.

Lemma cp_sparse_ok `{HR : !Reliable} (w : W) (fuel : nat) (argv0 src dst : string) (content : bytes) :
  files (view w) !! src = Some content → src ≠ dst →
  (Z.of_nat (length content) <= LONG_MAX)%Z → length content < fuel →
  wp K (cp_sparse_main fuel 0 [argv0; src; dst]) w (λ r w' _,
    ends_with (files (view w') = <[dst := strip content]> (files (view w))) r).
Proof.
  intros Hsrc Hne Hmax Hfuel. cbn [cp_sparse_main length head open_arg andb negb Nat.eqb].
  prog_call. destruct (ret a =? -1)%Z eqn:Ha; zbool; [by_report|].
  apply file_kernel in H. cbn in H. destruct H as [[? _]|(i & Hfd & Hid & _ & Hv)]; [done|].
  prog_call. destruct (ret a0 =? -1)%Z eqn:Ha0; zbool; [by_report|].
  apply file_kernel in H. cbn in H. destruct H as [[? _]|(j & Hfd' & Hjd & _ & Hv')]; [done|].
  apply wp_bind. eapply wp_mono.
  { apply (sparse_loop src dst content (files (view w)) (ret a) (ret a0) 0 _ fuel 0); [done..|lia|lia|].
    assert (files (view w') = files (view w)) as Hf.
    { rewrite Hv. cbn. unfold opened_files. by rewrite Hsrc. }
    split; [|done|done|].
    - rewrite Hv'. cbn. unfold opened_files. rewrite Hf. by destruct (files (view w) !! dst).
    - assert (fd_ofd (view w') (ret a) = Some (i, Ofd src 0 O_RDONLY)) as Hi.
      { rewrite Hv. by apply fd_ofd_open. }
      set (fl := Z.lor O_RDWR (Z.lor O_CREAT O_TRUNC)) in *.
      destruct (fd_ofd_open_ne (view w') dst fl
         (ret a0) j (opened_files dst fl (files (view w'))) (maps (view w')) (ret a) i _
         ltac:(apply Hfd') Hjd Hi) as (Hi' & Hij & _).
      eexists i, _, j, _. split; [done|]. split; [|rewrite Hv'; split; [exact Hi'|by apply fd_ofd_open]].
      done. }
  intros r w'1 t Hr. destruct r as [r|h|]; [|done|done].
  prog_call. destruct (ret a1 =? -1)%Z eqn:Ha1; zbool; [by_report|].
  prog_call. destruct (ret a2 =? -1)%Z eqn:Ha2; zbool; [by_report|].
  prog_steps. intros _. apply (close_files K view) in H, H0. congruence.
Qed.

(** Closes the goal of a print-and-exit branch. *)
Local Ltac by_exit := prog_steps; cbn [failed ends_with]; (done || by intros).

Lemma write_whole fd buf (w w' : W) a id o content :
  K (Write fd buf) w = Answer a w' → ret a = Z.of_nat (length buf) →
  fd_ofd (view w) fd = Some (id, o) → files (view w) !! of_path o = Some content →
  files (view w') = <[of_path o := write_at (write_off o content) content buf]> (files (view w)) ∧
  fd_ofd (view w') fd = Some (id, Ofd (of_path o) (write_off o content + length buf) (of_flags o)).
Proof.
  intros H Ha Hfd Hc. apply file_kernel in H. cbn in H.
  eapply write_files in H; [|done..]. rewrite H. split; [done|]. by eapply fd_ofd_set_off.
Qed.

Lemma seek_set fd off (w w' : W) a id o :
  K (Lseek fd off SEEK_SET) w = Answer a w' → ret a ≠ (-1)%Z → fd_ofd (view w) fd = Some (id, o) →
  files (view w') = files (view w) ∧
  fd_ofd (view w') fd = Some (id, Ofd (of_path o) (Z.to_nat off) (of_flags o)).
Proof.
  intros H Ha Hfd. apply file_kernel in H. cbn in H. unfold lseek_step in H. rewrite Hfd in H.
  destruct (files (view w) !! of_path o) as [l|]; [|by destruct H].
  change (seek_base o l SEEK_SET) with 0%Z in H. rewrite Z.add_0_l in H. cbv zeta in H.
  destruct (off <? 0)%Z; [by destruct H|]. destruct H as [_ ->].
  split; [done|]. by eapply fd_ofd_set_off.
Qed.

Lemma append_main_ok (w : W) (argv0 path : string) (old : bytes) :
  files (view w) !! path = Some old →
  wp K (append_main [argv0; path]) w (λ r w' _,
    ends_with (files (view w') = <[path := old ++ append_buf]> (files (view w))) r).
Proof.
  intros Hold.
  unfold append_main. cbv zeta. destruct (streq path "--help"); [by_exit|].
  prog_call. destruct (ret a =? -1)%Z eqn:Ha; zbool; [by_exit|].
  apply file_kernel in H. cbn in H. destruct H as [[? _]|(i & Hfd & Hid & _ & Hv)]; [done|].
  assert (fd_ofd (view w') (ret a) = Some (i, Ofd path 0 (Z.lor O_APPEND O_RDWR))) as Hi
    by (rewrite Hv; by apply fd_ofd_open).
  assert (files (view w') = files (view w)) as Hf
    by (rewrite Hv; cbn; unfold opened_files; by rewrite Hold).
  prog_call. destruct (ret a0 =? -1)%Z eqn:Ha0; zbool; [by_exit|].
  destruct (seek_set _ _ _ _ _ _ _ H Ha0 Hi) as [Hf1 Hi1]. cbn in Hi1.
  prog_call. destruct (_ || _) eqn:Hn; [by_exit|]. zbool.
  assert (ret a1 = 27%Z) as Hr.
  { pose proof (file_kernel _ _ _ _ H0) as Hw. cbn in Hw.
    destruct Hw as [[Hw _]|(? & ? & ? & k & _ & _ & Hk & Hw & _)]; [by rewrite Hw in *|].
    cbn [length] in Hk. rewrite <- (to_int_id (ret a1)); [done|].
    unfold in_int, INT_MIN, INT_MAX. lia. }
  destruct (write_whole _ _ _ _ _ _ _ old H0 Hr Hi1) as [Hf2 _];
    [cbn; by rewrite Hf1, Hf|].
  prog_steps. intros _. cbn [of_path] in Hf2. rewrite Hf2, Hf1, Hf. f_equal.
  apply write_at_end.
Qed.

Lemma hole_maker_ok (w : W) :
  wp K hole_maker_main w (λ r w' _,
    ends_with (files (view w') =
      <["./test_intput_with_hole"%string :=
          to_bytes "ABCDE" ++ repeat NUL 35 ++ to_bytes "abcde"]> (files (view w))) r).
Proof.
  unfold hole_maker_main. set (fl := Z.lor O_CREAT (Z.lor O_TRUNC O_WRONLY)).
  prog_call. destruct (ret a <? 0)%Z eqn:Ha; zbool; [by_report|].
  apply file_kernel in H. cbn in H. destruct H as [[? _]|(i & Hfd & Hid & _ & Hv)]; [lia|].
  assert (fd_ofd (view w') (ret a) = Some (i, Ofd "./test_intput_with_hole" 0 fl)) as Hi
    by (rewrite Hv; by apply fd_ofd_open).
  assert (files (view w') = <["./test_intput_with_hole"%string := []]> (files (view w))) as Hf.
  { rewrite Hv. cbn. unfold opened_files. by case_match. }
  prog_call. destruct (negb _) eqn:Hn; [by_report|]. zbool.
  destruct (write_whole _ _ _ _ _ _ _ [] H Hn Hi) as [Hf1 Hi1]; [by rewrite Hf; cbn; rewrite lookup_insert_eq|].
  prog_call. destruct (ret a1 =? -1)%Z eqn:Ha1; zbool; [by_report|].
  destruct (seek_set _ _ _ _ _ _ _ H0 Ha1 Hi1) as [Hf2 Hi2].
  prog_call. destruct (negb _) eqn:Hn2; [by_report|]. zbool.
  destruct (write_whole _ _ _ _ _ _ _ (to_bytes "ABCDE") H1 Hn2 Hi2) as [Hf3 _].
  { cbn [of_path]. rewrite Hf2, Hf1. cbn [of_path]. by rewrite lookup_insert_eq. }
  prog_steps. intros _. cbn [of_path] in *. rewrite Hf3, Hf2, Hf1, Hf, !insert_insert_eq. done.
Qed.

Lemma tee_append_ok (w : W) (errno0 : Z) (argv0 path inp : string) (old rest : bytes) id :
  fd_ofd (view w) STDIN_FILENO = Some id → of_path id.2 = inp → inp ≠ path →
  (∃ content, files (view w) !! inp = Some content ∧ rest = drop (of_off id.2) content) →
  default [] (files (view w) !! path) = old →
  wp K (tee_main errno0 [argv0; "-a"; path]) w (λ r w' t,
    ends_with (∃ d d', d `prefix_of` rest ∧ length d <= 1024 ∧ (d = [] → rest = []) ∧ d' `prefix_of` d ∧
      files (view w') = <[path := old ++ d']> (files (view w)) ∧
      ∀ s, EOut (Out s) ∉ t) r).
Proof.
  intros Hin Hinp Hne (content & Hc & ->) Hold. destruct id as [id o]. cbn [snd] in *. subst inp.
  unfold tee_main. change (getopt_a _ _) with (code "a", ""%string). cbv iota.
  change (code "a" =? -1)%Z with false. change (code "a" =? code "a")%Z with true.
  cbn [nth_error open_arg]. set (fl := Z.lor O_RDWR (Z.lor O_APPEND O_CREAT)).
  prog_call. destruct (ret a =? -1)%Z eqn:Ha; zbool; [by_report|].
  apply file_kernel in H. cbn in H. destruct H as [[? _]|(j & Hfd & Hjd & _ & Hv)]; [done|].
  destruct (fd_ofd_open_ne (view w) path fl (ret a) j (opened_files path fl (files (view w)))
    (maps (view w)) STDIN_FILENO id o ltac:(apply Hfd) Hjd Hin) as (Hin' & Hij & Hne').
  rewrite <- Hv in Hin'.
  assert (fd_ofd (view w') (ret a) = Some (j, Ofd path 0 fl)) as Hj by (rewrite Hv; by apply fd_ofd_open).
  assert (files (view w') = <[path := old]> (files (view w))) as Hf.
  { rewrite Hv. cbn. unfold opened_files. destruct (files (view w) !! path) eqn:E; cbn in Hold; subst old; [|done].
    symmetry. by apply insert_id. }
  prog_call. destruct a0 as [ra buf]. destruct (ret ra <? 0)%Z eqn:Hr; zbool; [by_report|].
  apply file_kernel in H. unfold file_step, read_step in H. cbn [fst snd] in H.
  destruct H as [[? _]|(id' & o' & c & Hi' & Hc' & H1 & H2 & H3 & H4 & Hv')]; [lia|].
  rewrite Hin' in Hi'. injection Hi' as <- <-.
  rewrite Hf, lookup_insert_ne, Hc in Hc' by done. injection Hc' as <-.
  prog_call. destruct (ret a0 =? -1)%Z eqn:Ha0; zbool; [by_report|].
  apply file_kernel in H. cbn in H. destruct H as [[? _]|(j' & o2 & c & k & Hj' & Hc2 & Hk & _ & Hv2)]; [done|].
  rewrite Hv' in Hj'. rewrite (fd_ofd_set_off_ne _ _ _ _ _ _ _ Hij Hj) in Hj'. injection Hj' as <- <-.
  rewrite Hv', files_set_off, Hf in Hc2. cbn in Hc2. rewrite lookup_insert_eq in Hc2. injection Hc2 as <-.
  prog_call. prog_steps. intros _. apply (close_files K view) in H.
  exists buf, (take k buf). split; [|split; [|split; [|split; [|split]]]].
  - rewrite H3. exists (drop (length buf) (drop (of_off o) content)). by rewrite take_drop.
  - unfold TEE_BUF_SIZE in H2. lia.
  - intros He. destruct (H4 He) as [?|?]; [done|]. by apply drop_ge.
  - exists (drop k buf). by rewrite take_drop.
  - rewrite H, Hv2. cbn. rewrite Hv', files_set_off, Hf, insert_insert_eq. f_equal. apply write_at_end.
  - intros s. rewrite !not_elem_of_cons. repeat split; done || apply not_elem_of_nil.
Qed.

Lemma append_tools_ok (w : W) (errno0 : Z) (argv0 path inp : string) (old content : bytes) id :
  fd_ofd (view w) STDIN_FILENO = Some id → of_path id.2 = inp → inp ≠ path →
  files (view w) !! inp = Some content → default [] (files (view w) !! path) = old →
  (files (view w) !! path = Some old → wp K (append_main [argv0; path]) w (λ r w' _,
    ends_with (files (view w') = <[path := old ++ append_buf]> (files (view w))) r)) ∧
  wp K hole_maker_main w (λ r w' _,
    ends_with (files (view w') =
      <["./test_intput_with_hole"%string :=
          to_bytes "ABCDE" ++ repeat NUL 35 ++ to_bytes "abcde"]> (files (view w))) r) ∧
  wp K (tee_main errno0 [argv0; "-a"; path]) w (λ r w' t,
    ends_with (∃ d d', d `prefix_of` drop (of_off id.2) content ∧ length d <= 1024 ∧
      (d = [] → drop (of_off id.2) content = []) ∧ d' `prefix_of` d ∧
      files (view w') = <[path := old ++ d']> (files (view w)) ∧
      ∀ s, EOut (Out s) ∉ t) r).
Proof.
  intros Hin Hinp Hne Hc Hold.
  split; [intros Hp; by apply append_main_ok|split; [apply hole_maker_ok|]].
  apply (tee_append_ok w errno0 argv0 path inp old (drop (of_off id.2) content) id); [done..| |done].
  by exists content.
Qed.


End correctness.
End programs.

(** ** The programs at work *)

#[export] Instance memfs_reliable : Reliable memfs id.
Proof.
  split; intros fd x w a w' i o H; cbn in H; unfold id in *.
  - intros Hx Hfd [content Hc]. rewrite (proj2 (Z.ltb_ge _ _)) in H by done.
    unfold with_file in H. rewrite Hfd, Hc in H. injection H as <- _. cbn. lia.
  - intros Hfd [content Hc]. unfold with_file in H. rewrite Hfd, Hc in H. by injection H as <- _.
Qed.

Definition no_text (z : Z) : string := "".
Definition holes : bytes := [NUL; "a"; NUL; NUL; "b"; NUL]%char.
Definition holes_disk : fsview := FsView {[ "a"%string := holes ]} ∅ ∅ ∅.

(** Standard input is the file [in], three characters of which are read. *)
Definition stdin_disk : fsview :=
  FsView {[ "in"%string := to_bytes "xyhello"; "a"%string := to_bytes "old " ]}
    {[ 0%Z := 0 ]} {[ 0 := Ofd "in" 2 0 ]} ∅.

