(* ===== verification/IoCalls.v ===== *)
(** * Library calls rebuilt from simpler ones: readv_writev.c, fcntln_as_dupn.c

    [my_readv] and [my_writev] are
    CH05-FILE_IO_Further_Details/readv_writev/readv_writev.c, [mydup] and
    [mydup2] CH05-FILE_IO_Further_Details/fcntl_as_dupn/fcntln_as_dupn.c. *)
From Stdlib Require Import ZArith Lia Ascii String.
From stdpp Require Import base gmap strings list.
From S2P Require Import Prelude Prog CString Posix FileSys Kernels.

Local Open Scope prog_scope.

(** ** readv_writev.c *)

Definition SSIZE_MAX : Z := LONG_MAX.

(** The arrays of [my_iov]: for reading the lengths of the buffers, for writing
    their contents.  The loop counter is an [int]; arrays of more than [INT_MAX]
    entries are outside the model.  The result is the value returned and what
    was stored in the buffers, in order. *)
Fixpoint readv_loop (fileDes : Z) (iov : list Z) (totalBytesRead : Z) (stored : list bytes) :
    prog posix (Z * list bytes) :=
  match iov with
  | [] => Ret (totalBytesRead, stored)
  | length :: iov' =>
      '(bytesRead, buf) <- sys (Read fileDes length) ;;
      if (ret bytesRead =? -1)%Z then perror "read" (errno bytesRead) ;;; Ret ((-1)%Z, stored) else
      let total := (totalBytesRead + ret bytesRead)%Z in
      if (LONG_MAX <? total)%Z then undef "signed overflow" else
      if (SSIZE_MAX <=? total)%Z then
        perror "total length exceeds SSIZE_MAX" EINVAL ;;; Ret ((-1)%Z, stored ++ [buf])
      else readv_loop fileDes iov' total (stored ++ [buf])
  end.

Definition my_readv (fileDes : Z) (iov : list Z) : prog posix (Z * list bytes) :=
  if length iov <? 1 then perror "iovcnt" EINVAL ;;; Ret ((-1)%Z, [])
  else readv_loop fileDes iov 0 [].

Fixpoint writev_loop (fileDes : Z) (iov : list bytes) (totalBytesWritten : Z) : prog posix Z :=
  match iov with
  | [] => Ret totalBytesWritten
  | buf :: iov' =>
      bytesWritten <- sys (Write fileDes buf) ;;
      if (ret bytesWritten =? -1)%Z then perror "write" (errno bytesWritten) ;;; Ret (-1)%Z else
      let total := (totalBytesWritten + ret bytesWritten)%Z in
      if (LONG_MAX <? total)%Z then undef "signed overflow" else
      if (SSIZE_MAX <=? total)%Z then
        perror "total length exceeds SSIZE_MAX" EINVAL ;;; Ret (-1)%Z
      else writev_loop fileDes iov' total
  end.

Definition my_writev (fileDes : Z) (iov : list bytes) : prog posix Z :=
  if length iov <? 1 then perror "iovcnt" EINVAL ;;; Ret (-1)%Z
  else writev_loop fileDes iov 0.

(** ** fcntln_as_dupn.c *)

(** [fcntl(oldfd, F_DUPFD)] passes no third argument: the kernel sees what the
    register holds, [garbage]. *)
Definition mydup (garbage : Z) (oldfd : Z) : prog posix Z :=
  newfd <- sys (Fcntl oldfd F_DUPFD garbage) ;;
  if (ret newfd =? -1)%Z then perror "mydup" (errno newfd) ;;; exit EXIT_FAILURE else
  sys (Close oldfd) ;;;
  Ret (ret newfd).

Definition mydup2 (oldfd newfd : Z) : prog posix Z :=
  if (oldfd =? newfd)%Z then Ret newfd else
  v <- sys (Fcntl oldfd F_GETFL 0) ;;
  if (ret v =? -1)%Z then perror "mydup2" (errno v) ;;; exit EXIT_FAILURE else
  o <- sys (Fcntl newfd F_GETFL 0) ;;
  when (negb (ret o =? -1)%Z) (sys (Close newfd) ;;; Ret tt) ;;;
  res <- sys (Fcntl oldfd F_DUPFD newfd) ;;
  if (ret res =? -1)%Z then perror "mydup2" (errno res) ;;; exit EXIT_FAILURE else
  sys (Close oldfd) ;;;
  Ret newfd.

(** ** Properties *)

Section correctness.
Context {W : Type} (K : kernel posix W) (view : W → fsview) `{!FileKernel K view}.

Lemma fd_ofd_inv v fd id o : fd_ofd v fd = Some (id, o) → fds v !! fd = Some id ∧ ofds v !! id = Some o.
Proof.
  unfold fd_ofd. destruct (fds v !! fd) as [i|]; [|done]. destruct (ofds v !! i) eqn:E; [|done].
  by intros [= -> ->].
Qed.

Lemma set_off_same v fd id o : fd_ofd v fd = Some (id, o) → set_off id o (of_off o + 0) v = v.
Proof.
  intros [_ H]%fd_ofd_inv. destruct v as [f d os m], o as [p n fl]. unfold set_off, set_ofds. cbn in *.
  rewrite Nat.add_0_r. by rewrite insert_id.
Qed.

Lemma set_off_set_off id o n m v : set_off id (Ofd (of_path o) n (of_flags o)) m (set_off id o n v) = set_off id o m v.
Proof. unfold set_off, set_ofds. cbn. by rewrite insert_insert_eq. Qed.

Lemma readv_loop_ok fd id content iov : ∀ w o stored total,
  fd_ofd (view w) fd = Some (id, o) → files (view w) !! of_path o = Some content →
  Forall (λ n, 0 <= n)%Z iov →
  total = Z.of_nat (length (concat stored)) →
  (total + Z.of_nat (length content - of_off o) < LONG_MAX)%Z →
  wp K (readv_loop fd iov total stored) w (λ r w' _, match r with
    | Returned (n, bufs) => ∃ more, bufs = stored ++ more ∧
        Forall2 (λ b len, Z.of_nat (length b) <= len)%Z more (take (length more) iov) ∧
        concat more = take (length (concat more)) (drop (of_off o) content) ∧
        view w' = set_off id o (of_off o + length (concat more)) (view w) ∧
        (n = (-1)%Z ∧ length more < length iov ∨
         length more = length iov ∧ n = Z.of_nat (length (concat bufs)))
    | r => r = Gone
    end).
Proof.
  induction iov as [|len iov IH]; intros w o stored total Hfd Hc Hiov Htot Hmax; cbn [readv_loop].
  { apply wp_ret. exists []. rewrite app_nil_r. repeat split; [constructor|by rewrite (set_off_same _ fd)|by right]. }
  apply Forall_cons in Hiov as [Hlen Hiov].
  prog_call. destruct a as [r b]. apply file_kernel in H. unfold file_step, read_step in H. cbn [fst snd] in H.
  destruct (ret r =? -1)%Z eqn:Hr; zbool.
  { prog_steps. exists []. rewrite app_nil_r. cbn.
    assert (view w' = view w) as Hv.
    { destruct H as [[_ [_ H]]|(i & o' & c & _ & _ & H & _)]; [done|lia]. }
    repeat split; [constructor| |left; split; [done|lia]]. by rewrite Hv, (set_off_same _ fd). }
  destruct H as [[? _]|(i & o' & c & Hi & Hc' & H1 & H2 & H3 & _ & Hv)]; [done|].
  rewrite Hfd in Hi. injection Hi as <- <-. rewrite Hc in Hc'. injection Hc' as <-.
  assert (length b ≤ length content - of_off o) as Hb by (rewrite H3, length_take, length_drop; lia).
  rewrite (proj2 (Z.ltb_ge _ _)) by lia.
  rewrite (proj2 (Z.leb_gt _ _)) by (unfold SSIZE_MAX; lia).
  eapply wp_mono.
  { apply (IH w' (Ofd (of_path o) (of_off o + length b) (of_flags o)) (stored ++ [b])).
    - rewrite Hv. by eapply fd_ofd_set_off.
    - by rewrite Hv.
    - done.
    - rewrite concat_app, length_app. cbn. rewrite app_nil_r. lia.
    - cbn. lia. }
  intros [[n bufs]|h|] w2 t; [|done|done]. cbn [of_off of_path].
  intros (more & -> & Hf & Hm & Hv2 & Hn). exists (b :: more).
  rewrite <- app_assoc. split; [done|]. split; [|split; [|split]].
  - cbn. by constructor; [lia|].
  - cbn [concat]. rewrite length_app, <- take_extend. f_equal; [done|].
    by rewrite drop_drop.
  - rewrite Hv2, Hv. cbn [concat]. rewrite length_app, Nat.add_assoc. apply set_off_set_off.
  - cbn. rewrite <- app_assoc in Hn. destruct Hn as [[-> ?]|[-> ->]]; [left; split; [done|lia]|right; done].
Qed.


(** What a vector write has stored: a prefix of every buffer. *)
Lemma writev_loop_ok fd id iov f0 : ∀ w o content total,
  fd_ofd (view w) fd = Some (id, o) → flag_set (of_flags o) O_APPEND = false →
  files (view w) = <[of_path o := content]> f0 →
  (0 <= total)%Z → (total + Z.of_nat (length (concat iov)) < LONG_MAX)%Z →
  of_off o = length content →
  wp K (writev_loop fd iov total) w (λ r w' _, match r with
    | Returned n => ∃ ds, Forall2 prefix ds (take (length ds) iov) ∧
        files (view w') = <[of_path o := content ++ concat ds]> f0 ∧
        (n = (-1)%Z ∧ length ds < length iov ∨
         length ds = length iov ∧ n = (total + Z.of_nat (length (concat ds)))%Z)
    | r => r = Gone
    end).
Proof.
  induction iov as [|buf iov IH]; intros w o content total Hfd Hfl Hf Htot Hmax Hoff; cbn [writev_loop].
  { apply wp_ret. exists []. cbn. rewrite app_nil_r. repeat split; [constructor|done|right; split; [done|lia]]. }
  cbn [concat] in Hmax. rewrite length_app in Hmax.
  prog_call. apply file_kernel in H. cbn in H.
  destruct (ret a =? -1)%Z eqn:Hr; zbool.
  { prog_steps. exists []. cbn. rewrite app_nil_r.
    repeat split; [constructor| |left; split; [done|lia]].
    destruct H as [[_ H]|(i & o' & c & k & _ & _ & _ & H & _)]; [by rewrite H|lia]. }
  destruct H as [[? _]|(i & o' & c & k & Hi & Hc & Hk & H1 & Hv)]; [done|].
  rewrite Hfd in Hi. injection Hi as <- <-. rewrite Hf, lookup_insert_eq in Hc. injection Hc as <-.
  unfold write_off in Hv. rewrite Hfl, Hoff in Hv. rewrite write_at_end in Hv.
  rewrite (proj2 (Z.ltb_ge _ _)) by lia. rewrite (proj2 (Z.leb_gt _ _)) by (unfold SSIZE_MAX; lia).
  eapply wp_mono.
  { apply (IH w' (Ofd (of_path o) (length content + k) (of_flags o)) (content ++ take k buf)).
    - rewrite Hv. by eapply fd_ofd_set_off.
    - done.
    - rewrite Hv. cbn. by rewrite Hf, insert_insert_eq.
    - lia.
    - lia.
    - cbn. rewrite length_app, length_take. lia. }
  intros [n|h|] w2 t; [|done|done]. cbn [of_path].
  intros (ds & Hds & Hfw & Hn). exists (take k buf :: ds). cbn [concat length take].
  split; [|split].
  - constructor; [|done]. exists (drop k buf). by rewrite take_drop.
  - by rewrite Hfw, <- app_assoc.
  - rewrite length_app, length_take. destruct Hn as [[-> ?]|[-> ->]]; [left; split; [done|lia]|right; lia].
Qed.

Lemma vector_io_ok (w : W) (fd id : _) (o : ofd) (content : bytes) (lens : list Z) (bufs : list bytes) :
  fd_ofd (view w) fd = Some (id, o) → files (view w) !! of_path o = Some content →
  Forall (λ n, 0 <= n)%Z lens → (Z.of_nat (length content) < LONG_MAX)%Z →
  (Z.of_nat (length (concat bufs)) < LONG_MAX)%Z →
  wp K (my_readv fd lens) w (λ r w' _, match r with
    | Returned (n, stored) =>
        Forall2 (λ b len, Z.of_nat (length b) <= len)%Z stored (take (length stored) lens) ∧
        concat stored = take (length (concat stored)) (drop (of_off o) content) ∧
        view w' = set_off id o (of_off o + length (concat stored)) (view w) ∧
        (n = (-1)%Z ∨ lens ≠ [] ∧ length stored = length lens ∧ n = Z.of_nat (length (concat stored)))
    | r => r = Gone
    end) ∧
  (of_off o = length content → flag_set (of_flags o) O_APPEND = false →
   wp K (my_writev fd bufs) w (λ r w' _, match r with
    | Returned n => ∃ ds, Forall2 prefix ds (take (length ds) bufs) ∧
        files (view w') = <[of_path o := content ++ concat ds]> (files (view w)) ∧
        (n = (-1)%Z ∨ bufs ≠ [] ∧ length ds = length bufs ∧ n = Z.of_nat (length (concat ds)))
    | r => r = Gone
    end)) ∧
  run K (my_readv fd []) w = (Returned ((-1)%Z, []), w, [EOut (Perror "iovcnt" EINVAL)]) ∧
  run K (my_writev fd []) w = (Returned (-1)%Z, w, [EOut (Perror "iovcnt" EINVAL)]).
Proof.
  intros Hfd Hc Hlens Hlc Hlb. split; [|split; [|split; reflexivity]].
  - unfold my_readv. destruct lens as [|len lens]; [|cbn [length Nat.ltb Nat.leb]].
    { repeat split; [constructor|by rewrite (set_off_same _ fd)|by left]. }
    eapply wp_mono; [by eapply readv_loop_ok; eauto; lia|].
    intros [[n stored]|h|] w' t; [|done|done]. intros (more & -> & H1 & H2 & H3 & H4). cbn [app] in *.
    repeat split; try done. destruct H4 as [[? _]|[? ?]]; [by left|by right].
  - intros Hoff Hfl. unfold my_writev. destruct bufs as [|b bufs]; [|cbn [length Nat.ltb Nat.leb]].
    { exists []. cbn. rewrite app_nil_r.
      repeat split; [constructor|by rewrite insert_id|by left]. }
    eapply wp_mono.
    { by apply (writev_loop_ok fd id (b :: bufs) (files (view w)) w o content); [..|rewrite insert_id|lia|lia|]. }
    intros [n|h|] w' t; [|done|done]. intros (ds & H1 & H2 & H3). exists ds.
    repeat split; try done. destruct H3 as [[? _]|[? ->]]; [by left|right; split; [done|split; [done|lia]]].
Qed.

(** Every descriptor has a description, whose status flags are not negative. *)
Definition fds_ok (v : fsview) : Prop :=
  ∀ fd id, fds v !! fd = Some id → ∃ o, ofds v !! id = Some o ∧ (0 <= of_flags o)%Z.

Lemma getfl_open fd (w w' : W) a : fds_ok (view w) → K (Fcntl fd F_GETFL 0) w = Answer a w' →
  view w' = view w ∧ (ret a = (-1)%Z ↔ fds (view w) !! fd = None).
Proof.
  intros Hok H. apply file_kernel in H. cbn in H. destruct H as [Hv H]. split; [done|].
  unfold fd_ofd in H. destruct (fds (view w) !! fd) as [id|] eqn:E; [|done].
  destruct (Hok _ _ E) as (o & Ho & Hfl). rewrite Ho in H. rewrite H. split; [lia|done].
Qed.

Lemma mydup_ok (w : W) (garbage oldfd newfd : Z) :
  (∀ fd w a w', K (Close fd) w = Answer a w' → view w' = set_fds (delete fd (fds (view w))) (view w)) →
  fds_ok (view w) →
  wp K (mydup2 oldfd newfd) w (λ r w' t, match r with
    | Returned n => n = newfd ∧
        if decide (oldfd = newfd) then w' = w ∧ t = []
        else ∃ id, fds (view w) !! oldfd = Some id ∧
               view w' = set_fds (delete oldfd (<[newfd := id]> (fds (view w)))) (view w)
    | Halted h => h = Exited 1 ∧ oldfd ≠ newfd ∧
        (fds (view w) !! oldfd = None ∧ view w' = view w ∨
         fds (view w') !! oldfd = fds (view w) !! oldfd ∧ is_Some (fds (view w) !! oldfd))
    | Gone => True
    end) ∧
  wp K (mydup garbage oldfd) w (λ r w' _, match r with
    | Returned n => lowest_fd (view w) garbage n ∧
        ∃ id, fds (view w) !! oldfd = Some id ∧
          view w' = set_fds (delete oldfd (<[n := id]> (fds (view w)))) (view w)
    | Halted h => h = Exited 1 ∧ view w' = view w
    | Gone => True
    end).
Proof.
  intros Hclose Hok. split.
  - unfold mydup2. destruct (oldfd =? newfd)%Z eqn:Heq; zbool.
    { apply wp_ret. split; [done|]. by rewrite decide_True. }
    destruct (decide (oldfd = newfd)) as [?|_]; [done|].
    prog_call. destruct (getfl_open _ _ _ _ Hok H) as [Hv Ha].
    destruct (ret a =? -1)%Z eqn:Hr; zbool.
    { prog_steps. repeat split; [done|]. left. tauto. }
    assert (∃ id, fds (view w) !! oldfd = Some id) as [id Hid].
    { destruct (fds (view w) !! oldfd) as [id|]; [by eexists|tauto]. }
    prog_call. rewrite <- Hv in Hok. destruct (getfl_open _ _ _ _ Hok H0) as [Hv1 Ha1].
    assert (∀ w1, view w1 = set_fds (delete newfd (fds (view w))) (view w) →
      wp K (res <- sys (Fcntl oldfd F_DUPFD newfd) ;;
            if (ret res =? -1)%Z then perror "mydup2" (errno res) ;;; exit EXIT_FAILURE else
            sys (Close oldfd) ;;; Ret newfd) w1 (λ r w' _, match r with
        | Returned n => n = newfd ∧ ∃ id, fds (view w) !! oldfd = Some id ∧
                 view w' = set_fds (delete oldfd (<[newfd := id]> (fds (view w)))) (view w)
        | Halted h => h = Exited 1 ∧ oldfd ≠ newfd ∧
             (fds (view w) !! oldfd = None ∧ view w' = view w ∨
              fds (view w') !! oldfd = fds (view w) !! oldfd ∧ is_Some (fds (view w) !! oldfd))
        | Gone => True
        end)) as Hdup.
    { intros w1 Hw1. assert (fds (view w1) = delete newfd (fds (view w))) as Hf1 by (by rewrite Hw1).
      prog_call. apply file_kernel in H1. cbn in H1.
      destruct (ret a1 =? -1)%Z eqn:Hr1; zbool.
      { prog_steps. split; [done|]. split; [done|]. right.
        assert (view w'1 = view w1) as -> by (destruct H1 as [[_ ?]|(? & ? & _ & [? _] & _)]; [done|lia]).
        rewrite Hf1, lookup_delete_ne by done. split; [done|by eexists]. }
      destruct H1 as [[? _]|(id' & _ & Hid' & (Hlo & Hnone & Hlow) & Hv2)]; [done|].
      assert (ret a1 = newfd) as Hn.
      { destruct (decide (ret a1 = newfd)) as [|Hne]; [done|].
        destruct (Hlow newfd) as [x Hx]; [lia|]. by rewrite Hf1, lookup_delete_eq in Hx. }
      rewrite Hn in Hv2. prog_call. apply Hclose in H1. prog_steps.
      split; [done|]. exists id. split; [done|]. rewrite H1, Hv2. cbn.
      rewrite Hf1, lookup_delete_ne in Hid' by done. rewrite Hid in Hid'. injection Hid' as <-.
      rewrite Hw1. unfold set_fds. cbn. by rewrite insert_delete_eq. }
    assert (view w'0 = view w) as Hv0 by congruence.
    prog_step; zbool.
    + prog_call. apply Hclose in H1. cbn [bind]. eapply wp_mono; [apply Hdup|].
      * by rewrite H1, Hv0.
      * intros [n|h|] ? ?; [|done|done]. done.
    + cbn [bind]. eapply wp_mono; [apply Hdup|].
      * rewrite Hv0, delete_id by (rewrite <- Hv; tauto). by destruct (view w).
      * intros [n|h|] ? ?; done.
  - unfold mydup. prog_call. apply file_kernel in H. cbn in H.
    destruct (ret a =? -1)%Z eqn:Hr; zbool.
    { prog_steps. split; [done|]. destruct H as [[_ ?]|(? & ? & _ & [? _] & _)]; [done|lia]. }
    destruct H as [[? _]|(id & _ & Hid & Hlow & Hv)]; [done|].
    prog_call. apply Hclose in H. prog_steps. split; [done|]. exists id. split; [done|]. by rewrite H, Hv.
Qed.

End correctness.

(** ** The calls at work *)

Lemma memfs_close fd w a w' : memfs (Close fd) w = Answer a w' → w' = set_fds (delete fd (fds w)) w.
Proof.
  cbn. destruct (fds w !! fd) eqn:E; intros [= _ <-]; [done|].
  rewrite delete_id by done. by destruct w.
Qed.

(** Descriptor 3 is open on a file of seven bytes, 4 at the end of another. *)
Definition io_disk : fsview :=
  FsView {[ "a"%string := to_bytes "abcdefg"; "b"%string := to_bytes "xy" ]}
    {[ 3%Z := 0; 4%Z := 1 ]} {[ 0 := Ofd "a" 1 0; 1 := Ofd "b" 2 1 ]} ∅.

