(* ===== verification/KvServer.v ===== *)
(** * The UDP key-value server: CH59-Sockets_Internet_Domains/Exercise_59-4/server.c

    Clients send datagrams [c:pid:key:value], [u:pid:key:value], [r:pid:key] and
    [d:pid:key].  The table is kept by uthash.h, a vendored header of macros:
    [StrTable] states what the server relies on.  [gmap] is an instance here,
    the macros themselves (Uthash) are one in UthashTable. *)
From Stdlib Require Import ZArith Lia Ascii String.
From stdpp Require Import base gmap strings list.
From S2P Require Import Prelude Prog CString Posix.

Local Open Scope prog_scope.

(** ** The table *)

Record KeyValue := KV { kv_value : bytes; creator_pid : Z }.

Definition KEY_SIZE : nat := 64.
Definition VALUE_SIZE : nat := 256.

(** The macros [HASH_FIND_STR], [HASH_ADD_STR] and [HASH_DEL], the items in the
    order of [HASH_ITER], and a store through the pointer [HASH_FIND_STR] gave.
    [HASH_ADD_STR] ends the program with [exit(-1)] when it is out of memory:
    [None]. *)
Class StrTable (T : Type) := {
  t_empty : T;
  t_find : bytes → T → option KeyValue;
  t_add : bytes → KeyValue → T → option T;
  t_store : bytes → KeyValue → T → T;
  t_del : bytes → T → T;
  t_keys : T → list bytes }.

(** What they promise, through the finite map a table represents.  Adding is
    only specified for a key that is not in the table, and fails only when the
    table is full. *)
Class StrTableLaws (T : Type) `{StrTable T} := {
  t_map : T → gmap bytes KeyValue;
  t_full : T → Prop;
  t_map_empty : t_map t_empty = ∅;
  t_find_spec k t : length k < KEY_SIZE → t_find k t = t_map t !! k;
  t_add_spec k e t : length k < KEY_SIZE → t_map t !! k = None →
    match t_add k e t with Some t' => t_map t' = <[k := e]> (t_map t) | None => t_full t end;
  t_store_spec k e t : is_Some (t_map t !! k) → t_map (t_store k e t) = <[k := e]> (t_map t);
  t_del_spec k t : is_Some (t_map t !! k) → t_map (t_del k t) = delete k (t_map t);
  t_keys_nodup t : NoDup (t_keys t);
  t_keys_spec t k : k ∈ t_keys t ↔ is_Some (t_map t !! k) }.

(** ** The server *)

Section server.
Context {T : Type} `{StrTable T}.

(** [sizeof(KeyValue)] with its [UT_hash_handle]. *)
Definition SIZEOF_KV : Z := 384.

Definition upsert_value (hash_table : T) (key value : bytes) (creator_id : Z) : prog posix T :=
  match t_find key hash_table with
  | None =>
      p <- sys (Malloc SIZEOF_KV) ;;
      if (ret p =? 0)%Z then perror "malloc" (errno p) ;;; undef "NULL" else
      match t_add key (KV value creator_id) hash_table with Some t => Ret t | None => exit (-1) end
  | Some kv =>
      if (creator_pid kv =? creator_id)%Z
      then Ret (t_store key (KV value (creator_pid kv)) hash_table)
      else eprintf ("Error: client " +:+ zstr creator_id +:+ " not authorized to update key "
                    +:+ of_bytes key +:+ nl) ;;;
           Ret hash_table
  end.

Definition get_value (hash_table : T) (key : bytes) : option bytes :=
  match t_find key hash_table with Some kv => Some (kv_value kv) | None => None end.

Definition delete_key_value (hash_table : T) (key : bytes) (creator_id : Z) : prog posix T :=
  match t_find key hash_table with
  | Some kv =>
      if (creator_pid kv =? creator_id)%Z then Ret (t_del key hash_table)
      else eprintf ("Error: client " +:+ zstr creator_id +:+ " not authorized to delete key "
                    +:+ of_bytes key +:+ nl) ;;;
           Ret hash_table
  | None => Ret hash_table
  end.

Definition cleanup_hash_table (hash_table : T) : T :=
  fold_left (λ t k, t_del k t) (t_keys hash_table) hash_table.

(** ** The messages *)

(** [%d]: blanks, a sign, at least one digit; the value as glibc stores it. *)
Definition scan_int (s : bytes) : option (Z * bytes) :=
  let '(neg, s2) := scan_sign (skip_space s) in
  match s2 with
  | c :: _ =>
      match digit_in 10 c with
      | Some _ =>
          let '(v, r) := scan_digits 10 0 s2 in
          Some (to_int (if neg then Z.max LONG_MIN (- v) else Z.min LONG_MAX v)%Z, r)
      | None => None
      end
  | [] => None
  end.

(** [%[^:]] *)
Definition scan_field (s : bytes) : option (bytes * bytes) :=
  match break_at ":" s with
  | ([], _) => None
  | (f, None) => Some (f, [])
  | (f, Some r) => Some (f, ":"%char :: r)
  end.

Definition literal_colon (s : bytes) : option bytes :=
  match s with c :: r => if Ascii.eqb c ":" then Some r else None | [] => None end.

(** The conversions done by [sscanf(buf, "%c:%d:%[^:]:%[^:]", ...)] and its
    result, with the values assigned (the others keep their initial values). *)
Record scanned := Scanned { sc_n : Z; sc_action : ascii; sc_pid : Z; sc_key : bytes; sc_value : bytes }.

Definition sscanf_msg (buf : bytes) : scanned :=
  match buf with
  | [] => Scanned (-1) NUL 0 [] []
  | action :: s =>
      match (r ← literal_colon s; scan_int r) with
      | None => Scanned 1 action 0 [] []
      | Some (pid, s) =>
          match (r ← literal_colon s; scan_field r) with
          | None => Scanned 2 action pid [] []
          | Some (key, s) =>
              match (r ← literal_colon s; scan_field r) with
              | None => Scanned 3 action pid key []
              | Some (value, _) => Scanned 4 action pid key value
              end
          end
      end
  end.

Definition BUF_SIZE : nat := 512.
(** The string in the 512-byte buffer, zeroed before the datagram is stored. *)
Definition buffer_text (data : bytes) : option bytes :=
  let buf := data ++ repeat NUL (BUF_SIZE - length data) in
  if bool_decide (NUL ∈ buf) then Some (cstr buf) else None.

Definition AF_INET6 : Z := 10.
Definition SOCK_DGRAM : Z := 2.
Definition ANY_50002 : string := "[::]:50002".

(** The switch on a complete message; [claddr] is the sender. *)
Definition handle_message (sfd : Z) (claddr : string) (m : scanned) (hash_table : T) : prog posix T :=
  if (sc_n m =? 4)%Z then
    if Ascii.eqb (sc_action m) "c" || Ascii.eqb (sc_action m) "u"
    then upsert_value hash_table (sc_key m) (sc_value m) (sc_pid m)
    else eprintf "unknown action" ;;; Ret hash_table
  else if Ascii.eqb (sc_action m) "r" then
    let val := default (to_bytes "Key not found") (get_value hash_table (sc_key m)) in
    n <- sys (Sendto sfd val claddr) ;;
    if negb (ret n =? Z.of_nat (length val))%Z then perror "sendto" (errno n) ;;; exit EXIT_FAILURE
    else Ret hash_table
  else if Ascii.eqb (sc_action m) "d" then delete_key_value hash_table (sc_key m) (sc_pid m)
  else eprintf "unknown action" ;;; Ret hash_table.

(** One iteration of the loop. *)
Definition server_step (sfd : Z) (hash_table : T) : prog posix (T + unit) :=
  '(numBytes, (data, claddr)) <- sys (Recvfrom sfd (Z.of_nat BUF_SIZE)) ;;
  if (ret numBytes =? -1)%Z then perror "recvfrom" (errno numBytes) ;;; exit EXIT_FAILURE else
  match buffer_text data with
  | None => undef "buf is not a string"
  | Some buf =>
      printf ("DEBUG: received " +:+ of_bytes buf +:+ nl) ;;;
      let m := sscanf_msg buf in
      if (KEY_SIZE <=? length (sc_key m)) || (VALUE_SIZE <=? length (sc_value m))
      then undef "sscanf overflows key or value" else
      if (sc_n m <? 3)%Z then
        eprintf ("Invalid format or not enough parts" +:+ nl) ;;; Ret (inl hash_table) else
      t <- handle_message sfd claddr m hash_table ;;
      Ret (inl t)
  end.

Definition server_main (fuel : nat) : prog posix unit :=
  sfd <- sys (Socket AF_INET6 SOCK_DGRAM 0) ;;
  if (ret sfd =? -1)%Z then perror "socket" (errno sfd) ;;; exit EXIT_FAILURE else
  b <- sys (Bind (ret sfd) ANY_50002) ;;
  if (ret b =? -1)%Z then perror "bind" (errno b) ;;; exit EXIT_FAILURE else
  loop fuel (server_step (ret sfd)) t_empty.
End server.

(** ** The abstract store *)

Inductive request :=
| ReqPut (k v : bytes) (pid : Z)
| ReqGet (k : bytes)
| ReqDel (k : bytes) (pid : Z)
| ReqBad.

Definition request_of (m : scanned) : request :=
  if (sc_n m <? 3)%Z then ReqBad
  else if (sc_n m =? 4)%Z then
    if Ascii.eqb (sc_action m) "c" || Ascii.eqb (sc_action m) "u"
    then ReqPut (sc_key m) (sc_value m) (sc_pid m) else ReqBad
  else if Ascii.eqb (sc_action m) "r" then ReqGet (sc_key m)
  else if Ascii.eqb (sc_action m) "d" then ReqDel (sc_key m) (sc_pid m) else ReqBad.

(** The store after a request and the reply it asks for. A key belongs to the
    client that created it. *)
Definition spec_step (st : gmap bytes KeyValue) (q : request) : gmap bytes KeyValue * option bytes :=
  match q with
  | ReqPut k v pid =>
      (match st !! k with
       | Some e => if decide (creator_pid e = pid) then <[k := KV v pid]> st else st
       | None => <[k := KV v pid]> st
       end, None)
  | ReqGet k =>
      (st, Some (match st !! k with Some e => kv_value e | None => to_bytes "Key not found" end))
  | ReqDel k pid =>
      (match st !! k with
       | Some e => if decide (creator_pid e = pid) then delete k st else st
       | None => st
       end, None)
  | ReqBad => (st, None)
  end.

(** Serving requests in order, each with its client's address. *)
Fixpoint spec_run (st : gmap bytes KeyValue) (qs : list (request * string)) :
    gmap bytes KeyValue * list (bytes * string) :=
  match qs with
  | [] => (st, [])
  | (q, a) :: qs' =>
      let '(st1, rep) := spec_step st q in
      let '(st2, reps) := spec_run st1 qs' in
      (st2, match rep with Some b => (b, a) :: reps | None => reps end)
  end.

(** A datagram the server's buffers can hold. *)
Definition fits (data : bytes) : bool :=
  match buffer_text data with
  | Some buf => (length (sc_key (sscanf_msg buf)) <? KEY_SIZE) &&
                (length (sc_value (sscanf_msg buf)) <? VALUE_SIZE)
  | None => false
  end.

Definition request_in (data : bytes) : option request :=
  if fits data then request_of ∘ sscanf_msg <$> buffer_text data else None.

(** The requests in the datagrams of a trace. *)
Definition requests (t : list (event posix)) : list (request * string) :=
  omap (λ d, q ← request_in d.1; Some (q, d.2)) (datagrams t).

(** [malloc] gave NULL in a trace. *)
Definition null_malloc (c : posix_op) : posix_ans c → bool :=
  match c with Malloc _ => λ a, (ret a =? 0)%Z | _ => λ _, false end.

Fixpoint out_of_memory (t : list (event posix)) : bool :=
  match t with
  | [] => false
  | ECall c a :: t' => null_malloc c a || out_of_memory t'
  | _ :: t' => out_of_memory t'
  end.

(** ** Properties *)

Lemma requests_app t1 t2 : requests (t1 ++ t2) = requests t1 ++ requests t2.
Proof. unfold requests. by rewrite datagrams_app, omap_app. Qed.
Lemma out_of_memory_app t1 t2 : out_of_memory (t1 ++ t2) = out_of_memory t1 || out_of_memory t2.
Proof. induction t1 as [|[o|c a|c] t1 IH]; cbn; [done|done| |done]. by rewrite IH, orb_assoc. Qed.

Lemma spec_run_app st qs1 qs2 :
  spec_run st (qs1 ++ qs2) =
  ((spec_run (spec_run st qs1).1 qs2).1, (spec_run st qs1).2 ++ (spec_run (spec_run st qs1).1 qs2).2).
Proof.
  revert st. induction qs1 as [|[q a] qs1 IH]; intros st; cbn [spec_run app].
  - cbn [fst snd app]. by destruct (spec_run st qs2).
  - destruct (spec_step st q) as [st1 rep]. rewrite IH.
    destruct (spec_run st1 qs1) as [st2 reps]. cbn. by destruct rep.
Qed.

Section correctness.
Context {T : Type} `{StrTableLaws T}.
Context {W : Type} (K : kernel posix W).

(** Handling one message: the table follows the abstract step, the reply asked
    for is sent, and it stops only by an error of [sendto] or of [malloc]. *)
Lemma handle_message_ok sfd a m (t : T) w :
  (3 <= sc_n m)%Z → length (sc_key m) < KEY_SIZE →
  wp K (handle_message sfd a m t) w (λ r w' tr,
    datagrams tr = [] ∧
    (match r with
     | Returned t' => t_map t' = (spec_step (t_map t) (request_of m)).1
     | Halted h => h = Exited 1 ∨ (h = Exited (-1) ∧ t_full t) ∨ (∃ why, h = Undef why) ∧ out_of_memory tr = true
     | Gone => True
     end) ∧
    replies tr = match (spec_step (t_map t) (request_of m)).2 with Some b => [(b, a)] | None => [] end).
Proof.
  intros Hn Hk. unfold handle_message, request_of. rewrite (proj2 (Z.ltb_ge _ _)) by done.
  destruct (sc_n m =? 4)%Z; [|destruct (Ascii.eqb (sc_action m) "r"); [|destruct (Ascii.eqb (sc_action m) "d")]].
  - destruct (_ || _); [|by prog_steps]. unfold upsert_value. cbn [spec_step].
    rewrite t_find_spec by done. destruct (t_map t !! sc_key m) as [kv|] eqn:E.
    + destruct (creator_pid kv =? sc_pid m)%Z eqn:Ec; zbool.
      * apply wp_ret. rewrite t_store_spec by eauto. by rewrite decide_True, Ec.
      * rewrite decide_False by done. by prog_steps.
    + prog_call. destruct (ret a0 =? 0)%Z eqn:Ha.
      * prog_steps. split; [done|]. split; [|done]. do 2 right. split; [by eexists|]. cbn. by rewrite Ha.
      * pose proof (t_add_spec (sc_key m) (KV (sc_value m) (sc_pid m)) t Hk E) as Hadd.
        destruct (t_add _ _ _) as [t'|]; [by apply wp_ret|]. apply wp_stop. cbn. split; [done|]. split; [|done]. auto.
  - cbn [spec_step]. unfold get_value. rewrite t_find_spec by done.
    prog_call; [|by destruct (t_map t !! _)].
    destruct (negb _); prog_steps; cbn; (split; [done|]); (split; [auto|]); by destruct (t_map t !! _).
  - unfold delete_key_value. cbn [spec_step]. rewrite t_find_spec by done.
    destruct (t_map t !! sc_key m) as [kv|] eqn:E; [|by apply wp_ret].
    destruct (creator_pid kv =? sc_pid m)%Z eqn:Ec; zbool.
    + apply wp_ret. rewrite t_del_spec by eauto. by rewrite decide_True.
    + rewrite decide_False by done. by prog_steps.
  - by prog_steps.
Qed.

(** The server's loop, after [tr0]. *)
Definition serving (t : T) (tr : list (event posix)) : Prop :=
  spec_run ∅ (requests tr) = (t_map t, replies tr).

Definition server_post {A} (r : outcome A) (tr : list (event posix)) : Prop :=
  replies tr = (spec_run ∅ (requests tr)).2 ∧
  match r with
  | Returned _ => False
  | Halted h => h = Cut ∨ h = Exited 1 ∨
      (h = Exited (-1) ∧ ∃ (t : T) qs q, t_full t ∧ requests tr = qs ++ [q] ∧ t_map t = (spec_run ∅ qs).1) ∨
      (∃ why, h = Undef why) ∧
      (out_of_memory tr = true ∨ Exists (λ d, fits d.1 = false) (datagrams tr))
  | Gone => True
  end.

(** Events that are neither datagrams nor replies. *)
Definition quiet (t : list (event posix)) : Prop := datagrams t = [] ∧ replies t = [].

Lemma serving_quiet t tr tr' : quiet tr' → serving t tr → serving t (tr ++ tr').
Proof.
  intros [Hd Hr] H1. unfold serving in *. rewrite requests_app, replies_app, Hr, app_nil_r.
  unfold requests at 2. rewrite Hd. cbn. by rewrite app_nil_r.
Qed.

Lemma serving_post {A} (r : outcome A) t tr :
  serving t tr → (match r with Gone | Halted (Exited 1) => True | _ => False end) → server_post r tr.
Proof.
  intros H1 Hr. split; [by rewrite H1|]. destruct r as [|[c| | | |]|]; try done.
  right; left. by destruct c as [|[]|].
Qed.

Lemma serving_request t tr (q : request) data a :
  serving t tr → request_in data = Some q →
  ∀ ev rest, datagrams [ev] = [(data, a)] → replies [ev] = [] → datagrams rest = [] →
  requests (tr ++ ev :: rest) = requests tr ++ [(q, a)] ∧
  replies (tr ++ ev :: rest) = replies tr ++ replies rest ∧
  spec_run ∅ (requests (tr ++ ev :: rest)) =
    ((spec_step (t_map t) q).1,
     replies tr ++ match (spec_step (t_map t) q).2 with Some b => [(b, a)] | None => [] end).
Proof.
  intros Hs Hq ev rest He Hre Hrest.
  assert (requests (tr ++ ev :: rest) = requests tr ++ [(q, a)]) as Hreq.
  { rewrite requests_app. f_equal. change (ev :: rest) with ([ev] ++ rest).
    unfold requests. rewrite datagrams_app, He, Hrest. cbn. by rewrite Hq. }
  split; [done|]. split.
  - rewrite replies_app. f_equal. change (ev :: rest) with ([ev] ++ rest). by rewrite replies_app, Hre.
  - rewrite Hreq, spec_run_app, Hs. cbn. by destruct (spec_step (t_map t) q) as [st [b|]].
Qed.

Lemma server_step_ok sfd (t : T) w tr :
  serving t tr →
  wp K (server_step sfd t) w (λ r w' tr', match r with
    | Returned (inl t') => serving t' (tr ++ tr')
    | Returned (inr _) => False
    | Halted h => server_post (A := unit) (Halted h) (tr ++ tr')
    | Gone => server_post (A := unit) Gone (tr ++ tr')
    end).
Proof.
  intros Hs. unfold server_step.
  prog_call; [|by apply (serving_post _ t); [apply serving_quiet|]].
  destruct a as [n [data a]]. set (ev := ECall _ _).
  destruct (ret n =? -1)%Z eqn:Hn.
  { prog_steps. apply (serving_post _ t); [|done]. apply serving_quiet; [|done]. split; [|done].
    cbn. by rewrite Hn. }
  assert (datagrams [ev] = [(data, a)]) as Hev by (cbn; by rewrite Hn).
  assert (fits data = false → ∀ why rest, quiet rest →
    server_post (A := unit) (Halted (Undef why)) (tr ++ ev :: rest)) as Hbad.
  { intros Hf why rest [Hd Hr]. change (ev :: rest) with ([ev] ++ rest). rewrite app_assoc. split.
    - rewrite !replies_app, !requests_app, Hr. unfold requests at 2 3. rewrite Hev, Hd. cbn.
      unfold request_in. rewrite Hf. cbn. by rewrite !app_nil_r, Hs.
    - do 3 right. split; [by eexists|]. right. rewrite !datagrams_app, Hev.
      apply Exists_app. left. apply Exists_app. right. by constructor. }
  destruct (buffer_text data) as [buf|] eqn:Hb; [|prog_steps; apply Hbad; [unfold fits; by rewrite Hb|done]].
  prog_step. prog_step. cbv zeta. destruct (_ || _) eqn:Hov.
  { prog_steps. apply Hbad; [|done]. unfold fits. rewrite Hb.
    apply orb_true_iff in Hov as [Hov|Hov]; apply Nat.leb_le in Hov;
      apply Nat.ltb_ge in Hov; rewrite Hov;
      by rewrite ?andb_false_r. }
  apply orb_false_iff in Hov as [Hk Hv]. apply Nat.leb_gt in Hk, Hv.
  assert (request_in data = Some (request_of (sscanf_msg buf))) as Hq.
  { unfold request_in, fits. rewrite Hb, (proj2 (Nat.ltb_lt _ _) Hk), (proj2 (Nat.ltb_lt _ _) Hv). done. }
  destruct (sc_n (sscanf_msg buf) <? 3)%Z eqn:Hn3; zbool.
  { prog_steps. match goal with |- serving _ (_ ++ _ :: ?rest) =>
      destruct (serving_request t tr _ data a Hs Hq ev rest Hev eq_refl eq_refl) as (R1 & R2 & R3) end.
    unfold serving. rewrite R3, R2. unfold request_of. by rewrite (proj2 (Z.ltb_lt _ _) Hn3). }
  apply wp_bind. eapply wp_mono; [by apply handle_message_ok|].
  intros r w1 tr1 (Hd & Hr & Hrep).
  match goal with |- context [ev :: ?o :: _] =>
    destruct (serving_request t tr _ data a Hs Hq ev (o :: tr1) Hev eq_refl Hd) as (R1 & R2 & R3) end.
  assert (∀ s, replies (EOut s :: tr1) = replies tr1) as Hrr by done.
  rewrite Hrr, Hrep in R2.
  destruct r as [t'|h|]; cbn beta iota.
  - apply wp_ret. rewrite app_nil_r. unfold serving. by rewrite R3, R2, Hr.
  - split; [by rewrite R2, R3|]. destruct Hr as [->|[[-> Hf]|[Hu Ho]]]; [auto| |].
    { do 2 right. left. split; [done|]. exists t, (requests tr), (request_of (sscanf_msg buf), a).
      by rewrite R1, Hs. }
    do 3 right. split; [done|]. left. rewrite out_of_memory_app. cbn [out_of_memory]. by rewrite Ho, !orb_true_r.
  - split; [by rewrite R2, R3|done].
Qed.

Lemma server_sim (fuel : nat) (w : W) :
  wp K (server_main (T := T) fuel) w (λ r _ tr, server_post r tr).
Proof.
  assert (serving t_empty []) as Hemp by (unfold serving; cbn; by rewrite t_map_empty).
  unfold server_main. prog_call.
  destruct (ret a =? -1)%Z; [prog_steps; by apply (serving_post _ t_empty); [apply (serving_quiet _ [])|]|].
  prog_call.
  destruct (ret a0 =? -1)%Z; [prog_steps; by apply (serving_post _ t_empty); [apply (serving_quiet _ [])|]|].
  set (tr0 := [ECall (S := posix) (Socket _ _ _) a; ECall (S := posix) (Bind _ _) a0]).
  eapply wp_mono.
  { apply (wp_loop_partial K (λ t _ tr, serving t (tr0 ++ tr)) _ (λ r _ tr, server_post r (tr0 ++ tr)))
      with (t := []).
    - intros t w1 tr Hs. eapply wp_mono; [by apply server_step_ok|].
      intros [[t'|u]|h|] w2 tr2; rewrite <- ?app_assoc; done.
    - intros t w1 tr Hs. split; [by rewrite Hs|by left].
    - rewrite app_nil_r. by apply (serving_quiet _ []). }
  intros r w1 tr1 Hpost. exact Hpost.
Qed.

(** C4: the key-value server refines the abstract store.  Whatever datagrams
    arrive, for any number of iterations, the replies the server has sent are
    exactly those of the abstract store run over the requests received, in
    order; the server never returns: it stops with status 1 after a failed
    call, with -1 when the table (which holds the content of the store) is full,
    blocks in a call, or runs into undefined behaviour, and the latter
    only if a datagram did not fit its buffers (no NUL in 512 bytes, a key of
    64 bytes or more, a value of 256 or more) or [malloc] returned NULL. *)
Theorem server_refines (fuel : nat) (w : W) :
  wp K (server_main (T := T) fuel) w (λ r _ tr, server_post r tr).
Proof. apply server_sim. Qed.

(** What a message of client [pid] about [key] may do to the table. *)
Definition owned_change (pid : Z) (key : bytes) (m m' : gmap bytes KeyValue) : Prop :=
  (∀ k, k ≠ key → m' !! k = m !! k) ∧
  (∀ e, m !! key = Some e → creator_pid e ≠ pid → m' = m) ∧
  (∀ e, m' !! key = Some e → m' ≠ m → creator_pid e = pid).

Lemma cleanup_empty_aux ks : ∀ t : T, NoDup ks → (∀ k, k ∈ ks ↔ is_Some (t_map t !! k)) →
  t_map (fold_left (λ t k, t_del k t) ks t) = ∅.
Proof.
  induction ks as [|k ks IH]; intros t Hnd Hks; cbn [fold_left].
  - apply map_empty. intros k. destruct (t_map t !! k) eqn:E; [|done].
    assert (k ∈ []) as Hin by (apply Hks; eauto). by apply elem_of_nil in Hin.
  - apply NoDup_cons in Hnd as [Hk Hnd]. apply IH; [done|]. intros k'.
    assert (is_Some (t_map t !! k)) as Hs by (apply Hks; constructor).
    rewrite t_del_spec by done. destruct (decide (k' = k)) as [->|Hne].
    + rewrite lookup_delete_eq. split; [done|]. by intros [? ?].
    + rewrite lookup_delete_ne by done. rewrite <- Hks, elem_of_cons. tauto.
Qed.

(** C12: the operations of the table.  [upsert_value] creates the entry of a new
    key or updates the value of an entry of the caller; [delete_key_value]
    removes an entry of the caller; both leave the table as it is and write to
    stderr for a key that belongs to another client.  No operation touches
    another key, an entry changes or disappears only by a message of its
    creator, and [get_value] then returns what was stored; with a [malloc] that
    fails, [upsert_value] dereferences NULL, and with a full table it exits.
    [cleanup_hash_table] leaves an
    empty table. *)
Theorem table_operations_correct (t : T) (key value : bytes) (pid : Z) (w : W) :
  length key < KEY_SIZE →
  wp K (upsert_value t key value pid) w (λ r _ tr, match r with
    | Returned t' => owned_change pid key (t_map t) (t_map t') ∧
        (t_map t' = t_map t ∧ tr = [EOut (Err ("Error: client " +:+ zstr pid +:+
            " not authorized to update key " +:+ of_bytes key +:+ nl))] ∧
           (∃ e, t_map t !! key = Some e ∧ creator_pid e ≠ pid) ∨
         get_value t' key = Some value)
    | Halted h => t_map t !! key = None ∧
        ((∃ why, h = Undef why) ∧ out_of_memory tr = true ∨ h = Exited (-1) ∧ t_full t)
    | Gone => True
    end) ∧
  wp K (delete_key_value t key pid) w (λ r w' tr, match r with
    | Returned t' => w' = w ∧ owned_change pid key (t_map t) (t_map t') ∧
        (get_value t' key = None ∨ t' = t ∧ tr ≠ [] ∧ ∃ e, t_map t !! key = Some e ∧ creator_pid e ≠ pid)
    | _ => False
    end) ∧
  get_value t key = kv_value <$> t_map t !! key ∧
  t_map (cleanup_hash_table t) = ∅.
Proof.
  intros Hkey. assert (∀ m, owned_change pid key m m) as Hsame by done.
  assert (∀ m e, (∀ e0, m !! key = Some e0 → creator_pid e0 = pid) → creator_pid e = pid →
    owned_change pid key m (<[key := e]> m)) as Hput.
  { intros m e Hown He. split; [intros k Hk; by rewrite lookup_insert_ne|]. split.
    - intros e0 H1 H2. by apply Hown in H1.
    - intros e0. rewrite lookup_insert_eq. by intros [= <-]. }
  split; [|split; [|split]].
  - unfold upsert_value. rewrite t_find_spec by done. destruct (t_map t !! key) as [kv|] eqn:E.
    + destruct (creator_pid kv =? pid)%Z eqn:Ec; zbool.
      * apply wp_ret. unfold get_value. rewrite t_find_spec, t_store_spec by eauto.
        rewrite lookup_insert_eq. split; [|by right]. apply Hput; [|done]. congruence.
      * prog_steps. split; [done|]. left. split; [done|]. split; [done|]. by exists kv.
    + prog_call. destruct (ret a =? 0)%Z eqn:Ha.
      * prog_steps. split; [done|]. left. split; [by eexists|]. cbn. by rewrite Ha.
      * pose proof (t_add_spec key (KV value pid) t Hkey E) as Hadd. destruct (t_add _ _ _) as [t'|].
        -- apply wp_ret. unfold get_value. rewrite t_find_spec, Hadd by done.
           rewrite lookup_insert_eq. split; [|by right]. apply Hput; [|done]. congruence.
        -- apply wp_stop. cbn. split; [done|]. by right.
  - unfold delete_key_value. rewrite t_find_spec by done. destruct (t_map t !! key) as [kv|] eqn:E.
    + destruct (creator_pid kv =? pid)%Z eqn:Ec; zbool.
      * apply wp_ret. unfold get_value. rewrite t_find_spec, t_del_spec by eauto.
        rewrite lookup_delete_eq. split; [done|]. split; [|by left].
        split; [intros k Hk; by rewrite lookup_delete_ne|]. split; [congruence|].
        intros e. by rewrite lookup_delete_eq.
      * prog_steps. split; [done|]. split; [done|]. right. split; [done|]. split; [done|]. by exists kv.
    + apply wp_ret. split; [done|]. split; [done|]. left. unfold get_value. by rewrite t_find_spec, E by done.
  - unfold get_value. rewrite t_find_spec by done. by destruct (t_map t !! key).
  - apply cleanup_empty_aux; [apply t_keys_nodup|apply t_keys_spec].
Qed.
End correctness.

(** ** A table, and the server at work *)

#[export] Instance gmap_table : StrTable (gmap bytes KeyValue) := {
  t_empty := ∅;
  t_find k t := t !! k;
  t_add k e t := Some (<[k := e]> t);
  t_store k e t := <[k := e]> t;
  t_del k t := delete k t;
  t_keys t := (map_to_list t).*1 }.

#[export] Instance gmap_table_laws : StrTableLaws (gmap bytes KeyValue).
Proof.
  refine {| t_map := λ t : gmap bytes KeyValue, t; t_full := λ _, False |}; try done.
  - intros t. apply NoDup_fst_map_to_list.
  - intros t k. split.
    + intros [[k' e] [-> H]]%list_elem_of_fmap. apply elem_of_map_to_list in H. by eexists.
    + intros [e H]. apply list_elem_of_fmap. exists (k, e). split; [done|]. by apply elem_of_map_to_list.
Defined.

(** An environment that delivers the datagrams of a list. *)
Definition inbox : kernel posix (list (bytes * string)) := λ c w,
  match c as c return reaction (posix_ans c) (list (bytes * string)) with
  | Socket _ _ _ => Answer (Rc 3 0) w
  | Bind _ _ => Answer (Rc 0 0) w
  | Recvfrom _ _ =>
      match w with
      | (d, a) :: w' => Answer (Rc (Z.of_nat (length d)) 0, (d, a)) w'
      | [] => NoReturn w
      end
  | Sendto _ b _ => Answer (Rc (Z.of_nat (length b)) 0) w
  | Malloc _ => Answer (Rc 4096 0) w
  | _ => NoReturn w
  end.

Example server_session :
  let w := [(to_bytes "c:7:color:red", "A"%string); (to_bytes "u:9:color:blue", "B"%string);
            (to_bytes "r:9:color", "B"%string); (to_bytes "d:7:color", "A"%string);
            (to_bytes "r:9:color", "B"%string)] in
  replies (run inbox (server_main (T := gmap bytes KeyValue) 9) w).2
  = [(to_bytes "red", "B"%string); (to_bytes "Key not found", "B"%string)].
Proof. vm_compute. reflexivity. Qed.

Lemma table_operations_correct_witness :
  length (to_bytes "color") < KEY_SIZE ∧
  wp inbox (delete_key_value (T := gmap bytes KeyValue) {[ to_bytes "color" := KV (to_bytes "red") 7 ]}
      (to_bytes "color") 9) [] (λ r w' tr, match r with
    | Returned t' => w' = [] ∧
        owned_change 9 (to_bytes "color") {[ to_bytes "color" := KV (to_bytes "red") 7 ]} t' ∧
        (get_value t' (to_bytes "color") = None ∨
         t' = {[ to_bytes "color" := KV (to_bytes "red") 7 ]} ∧ tr ≠ [] ∧
         ∃ e, ({[ to_bytes "color" := KV (to_bytes "red") 7 ]} : gmap bytes KeyValue) !! to_bytes "color" = Some e ∧
           creator_pid e ≠ 9%Z)
    | _ => False
    end).
Proof.
  assert (length (to_bytes "color") < KEY_SIZE) as Hkey by (apply Nat.ltb_lt; vm_compute; reflexivity).
  destruct (table_operations_correct (T := gmap bytes KeyValue) inbox
    {[ to_bytes "color" := KV (to_bytes "red") 7 ]} (to_bytes "color") [] 9 [] Hkey) as (_ & H & _).
  split; [exact Hkey|exact H].
Defined.
