(* ===== verification/SeqServers.v ===== *)
(** * The FIFO sequence-number service

    [fifo_server_main] is CH44-Pipes_and_FIFOs/server_fifo_remove/fifo_seqnum_server.c,
    [backup_server_main] and [fifo_client_main] are
    CH44-Pipes_and_FIFOs/seqnum_with_backup/fifo_seqnum_server.c and
    fifo_seqnum_client.c.  A request and a response travel as the bytes of the
    structures of fifo_seqnum.h. *)
From Stdlib Require Import ZArith Lia Ascii String.
From stdpp Require Import base gmap strings list.
From S2P Require Import Prelude Prog CString Posix ErrorFunctions GetNum.

Local Open Scope prog_scope.

(** ** Messages *)

Record request := Request { req_pid : Z; seqLen : Z }.
Definition encode_request (r : request) : bytes := le32 (req_pid r) ++ le32 (seqLen r).
Definition decode_request (b : bytes) : request := Request (of_le32 b) (of_le32 (drop 4 b)).
Definition SIZEOF_REQUEST : Z := 8.
Definition SIZEOF_RESPONSE : Z := 4.

Definition SERVER_FIFO : string := "/tmp/seqnum_sv".
Definition SEQNUM_BAK_FILE : string := "/tmp/seqnum_bak".
Definition CLIENT_FIFO_NAME_LEN : nat := 39.
Definition client_fifo (pid : Z) : string :=
  of_bytes (snprintf CLIENT_FIFO_NAME_LEN (to_bytes ("/tmp/seqnum_cl." +:+ zstr pid))).
(** [S_IRUSR | S_IWUSR | S_IWGRP] *)
Definition FIFO_MODE : Z := 400.

Section programs.
Variable ename : Z → string.
Variable strerror : Z → string.
(** What [savedErrno] of [errMsg] holds. *)
Variable saved : Z.

Local Abbreviation errExit := (errExit ename strerror).
Local Abbreviation fatal := (fatal ename strerror).
Local Abbreviation errMsg := (errMsg ename strerror).

(** Creating and opening the server's FIFO, the write end included. *)
Definition open_server_fifo : prog posix Z :=
  sys (Umask 0) ;;;
  m <- sys (Mkfifo SERVER_FIFO FIFO_MODE) ;;
  if (ret m =? -1)%Z && negb (errno m =? EEXIST)%Z then errExit (errno m) "mkfifo %s" [AStr SERVER_FIFO] else
  serverFd <- sys (Open SERVER_FIFO O_RDONLY 0) ;;
  if (ret serverFd =? -1)%Z then errExit (errno serverFd) "open %s" [AStr SERVER_FIFO] else
  dummyFd <- sys (Open SERVER_FIFO O_WRONLY 0) ;;
  if (ret dummyFd =? -1)%Z then errExit (errno dummyFd) "open %s" [AStr SERVER_FIFO] else
  s <- sys (Signal SIGPIPE SigIgn) ;;
  if (ret s =? -1)%Z then errExit (errno s) "signal" [] else
  Ret (ret serverFd).

(** One request: [None] when it is discarded, [Some seqNum] after a response. *)
Definition serve_request (serverFd seqNum : Z) : prog posix (option Z) :=
  '(r, b) <- sys (Read serverFd SIZEOF_REQUEST) ;;
  if negb (ret r =? SIZEOF_REQUEST)%Z then
    eprintf ("Error reading request; discarding" +:+ nl) ;;; Ret None else
  let req := decode_request b in
  let clientFIFO := client_fifo (req_pid req) in
  clientFd <- sys (Open clientFIFO O_WRONLY 0) ;;
  if (ret clientFd =? -1)%Z then errMsg (errno clientFd) saved "open %s" [AStr clientFIFO] ;;; Ret None else
  w <- sys (Write (ret clientFd) (le32 seqNum)) ;;
  when (negb (ret w =? SIZEOF_RESPONSE)%Z)
    (eprintf ("Error writing to FIFO " +:+ clientFIFO +:+ " " +:+ nl)) ;;;
  c <- sys (Close (ret clientFd)) ;;
  when (ret c =? -1)%Z (errMsg (errno c) saved "close" [] ;;; Ret tt) ;;;
  if decide (in_int (seqNum + seqLen req)) then Ret (Some (seqNum + seqLen req)%Z)
  else undef "signed overflow".

(** ** server_fifo_remove/fifo_seqnum_server.c *)

(** The handler of SIGINT and SIGTERM. *)
Definition fifo_sig_handler : prog posix unit :=
  sys (Write STDOUT_FILENO (to_bytes ("SIGNALLED" +:+ nl))) ;;;
  sys (Remove SERVER_FIFO) ;;;
  exit 255.

Definition fifo_server_main (fuel : nat) : prog posix unit :=
  let sa := Sigact (Handler "fifo_sig_handler") 0 SA_RESTART in
  s1 <- sys (Sigaction SIGINT sa) ;;
  if (ret s1 =? -1)%Z then errExit (errno s1) "sigaction register SIGINT" [] else
  s2 <- sys (Sigaction SIGTERM sa) ;;
  if (ret s2 =? -1)%Z then errExit (errno s2) "sigaction register SIGTERM" [] else
  serverFd <- open_server_fifo ;;
  loop fuel (λ seqNum, r <- serve_request serverFd seqNum ;; Ret (inl (default seqNum r))) 0%Z.

(** ** seqnum_with_backup/fifo_seqnum_server.c *)

(** Lines 21-45: the backup file's descriptor, the number in it and the content
    of [backupFileContent], at first [garbage].  The descriptor [creat] returns
    is dropped: [backupFd] stays -1. *)
Definition open_backup (garbage : bytes) : prog posix (Z * Z * bytes) :=
  backupFd <- sys (Open SEQNUM_BAK_FILE (Z.lor O_RDWR O_SYNC) 0) ;;
  (if (ret backupFd =? -1)%Z then
     if (errno backupFd =? ENOENT)%Z then
       c <- sys (Creat SEQNUM_BAK_FILE MODE_0666) ;;
       if (ret c =? -1)%Z then errExit (errno c) "creat %s" [AStr SEQNUM_BAK_FILE] else Ret tt
     else errExit (errno backupFd) "open %s" [AStr SEQNUM_BAK_FILE]
   else Ret tt) ;;;
  '(r, b) <- sys (Read (ret backupFd) 21) ;;
  let content := buf_store b garbage in
  if (ret r =? -1)%Z then errExit (errno r) "read %s" [AStr SEQNUM_BAK_FILE] else
  if (ret r =? 0)%Z then Ret (ret backupFd, 0%Z, content) else
  if bool_decide (NUL ∈ content) then
    let n := strtol (cstr content) 10 in
    if (st_errno n =? EINVAL)%Z then errExit EINVAL "strtol %s" [AStr SEQNUM_BAK_FILE] else
    Ret (ret backupFd, to_int (st_val n), content)
  else undef "backupFileContent is not a string".

(** [snprintf(backupFileContent, 21, "%d", seqNum)]. *)
Definition backup_record (seqNum : Z) (content : bytes) : bytes :=
  buf_store (snprintf 21 (zdec seqNum) ++ [NUL]) content.

Definition backup_step (serverFd backupFd : Z) (s : Z * bytes) : prog posix (Z * bytes + unit) :=
  let '(seqNum, content) := s in
  r <- serve_request serverFd seqNum ;;
  match r with
  | None => Ret (inl (seqNum, content))
  | Some seqNum =>
      sys (Lseek backupFd 0 SEEK_SET) ;;;
      let content := backup_record seqNum content in
      w <- sys (Write backupFd content) ;;
      when (ret w =? -1)%Z
        (eprintf ("Error writing to backup file " +:+ of_bytes (cstr content) +:+ " " +:+ nl)) ;;;
      Ret (inl (seqNum, content))
  end.

Definition backup_server_main (fuel : nat) (garbage : bytes) : prog posix unit :=
  '(backupFd, seqNum, content) <- open_backup garbage ;;
  serverFd <- open_server_fifo ;;
  loop fuel (backup_step serverFd backupFd) (seqNum, content).

(** ** fifo_seqnum_client.c *)

Definition removeFIFO (clientFIFO : string) : prog posix unit := sys (Unlink clientFIFO) ;;; Ret tt.

(** The part of the client after [atexit]. *)
Definition client_request (argv : list string) (clientFIFO : string) : prog posix unit :=
  pid <- sys Getpid ;;
  len <- (match argv with
          | _ :: a :: _ => getInt (Some a) GN_GT_0 (Some "seq-len"%string)
          | _ => Ret 1%Z
          end) ;;
  let req := Request (ret pid) len in
  serverFd <- sys (Open SERVER_FIFO O_WRONLY 0) ;;
  if (ret serverFd =? -1)%Z then errExit (errno serverFd) "open %s" [AStr SERVER_FIFO] else
  w <- sys (Write (ret serverFd) (encode_request req)) ;;
  if negb (ret w =? SIZEOF_REQUEST)%Z then fatal "Can't write to server" [] else
  clientFd <- sys (Open clientFIFO O_RDONLY 0) ;;
  if (ret clientFd =? -1)%Z then errExit (errno clientFd) "open %s" [AStr clientFIFO] else
  '(r, resp) <- sys (Read (ret clientFd) SIZEOF_RESPONSE) ;;
  if negb (ret r =? SIZEOF_RESPONSE)%Z then fatal "Can't read response from server" [] else
  printf (zstr (of_le32 resp) +:+ nl) ;;;
  exit EXIT_SUCCESS.

Definition fifo_client_main (argv : list string) : prog posix unit :=
  if match argv with _ :: a :: _ => streq a "--help" | _ => false end
  then usageErr ("%s [seq-len]" +:+ nl) [AStr (argv_0 argv)] else
  sys (Umask 0) ;;;
  pid <- sys Getpid ;;
  let clientFIFO := client_fifo (ret pid) in
  m <- sys (Mkfifo clientFIFO FIFO_MODE) ;;
  if (ret m =? -1)%Z && negb (errno m =? EEXIST)%Z then errExit (errno m) "mkfifo %s" [AStr clientFIFO] else
  a <- sys Atexit ;;
  if negb (ret a =? 0)%Z then errExit (errno a) "atexit" [] else
  with_atexit (removeFIFO clientFIFO) (client_request argv clientFIFO).

(** ** What a trace says of the service *)

(** The length asked for by the last request, the lengths granted (the client's
    FIFO was opened), the responses written, the backup records written. *)
Record log := Log { pending : option Z; granted : list Z; responded : list bytes; recorded : list bytes }.

Definition log_write (b : bytes) (l : log) : log :=
  if length b =? 4 then Log (pending l) (granted l) (responded l ++ [b]) (recorded l)
  else if length b =? 21 then Log (pending l) (granted l) (responded l) (recorded l ++ [b])
  else l.

Definition log_call (c : posix_op) : posix_ans c → log → log :=
  match c with
  | Read _ n => λ a l,
      if (n =? SIZEOF_REQUEST)%Z && (ret a.1 =? SIZEOF_REQUEST)%Z
      then Log (Some (seqLen (decode_request a.2))) (granted l) (responded l) (recorded l) else l
  | Open _ _ _ => λ a l,
      match pending l with
      | Some len => Log None (if (ret a =? -1)%Z then granted l else granted l ++ [len])
                      (responded l) (recorded l)
      | None => l
      end
  | Write _ b => λ _, log_write b
  | _ => λ _ l, l
  end.

Definition log_event (l : log) (e : event posix) : log :=
  match e with
  | ECall c a => log_call c a l
  | EGone (Write _ b) => log_write b l
  | _ => l
  end.

Definition log_of (t : list (event posix)) (l : log) : log := fold_left log_event t l.
Definition log0 : log := Log None [] [] [].

(** The first numbers of consecutive ranges of the given lengths. *)
Fixpoint starts (n : Z) (lens : list Z) : list Z :=
  match lens with [] => [] | l :: lens' => n :: starts (n + l) lens' end.

Definition sum (lens : list Z) : Z := foldr Z.add 0%Z lens.

(** Every granted request was answered with the start of its range. *)
Definition answered (n0 : Z) (l : log) : Prop := responded l = le32 <$> starts n0 (granted l).

Record served (n0 n : Z) (l : log) : Prop := Served {
  sv_answered : answered n0 l;
  sv_pending : pending l = None;
  sv_next : n = (n0 + sum (granted l))%Z }.

Lemma sum_snoc lens x : sum (lens ++ [x]) = (sum lens + x)%Z.
Proof. unfold sum. induction lens as [|y lens IH]; cbn; lia. Qed.

Lemma starts_snoc n lens x : starts n (lens ++ [x]) = starts n lens ++ [(n + sum lens)%Z].
Proof.
  revert n. induction lens as [|y lens IH]; intros n; cbn; [by rewrite Z.add_0_r|].
  rewrite IH. unfold sum. cbn. by rewrite Z.add_assoc.
Qed.

Section correctness.
Context {W : Type} (K : kernel posix W).

Lemma serve_request_ok serverFd n0 n l w :
  served n0 n l →
  wp K (serve_request serverFd n) w (λ r w' tr,
    let l' := log_of tr l in recorded l' = recorded l ∧
    (granted l' = granted l ∨ ∃ len, granted l' = granted l ++ [len]) ∧
    match r with
    | Returned None => served n0 n l' ∧ granted l' = granted l
    | Returned (Some n') => served n0 n' l' ∧ in_int n' ∧ granted l' ≠ granted l
    | Halted h => answered n0 l' ∧ (∃ why, h = Undef why) ∧ ¬ in_int (n0 + sum (granted l'))
    | Gone => answered n0 l'
    end).
Proof.
  intros [Ha Hp Hn]. unfold serve_request. prog_call; [|by repeat split; try left]. destruct a as [r b].
  destruct (ret r =? SIZEOF_REQUEST)%Z eqn:Hr; cbn [negb].
  2:{ prog_steps. unfold log_of. cbn. rewrite Hr. by repeat split; try left. }
  prog_call; [|unfold log_of; cbn; rewrite Hr; by repeat split; try left].
  destruct (ret a =? -1)%Z eqn:Ho.
  { apply wp_bind. eapply wp_errMsg; [reflexivity|]. intros msg. cbn beta iota.
    prog_steps. unfold log_of. cbn. rewrite Hr. cbn. rewrite Ho. by repeat split; try left. }
  set (len := seqLen (decode_request b)).
  set (l2 := Log None (granted l ++ [len]) (responded l ++ [le32 n]) (recorded l)).
  assert (served n0 (n + len) l2) as Hs2.
  { split; [|done|]; cbn.
    - unfold answered. cbn. by rewrite starts_snoc, fmap_app, Ha, Hn.
    - rewrite sum_snoc. lia. }
  set (post := λ (r : outcome (option Z)) (l' : log), recorded l' = recorded l ∧
    (granted l' = granted l ∨ ∃ len, granted l' = granted l ++ [len]) ∧
    match r with
    | Returned None => served n0 n l' ∧ granted l' = granted l
    | Returned (Some n') => served n0 n' l' ∧ in_int n' ∧ granted l' ≠ granted l
    | Halted h => answered n0 l' ∧ (∃ why, h = Undef why) ∧ ¬ in_int (n0 + sum (granted l'))
    | Gone => answered n0 l'
    end).
  assert (∀ w1, wp K (if decide (in_int (n + len)) then Ret (Some (n + len)%Z)
      else undef "signed overflow") w1 (λ r _ tr, post r (log_of tr l2))) as Hend.
  { intros w1. destruct (decide _) as [Hi|Hi]; prog_steps; (split; [done|]); (split; [right; by exists len|]);
      [split; [done|]; split; [done|]; intros He; change (granted l ++ [len] = granted l) in He;
       apply (f_equal length) in He; rewrite length_app in He; cbn in He; lia|].
    split; [apply Hs2|]. split; [by eexists|].
    intros Hx. apply Hi. rewrite (sv_next _ _ _ Hs2). exact Hx. }
  assert (∀ b2 n2 p f m, (b2, n2) = (b, r) → log_of [ECall (S := posix) (Read serverFd SIZEOF_REQUEST) (n2, b2);
    ECall (S := posix) (Open p f m) a] l = Log None (granted l ++ [len]) (responded l) (recorded l)) as Hlog.
  { intros ????? [= -> ->]. unfold log_of. cbn. rewrite Hr. cbn. by rewrite Ho. }
  assert (∀ p f m c tr, log_of (ECall (S := posix) (Read serverFd SIZEOF_REQUEST) (r, b) ::
    ECall (S := posix) (Open p f m) a :: c :: tr) l =
    log_of tr (log_event (Log None (granted l ++ [len]) (responded l) (recorded l)) c)) as Hl.
  { intros. rewrite <- (Hlog b r p f m eq_refl). done. }
  prog_call; [|rewrite Hl; split; [done|split; [right; by exists len|apply Hs2]]].
  prog_step; cbn [bind].
  - apply wp_put. prog_call; [|rewrite Hl; split; [done|split; [right; by exists len|apply Hs2]]].
    prog_step; cbn [bind].
    + apply wp_bind, wp_bind. eapply wp_errMsg; [reflexivity|]. intros msg. cbn beta iota.
      apply wp_ret. cbn beta iota. eapply wp_mono; [apply Hend|]. intros r2 w2 tr2 Hq. rewrite Hl. exact Hq.
    + eapply wp_mono; [apply Hend|]. intros r2 w2 tr2 Hq. rewrite Hl. exact Hq.
  - prog_call; [|rewrite Hl; split; [done|split; [right; by exists len|apply Hs2]]].
    prog_step; cbn [bind].
    + apply wp_bind, wp_bind. eapply wp_errMsg; [reflexivity|]. intros msg. cbn beta iota.
      apply wp_ret. cbn beta iota. eapply wp_mono; [apply Hend|]. intros r2 w2 tr2 Hq. rewrite Hl. exact Hq.
    + eapply wp_mono; [apply Hend|]. intros r2 w2 tr2 Hq. rewrite Hl. exact Hq.
Qed.

Lemma log_report t l : Forall report_event t → log_of t l = l.
Proof.
  revert l. induction t as [|e t IH]; intros l Ht; [done|]. apply Forall_cons in Ht as [He Ht].
  unfold log_of in *. cbn [fold_left]. rewrite IH by done. by destruct e as [|[]|[]].
Qed.

Lemma log_of_app t1 t2 l : log_of (t1 ++ t2) l = log_of t2 (log_of t1 l).
Proof. apply fold_left_app. Qed.

Lemma open_server_fifo_ok l w :
  pending l = None →
  wp K open_server_fifo w (λ r _ tr, log_of tr l = l ∧
    match r with Returned _ => True | r => failed r end).
Proof.
  intros Hp. unfold open_server_fifo.
  assert (∀ p f m (a : rc), log_call (Open p f m) a l = l) as Ho by (intros; cbn; by rewrite Hp).
  repeat first [ progress prog_call | case_match ]; try report_run; try apply wp_ret; (split; [|done]);
    unfold log_of; cbn [fold_left log_event]; rewrite ?Ho; try done; by apply log_report.
Qed.

(** How the service can end. *)
Definition service_ends {A} (n0 : Z) (r : outcome A) (l : log) : Prop :=
  match r with
  | Returned _ => False
  | Halted h => h = Cut ∨ failed (A := A) (Halted h) ∨
      (∃ why, h = Undef why) ∧ ¬ in_int (n0 + sum (granted l))
  | Gone => True
  end.

Lemma fifo_server_ok (fuel : nat) (w : W) :
  wp K (fifo_server_main fuel) w (λ r _ tr,
    let l := log_of tr log0 in answered 0 l ∧ service_ends 0 r l) ∧
  wp K fifo_sig_handler w (λ r _ tr, r = Gone ∨
    r = Halted (Exited 255) ∧ ∃ a, ECall (S := posix) (Remove SERVER_FIFO) a ∈ tr).
Proof.
  split.
  - unfold fifo_server_main. cbv zeta.
    prog_call. destruct (ret a =? -1)%Z eqn:Ha.
    { report_run; unfold log_of; cbn; rewrite log_report by done; (split; [done|]); cbn; tauto. }
    prog_call. destruct (ret a0 =? -1)%Z eqn:Ha0.
    { report_run; unfold log_of; cbn; rewrite log_report by done; (split; [done|]); cbn; tauto. }
    apply wp_bind. eapply wp_mono; [by apply (open_server_fifo_ok log0)|].
    intros [serverFd|h|] w2 tr2 [Hl Hr]; [|split; [unfold log_of in *; cbn; by rewrite Hl|cbn; tauto]..].
    assert (∀ t, log_of (ECall (S := posix) (Sigaction SIGINT (Sigact (Handler "fifo_sig_handler") 0 SA_RESTART)) a ::
      ECall (S := posix) (Sigaction SIGTERM (Sigact (Handler "fifo_sig_handler") 0 SA_RESTART)) a0 ::
      tr2 ++ t) log0 = log_of t log0) as Hl0 by (intros t; rewrite <- Hl at 2; by rewrite <- log_of_app).
    eapply wp_mono.
    { apply (wp_loop_partial K (λ n _ tr, served 0 n (log_of tr log0)) _
        (λ r _ tr, answered 0 (log_of tr log0) ∧ service_ends 0 r (log_of tr log0))) with (t := []); [| |done].
      - intros n w3 tr Hs. apply wp_bind. eapply wp_mono; [by apply serve_request_ok|].
        intros [[n'|]|h|] w4 tr4 (_ & _ & Hr4); [apply wp_ret; rewrite app_nil_r|apply wp_ret; rewrite app_nil_r| |];
          rewrite log_of_app; [apply Hr4|apply Hr4| |done].
        destruct Hr4 as (? & ? & ?). cbn. auto.
      - intros n w3 tr Hs. split; [apply Hs|by left]. }
    intros r w3 tr3 Hpost. rewrite Hl0. exact Hpost.
  - unfold fifo_sig_handler. prog_call; [|by left]. prog_call; [|by left]. prog_steps.
    right. split; [done|]. eexists. right. left.
Qed.

Lemma decode_encode r : in_int (req_pid r) → in_int (seqLen r) → decode_request (encode_request r) = r.
Proof.
  intros H1 H2. unfold decode_request, encode_request. destruct r as [p n]. cbn [req_pid seqLen] in *.
  change (of_le32 (le32 p ++ le32 n)) with (of_le32 (le32 p)).
  change (drop 4 (le32 p ++ le32 n)) with (le32 n). by rewrite !of_le32_le32.
Qed.

(** The numbers after each grant. *)
Fixpoint nexts (n : Z) (lens : list Z) : list Z :=
  match lens with [] => [] | l :: lens' => (n + l)%Z :: nexts (n + l) lens' end.

Lemma nexts_snoc n lens x : nexts n (lens ++ [x]) = nexts n lens ++ [(n + sum lens + x)%Z].
Proof.
  revert n. induction lens as [|y lens IH]; intros n; cbn; [f_equal; unfold sum; cbn; lia|].
  rewrite IH. unfold sum. cbn. do 3 f_equal. lia.
Qed.

Lemma backup_record_text n c : in_int n → cstr (backup_record n c) = zdec n ∧ NUL ∈ backup_record n c.
Proof.
  intros Hn. unfold backup_record, buf_store, snprintf.
  rewrite take_ge by (pose proof (length_zdec_int n Hn); lia). split.
  - rewrite <- app_assoc. apply cstr_app_nul, zdec_no_nul.
  - rewrite <- app_assoc. apply elem_of_app. right. left.
Qed.

Lemma length_backup_record n c : in_int n → length c = 21 → length (backup_record n c) = 21.
Proof.
  intros Hn Hc. unfold backup_record, buf_store, snprintf.
  pose proof (length_zdec_int n Hn). rewrite take_ge by lia.
  rewrite length_app, length_drop, length_app. simpl. lia.
Qed.

Lemma length_nexts n lens : length (nexts n lens) = length lens.
Proof. revert n. induction lens; intros; cbn; auto. Qed.

(** Progress of the backup server: the number served next is in memory and in
    the last record. *)
Definition backed_up (n0 : Z) (s : Z * bytes) (l : log) : Prop :=
  served n0 s.1 l ∧ length s.2 = 21 ∧ cstr <$> recorded l = zdec <$> nexts n0 (granted l).

(** What may be said when the server stops: at most the last record is missing. *)
Definition backup_log (n0 : Z) (l : log) : Prop :=
  answered n0 l ∧ cstr <$> recorded l `prefix_of` zdec <$> nexts n0 (granted l) ∧
  length (granted l) ≤ S (length (recorded l)).

Lemma backed_up_log n0 s l : backed_up n0 s l → backup_log n0 l.
Proof.
  intros (Hs & _ & Hr). split; [apply Hs|]. split; [by rewrite Hr|].
  apply (f_equal length) in Hr. rewrite !length_fmap in Hr.
  rewrite length_nexts in Hr. lia.
Qed.


Lemma backup_step_ok serverFd backupFd n0 s l w :
  backed_up n0 s l →
  wp K (backup_step serverFd backupFd s) w (λ r w' tr, let l' := log_of tr l in
    match r with
    | Returned (inl s') => backed_up n0 s' l'
    | Returned (inr _) => False
    | Halted h => backup_log n0 l' ∧ (∃ why, h = Undef why) ∧ ¬ in_int (n0 + sum (granted l'))
    | Gone => backup_log n0 l'
    end).
Proof.
  destruct s as [n c]. intros Hb. pose proof (backed_up_log _ _ _ Hb) as (_ & _ & Hlen).
  pose proof Hb as (Hs & Hc & Hr). cbn [fst snd] in *.
  unfold backup_step. apply wp_bind.
  eapply wp_mono; [by apply serve_request_ok|].
  intros r w1 tr (Hrec & Hg & Hpost).
  assert (answered n0 (log_of tr l) → backup_log n0 (log_of tr l)) as Hbl.
  { intros Ha. split; [done|]. rewrite Hrec, Hr.
    apply (f_equal length) in Hr. rewrite !length_fmap, length_nexts in Hr.
    destruct Hg as [->|[len ->]]; [split; [done|lia]|]. rewrite nexts_snoc, fmap_app, length_app.
    split; [by eexists|cbn; lia]. }
  destruct r as [[n'|]|h|].
  - destruct Hpost as (Hs' & Hin & Hne). destruct Hg as [?|[len Hg]]; [done|].
    set (c' := backup_record n' c).
    assert (∀ wr, backed_up n0 (n', c') (log_of tr (log_of [] (log_of wr l))) → True) as _ by done.
    prog_call; [|rewrite log_of_app; by apply Hbl, Hs'].
    assert (length c' = 21) as Hc' by by apply length_backup_record.
    assert (∀ t, log_of (tr ++ ECall (S := posix) (Lseek backupFd 0 SEEK_SET) a :: t) l = log_of t (log_of tr l)) as Hl1
      by (intros; by rewrite log_of_app).
    set (l2 := Log (pending (log_of tr l)) (granted (log_of tr l)) (responded (log_of tr l))
                 (recorded (log_of tr l) ++ [c'])).
    assert (log_write c' (log_of tr l) = l2) as Hlw by (unfold log_write; by rewrite Hc').
    assert (backed_up n0 (n', c') l2) as Hb2.
    { split; [by destruct Hs'|]. split; [done|]. cbn. rewrite Hrec, Hg, nexts_snoc, !fmap_app, Hr. f_equal.
      change ([cstr c'] = [zdec (n0 + sum (granted l) + len)]).
      rewrite (proj1 (backup_record_text n' c Hin) : cstr c' = _). do 2 f_equal.
      rewrite (sv_next _ _ _ Hs'), Hg, sum_snoc. lia. }
    prog_call; [|rewrite Hl1; cbn [log_of fold_left log_event]; rewrite Hlw; by eapply backed_up_log].
    prog_step; prog_steps; rewrite Hl1; cbn [log_of fold_left log_event log_call]; by rewrite Hlw.
  - apply wp_ret. rewrite app_nil_r. destruct Hpost as [Hs' Hg']. split; [done|]. split; [done|].
    by rewrite Hrec, Hg', Hr.
  - destruct Hpost as (Ha & ? & ?). auto.
  - auto.
Qed.

(** The start of the backup server says nothing to the clients. *)
Lemma open_backup_ok garbage w :
  (∀ fd k w1 a w2, K (Read fd k) w1 = Answer a w2 → Z.of_nat (length a.2) <= Z.max 0 k)%Z →
  length garbage = 21 →
  wp K (open_backup garbage) w (λ r _ tr, log_of tr log0 = log0 ∧
    match r with
    | Returned (_, _, c) => length c = 21
    | Halted h => failed r ∨ ∃ why, h = Undef why
    | Gone => True
    end).
Proof.
  intros Hread Hg. unfold open_backup. prog_call.
  assert (∀ b, length b ≤ 21 → length (buf_store b garbage) = 21) as Hc.
  { intros b Hb. unfold buf_store. rewrite length_app, length_drop. lia. }
  assert (∀ w1, wp K ('(r, b) <- sys (Read (ret a) 21) ;;
      let content := buf_store b garbage in
      if (ret r =? -1)%Z then errExit (errno r) "read %s" [AStr SEQNUM_BAK_FILE] else
      if (ret r =? 0)%Z then Ret (ret a, 0%Z, content) else
      if bool_decide (NUL ∈ content) then
        let n := strtol (cstr content) 10 in
        if (st_errno n =? EINVAL)%Z then errExit EINVAL "strtol %s" [AStr SEQNUM_BAK_FILE] else
        Ret (ret a, to_int (st_val n), content)
      else undef "backupFileContent is not a string") w1 (λ r _ tr, log_of tr log0 = log0 ∧
    match r with
    | Returned (_, _, c) => length c = 21
    | Halted h => failed r ∨ ∃ why, h = Undef why
    | Gone => True
    end)) as Hrest.
  { intros w1. prog_call. destruct a0 as [r b]. apply Hread in H0. cbn [snd] in H0. cbv zeta.
    assert (∀ tr, log_of (ECall (S := posix) (Read (ret a) 21) (r, b) :: tr) log0 = log_of tr log0) as Hl by done.
    repeat case_match; [report_run|apply wp_ret|report_run|apply wp_ret|apply wp_stop]; rewrite Hl;
      rewrite ?log_report by done; (split; [done|]); cbn; eauto; apply Hc; lia. }
  assert (∀ tr, log_of (ECall (S := posix) (Open SEQNUM_BAK_FILE (Z.lor O_RDWR O_SYNC) 0) a :: tr) log0
    = log_of tr log0) as Hl by done.
  destruct (ret a =? -1)%Z; [destruct (errno a =? ENOENT)%Z|]; cbn [bind].
  - prog_call. destruct (ret a0 =? -1)%Z.
    + report_run; rewrite Hl; (split; [exact (log_report _ log0 Ht)|]); cbn; eauto.
    + apply Hrest.
  - report_run; rewrite Hl, log_report by done; (split; [done|]); cbn; eauto.
  - apply Hrest.
Qed.


Definition registered (tr : list (event posix)) : Prop :=
  Exists (λ e, match e with ECall Atexit a => ret a = 0%Z | _ => False end) tr.

Lemma not_registered tr : Forall report_event tr → ¬ registered tr.
Proof.
  intros Hf He. apply Exists_exists in He as (e & Hin & He). rewrite Forall_forall in Hf.
  specialize (Hf e Hin). by destruct e as [|[]|[]].
Qed.

(** What a successful client has done. *)
Definition served_client (argv : list string) (p : Z) (tr : list (event posix)) : Prop :=
  ∃ len sfd a cfd n resp,
    (if decide (length argv <= 1) then len = 1%Z else ∃ x, argv !! 1 = Some x ∧ int_arg (Some x) GN_GT_0 len) ∧
    ECall (S := posix) (Write sfd (encode_request (Request p len))) a ∈ tr ∧ ret a = SIZEOF_REQUEST ∧
    ECall (S := posix) (Read cfd SIZEOF_RESPONSE) (n, resp) ∈ tr ∧ ret n = SIZEOF_RESPONSE ∧
    EOut (Out (zstr (of_le32 resp) +:+ nl)) ∈ tr.

Lemma client_request_ok argv p clientFIFO w :
  (∀ w1 a w2, K Getpid w1 = Answer a w2 → ret a = p) →
  wp K (client_request argv clientFIFO) w (λ r _ tr, ends_with (served_client argv p tr) r).
Proof.
  intros Hpid. unfold client_request. prog_call. apply Hpid in H.
  assert (∀ len w1, (if decide (length argv <= 1) then len = 1%Z
      else ∃ x, argv !! 1 = Some x ∧ int_arg (Some x) GN_GT_0 len) →
    wp K (let req := Request (ret a) len in
      serverFd <- sys (Open SERVER_FIFO O_WRONLY 0) ;;
      if (ret serverFd =? -1)%Z then errExit (errno serverFd) "open %s" [AStr SERVER_FIFO] else
      w <- sys (Write (ret serverFd) (encode_request req)) ;;
      if negb (ret w =? SIZEOF_REQUEST)%Z then fatal "Can't write to server" [] else
      clientFd <- sys (Open clientFIFO O_RDONLY 0) ;;
      if (ret clientFd =? -1)%Z then errExit (errno clientFd) "open %s" [AStr clientFIFO] else
      '(r, resp) <- sys (Read (ret clientFd) SIZEOF_RESPONSE) ;;
      if negb (ret r =? SIZEOF_RESPONSE)%Z then fatal "Can't read response from server" [] else
      printf (zstr (of_le32 resp) +:+ nl) ;;;
      exit EXIT_SUCCESS) w1
    (λ r _ tr, ends_with (A := unit) (served_client argv p (ECall (S := posix) Getpid a :: tr)) r)) as Hrest.
  { intros len w1 Hlen. cbv zeta. rewrite H.
    prog_call. destruct (ret a0 =? -1)%Z; [by_report|].
    prog_call. destruct (negb _) eqn:Hw; [by_report|]. zbool.
    prog_call. destruct (ret a2 =? -1)%Z; [by_report|].
    prog_call. destruct a3 as [n resp]. destruct (negb (ret n =? _)%Z) eqn:Hn; [by_report|]. zbool.
    prog_steps. intros _. exists len, (ret a0), a1, (ret a2), n, resp.
    rewrite !elem_of_cons. repeat split; try done; eauto 20. }
  destruct argv as [|a0 [|a1 rest]]; [by apply Hrest..|].
  apply wp_getInt; [|done]. intros z Hz. apply Hrest.
  rewrite decide_False by (cbn; lia). exists a1. by split.
Qed.

Lemma fifo_client_ok (argv : list string) (p : Z) (w : W) :
  (∀ w1 a w2, K Getpid w1 = Answer a w2 → ret a = p) →
  (∀ req, in_int (req_pid req) → in_int (seqLen req) → decode_request (encode_request req) = req) ∧
  wp K (fifo_client_main argv) w (λ r _ tr,
    (registered tr → (∃ c, r = Halted (Exited c)) →
     ∃ tr0 u, tr = tr0 ++ [ECall (S := posix) (Unlink (client_fifo p)) u]) ∧
    ends_with (served_client argv p tr) r).
Proof.
  intros Hpid. split; [exact decode_encode|]. unfold fifo_client_main. destruct (match argv with _ :: a :: _ => streq a "--help" | _ => false end).
  { report_run; (split; [by intros Hx%not_registered|cbn [ends_with]; (done || by intros)]). }
  prog_call; [|by split; [intros _ [? ?]|]]. prog_call; [|by split; [intros _ [? ?]|]].
  rewrite (Hpid _ _ _ H0). prog_call; [|by split; [intros _ [? ?]|]].
  assert (∀ tr, registered (ECall (S := posix) (Umask 0) a :: ECall (S := posix) Getpid a0 ::
    ECall (S := posix) (Mkfifo (client_fifo p) FIFO_MODE) a1 :: tr) → registered tr) as Hreg.
  { intros tr Hr. unfold registered in Hr. rewrite !Exists_cons in Hr. by destruct Hr as [[]|[[]|[[]|]]]. }
  destruct (_ && _).
  { report_run; (split; [by intros Hx%Hreg%not_registered|cbn [ends_with]; (done || by intros)]). }
  prog_call; [|by split; [intros _ [? ?]|]]. destruct (negb (ret a2 =? 0)%Z) eqn:Ha2; zbool.
  { report_run; (split; [|cbn [ends_with]; (done || by intros)]); intros Hx%Hreg; unfold registered in Hx; rewrite Exists_cons in Hx;
      (destruct Hx as [?|Hx]; [done|by apply not_registered in Hx]). }
  apply wp_with_atexit. eapply wp_mono; [by apply client_request_ok|].
  intros r w1 t Hend.
  assert (∀ pre post, served_client argv p t → served_client argv p (pre ++ t ++ post)) as Hmono.
  { intros pre post (len & sfd & x & cfd & n & resp & ? & ? & ? & ? & ? & ?).
    exists len, sfd, x, cfd, n, resp. rewrite !elem_of_app. tauto. }
  destruct r as [u|[n|n| | | ]|]; try by (split; [intros _ [? ?]|]).
  unfold removeFIFO. prog_call; [|by split; [intros _ [? ?]|]]. prog_steps. split.
  - intros _ _. eexists (_ :: _ :: _ :: _ :: t), _. reflexivity.
  - cbn in Hend |- *. intros Hn. apply (Hmono [_; _; _; _]). auto.
Qed.

End correctness.
End programs.

(** ** The service at work *)

(** A backup file that holds 7, and the requests of a list of clients; the
    client's own response is 7. *)
Definition clients_kernel : kernel posix (list bytes) := λ c w,
  match c as c return reaction (posix_ans c) (list bytes) with
  | Read fd n =>
      if (fd =? -1)%Z then Answer (Rc (-1) EBADF, []) w
      else if (n =? 21)%Z then Answer (Rc 21 0, backup_record 7 (repeat NUL 21)) w
      else if (n =? 4)%Z then Answer (Rc 4 0, le32 7) w
      else match w with
           | b :: w' => if (Z.of_nat (length b) <=? Z.max 0 n)%Z
                        then Answer (Rc (Z.of_nat (length b)) 0, b) w' else NoReturn w
           | [] => NoReturn w
           end
  | Open _ _ _ => Answer (Rc 3 0) w
  | Write _ b => Answer (Rc (Z.of_nat (length b)) 0) w
  | Umask _ | Mkfifo _ _ | Close _ | Lseek _ _ _ | Signal _ _ | Unlink _ | Atexit => Answer (Rc 0 0) w
  | Getpid => Answer (Rc 42 0) w
  | _ => NoReturn w
  end.
Definition no_text (z : Z) : string := "".
Definition two_clients : list bytes := [encode_request (Request 100 3); encode_request (Request 200 5)].

Example backup_session :
  log_of (run clients_kernel (backup_server_main no_text no_text 0 9 (repeat NUL 21)) two_clients).2 log0
  = Log None [3; 5]%Z [le32 7; le32 10]
      [backup_record 10 (backup_record 7 (repeat NUL 21)); backup_record 15 (backup_record 7 (repeat NUL 21))].
Proof. vm_compute. reflexivity. Qed.


