(* ===== verification/Popen.v ===== *)
(** * popen and pclose rebuilt: CH44-Pipes_and_FIFOs/popen_pclose/popen_pclose.c *)
From Stdlib Require Import ZArith Lia Ascii String.
From stdpp Require Import base gmap strings list.
From S2P Require Import Prelude Prog CString Posix.

Local Open Scope prog_scope.

(** ** The code *)

Definition MAP_SIZE : Z := 1024.

(** The global array [FDPIDMAP], by index; the entries not in the map are 0. *)
Definition fdmap := gmap Z Z.
Definition map_get (m : fdmap) (fd : Z) : Z := default 0%Z (m !! fd).
Definition in_map (fd : Z) : bool := (0 <=? fd)%Z && (fd <? MAP_SIZE)%Z.

(** [*type] *)
Definition type_char (type : string) : ascii := hd NUL (to_bytes type).

(** A result of [my_popen]: the stream ([None] for NULL) and [FDPIDMAP]. *)
Definition my_popen (command type : string) (FDPIDMAP : fdmap) : prog posix (option Z * fdmap) :=
  let t := type_char type in
  if negb (negb (Ascii.eqb t "r") || negb (Ascii.eqb t "w")) then Ret (None, FDPIDMAP) else
  '(p, (pfd0, pfd1)) <- sys Pipe ;;
  if (ret p =? -1)%Z then Ret (None, FDPIDMAP) else
  childPID <- sys Fork ;;
  if (ret childPID =? -1)%Z then Ret (None, FDPIDMAP) else
  if negb (ret childPID =? 0)%Z then
    let closeFD := if Ascii.eqb t "r" then pfd1 else pfd0 in
    let saveFD := if Ascii.eqb t "r" then pfd0 else pfd1 in
    c <- sys (Close closeFD) ;;
    if (ret c =? -1)%Z then Ret (None, FDPIDMAP) else
    if negb (in_map saveFD) then undef "FDPIDMAP" else
    f <- sys (Fdopen saveFD type) ;;
    Ret (if (ret f =? 0)%Z then None else Some (ret f), <[saveFD := ret childPID]> FDPIDMAP)
  else
    (* [redirect keep drop std]: close [drop], make [std] the end [keep] *)
    let redirect (keep drop std : Z) : prog posix bool :=
      c <- sys (Close drop) ;;
      if (ret c =? -1)%Z then Ret false else
      if negb (keep =? std)%Z then
        d <- sys (Dup2 keep std) ;;
        if (ret d =? -1)%Z then Ret false else
        c <- sys (Close keep) ;;
        Ret (negb (ret c =? -1)%Z)
      else Ret true in
    ok <- (if Ascii.eqb t "r" then redirect pfd1 pfd0 STDOUT_FILENO
           else if Ascii.eqb t "w" then redirect pfd0 pfd1 STDIN_FILENO
           else Ret true) ;;
    if ok : bool then
      sys (Execve "/bin/sh" ["/bin/sh"; "-c"; command]%string) ;;;
      Ret (None, FDPIDMAP)
    else Ret (None, FDPIDMAP).

Definition WEXITSTATUS (status : Z) : Z := Z.shiftr (Z.land status 65280) 8.

Definition my_pclose (stream : Z) (FDPIDMAP : fdmap) : prog posix Z :=
  fd <- sys (Fileno stream) ;;
  if (ret fd =? -1)%Z then Ret (-1)%Z else
  if negb (in_map (ret fd)) then undef "FDPIDMAP" else
  let childPid := map_get FDPIDMAP (ret fd) in
  if (0 <? childPid)%Z then
    '(w, status) <- sys (Waitpid childPid 0) ;;
    if (ret w =? -1)%Z then Ret (-1)%Z else Ret (WEXITSTATUS status)
  else Ret (-1)%Z.

(** ** The pipe in a trace *)

Inductive pipe_end := ReadEnd | WriteEnd.

(** The descriptors of a process that refer to the pipe, after a call. *)
Definition ends_after (c : posix_op) : posix_ans c → gmap Z pipe_end → gmap Z pipe_end :=
  match c with
  | Pipe => λ a m, if (ret a.1 =? -1)%Z then m else {[a.2.1 := ReadEnd; a.2.2 := WriteEnd]}
  | Close fd => λ a m, if (ret a =? -1)%Z then m else delete fd m
  | Dup2 old new => λ a m,
      if (ret a =? -1)%Z then m
      else match m !! old with Some e => <[new := e]> m | None => delete new m end
  | _ => λ _ m, m
  end.

Fixpoint pipe_ends (t : list (event posix)) (m : gmap Z pipe_end) : gmap Z pipe_end :=
  match t with
  | [] => m
  | ECall c a :: t' => pipe_ends t' (ends_after c a m)
  | _ :: t' => pipe_ends t' m
  end.

(** What [fork] answered: [Some 0] in the child. *)
Definition fork_answer (c : posix_op) : posix_ans c → option Z :=
  match c with Fork => λ a, Some (ret a) | _ => λ _, None end.
Fixpoint forked (t : list (event posix)) : option Z :=
  match t with
  | [] => None
  | ECall c a :: t' => match fork_answer c a with Some p => Some p | None => forked t' end
  | _ :: t' => forked t'
  end.

(** The descriptors [pipe] gave. *)
Definition pipe_answer (c : posix_op) : posix_ans c → option (Z * Z) :=
  match c with Pipe => λ a, Some a.2 | _ => λ _, None end.
Fixpoint piped (t : list (event posix)) : option (Z * Z) :=
  match t with
  | [] => None
  | ECall c a :: t' => match pipe_answer c a with Some p => Some p | None => piped t' end
  | _ :: t' => piped t'
  end.

Definition is_exec (e : event posix) : Prop :=
  match e with EGone (Execve _ _) => True | _ => False end.

(** ** Properties *)

Local Ltac pipe_maps :=
  repeat first [ rewrite delete_insert_eq | rewrite delete_insert_ne by done | rewrite delete_empty
               | rewrite lookup_insert_eq | rewrite lookup_insert_ne by done ];
  done.

(** C8: [my_popen] and [my_pclose].  Seen from the parent, a stream is returned
    only after [pipe] and [fork] succeeded, for the end of the pipe that [type]
    names, the only one the parent keeps; the child's pid is recorded under
    that descriptor.  In the child, if the shell starts, it runs [command] with
    the other end as its standard output (or input) and no other descriptor of
    the pipe; the child returns to the caller only with NULL.  A [type] that
    starts with neither r nor w is not rejected.  [my_pclose] of a recorded
    stream waits for that child and returns its exit status, or -1, and makes
    no other call: it never closes the stream. *)
Theorem popen_pclose_correct {W} (K : kernel posix W) (w : W) (command type : string) (m : fdmap) (stream : Z) :
  wp K (my_popen command type m) w (λ r _ t, match r with
    | Returned (Some f, m') => ∃ pid pfd0 pfd1,
        piped t = Some (pfd0, pfd1) ∧ forked t = Some pid ∧ pid ≠ 0%Z ∧ pid ≠ (-1)%Z ∧
        let '(mine, e) := if Ascii.eqb (type_char type) "r" then (pfd0, ReadEnd) else (pfd1, WriteEnd) in
        (pfd0 ≠ pfd1 → pipe_ends t ∅ = {[mine := e]}) ∧ m' = <[mine := pid]> m ∧
        (0 <= mine < MAP_SIZE)%Z ∧ ∃ a, last t = Some (ECall (S := posix) (Fdopen mine type) a) ∧ ret a = f
    | Returned (None, m') => m' = m ∨ ∃ fd pid, forked t = Some pid ∧ pid ≠ 0%Z ∧ m' = <[fd := pid]> m
    | Halted h => h = Undef "FDPIDMAP"
    | Gone => ∀ e, last t = Some e → is_exec e → forked t = Some 0%Z ∧
        e = EGone (S := posix) (Execve "/bin/sh" ["/bin/sh"; "-c"; command]%string) ∧
        ∃ pfd0 pfd1, piped t = Some (pfd0, pfd1) ∧ (pfd0 ≠ pfd1 →
          (type_char type = "r"%char → pipe_ends t ∅ = {[STDOUT_FILENO := WriteEnd]}) ∧
          (type_char type = "w"%char → pipe_ends t ∅ = {[STDIN_FILENO := ReadEnd]}))
    end) ∧
  wp K (my_pclose stream m) w (λ r _ t, match r with
    | Returned n => n = (-1)%Z ∨ ∃ fd pid status a b,
        t = [ECall (S := posix) (Fileno stream) a; ECall (S := posix) (Waitpid pid 0) (b, status)] ∧
        ret a = fd ∧ map_get m fd = pid ∧ (0 < pid)%Z ∧ n = WEXITSTATUS status ∧ (0 <= n < 256)%Z
    | Halted h => h = Undef "FDPIDMAP"
    | Gone => True
    end ∧ Forall (λ e, match e with ECall (Close _) _ | ECall (Fclose _) _ => False | _ => True end) t).
Proof.
  split.
  - unfold my_popen. cbv zeta. destruct (negb (_ || _)); [apply wp_ret; by left|].
    prog_call; [|intros ev [= <-] []]. destruct a as [p [pfd0 pfd1]].
    destruct (ret p =? -1)%Z eqn:Hp; [apply wp_ret; by left|].
    prog_call; [|intros ev [= <-] []]. destruct (ret a =? -1)%Z eqn:Ha; [apply wp_ret; by left|].
    destruct (ret a =? 0)%Z eqn:Ha0; cbn [negb].
    2:{ prog_call; [|intros ev [= <-] []]. destruct (ret a0 =? -1)%Z eqn:Hc; [apply wp_ret; by left|].
        destruct (negb (in_map _)) eqn:Hin; [by apply wp_stop|]. unfold in_map in Hin. zbool.
        prog_call; [|intros ev [= <-] []]. destruct (ret a1 =? 0)%Z eqn:Hf; apply wp_ret.
        - right. zbool. by eexists _, (ret a).
        - exists (ret a), pfd0, pfd1. zbool. split; [done|]. split; [done|]. split; [done|]. split; [done|].
          destruct (Ascii.eqb (type_char type) "r").
          all: (split; [intros Hne; cbn; rewrite ?(proj2 (Z.eqb_neq _ _) Hp), ?(proj2 (Z.eqb_neq _ _) Hc)
                |split; [done|split; [done|by eexists]]]).
          all: pipe_maps. }
    destruct (Ascii.eqb_spec (type_char type) "r") as [Et|Et];
      [|destruct (Ascii.eqb_spec (type_char type) "w") as [Ew|Ew]].
    + prog_call; [|intros ev [= <-] []]. destruct (ret a0 =? -1)%Z eqn:Hc; [by repeat apply wp_ret; left|].
      destruct (pfd1 =? STDOUT_FILENO)%Z eqn:Hstd; cbn [negb].
      * prog_call; [prog_steps; by left|]. intros ev [= <-] _.
        apply Z.eqb_eq in Ha0. split; [cbn; congruence|]. split; [done|]. exists pfd0, pfd1. split; [done|]. intros Hne.
        split; [intros _|congruence]. cbn. rewrite Hp, Hc. apply Z.eqb_eq in Hstd. subst pfd1.
        pipe_maps.
      * prog_call; [|intros ev [= <-] []]. destruct (ret a1 =? -1)%Z eqn:Hd; [by repeat apply wp_ret; left|].
        prog_call; [|intros ev [= <-] []]. destruct (ret a2 =? -1)%Z eqn:Hc2; cbn [negb bind]; [by apply wp_ret; left|].
        prog_call; [prog_steps; by left|]. intros ev [= <-] _.
        apply Z.eqb_eq in Ha0. split; [cbn; congruence|]. split; [done|]. exists pfd0, pfd1. split; [done|]. intros Hne.
        split; [intros _|congruence]. cbn. rewrite Hp, Hc, Hd, Hc2. apply Z.eqb_neq in Hstd.
        pipe_maps.
    + prog_call; [|intros ev [= <-] []]. destruct (ret a0 =? -1)%Z eqn:Hc; [by repeat apply wp_ret; left|].
      destruct (pfd0 =? STDIN_FILENO)%Z eqn:Hstd; cbn [negb].
      * prog_call; [prog_steps; by left|]. intros ev [= <-] _.
        apply Z.eqb_eq in Ha0. split; [cbn; congruence|]. split; [done|]. exists pfd0, pfd1. split; [done|]. intros Hne.
        split; [congruence|intros _]. cbn. rewrite Hp, Hc. apply Z.eqb_eq in Hstd. subst pfd0. pipe_maps.
      * prog_call; [|intros ev [= <-] []]. destruct (ret a1 =? -1)%Z eqn:Hd; [by repeat apply wp_ret; left|].
        prog_call; [|intros ev [= <-] []]. destruct (ret a2 =? -1)%Z eqn:Hc2; cbn [negb bind]; [by apply wp_ret; left|].
        prog_call; [prog_steps; by left|]. intros ev [= <-] _.
        apply Z.eqb_eq in Ha0. split; [cbn; congruence|]. split; [done|]. exists pfd0, pfd1. split; [done|]. intros Hne.
        split; [congruence|intros _]. cbn. rewrite Hp, Hc, Hd, Hc2. apply Z.eqb_neq in Hstd. pipe_maps.
    + cbn [bind]. prog_call; [prog_steps; by left|]. intros ev [= <-] _.
      apply Z.eqb_eq in Ha0. split; [cbn; congruence|]. split; [done|]. exists pfd0, pfd1. split; [done|]. by intros _.
  - unfold my_pclose. prog_call; [|by repeat constructor]. destruct (ret a =? -1)%Z; [apply wp_ret; split; [by left|by repeat constructor]|].
    destruct (negb _); [apply wp_stop; split; [done|by repeat constructor]|].
    cbv zeta. destruct (0 <? map_get m (ret a))%Z eqn:Hpid; [|apply wp_ret; split; [by left|by repeat constructor]].
    prog_call; [|by repeat constructor]. destruct a0 as [b status].
    destruct (ret b =? -1)%Z; apply wp_ret; (split; [|by repeat constructor]); [by left|]. right.
    zbool. exists (ret a), (map_get m (ret a)), status, a, b. repeat split; try done.
    + apply Z.shiftr_nonneg, Z.land_nonneg. by right.
    + unfold WEXITSTATUS. rewrite Z.shiftr_land. change (Z.shiftr 65280 8) with (Z.ones 8).
      rewrite Z.land_ones by lia. apply Z.mod_pos_bound. lia.
Qed.
