(* ===== verification/Procfs.v ===== *)
(** * Programs that read /proc: users_processes.c

    [users_main] is CH12-System_and_Process_Information/user_processes/users_processes.c.
    The file holds the contract of the calls that read /proc ([ProcKernel]),
    which FdReader.v and PsTree.v share, and a kernel that keeps it. *)
From Stdlib Require Import ZArith Lia Ascii String.
From stdpp Require Import base gmap strings list.
From S2P Require Import Prelude Prog CString Posix.

Local Open Scope prog_scope.

(** ** The contract *)

(** The /proc file system while a program runs: the entries of the directories,
    the lines of the text files, the targets of the links, the password
    database; and the streams the program has open, with what is left of them.
    The tables do not change during the run: a process that disappears between
    [readdir] and [fopen] is outside the contract. *)
Record procfs := ProcFs {
  dirs : gmap string (list dirent);
  texts : gmap string (list bytes);
  links : gmap string bytes;
  users : gmap string Z;
  dstreams : gmap Z (list dirent);
  fstreams : gmap Z (list bytes) }.

Definition set_dstreams (d : gmap Z (list dirent)) (v : procfs) : procfs :=
  ProcFs (dirs v) (texts v) (links v) (users v) d (fstreams v).
Definition set_fstreams (f : gmap Z (list bytes)) (v : procfs) : procfs :=
  ProcFs (dirs v) (texts v) (links v) (users v) (dstreams v) f.

Definition proc_step (v : procfs) (c : posix_op) : posix_ans c → procfs → Prop :=
  match c with
  | Opendir p => λ a v',
      (ret a = 0%Z ∧ v' = v) ∨
      ∃ es, dirs v !! p = Some es ∧ ret a ≠ 0%Z ∧ dstreams v !! ret a = None ∧
        v' = set_dstreams (<[ret a := es]> (dstreams v)) v
  | Readdir d => λ a v',
      match dstreams v !! d with
      | Some (e :: es) => a = Some e ∧ v' = set_dstreams (<[d := es]> (dstreams v)) v
      | _ => a = None ∧ v' = v
      end
  | Closedir d => λ _ v', v' = set_dstreams (delete d (dstreams v)) v
  | Fopen p => λ a v',
      match texts v !! p with
      | Some ls => ret a ≠ 0%Z ∧ v' = set_fstreams (<[ret a := ls]> (fstreams v)) v
      | None => ret a = 0%Z ∧ v' = v
      end
  | Fgets f n => λ a v',
      match fstreams v !! f with
      | Some (l :: ls) => (Z.of_nat (length l) < n)%Z → a = Some l ∧ v' = set_fstreams (<[f := ls]> (fstreams v)) v
      | _ => a = None ∧ v' = v
      end
  | Fclose f => λ _ v', v' = set_fstreams (delete f (fstreams v)) v
  | Readlink p n => λ a v', v' = v ∧
      match links v !! p with
      | Some b => a.2 = take (Z.to_nat n) b ∧ ret a.1 = Z.of_nat (length a.2)
      | None => ret a.1 = (-1)%Z
      end
  | Getpwnam u => λ a v', v' = v ∧ pw_uid <$> a = users v !! u
  | Malloc _ => λ _ v', v' = v
  | _ => λ _ _, True
  end.

Class ProcKernel {W} (K : kernel posix W) (view : W → procfs) : Prop :=
  proc_kernel c w a w' : K c w = Answer a w' → proc_step (view w) c a (view w').

(** ** Shared code *)

(** [strtol(name, &endptr, 10); *endptr == '\0'] *)
Definition numeric_name (name : string) : bool :=
  match st_end (strtol (to_bytes name) 10) with [] => true | _ => false end.

Definition dot_entry (e : dirent) : bool := streq (d_name e) "." || streq (d_name e) "..".

(** [malloc] with its error exit. *)
Definition xmalloc (n : Z) : prog posix unit :=
  p <- sys (Malloc n) ;;
  when (ret p =? 0)%Z (perror "malloc" (errno p) ;;; exit 1).

Definition slen (s : string) : Z := Z.of_nat (length (to_bytes s)).

Definition STATUS_FILE_LINE_LEN : Z := 100.
Definition PROC_PATH : string := "/proc/".
Definition STATUS_PATH : string := "/status".

Definition vanished (path : string) : string :=
  "file " +:+ path +:+ " detected but cannot opened, probably because the " +:+
  "corresponding process does not exists" +:+ nl.

(** ** users_processes.c *)

(** [uid_t] is an unsigned 32-bit integer; -1 is 4294967295. *)
Definition userIDFromName (name : option string) : prog posix Z :=
  match name with
  | None | Some EmptyString => Ret (to_uint (-1))
  | Some name =>
      let r := strtol (to_bytes name) 10 in
      match st_end r with
      | [] => Ret (to_uint (st_val r))
      | _ =>
          pwd <- sys (Getpwnam name) ;;
          match pwd with
          | None => Ret (to_uint (-1))
          | Some p => Ret (pw_uid p)
          end
      end
  end.

(** [CmdNameValue] and [CmdUIDValue]; [None] while uninitialised. *)
Record cmd := Cmd { CmdNameValue : option bytes; CmdUIDValue : option bytes }.

(** A copy in a new block of what [strtok(NULL, "\t")] gives. *)
Definition next_token (rest : bytes) : prog posix bytes :=
  match strtok TAB rest with
  | (Some v, _) => xmalloc (Z.of_nat (length v) + 1) ;;; Ret v
  | (None, _) => undef "strlen(NULL)"
  end.

(** The body of the [fgets] loop. *)
Definition status_line (statusFileLine : bytes) (c : cmd) : prog posix cmd :=
  match strtok TAB (cstr statusFileLine) with
  | (None, _) => undef "strcmp(NULL)"
  | (Some currentToken, rest) =>
      if bool_decide (currentToken = to_bytes "Name:") then
        v <- next_token rest ;; Ret (Cmd (Some (removelast v)) (CmdUIDValue c))
      else if bool_decide (currentToken = to_bytes "Uid:") then
        v <- next_token rest ;; Ret (Cmd (CmdNameValue c) (Some v))
      else Ret c
  end.

Definition status_lines (fuel : nat) (f : Z) (c : cmd) : prog posix cmd :=
  loop fuel (λ c,
    l <- sys (Fgets f STATUS_FILE_LINE_LEN) ;;
    match l with
    | None => Ret (inr c)
    | Some line => c <- status_line line c ;; Ret (inl c)
    end) c.

Definition user_line (name : bytes) (pid user : string) (uid : bytes) : string :=
  "Process with name: " +:+ of_bytes name +:+ " and PID: " +:+ pid +:+ " belongs to user " +:+
  user +:+ " with " +:+ "UID " +:+ of_bytes uid +:+ nl.

(** One directory entry. *)
Definition user_entry (fuel : nat) (userIDStr : bytes) (argv1 : string) (e : dirent) : prog posix unit :=
  if dot_entry e then Ret tt else
  if d_isdir e && numeric_name (d_name e) then
    xmalloc (slen PROC_PATH + slen (d_name e) + slen STATUS_PATH + 1) ;;;
    let path := PROC_PATH +:+ d_name e +:+ STATUS_PATH in
    f <- sys (Fopen path) ;;
    if (ret f =? 0)%Z then eprintf (vanished path) ;;; undef "fclose(NULL)" else
    c <- status_lines fuel (ret f) (Cmd None None) ;;
    match CmdUIDValue c with
    | None => undef "CmdUIDValue"
    | Some uid =>
        match CmdNameValue c with
        | None => undef "CmdNameValue"
        | Some name =>
            when (bool_decide (userIDStr = uid)) (printf (user_line name (d_name e) argv1 uid)) ;;;
            sys (Fclose (ret f)) ;;;
            Ret tt
        end
    end
  else Ret tt.

Definition users_main (fuel : nat) (argv : list string) : prog posix unit :=
  let usage := printf ("Usage: " +:+ argv_0 argv +:+ " <user_name>" +:+ nl) ;;; exit 1 in
  match argv with
  | [argv0; argv1] =>
      if streq argv1 "--help" then usage else
      userID <- userIDFromName (Some argv1) ;;
      let userIDStr := zdec (to_int userID) in
      if (6 <=? length userIDStr)%nat then undef "sprintf overflows userIDStr" else
      procDIR <- sys (Opendir PROC_PATH) ;;
      if (ret procDIR =? 0)%Z then perror "opendir" (errno procDIR) ;;; exit 1 else
      loop fuel (λ _ : unit,
        e <- sys (Readdir (ret procDIR)) ;;
        match e with
        | None => Ret (inr tt)
        | Some e => user_entry fuel userIDStr argv1 e ;;; Ret (inl tt)
        end) tt ;;;
      sys (Closedir (ret procDIR)) ;;;
      exit 0
  | _ => usage
  end.

(** ** Correctness of users_processes.c *)

(** What a line of a status file gives; [None] for a line on which the program
    dereferences NULL. *)
Definition parse_line (l : bytes) (c : cmd) : option cmd :=
  match strtok TAB (cstr l) with
  | (None, _) => None
  | (Some tok, rest) =>
      if bool_decide (tok = to_bytes "Name:") then
        v ← (strtok TAB rest).1; Some (Cmd (Some (removelast v)) (CmdUIDValue c))
      else if bool_decide (tok = to_bytes "Uid:") then
        v ← (strtok TAB rest).1; Some (Cmd (CmdNameValue c) (Some v))
      else Some c
  end.

Fixpoint parse_lines (ls : list bytes) (c : cmd) : option cmd :=
  match ls with [] => Some c | l :: ls' => c ← parse_line l c; parse_lines ls' c end.

Definition is_process (e : dirent) : bool := negb (dot_entry e) && (d_isdir e && numeric_name (d_name e)).
Definition status_path (e : dirent) : string := PROC_PATH +:+ d_name e +:+ STATUS_PATH.

(** A status file the program can read: short lines, with a name and a uid. *)
Definition readable (ls : list bytes) : Prop :=
  Forall (λ l, length l < 100) ls ∧
  ∃ n u, parse_lines ls (Cmd None None) = Some (Cmd (Some n) (Some u)).

(** The line to print for an entry. *)
Definition expected (v : procfs) (userIDStr : bytes) (user : string) (e : dirent) : list string :=
  if is_process e then
    match (ls ← texts v !! status_path e; parse_lines ls (Cmd None None)) with
    | Some (Cmd (Some n) (Some u)) =>
        if bool_decide (userIDStr = u) then [user_line n (d_name e) user u] else []
    | _ => []
    end
  else [].

Definition uid_of (v : procfs) (name : string) : Z :=
  match name with
  | EmptyString => to_uint (-1)
  | _ => if numeric_name name then to_uint (st_val (strtol (to_bytes name) 10))
         else default (to_uint (-1)) (users v !! name)
  end.

Section correctness.
Context {W : Type} (K : kernel posix W) (view : W → procfs) `{!ProcKernel K view}.

(** What a program that only allocates may have done when it stops. *)
Definition alloc_stop {A} (r : outcome A) : Prop :=
  match r with Returned _ => False | Halted h => h = Exited 1 | Gone => True end.

Lemma xmalloc_ok n w :
  wp K (xmalloc n) w (λ r w' t, outs t = [] ∧ match r with
    | Returned _ => view w' = view w
    | _ => alloc_stop r
    end).
Proof.
  unfold xmalloc. prog_call. apply proc_kernel in H. cbn in H. by prog_steps.
Qed.

(** The environment the tables describe is the same, and the other streams are
    where they were. *)
Lemma status_line_ok l c c' w :
  parse_line l c = Some c' →
  wp K (status_line l c) w (λ r w' t, outs t = [] ∧ match r with
    | Returned c2 => c2 = c' ∧ view w' = view w
    | _ => alloc_stop r
    end).
Proof.
  unfold parse_line, status_line. destruct (strtok TAB (cstr l)) as [[tok|] rest]; [|done].
  assert (∀ f : bytes → cmd, (v ← (strtok TAB rest).1; Some (f v)) = Some c' →
    wp K (v <- next_token rest ;; Ret (f v)) w (λ r w' t, outs t = [] ∧ match r with
      | Returned c2 => c2 = c' ∧ view w' = view w
      | _ => alloc_stop r
      end)) as Htok.
  { intros f Hf. unfold next_token. destruct (strtok TAB rest) as [[v|] r2]; [|done]. cbn in Hf.
    injection Hf as <-. apply wp_bind, wp_bind. eapply wp_mono; [apply xmalloc_ok|].
    intros [u|h|] w' t [Ho Hr]; [|done..]. apply wp_ret, wp_ret. by rewrite !app_nil_r. }
  repeat case_bool_decide; intros Hc.
  - by apply (Htok (λ v, Cmd (Some (removelast v)) (CmdUIDValue c))).
  - by apply (Htok (λ v, Cmd (CmdNameValue c) (Some v))).
  - injection Hc as <-. by apply wp_ret.
Qed.

Lemma status_lines_ok f ls : ∀ fuel c c' w,
  parse_lines ls c = Some c' → Forall (λ l, length l < 100) ls → length ls < fuel →
  fstreams (view w) !! f = Some ls →
  wp K (status_lines fuel f c) w (λ r w' t, outs t = [] ∧ match r with
    | Returned c2 => c2 = c' ∧ view w' = set_fstreams (<[f := []]> (fstreams (view w))) (view w)
    | _ => alloc_stop r
    end).
Proof.
  induction ls as [|l ls IH]; intros fuel c c' w Hp Hl Hf Hs; destruct fuel as [|fuel]; cbn in Hf; try lia;
    unfold status_lines; cbn [loop].
  - apply wp_bind. prog_call. apply proc_kernel in H. cbn in H. rewrite Hs in H. destruct H as [-> Hv].
    apply wp_ret, wp_ret. injection Hp as <-. split; [done|]. split; [done|]. rewrite Hv, insert_id by done.
    by destruct (view w).
  - apply Forall_cons in Hl as [Hl Hls]. cbn in Hp. destruct (parse_line l c) as [c1|] eqn:Hc1; [|done].
    apply wp_bind. prog_call. apply proc_kernel in H. cbn in H. rewrite Hs in H.
    destruct H as [-> Hv]; [unfold STATUS_FILE_LINE_LEN; lia|].
    apply wp_bind. eapply wp_mono; [by apply status_line_ok|].
    intros [c2|h|] w2 t2 [Ho Hr]; [|done..]. destruct Hr as [-> Hv2]. apply wp_ret.
    eapply wp_mono; [apply (IH fuel c1 c'); [done|done|lia|]|].
    { rewrite Hv2, Hv. cbn. by rewrite lookup_insert_eq. }
    intros [c3|h|] w3 t3 [Ho3 Hr3]; (split; [rewrite !outs_app; cbn; rewrite ?outs_app, Ho; cbn; by rewrite ?Ho3|]); [|done..].
    destruct Hr3 as [-> Hv3]. split; [done|]. rewrite Hv3, Hv2, Hv. unfold set_fstreams. cbn.
    by rewrite insert_insert_eq.
Qed.

(** The tables of the environment are those of [v0], only text streams differ. *)
Definition same_tables (v0 v : procfs) : Prop :=
  dirs v = dirs v0 ∧ texts v = texts v0 ∧ links v = links v0 ∧ users v = users v0.

Lemma user_entry_ok v0 fuel uid user e w :
  same_tables v0 (view w) →
  (is_process e = true → ∃ ls, texts v0 !! status_path e = Some ls ∧ readable ls ∧ length ls < fuel) →
  wp K (user_entry fuel uid user e) w (λ r w' t, match r with
    | Returned _ => outs t = expected v0 uid user e ∧ same_tables v0 (view w') ∧
        dstreams (view w') = dstreams (view w)
    | _ => alloc_stop r
    end).
Proof.
  intros Hv Hp. unfold user_entry, expected, is_process in *.
  destruct (dot_entry e); [by apply wp_ret|]. cbn [negb andb] in *.
  destruct (d_isdir e && numeric_name (d_name e)); [|by apply wp_ret].
  destruct (Hp eq_refl) as (ls & Hls & (Hl & n & u & Hpl) & Hfuel). unfold status_path in *.
  rewrite Hls. cbn [mbind option_bind]. rewrite Hpl.
  apply wp_bind. eapply wp_mono; [apply xmalloc_ok|].
  intros [_|h|] w1 t1 [Ho1 H1]; [|done..].
  prog_call. apply proc_kernel in H. cbn [proc_step] in H.
  rewrite H1, (proj1 (proj2 Hv)), Hls in H. destruct H as [Ha Hv2].
  rewrite (proj2 (Z.eqb_neq _ _) Ha).
  apply wp_bind. eapply wp_mono.
  { eapply (status_lines_ok (ret a) ls); [done..|]. rewrite Hv2. cbn. by rewrite lookup_insert_eq. }
  intros [c|h|] w3 t3 [Ho3 H3]; [|done..]. destruct H3 as [-> Hv3]. cbn [CmdUIDValue CmdNameValue].
  assert (same_tables v0 (view w3) ∧ dstreams (view w3) = dstreams (view w)) as [Hs3 Hd3].
  { rewrite Hv3, Hv2, ?H1. split; [|done]. destruct Hv as (H4 & H5 & H6 & H7). by repeat split. }
  assert (∀ w4, K (Fclose (ret a)) w3 = Answer w4.1 w4.2 → same_tables v0 (view w4.2) ∧
    dstreams (view w4.2) = dstreams (view w)) as Hclose.
  { intros [a4 w4] H4. apply proc_kernel in H4. cbn in H4. cbn [snd]. rewrite H4. split; [|done].
    destruct Hs3 as (?&?&?&?). by repeat split. }
  case_bool_decide; cbn [when].
  - prog_call. prog_steps. split; [|by apply (Hclose (a0, _))].
    rewrite outs_app, Ho1. cbn. rewrite outs_app, Ho3. done.
  - prog_call. prog_steps. split; [|by apply (Hclose (a0, _))].
    rewrite outs_app, Ho1. cbn. rewrite outs_app, Ho3. done.
Qed.

Lemma users_processes_ok (w : W) (fuel : nat) (argv0 user : string) (es : list dirent) :
  dirs (view w) !! PROC_PATH = Some es →
  (∀ e, e ∈ es → is_process e = true →
     ∃ ls, texts (view w) !! status_path e = Some ls ∧ readable ls ∧ length ls < fuel) →
  length es < fuel → user ≠ "--help"%string →
  let uid := zdec (to_int (uid_of (view w) user)) in
  length uid < 6 →
  wp K (users_main fuel [argv0; user]) w (λ r _ t, match r with
    | Halted (Exited 0) => outs t = es ≫= expected (view w) uid user
    | _ => alloc_stop r
    end).
Proof.
  intros Hes Hproc Hfuel Hhelp uid Huid. set (v0 := view w) in *. unfold users_main. cbv zeta.
  destruct (streq user "--help") eqn:E; [by apply streq_true in E|].
  apply wp_bind.
  assert (wp K (userIDFromName (Some user)) w (λ r w' t, outs t = [] ∧ match r with
    | Returned u => u = uid_of v0 user ∧ view w' = v0 | _ => r = Gone end)) as Hu.
  { unfold userIDFromName, uid_of. destruct user as [|c s]; [by apply wp_ret|]. unfold numeric_name.
    destruct (st_end _) as [|ch rest]; [by apply wp_ret|]. prog_call. apply proc_kernel in H. cbn in H.
    destruct H as [Hv Hu]. fold v0 in Hu. destruct a as [p|]; apply wp_ret; cbn in Hu; by rewrite <- Hu. }
  eapply wp_mono; [exact Hu|]. intros [u|h|] w1 t1 [Ho1 H1]; [|done..]. destruct H1 as [-> H1]. fold uid.
  destruct (6 <=? length uid) eqn:E6; [apply Nat.leb_le in E6; lia|].
  prog_call. destruct (ret a =? 0)%Z eqn:Ha; [by prog_steps|]. zbool.
  apply proc_kernel in H. cbn in H. rewrite H1, Hes in H. destruct H as [[? _]|(es' & Hes' & _ & _ & Hv2)]; [done|]. injection Hes' as <-.
  apply wp_bind. eapply wp_mono.
  { apply (wp_loop K (λ _ w2 t, ∃ rest, es = rest.1 ++ rest.2 ∧ same_tables v0 (view w2) ∧
        dstreams (view w2) !! ret a = Some rest.2 ∧
        outs t = rest.1 ≫= expected v0 uid user)
      (λ _ w2, length (default [] (dstreams (view w2) !! ret a)))
      _ (λ r _ t, match r with
         | Returned _ => outs t = es ≫= expected v0 uid user
         | _ => alloc_stop r
         end)) with (t := []).
    - intros _ w2 t ([ds rest] & -> & Hs & Hd & Ho). cbn [fst snd] in *.
      prog_call. apply proc_kernel in H. cbn in H. rewrite Hd in H.
      destruct rest as [|e rest]; destruct H as [-> Hv3].
      { apply wp_ret. rewrite outs_app, Ho. cbn. by rewrite !app_nil_r. }
      apply wp_bind. eapply wp_mono.
      { apply (user_entry_ok v0); [|intros Hp; apply Hproc; [|done]; apply elem_of_app; right; left].
        rewrite Hv3. destruct Hs as (?&?&?&?). by repeat split. }
      intros [u|h|] w3 t3 H3; [|done..]. destruct H3 as (Ho3 & Hs3 & Hd3). apply wp_ret.
      assert (dstreams (view w3) !! ret a = Some rest) as Hd4
        by (rewrite Hd3, Hv3; cbn; by rewrite lookup_insert_eq).
      split.
      + exists (ds ++ [e], rest). cbn [fst snd]. rewrite <- app_assoc. split; [done|]. split; [done|].
        split; [done|]. rewrite app_nil_r, outs_app, Ho, bind_app. cbn. by rewrite Ho3, app_nil_r.
      + rewrite Hd, Hd4. cbn. lia.
    - exists ([], es). cbn. split; [done|]. split; [|split; [|done]].
      + rewrite Hv2. by repeat split.
      + rewrite Hv2. cbn. by rewrite lookup_insert_eq.
    - rewrite Hv2. cbn. rewrite lookup_insert_eq. done. }
  cbn [app]. intros [u|h|] w3 t3 H3; [|by destruct h as [[]| | | |]..|done].
  prog_call. prog_steps. cbn. rewrite outs_app, Ho1. cbn. by rewrite outs_app, H3, app_nil_r.
Qed.
End correctness.

(** ** A kernel that keeps the contract *)

Definition prockernel : kernel posix procfs := λ c v,
  match c as c return reaction (posix_ans c) procfs with
  | Opendir p =>
      let id := (1 + Z.of_nat (size (dstreams v)))%Z in
      match dirs v !! p, dstreams v !! id with
      | Some es, None => Answer (Rc id 0) (set_dstreams (<[id := es]> (dstreams v)) v)
      | _, _ => Answer (Rc 0 ENOENT) v
      end
  | Readdir d =>
      match dstreams v !! d with
      | Some (e :: es) => Answer (Some e) (set_dstreams (<[d := es]> (dstreams v)) v)
      | _ => Answer None v
      end
  | Closedir d => Answer (Rc 0 0) (set_dstreams (delete d (dstreams v)) v)
  | Fopen p =>
      match texts v !! p with
      | Some ls => Answer (Rc 7 0) (set_fstreams (<[7%Z := ls]> (fstreams v)) v)
      | None => Answer (Rc 0 ENOENT) v
      end
  | Fgets f n =>
      match fstreams v !! f with
      | Some (l :: ls) => Answer (Some l) (set_fstreams (<[f := ls]> (fstreams v)) v)
      | _ => Answer None v
      end
  | Fclose f => Answer (Rc 0 0) (set_fstreams (delete f (fstreams v)) v)
  | Readlink p n =>
      match links v !! p with
      | Some b => let d := take (Z.to_nat n) b in Answer (Rc (Z.of_nat (length d)) 0, d) v
      | None => Answer (Rc (-1) ENOENT, []) v
      end
  | Getpwnam u => Answer (Passwd u <$> users v !! u) v
  | Malloc _ => Answer (Rc 1 0) v
  | _ => NoReturn v
  end.

#[export] Instance prockernel_ok : ProcKernel prockernel id.
Proof.
  intros c v a v' E. unfold id. destruct c; try done; cbn in E |- *; try by simplify_eq.
  - destruct (links v !! path); simplify_eq; done.
  - destruct (dirs v !! path) as [es|] eqn:E1; [|simplify_eq; by left].
    destruct (dstreams v !! _) eqn:E2; simplify_eq; [by left|]. right. exists es.
    repeat split; [|done]. cbn. lia.
  - destruct (dstreams v !! dir) as [[|e es]|]; by simplify_eq.
  - destruct (texts v !! path); by simplify_eq.
  - destruct (fstreams v !! f) as [[|l ls]|]; by simplify_eq.
  - injection E as <- <-. split; [done|]. by destruct (users v !! name).
Qed.

(** Two processes, one of them of the user 1000. *)
Definition status_of (name uid : string) : list bytes :=
  [to_bytes ("Name:" +:+ tab +:+ name +:+ nl); to_bytes ("State:" +:+ tab +:+ "S" +:+ nl);
   to_bytes ("Uid:" +:+ tab +:+ uid +:+ tab +:+ uid +:+ nl)].
Definition small_proc : procfs :=
  ProcFs {[ "/proc/"%string := [Dirent "." true; Dirent "1" true; Dirent "self" true; Dirent "42" true] ]}
    {[ "/proc/1/status"%string := status_of "init" "0"; "/proc/42/status"%string := status_of "vi" "1000" ]}
    ∅ {[ "ada"%string := 1000%Z ]} ∅ ∅.

