(* ===== verification/FdReader.v ===== *)
(** * Who has a file open: CH12-System_and_Process_Information/fd_reader/fd_reader.c *)
From Stdlib Require Import ZArith Lia Ascii String.
From stdpp Require Import base gmap strings list.
From S2P Require Import Prelude Prog CString Posix Procfs.

Local Open Scope prog_scope.

Definition FD_PATH : string := "/fd/".
Definition EXE_PATH : string := "/exe".
Definition BUF_SIZE : Z := 1024.

(** [strcmp(argv[1], s)]; [argv[1]] may be NULL. *)
Definition strcmp_arg (argv1 : option string) (s : bytes) : prog posix bool :=
  match argv1 with
  | Some a => Ret (streq a (of_bytes s))
  | None => undef "strcmp(NULL)"
  end.

(** One entry of /proc/PID/fd: [inr tt] leaves the loop. *)
Definition fd_entry (argv1 : option string) (processFDDIRPath : string) (exeFileContent : bytes)
    (e : dirent) : prog posix (unit + unit) :=
  if dot_entry e then Ret (inl tt) else
  xmalloc (slen processFDDIRPath + slen (d_name e) + 1) ;;;
  '(linkFileLen, linkFileContent) <- sys (Readlink (processFDDIRPath +:+ d_name e) (BUF_SIZE - 1)) ;;
  if (ret linkFileLen =? -1)%Z then Ret (inl tt) else
  same <- strcmp_arg argv1 (cstr linkFileContent) ;;
  if same : bool then printf (of_bytes (cstr exeFileContent) +:+ nl) ;;; Ret (inr tt)
  else Ret (inl tt).

(** One entry of /proc.  The block for the path of the exe link is one byte
    short of the store [processEXEFilePath[... + 1] = '\0']: [slack] is how many
    bytes past the end of a block may be written. *)
Definition proc_entry (fuel : nat) (slack : Z) (argv1 : option string) (e : dirent) : prog posix unit :=
  if dot_entry e then Ret tt else
  if d_isdir e && numeric_name (d_name e) then
    xmalloc (slen PROC_PATH + slen (d_name e) + slen FD_PATH + 1) ;;;
    xmalloc (slen PROC_PATH + slen (d_name e) + slen EXE_PATH + 1) ;;;
    if (slack <? 1)%Z then undef "store past the end of processEXEFilePath" else
    '(exeFileLen, exeFileContent) <- sys (Readlink (PROC_PATH +:+ d_name e +:+ EXE_PATH) BUF_SIZE) ;;
    if (ret exeFileLen =? -1)%Z then Ret tt else
    if (BUF_SIZE <=? ret exeFileLen)%Z then undef "store past the end of exeFileContent" else
    let processFDDIRPath := PROC_PATH +:+ d_name e +:+ FD_PATH in
    procFDDIR <- sys (Opendir processFDDIRPath) ;;
    if (ret procFDDIR =? 0)%Z then perror "opendir" (errno procFDDIR) ;;; exit 1 else
    loop fuel (λ _ : unit,
      e <- sys (Readdir (ret procFDDIR)) ;;
      match e with
      | None => Ret (inr tt)
      | Some e => fd_entry argv1 processFDDIRPath exeFileContent e
      end) tt
  else Ret tt.

Definition fd_reader_main (fuel : nat) (slack : Z) (argv : list string) : prog posix unit :=
  procDIR <- sys (Opendir PROC_PATH) ;;
  if (ret procDIR =? 0)%Z then perror "opendir" (errno procDIR) ;;; exit 1 else
  loop fuel (λ _ : unit,
    e <- sys (Readdir (ret procDIR)) ;;
    match e with
    | None => Ret (inr tt)
    | Some e => proc_entry fuel slack (nth_error argv 1) e ;;; Ret (inl tt)
    end) tt ;;;
  sys (Closedir (ret procDIR)) ;;;
  exit 0.

(** ** Correctness *)

Definition exe_path (e : dirent) : string := PROC_PATH +:+ d_name e +:+ EXE_PATH.
Definition fd_path (e : dirent) : string := PROC_PATH +:+ d_name e +:+ FD_PATH.

(** An entry of a descriptor directory is a link to [target]. *)
Definition links_to (v : procfs) (dir target : string) (e : dirent) : bool :=
  negb (dot_entry e) &&
  match links v !! (dir +:+ d_name e) with
  | Some l => streq target (of_bytes (cstr (take 1023 l)))
  | None => false
  end.

Definition expected (v : procfs) (target : string) (e : dirent) : list string :=
  if is_process e then
    match links v !! exe_path e with
    | Some exe =>
        if existsb (links_to v (fd_path e) target) (default [] (dirs v !! fd_path e))
        then [of_bytes (cstr exe) +:+ nl] else []
    | None => []
    end
  else [].

Section correctness.
Context {W : Type} (K : kernel posix W) (view : W → procfs) `{!ProcKernel K view}.

Lemma fd_entry_ok v0 target dir exe e w :
  same_tables v0 (view w) →
  wp K (fd_entry (Some target) dir exe e) w (λ r w' t, match r with
    | Returned x => view w' = view w ∧
        if links_to v0 dir target e then x = inr tt ∧ outs t = [of_bytes (cstr exe) +:+ nl]
        else x = inl tt ∧ outs t = []
    | _ => alloc_stop r
    end).
Proof.
  intros (_ & _ & Hl & _). unfold fd_entry, links_to. destruct (dot_entry e); [by apply wp_ret|]. cbn [negb andb].
  apply wp_bind. eapply wp_mono; [by apply (xmalloc_ok K view)|].
  intros [_|h|] w1 t1 [Ho1 H1]; [|done..].
  prog_call. apply proc_kernel in H. cbn in H. rewrite H1, Hl in H. destruct H as [Hv H].
  destruct a as [n b]. cbn [fst snd] in H.
  destruct (links v0 !! (dir +:+ d_name e)) as [l|].
  - destruct H as [-> Hn]. rewrite (proj2 (Z.eqb_neq _ _)) by lia. cbn [strcmp_arg bind].
    destruct (streq target _); prog_steps; rewrite outs_app, Ho1; split; try done; cbn.
  - rewrite H. apply wp_ret. rewrite outs_app, Ho1. done.
Qed.

Lemma fd_loop_ok v0 target dir exe d fuel es w :
  same_tables v0 (view w) → dstreams (view w) !! d = Some es → length es < fuel →
  wp K (loop fuel (λ _ : unit,
      e <- sys (Readdir d) ;;
      match e with
      | None => Ret (inr tt)
      | Some e => fd_entry (Some target) dir exe e
      end) tt) w (λ r w' t, match r with
    | Returned _ => same_tables v0 (view w') ∧
        (∀ d', d' ≠ d → dstreams (view w') !! d' = dstreams (view w) !! d') ∧
        outs t = if existsb (links_to v0 dir target) es then [of_bytes (cstr exe) +:+ nl] else []
    | _ => alloc_stop r
    end).
Proof.
  revert es w. induction fuel as [|fuel IH]; intros es w Hs Hd Hf; [lia|]. cbn [loop].
  apply wp_bind. prog_call. apply proc_kernel in H. cbn in H. rewrite Hd in H.
  destruct es as [|e es]; destruct H as [-> Hv].
  { apply wp_ret, wp_ret. rewrite Hv. done. }
  assert (same_tables v0 (view w')) as Hs1 by (rewrite Hv; by destruct Hs as (?&?&?&?)).
  eapply wp_mono; [by apply (fd_entry_ok v0)|].
  intros [x|h|] w1 t1 H1; [|done..]. destruct H1 as [Hv1 H1]. cbn [existsb].
  assert (∀ d', d' ≠ d → dstreams (view w1) !! d' = dstreams (view w) !! d') as Hds.
  { intros d' Hne. rewrite Hv1, Hv. cbn. by rewrite lookup_insert_ne. }
  destruct (links_to v0 dir target e); destruct H1 as [-> Ho1].
  - apply wp_ret. rewrite Hv1. split; [done|]. split; [by rewrite <- Hv1|]. cbn. by rewrite app_nil_r.
  - eapply wp_mono.
    { apply (IH es); [by rewrite Hv1| |cbn in Hf; lia]. rewrite Hv1, Hv. cbn. by rewrite lookup_insert_eq. }
    intros [u|h|] w2 t2 H2; [|done..]. destruct H2 as (Hs2 & Hd2 & Ho2). split; [done|]. split.
    + intros d' Hne. by rewrite Hd2, Hds.
    + cbn. by rewrite outs_app, Ho1, Ho2.
Qed.

Lemma proc_entry_ok v0 fuel slack target e w :
  (1 <= slack)%Z → same_tables v0 (view w) →
  (is_process e = true → ∀ exe, links v0 !! exe_path e = Some exe →
     length exe < 1024 ∧ length (default [] (dirs v0 !! fd_path e)) < fuel) →
  wp K (proc_entry fuel slack (Some target) e) w (λ r w' t, match r with
    | Returned _ => same_tables v0 (view w') ∧
        (∀ d es, dstreams (view w) !! d = Some es → dstreams (view w') !! d = Some es) ∧
        outs t = expected v0 target e
    | _ => alloc_stop r
    end).
Proof.
  intros Hslack Hs Hp. unfold proc_entry, expected, is_process in *.
  destruct (dot_entry e); [by apply wp_ret|]. cbn [negb andb] in *.
  destruct (d_isdir e && numeric_name (d_name e)); [|by apply wp_ret].
  specialize (Hp eq_refl).
  apply wp_bind. eapply wp_mono; [by apply (xmalloc_ok K view)|].
  intros [_|h|] w1 t1 [Ho1 H1]; [|done..].
  apply wp_bind. eapply wp_mono; [by apply (xmalloc_ok K view)|].
  intros [_|h|] w2 t2 [Ho2 H2]; [|done..]. rewrite (proj2 (Z.ltb_ge _ _)) by done.
  prog_call. apply proc_kernel in H. unfold proc_step in H. rewrite H2, H1 in H. destruct H as [Hv H].
  rewrite (proj1 (proj2 (proj2 Hs))) in H. destruct a as [n b]. cbn [fst snd] in H.
  fold (exe_path e) in H. destruct (links v0 !! exe_path e) as [exe|].
  2:{ rewrite H. apply wp_ret. rewrite Hv, !outs_app, Ho1, Ho2. done. }
  destruct (Hp exe eq_refl) as [Hlen Hfuel]. destruct H as [-> Hn].
  rewrite take_ge in Hn |- * by (unfold BUF_SIZE; lia). rewrite Hn.
  rewrite (proj2 (Z.eqb_neq _ _)) by lia. rewrite (proj2 (Z.leb_gt _ _)) by (unfold BUF_SIZE; lia).
  prog_call. destruct (ret a =? 0)%Z eqn:Ha; [by prog_steps|]. zbool.
  apply proc_kernel in H. cbn in H. rewrite Hv in H. destruct H as [[? _]|(es & Hes & _ & Hfree & Hv2)]; [done|].
  rewrite (proj1 Hs) in Hes. fold (fd_path e) in Hes. rewrite Hes in Hfuel |- *. cbn [default] in *.
  eapply wp_mono.
  { apply (fd_loop_ok v0 target (fd_path e) exe (ret a) fuel es); [| |done].
    - rewrite Hv2. by destruct Hs as (?&?&?&?).
    - rewrite Hv2. cbn. by rewrite lookup_insert_eq. }
  intros [u|h|] w3 t3 H3; [|done..]. destruct H3 as (Hs3 & Hd3 & Ho3). split; [done|]. split.
  - intros d es' Hd. rewrite Hd3 by congruence. rewrite Hv2. cbn. by rewrite lookup_insert_ne by congruence.
  - rewrite outs_app, Ho1. cbn. rewrite outs_app, Ho2. cbn. by rewrite Ho3.
Qed.

Lemma fd_reader_ok (w : W) (fuel : nat) (slack : Z) (argv0 target : string) (es : list dirent) :
  dirs (view w) !! PROC_PATH = Some es →
  (∀ e exe, e ∈ es → is_process e = true → links (view w) !! exe_path e = Some exe →
     length exe < 1024 ∧ length (default [] (dirs (view w) !! fd_path e)) < fuel) →
  length es < fuel →
  ((1 <= slack)%Z →
   wp K (fd_reader_main fuel slack [argv0; target]) w (λ r _ t, match r with
     | Halted (Exited 0) => outs t = es ≫= expected (view w) target
     | _ => alloc_stop r
     end)) ∧
  (∀ e w1, slack = 0%Z → is_process e = true →
     wp K (proc_entry fuel slack (Some target) e) w1 (λ r _ _,
       r = Halted (Undef "store past the end of processEXEFilePath") ∨ alloc_stop r)).
Proof.
  intros Hes Hproc Hfuel. set (v0 := view w) in *. split.
  - intros Hslack. unfold fd_reader_main. cbn [nth_error].
    prog_call. destruct (ret a =? 0)%Z eqn:Ha; [by prog_steps|]. zbool.
    apply proc_kernel in H. cbn in H. fold v0 in H. rewrite Hes in H.
    destruct H as [[? _]|(es' & Hes' & _ & _ & Hv2)]; [done|]. injection Hes' as <-.
    apply wp_bind. eapply wp_mono.
    { apply (wp_loop K (λ _ w2 t, ∃ rest, es = rest.1 ++ rest.2 ∧ same_tables v0 (view w2) ∧
          dstreams (view w2) !! ret a = Some rest.2 ∧ outs t = rest.1 ≫= expected v0 target)
        (λ _ w2, length (default [] (dstreams (view w2) !! ret a)))
        _ (λ r _ t, match r with
           | Returned _ => outs t = es ≫= expected v0 target
           | _ => alloc_stop r
           end)) with (t := []).
      - intros _ w2 t ([ds rest] & -> & Hs & Hd & Ho). cbn [fst snd] in *.
        prog_call. apply proc_kernel in H. cbn in H. rewrite Hd in H.
        destruct rest as [|e rest]; destruct H as [-> Hv3].
        { apply wp_ret. rewrite outs_app, Ho. cbn. by rewrite !app_nil_r. }
        apply wp_bind. eapply wp_mono.
        { apply (proc_entry_ok v0); [done| |intros Hp exe Hexe; apply Hproc; [|done..]; apply elem_of_app; right; left].
          rewrite Hv3. by destruct Hs as (?&?&?&?). }
        intros [u|h|] w3 t3 H3; [|done..]. destruct H3 as (Hs3 & Hd3 & Ho3). apply wp_ret.
        assert (dstreams (view w3) !! ret a = Some rest) as Hd4
          by (apply Hd3; rewrite Hv3; cbn; by rewrite lookup_insert_eq).
        split.
        + exists (ds ++ [e], rest). cbn [fst snd]. rewrite <- app_assoc. split; [done|]. split; [done|].
          split; [done|]. rewrite app_nil_r, outs_app, Ho, bind_app. cbn. by rewrite Ho3, app_nil_r.
        + rewrite Hd, Hd4. cbn. lia.
      - exists ([], es). cbn. split; [done|]. split; [|split; [|done]].
        + by rewrite Hv2.
        + rewrite Hv2. cbn. by rewrite lookup_insert_eq.
      - rewrite Hv2. cbn. rewrite lookup_insert_eq. done. }
    cbn [app]. intros [u|h|] w3 t3 H3; [|by destruct h as [[]| | | |]|done].
    prog_call. prog_steps. cbn. by rewrite outs_app, H3, app_nil_r.
  - intros e w1 -> Hp. unfold proc_entry, is_process in *. destruct (dot_entry e); [done|]. cbn [negb andb] in Hp.
    rewrite Hp. apply wp_bind. eapply wp_mono; [by apply (xmalloc_ok K view)|].
    intros [_|h|] w2 t1 [_ H1]; [|by right..].
    apply wp_bind. eapply wp_mono; [by apply (xmalloc_ok K view)|].
    intros [_|h|] w3 t2 [_ H2]; [|by right..]. apply wp_stop. by left.
Qed.

(** C18: the readers of /proc.  users_processes.c, for every process table and user database in which
    each process directory has a readable status file, and a user whose number
    has at most five characters.  The program exits with status 0 after
    printing one line, with name and pid, for each process whose first Uid field
    is the number of the user (given by number or by name), in the order of the
    directory, and nothing else; or with status 1 if the directory cannot be
    opened or memory runs out.  It ends whatever the sizes of the tables, and
    dereferences no uninitialised or NULL pointer.
    fd_reader.c, for every /proc whose exe links have fewer than 1024
    characters, when a block can be written one byte past its end.  The program
    exits with status 0 after printing, in the order of the directory, the exe
    link of each process that has a descriptor linked to the given path, once
    per process, and nothing else; or with status 1 when a directory cannot be
    opened or memory runs out.  If blocks are exact ([slack] 0) the first
    process directory makes it store past the end of a block. *)
Theorem proc_readers_correct (w : W) :
  (∀ (fuel : nat) (argv0 user : string) (es : list dirent),
  dirs (view w) !! PROC_PATH = Some es →
  (∀ e, e ∈ es → is_process e = true →
     ∃ ls, texts (view w) !! status_path e = Some ls ∧ readable ls ∧ length ls < fuel) →
  length es < fuel → user ≠ "--help"%string →
  let uid := zdec (to_int (uid_of (view w) user)) in
  length uid < 6 →
  wp K (users_main fuel [argv0; user]) w (λ r _ t, match r with
    | Halted (Exited 0) => outs t = es ≫= Procfs.expected (view w) uid user
    | _ => alloc_stop r
    end)) ∧
  (∀ (fuel : nat) (slack : Z) (argv0 target : string) (es : list dirent),
  dirs (view w) !! PROC_PATH = Some es →
  (∀ e exe, e ∈ es → is_process e = true → links (view w) !! exe_path e = Some exe →
     length exe < 1024 ∧ length (default [] (dirs (view w) !! fd_path e)) < fuel) →
  length es < fuel →
  ((1 <= slack)%Z →
   wp K (fd_reader_main fuel slack [argv0; target]) w (λ r _ t, match r with
     | Halted (Exited 0) => outs t = es ≫= expected (view w) target
     | _ => alloc_stop r
     end)) ∧
  (∀ e w1, slack = 0%Z → is_process e = true →
     wp K (proc_entry fuel slack (Some target) e) w1 (λ r _ _,
       r = Halted (Undef "store past the end of processEXEFilePath") ∨ alloc_stop r))).
Proof.
  split; [intros fuel argv0 user es; by apply (users_processes_ok K view)|exact (fd_reader_ok w)].
Qed.
End correctness.

(** ** The program at work *)

Definition fd_proc : procfs :=
  ProcFs {[ "/proc/"%string := [Dirent "1" true; Dirent "42" true];
            "/proc/1/fd/"%string := [Dirent "." true; Dirent "0" false];
            "/proc/42/fd/"%string := [Dirent "0" false; Dirent "3" false; Dirent "4" false] ]}
    ∅ {[ "/proc/1/exe"%string := to_bytes "/sbin/init"; "/proc/42/exe"%string := to_bytes "/bin/vi";
         "/proc/1/fd/0"%string := to_bytes "/dev/null"; "/proc/42/fd/3"%string := to_bytes "/tmp/x";
         "/proc/42/fd/4"%string := to_bytes "/tmp/x" ]} ∅ ∅ ∅.

Lemma proc_readers_correct_witness :
  wp prockernel (users_main 9 ["users"; "ada"]) small_proc (λ r _ t, match r with
    | Halted (Exited 0) => outs t = [user_line (to_bytes "vi") "42" "ada" (to_bytes "1000")]
    | _ => alloc_stop r
    end) ∧
  wp prockernel (fd_reader_main 9 1 ["fd_reader"; "/tmp/x"]) fd_proc (λ r _ t, match r with
    | Halted (Exited 0) => outs t = ["/bin/vi" +:+ nl]
    | _ => alloc_stop r
    end).
Proof.
  split.
  - destruct (proc_readers_correct prockernel id small_proc) as [H1 _].
    apply (H1 9 "users" "ada"
    [Dirent "." true; Dirent "1" true; Dirent "self" true; Dirent "42" true]).
    + reflexivity.
    + intros e He Hp. rewrite !elem_of_cons, elem_of_nil in He.
    destruct He as [->|[->|[->|[->|[]]]]]; try (vm_compute in Hp; discriminate);
      (eexists; split; [reflexivity|]; split; [|cbn; lia]);
      (split; [repeat constructor; cbn; lia|]); eexists _, _; vm_compute; reflexivity.
    + cbn. lia.
    + done.
    + vm_compute. lia.
  - destruct (proc_readers_correct prockernel id fd_proc) as [_ H2].
    apply (H2 9 1%Z "fd_reader" "/tmp/x" [Dirent "1" true; Dirent "42" true]).
    + reflexivity.
    + intros e exe He Hp Hexe. rewrite !elem_of_cons, elem_of_nil in He.
    destruct He as [->|[->|[]]]; vm_compute in Hexe; injection Hexe as <-; vm_compute; lia.
    + cbn. lia.
    + lia.
Defined.
