(* ===== verification/PsTree.v ===== *)
(** * The process tree: CH12-System_and_Process_Information/pstree/pstree.c

    The processes found in /proc are kept in a linked list of nodes allocated
    one by one; [create_tree] links each node to its parent through arrays of
    children, and [print_tree] prints the forest.  A node's address is its
    position in the order of allocation. *)
From Stdlib Require Import ZArith Lia Ascii String.
From stdpp Require Import base gmap strings list.
From S2P Require Import Prelude Prog CString Posix Procfs.

Local Open Scope prog_scope.

(** ** The nodes *)

(** A pointer to a parent: the ghost process or a node. *)
Inductive parent_ptr := Ghost | Node (i : nat).

Record process_node := PNode {
  p_name : bytes; p_pid : Z; p_ppid : Z;
  p_parent : option parent_ptr;
  p_childs : list nat;
  p_next : option nat }.

(** [process_ll_start], [process_ll_head], and [ghost_process] by its children. *)
Record globals := Globals {
  heap : list process_node;
  process_ll_start : option nat;
  process_ll_head : option nat;
  ghost_childs : list nat }.

Definition set_next (n : option nat) (p : process_node) : process_node :=
  PNode (p_name p) (p_pid p) (p_ppid p) (p_parent p) (p_childs p) n.
Definition set_parent (q : parent_ptr) (p : process_node) : process_node :=
  PNode (p_name p) (p_pid p) (p_ppid p) (Some q) (p_childs p) (p_next p).
Definition add_child (c : nat) (p : process_node) : process_node :=
  PNode (p_name p) (p_pid p) (p_ppid p) (p_parent p) (p_childs p ++ [c]) (p_next p).

Definition set_heap (h : list process_node) (g : globals) : globals :=
  Globals h (process_ll_start g) (process_ll_head g) (ghost_childs g).

Definition NAME_SIZE : nat := 128.
Definition CHILDS_SIZE : nat := 512.
Definition SIZEOF_NODE : Z := 4256.

(** ** The operations *)

Definition create_and_insert_process_node_ll (name : bytes) (pid ppid : Z) (g : globals) : prog posix globals :=
  xmalloc SIZEOF_NODE ;;;
  if (NAME_SIZE <=? length name)%nat then undef "strcpy overflows name" else
  let res := length (heap g) in
  let h := heap g ++ [PNode name pid ppid None [] None] in
  let start := match process_ll_start g with None => Some res | s => s end in
  let head := match process_ll_start g with None => Some res | _ => process_ll_head g end in
  match head with
  | Some i => Ret (Globals (alter (set_next (Some res)) i h) start (Some res) (ghost_childs g))
  | None => undef "process_ll_head"
  end.

(** The [for] loops over the list: [fuel] bounds the number of nodes visited;
    [None] when it is used up. *)
Fixpoint find_from (fuel : nat) (h : list process_node) (i : option nat) (pid : Z) : option (option nat) :=
  match i, fuel with
  | None, _ => Some None
  | Some _, O => None
  | Some a, S f =>
      match h !! a with
      | Some p => if (p_pid p =? pid)%Z then Some (Some a) else find_from f h (p_next p) pid
      | None => Some None
      end
  end.
Definition find_node_in_ll (fuel : nat) (pid : Z) (g : globals) : option (option nat) :=
  find_from fuel (heap g) (process_ll_start g) pid.

(** One iteration of the loop of [create_tree]. *)
Definition link_node (fuel : nat) (i : nat) (p : process_node) (g : globals) : prog posix globals :=
  if (p_ppid p =? 0)%Z then
    if (CHILDS_SIZE <=? length (ghost_childs g))%nat then undef "childs overflows" else
    Ret (Globals (alter (set_parent Ghost) i (heap g)) (process_ll_start g) (process_ll_head g)
           (ghost_childs g ++ [i]))
  else
    match find_node_in_ll fuel (p_ppid p) g with
    | None => Stop Cut
    | Some None => printf ("find_node_in_ll" +:+ nl) ;;; exit 1
    | Some (Some q) =>
        match heap g !! q with
        | None => undef "parent"
        | Some parent =>
            if (CHILDS_SIZE <=? length (p_childs parent))%nat then undef "childs overflows" else
            Ret (set_heap (alter (set_parent (Node q)) i (alter (add_child i) q (heap g))) g)
        end
    end.

Fixpoint create_tree_from (find_fuel fuel : nat) (i : option nat) (g : globals) : prog posix globals :=
  match i, fuel with
  | None, _ => Ret g
  | Some _, O => Stop Cut
  | Some a, S f =>
      match heap g !! a with
      | None => undef "node"
      | Some p =>
          g' <- link_node find_fuel a p g ;;
          create_tree_from find_fuel f (p_next p) g'
      end
  end.

Definition create_tree (fuel : nat) (g : globals) : prog posix globals :=
  xmalloc SIZEOF_NODE ;;;
  create_tree_from fuel fuel (process_ll_start g) (Globals (heap g) (process_ll_start g) (process_ll_head g) []).

(** Freeing pops the list from its start: the addresses freed, in order; the
    ghost process is freed last. *)
Fixpoint free_everything (fuel : nat) (h : list process_node) (start : option nat) : list nat :=
  match start, fuel with
  | Some a, S f => a :: free_everything f h (h !! a ≫= p_next)
  | _, _ => []
  end.

Definition node_line (p : process_node) : string :=
  of_bytes (p_name p) +:+ "(" +:+ zstr (p_pid p) +:+ ")" +:+ nl.

Definition print_node (p : process_node) (depth : nat) (isLast : bool) : prog posix unit :=
  for_each (seq 1 (depth - 1)) (λ _ _, printf (if isLast then "    " else "|   ")) tt ;;;
  when (0 <? depth)%nat (printf (if isLast then "`-- " else "|-- ")) ;;;
  printf (node_line p).

Fixpoint print_tree_recursive (fuel : nat) (h : list process_node) (i : nat) (depth : nat) (isLast : bool) :
    prog posix unit :=
  match fuel with
  | O => Stop Cut
  | S f =>
      match h !! i with
      | None => undef "node"
      | Some p =>
          print_node p depth isLast ;;;
          for_each (imap pair (p_childs p))
            (λ '(k, c) _, print_tree_recursive f h c (S depth) (k =? length (p_childs p) - 1)%nat) tt
      end
  end.

Definition print_tree (fuel : nat) (g : globals) : prog posix unit :=
  printf ("GHOST PROCESS(0)" +:+ nl) ;;;
  for_each (imap pair (ghost_childs g))
    (λ '(k, c) _, print_tree_recursive fuel (heap g) c 1 (k =? length (ghost_childs g) - 1)%nat) tt.

(** ** main *)

(** [CmdNameValue], [CmdPIDValue] and [CmdPPIDValue]; [None] while uninitialised. *)
Record status := Status { CmdName : option bytes; CmdPID : option bytes; CmdPPID : option bytes }.

Definition ps_line (statusFileLine : bytes) (c : status) : prog posix status :=
  match strtok TAB (cstr statusFileLine) with
  | (None, _) => undef "strcmp(NULL)"
  | (Some currentToken, rest) =>
      if bool_decide (currentToken = to_bytes "Name:") then
        v <- next_token rest ;; Ret (Status (Some (removelast v)) (CmdPID c) (CmdPPID c))
      else if bool_decide (currentToken = to_bytes "Pid:") then
        v <- next_token rest ;; Ret (Status (CmdName c) (Some (removelast v)) (CmdPPID c))
      else if bool_decide (currentToken = to_bytes "PPid:") then
        v <- next_token rest ;; Ret (Status (CmdName c) (CmdPID c) (Some (removelast v)))
      else Ret c
  end.

Definition ps_lines (fuel : nat) (f : Z) (c : status) : prog posix status :=
  loop fuel (λ c,
    l <- sys (Fgets f STATUS_FILE_LINE_LEN) ;;
    match l with
    | None => Ret (inr c)
    | Some line => c <- ps_line line c ;; Ret (inl c)
    end) c.

(** One directory entry. *)
Definition ps_entry (fuel : nat) (e : dirent) (g : globals) : prog posix globals :=
  if dot_entry e then Ret g else
  if d_isdir e && numeric_name (d_name e) then
    xmalloc (slen PROC_PATH + slen (d_name e) + slen STATUS_PATH + 1) ;;;
    let path := PROC_PATH +:+ d_name e +:+ STATUS_PATH in
    f <- sys (Fopen path) ;;
    if (ret f =? 0)%Z then eprintf (vanished path) ;;; undef "fclose(NULL)" else
    c <- ps_lines fuel (ret f) (Status None None None) ;;
    match CmdName c, CmdPID c, CmdPPID c with
    | Some name, Some pid, Some ppid =>
        g <- create_and_insert_process_node_ll name (to_int (st_val (strtol pid 10)))
               (to_int (st_val (strtol ppid 10))) g ;;
        sys (Fclose (ret f)) ;;;
        Ret g
    | _, _, _ => undef "uninitialised"
    end
  else Ret g.

Definition pstree_main (fuel : nat) (argv : list string) : prog posix unit :=
  if (1 <? length argv)%nat then printf ("Usage: " +:+ argv_0 argv +:+ " " +:+ nl) ;;; exit 1 else
  procDIR <- sys (Opendir PROC_PATH) ;;
  if (ret procDIR =? 0)%Z then perror "opendir" (errno procDIR) ;;; exit 1 else
  g <- loop fuel (λ g,
    e <- sys (Readdir (ret procDIR)) ;;
    match e with
    | None => Ret (inr g)
    | Some e => g <- ps_entry fuel e g ;; Ret (inl g)
    end) (Globals [] None None []) ;;
  sys (Closedir (ret procDIR)) ;;;
  g <- create_tree fuel g ;;
  print_tree fuel g ;;;
  (** [free_everything]: the same list again *)
  if (length (free_everything fuel (heap g) (process_ll_start g)) <? fuel)%nat then exit 0 else Stop Cut.

(** ** The tree of a process table *)

Record proc := Proc { pr_name : bytes; pr_pid : Z; pr_ppid : Z }.

(** The first process with a pid. *)
Definition index_of (ps : list proc) (x : Z) : option nat :=
  fst <$> list_find (λ p, pr_pid p = x) ps.

Definition parent_of (ps : list proc) (j : nat) : option parent_ptr :=
  p ← ps !! j; if decide (pr_ppid p = 0%Z) then Some Ghost else Node <$> index_of ps (pr_ppid p).

#[global] Instance parent_ptr_dec : EqDecision parent_ptr.
Proof. solve_decision. Defined.

(** The children of a node among the first [m] processes, in order. *)
Definition children_upto (ps : list proc) (m : nat) (q : parent_ptr) : list nat :=
  filter (λ j, parent_of ps j = Some q) (seq 0 m).
Definition children (ps : list proc) (q : parent_ptr) : list nat := children_upto ps (length ps) q.

(** The list after the insertions: the next pointer of the only node of a list
    of one points to itself. *)
Definition next_of (n j : nat) : option nat :=
  if decide (n = 1) then Some 0 else if decide (S j < n) then Some (S j) else None.

(** The state after all insertions and [m] iterations of [create_tree]. *)
Definition node_at (ps : list proc) (m j : nat) (p : proc) : process_node :=
  PNode (pr_name p) (pr_pid p) (pr_ppid p)
    (if decide (j < m) then parent_of ps j else None)
    (children_upto ps m (Node j)) (next_of (length ps) j).

Definition state (ps : list proc) (m : nat) : globals :=
  match ps with
  | [] => Globals [] None None []
  | _ => Globals (imap (node_at ps m) ps) (Some 0) (Some (length ps - 1)) (children_upto ps m Ghost)
  end.

(** A table [create_tree] can handle. *)
Definition well_formed (ps : list proc) : Prop :=
  2 ≤ length ps ∧
  (∀ j, j < length ps → is_Some (parent_of ps j)) ∧
  (∀ q, length (children ps q) ≤ CHILDS_SIZE).

Section correctness.
Context {W : Type} (K : kernel posix W) (view : W → procfs) `{!ProcKernel K view}.

Lemma heap_state ps m : ps ≠ [] → heap (state ps m) = imap (node_at ps m) ps.
Proof. by destruct ps. Qed.
Lemma start_state ps m : ps ≠ [] → process_ll_start (state ps m) = Some 0.
Proof. by destruct ps. Qed.
Lemma ghost_state ps m : ps ≠ [] → ghost_childs (state ps m) = children_upto ps m Ghost.
Proof. by destruct ps. Qed.

Lemma state_lookup ps m j : heap (state ps m) !! j = node_at ps m j <$> ps !! j.
Proof. destruct ps as [|p ps]; [done|]. by rewrite heap_state, list_lookup_imap. Qed.

Lemma insert_ok ps p w :
  length (pr_name p) < 128 →
  wp K (create_and_insert_process_node_ll (pr_name p) (pr_pid p) (pr_ppid p) (state ps 0)) w
    (λ r w' t, outs t = [] ∧ match r with
      | Returned g => g = state (ps ++ [p]) 0 ∧ view w' = view w
      | _ => alloc_stop r
      end).
Proof.
  intros Hn. unfold create_and_insert_process_node_ll.
  apply wp_bind. eapply wp_mono; [by apply (xmalloc_ok K view)|].
  intros [_|h|] w1 t1 [Ho1 H1]; [|done..].
  destruct (NAME_SIZE <=? length (pr_name p)) eqn:E; [apply Nat.leb_le in E; unfold NAME_SIZE in E; lia|].
  destruct ps as [|p0 ps]; [apply wp_ret; by rewrite app_nil_r|].
  cbn [state process_ll_start process_ll_head]. apply wp_ret. rewrite app_nil_r.
  split; [done|]. split; [|done]. cbn [heap ghost_childs].
  set (l := p0 :: ps). rewrite length_imap. unfold state. cbn [app].
  change (p0 :: ps ++ [p]) with (l ++ [p]). f_equal.
  2:{ rewrite length_app. cbn. f_equal. lia. }
  apply list_eq. intros j. rewrite list_lookup_imap.
  assert (∀ k q, node_at l 0 k q = PNode (pr_name q) (pr_pid q) (pr_ppid q) None [] (next_of (length l) k)) as Hna.
  { intros k q. unfold node_at. rewrite decide_False by lia. done. }
  assert (∀ k q, node_at (l ++ [p]) 0 k q =
    PNode (pr_name q) (pr_pid q) (pr_ppid q) None [] (next_of (S (length l)) k)) as Hna'.
  { intros k q. unfold node_at. rewrite decide_False by lia. rewrite length_app. cbn. by rewrite Nat.add_1_r. }
  assert (0 < length l) as Hl by (cbn; lia). clearbody l.
  assert (∀ k, k < length l → k ≠ length l - 1 → next_of (length l) k = next_of (S (length l)) k) as Hne.
  { intros k Hk Hk'. unfold next_of. repeat case_decide; try lia; done. }
  destruct (decide (j < length l)) as [Hj|Hj].
  - destruct (lookup_lt_is_Some_2 l j Hj) as [q Hq].
    destruct (decide (j = length l - 1)) as [->|Hjl].
    + rewrite list_lookup_alter_eq, lookup_app_l by (rewrite length_imap; lia).
      rewrite list_lookup_imap, Hq, lookup_app_l, Hq by lia. cbn [fmap option_fmap option_map].
      rewrite Hna, Hna'. unfold set_next. cbn [p_name p_pid p_ppid p_parent p_childs]. do 2 f_equal.
      unfold next_of. repeat case_decide; try lia. f_equal. lia.
    + rewrite list_lookup_alter_ne, lookup_app_l by (rewrite ?length_imap; lia).
      rewrite list_lookup_imap, Hq, lookup_app_l, Hq by lia. cbn. by rewrite Hna, Hna', Hne.
  - rewrite list_lookup_alter_ne, !lookup_app_r by (rewrite ?length_imap; lia).
    rewrite length_imap. destruct (j - length l) as [|k] eqn:Ek; [|done]. cbn. rewrite Hna'. f_equal. f_equal.
    unfold next_of. by repeat case_decide; try lia.
Qed.

Definition at_index (n j : nat) : option nat := if decide (j < n) then Some j else None.

Lemma next_at n j : 2 ≤ n → next_of n j = at_index n (S j).
Proof. intros Hn. unfold next_of, at_index. by rewrite decide_False by lia. Qed.

Lemma find_from_ok ps m x : 2 ≤ length ps → ∀ fuel j,
  j ≤ length ps → length ps - j ≤ fuel →
  find_from fuel (heap (state ps m)) (at_index (length ps) j) x
  = Some ((λ k, j + k) <$> index_of (drop j ps) x).
Proof.
  intros Hn fuel. induction fuel as [|fuel IH]; intros j Hj Hf; unfold at_index;
    destruct (decide (j < length ps)) as [Hlt|Hge]; try lia; cbn [find_from];
    try (rewrite drop_ge by lia; done).
  destruct (lookup_lt_is_Some_2 ps j Hlt) as [p Hp].
  rewrite state_lookup, Hp. cbn [fmap option_fmap option_map].
  rewrite (drop_S _ _ _ Hp). unfold index_of. cbn [list_find p_pid node_at].
  change (p_pid (node_at ps m j p)) with (pr_pid p).
  destruct (pr_pid p =? x)%Z eqn:E; zbool.
  - rewrite decide_True by done. cbn. by rewrite Nat.add_0_r.
  - rewrite decide_False by done. change (p_next (node_at ps m j p)) with (next_of (length ps) j).
    rewrite next_at by done. rewrite IH by lia. f_equal. unfold index_of.
    destruct (list_find _ _) as [[k q]|]; [|done]. cbn. f_equal. lia.
Qed.

Lemma children_upto_S ps m q :
  children_upto ps (S m) q = children_upto ps m q ++ (if decide (parent_of ps m = Some q) then [m] else []).
Proof.
  unfold children_upto. rewrite seq_S, filter_app. done.
Qed.

Lemma index_of_lookup ps x k : index_of ps x = Some k → ∃ p, ps !! k = Some p ∧ pr_pid p = x.
Proof.
  unfold index_of. destruct (list_find _ ps) as [[k' p]|] eqn:E; [|done]. intros [= ->].
  apply list_find_Some in E as (? & ? & _). by exists p.
Qed.

Lemma length_children_upto ps m q : m ≤ length ps → length (children_upto ps m q) ≤ length (children ps q).
Proof.
  intros Hm. unfold children, children_upto. replace (length ps) with (m + (length ps - m)) by lia.
  rewrite seq_app, filter_app, length_app. lia.
Qed.

Lemma node_at_S ps m j p :
  node_at ps (S m) j p =
  PNode (pr_name p) (pr_pid p) (pr_ppid p)
    (if decide (j = m) then parent_of ps m else p_parent (node_at ps m j p))
    (children_upto ps m (Node j) ++ (if decide (parent_of ps m = Some (Node j)) then [m] else []))
    (next_of (length ps) j).
Proof.
  unfold node_at. rewrite children_upto_S. f_equal. cbn [p_parent].
  repeat case_decide; subst; try lia; done.
Qed.

(** What an iteration of [create_tree] makes of the heap. *)
Lemma state_S ps m q h :
  ps ≠ [] → parent_of ps m = Some q →
  h = alter (set_parent q) m (match q with
        | Ghost => heap (state ps m) | Node k => alter (add_child m) k (heap (state ps m)) end) →
  Globals h (process_ll_start (state ps m)) (process_ll_head (state ps m))
    (match q with Ghost => ghost_childs (state ps m) ++ [m] | _ => ghost_childs (state ps m) end)
  = state ps (S m).
Proof.
  intros Hne Hq ->.
  assert (match q with Ghost => ghost_childs (state ps m) ++ [m] | _ => ghost_childs (state ps m) end
    = ghost_childs (state ps (S m))) as ->.
  { rewrite !ghost_state, children_upto_S, Hq by done. destruct q; [by rewrite decide_True|].
    rewrite decide_False by congruence. by rewrite app_nil_r. }
  assert (alter (set_parent q) m (match q with
        | Ghost => heap (state ps m) | Node k => alter (add_child m) k (heap (state ps m)) end)
    = heap (state ps (S m))) as ->; [|by destruct ps].
  apply list_eq. intros j. rewrite state_lookup.
  assert (∀ l : list process_node, alter (set_parent q) m l !! j =
    (if decide (j = m) then set_parent q else id) <$> l !! j) as Halt.
  { intros l. case_decide as Hj; [subst; by rewrite list_lookup_alter_eq|].
    rewrite list_lookup_alter_ne by done. by destruct (l !! j). }
  rewrite Halt. destruct q as [|k].
  - rewrite state_lookup. destruct (ps !! j) as [p|]; [|done]. cbn [fmap option_fmap option_map].
    rewrite node_at_S, Hq, (decide_False (P := Some Ghost = Some (Node j))) by done. rewrite app_nil_r.
    by case_decide.
  - assert (alter (add_child m) k (heap (state ps m)) !! j =
      (if decide (j = k) then add_child m else id) <$> heap (state ps m) !! j) as ->.
    { destruct (decide (j = k)) as [->|Hjk]; [by rewrite list_lookup_alter_eq|].
      rewrite list_lookup_alter_ne by done. by destruct (heap (state ps m) !! j). }
    rewrite state_lookup. destruct (ps !! j) as [p|]; [|done]. cbn [fmap option_fmap option_map].
    rewrite node_at_S, Hq. destruct (decide (j = k)) as [->|Hjk].
    + rewrite (decide_True (P := Some (Node k) = Some (Node k))) by done. by case_decide.
    + rewrite (decide_False (P := Some (Node k) = Some (Node j))) by congruence. rewrite app_nil_r.
      by case_decide.
Qed.

Lemma link_node_ok ps m p fuel w :
  well_formed ps → ps !! m = Some p → length ps ≤ fuel →
  wp K (link_node fuel m (node_at ps m m p) (state ps m)) w
    (λ r w' t, r = Returned (state ps (S m)) ∧ w' = w ∧ t = []).
Proof.
  intros (Hn & Hpar & Hch) Hp Hf. pose proof (lookup_lt_Some _ _ _ Hp) as Hm.
  assert (ps ≠ []) as Hne by (by destruct ps).
  assert (∀ q, parent_of ps m = Some q → length (children_upto ps m q) < CHILDS_SIZE) as Hroom.
  { intros q Hq. specialize (Hch q). pose proof (length_children_upto ps (S m) q ltac:(lia)) as Hl.
    rewrite children_upto_S, decide_True, length_app in Hl by done. cbn in Hl. lia. }
  destruct (Hpar m Hm) as [q Hq]. specialize (Hroom q Hq).
  unfold link_node. change (p_ppid (node_at ps m m p)) with (pr_ppid p).
  unfold parent_of in Hq. rewrite Hp in Hq. cbn [mbind option_bind] in Hq.
  destruct (pr_ppid p =? 0)%Z eqn:E; zbool.
  - rewrite decide_True in Hq by done. injection Hq as <-. rewrite ghost_state by done.
    rewrite (proj2 (Nat.leb_gt _ _)) by done. apply wp_ret. split; [|done]. f_equal.
    rewrite <- (state_S ps m Ghost _ Hne) by (unfold parent_of; rewrite ?Hp; cbn; by rewrite ?decide_True).
    by rewrite ghost_state.
  - rewrite decide_False in Hq by done. destruct (index_of ps (pr_ppid p)) as [k|] eqn:Ek; [|done].
    injection Hq as <-. unfold find_node_in_ll. rewrite start_state by done.
    replace (Some 0) with (at_index (length ps) 0) by (unfold at_index; by rewrite decide_True by lia).
    rewrite find_from_ok by lia. rewrite drop_0, Ek. cbn [fmap option_fmap option_map]. cbn [Nat.add].
    destruct (index_of_lookup _ _ _ Ek) as (pk & Hpk & _). rewrite state_lookup, Hpk.
    cbn [fmap option_fmap option_map]. change (p_childs (node_at ps m k pk)) with (children_upto ps m (Node k)).
    rewrite (proj2 (Nat.leb_gt _ _)) by done. apply wp_ret. split; [|done]. f_equal.
    by rewrite <- (state_S ps m (Node k) _ Hne) by (unfold parent_of; rewrite ?Hp; cbn; by rewrite ?decide_False, ?Ek).
Qed.

Lemma create_tree_from_ok ps find_fuel : ∀ fuel m w,
  well_formed ps → m ≤ length ps → length ps ≤ find_fuel → length ps - m ≤ fuel →
  wp K (create_tree_from find_fuel fuel (at_index (length ps) m) (state ps m)) w
    (λ r w' t, r = Returned (state ps (length ps)) ∧ w' = w ∧ t = []).
Proof.
  induction fuel as [|fuel IH]; intros m w Hwf Hm Hff Hf; unfold at_index;
    destruct (decide (m < length ps)) as [Hlt|Hge]; try lia; cbn [create_tree_from];
    try (apply wp_ret; by replace m with (length ps) by lia).
  destruct (lookup_lt_is_Some_2 ps m Hlt) as [p Hp]. rewrite state_lookup, Hp. cbn [fmap option_fmap option_map].
  apply wp_bind. eapply wp_mono; [by apply link_node_ok|].
  intros r w1 t1 (-> & -> & ->). change (p_next (node_at ps m m p)) with (next_of (length ps) m).
  rewrite next_at by apply Hwf. apply IH; try done; lia.
Qed.

Lemma free_everything_ok ps m : 2 ≤ length ps → ∀ fuel j, j ≤ length ps → length ps - j ≤ fuel →
  free_everything fuel (heap (state ps m)) (at_index (length ps) j) = seq j (length ps - j).
Proof.
  intros Hn fuel. induction fuel as [|fuel IH]; intros j Hj Hf; unfold at_index;
    destruct (decide (j < length ps)) as [Hlt|Hge]; try lia; cbn [free_everything];
    try (by replace (length ps - j) with 0 by lia).
  destruct (lookup_lt_is_Some_2 ps j Hlt) as [p Hp]. rewrite state_lookup, Hp.
  cbn [fmap option_fmap option_map mbind option_bind].
  change (p_next (node_at ps m j p)) with (next_of (length ps) j). rewrite next_at by done.
  replace (length ps - j) with (S (length ps - S j)) by lia. cbn [seq]. f_equal. apply IH; lia.
Qed.

(** With one process the list is a loop, and [create_tree] never leaves it. *)
Lemma create_tree_single p find_fuel fuel : ∀ m w,
  m ≤ CHILDS_SIZE → pr_ppid p = 0%Z →
  let g c := Globals [PNode (pr_name p) (pr_pid p) 0 c [] (Some 0)] (Some 0) (Some 0) (repeat 0 m) in
  ∀ c, wp K (create_tree_from find_fuel fuel (Some 0) (g c)) w
    (λ r w' t, r = Halted Cut ∨ r = Halted (Undef "childs overflows")).
Proof.
  induction fuel as [|fuel IH]; intros m w Hm Hp g c; [by left|].
  change (create_tree_from find_fuel (S fuel) (Some 0) (g c)) with
    (g' <- (if CHILDS_SIZE <=? length (repeat 0 m) then undef "childs overflows"
            else Ret (Globals [PNode (pr_name p) (pr_pid p) 0 (Some Ghost) [] (Some 0)] (Some 0) (Some 0)
                        (repeat 0 m ++ [0]))) ;;
     create_tree_from find_fuel fuel (Some 0) g').
  destruct (CHILDS_SIZE <=? length (repeat 0 m)) eqn:E; cbn [bind]; [apply wp_stop; by right|].
  apply Nat.leb_gt in E. rewrite repeat_length in E.
  replace (repeat 0 m ++ [0]) with (repeat 0 (S m)) by (rewrite <- repeat_cons; done).
  apply (IH (S m) w ltac:(lia) Hp (Some Ghost)).
Qed.

Lemma process_tree_ok (ps : list proc) (fuel : nat) (w : W) :
  Forall (λ p, length (pr_name p) < 128) ps →
  wp K (for_each ps (λ p g, create_and_insert_process_node_ll (pr_name p) (pr_pid p) (pr_ppid p) g)
          (Globals [] None None [])) w (λ r _ _, match r with
    | Returned g => g = state ps 0 | _ => alloc_stop r end) ∧
  (well_formed ps → length ps ≤ fuel →
   wp K (create_tree fuel (state ps 0)) w (λ r _ _, match r with
     | Returned g =>
         ghost_childs g = children ps Ghost ∧ length (heap g) = length ps ∧
         (∀ j p, ps !! j = Some p → ∃ q, heap g !! j = Some q ∧ p_name q = pr_name p ∧
            p_pid q = pr_pid p ∧ p_parent q = parent_of ps j ∧ p_childs q = children ps (Node j)) ∧
         free_everything fuel (heap g) (process_ll_start g) = seq 0 (length ps)
     | _ => alloc_stop r
     end)) ∧
  (∀ p, ps = [p] → pr_ppid p = 0%Z →
   wp K (create_tree fuel (state ps 0)) w (λ r _ _,
     r = Halted Cut ∨ r = Halted (Undef "childs overflows") ∨ alloc_stop r)).
Proof.
  intros Hnames. split; [|split].
  - assert (∀ ps0 ps1 w, Forall (λ p, length (pr_name p) < 128) ps1 →
      wp K (for_each ps1 (λ p g, create_and_insert_process_node_ll (pr_name p) (pr_pid p) (pr_ppid p) g)
          (state ps0 0)) w (λ r _ _, match r with
        | Returned g => g = state (ps0 ++ ps1) 0 | _ => alloc_stop r end)) as Hins.
    { intros ps0 ps1. revert ps0. induction ps1 as [|p ps1 IH]; intros ps0 w0 Hf; cbn [for_each].
      - apply wp_ret. by rewrite app_nil_r.
      - apply Forall_cons in Hf as [Hp Hf]. apply wp_bind. eapply wp_mono; [by apply insert_ok|].
        intros [g|h|] w1 t1 [_ H1]; [|done..]. destruct H1 as [-> _].
        eapply wp_mono; [by apply IH|]. intros [g|h|] ? ?; [|done..]. by rewrite <- app_assoc. }
    apply (Hins [] ps w Hnames).
  - intros Hwf Hf. unfold create_tree. apply wp_bind. eapply wp_mono; [by apply (xmalloc_ok K view)|].
    intros [_|h|] w1 t1 [_ H1]; [|done..].
    assert (ps ≠ []) as Hne by (destruct Hwf as [Hwf _]; by destruct ps; [cbn in Hwf; lia|]).
    rewrite start_state by done.
    replace (Some 0) with (at_index (length ps) 0) at 1
      by (unfold at_index; rewrite decide_True by (destruct Hwf; lia); done).
    replace (Globals _ _ _ []) with (state ps 0) by (by destruct ps).
    eapply wp_mono; [apply create_tree_from_ok; try done; lia|].
    intros r w2 t2 (-> & _ & _). rewrite ghost_state by done. split; [done|].
    split; [rewrite heap_state by done; apply length_imap|]. split.
    + intros j p Hj. rewrite state_lookup, Hj. eexists. split; [done|]. split; [done|]. split; [done|].
      split; [|done]. cbn. rewrite decide_True; [done|]. by eapply lookup_lt_Some.
    + rewrite start_state by done.
      replace (Some 0) with (at_index (length ps) 0)
        by (unfold at_index; rewrite decide_True by (destruct Hwf; lia); done).
      rewrite free_everything_ok by (destruct Hwf; lia). f_equal. lia.
  - intros p -> Hp. unfold create_tree. apply wp_bind. eapply wp_mono; [by apply (xmalloc_ok K view)|].
    intros [_|h|] w1 t1 [_ H1]; [|by right; right..].
    cbn [state heap imap process_ll_start process_ll_head]. unfold node_at.
    rewrite Hp. eapply wp_mono; [apply (create_tree_single p fuel fuel 0 w1 ltac:(lia) Hp None)|].
    intros r w2 t2 [?|?]; auto.
Qed.
End correctness.

(** ** The printed forest *)

#[local] Set Warnings "-register-all".

Inductive tree := T (i : nat) (ts : list tree).

(** The tree below a node of a table; it exists when no process is its own
    ancestor. *)
Inductive is_tree (ps : list proc) : nat → tree → Prop :=
| is_tree_node i p ts :
    ps !! i = Some p → Forall2 (is_tree ps) (children ps (Node i)) ts → is_tree ps i (T i ts).

Fixpoint height (t : tree) : nat :=
  match t with T _ ts => S (foldr Nat.max 0 (map height ts)) end.

(** The pieces of the line of a node. *)
Definition node_text (ps : list proc) (i : nat) (depth : nat) (isLast : bool) : list string :=
  repeat (if isLast then "    " else "|   ")%string (depth - 1) ++
  (if 0 <? depth then [(if isLast then "`-- " else "|-- ")%string] else []) ++
  match ps !! i with
  | Some p => [of_bytes (pr_name p) +:+ "(" +:+ zstr (pr_pid p) +:+ ")" +:+ nl]
  | None => []
  end.

Fixpoint render (ps : list proc) (depth : nat) (isLast : bool) (t : tree) : list string :=
  match t with
  | T i ts =>
      node_text ps i depth isLast ++
      (fix go (ts : list tree) : list string :=
         match ts with
         | [] => []
         | t :: ts' => render ps (S depth) (match ts' with [] => true | _ => false end) t ++ go ts'
         end) ts
  end.

Fixpoint render_forest (ps : list proc) (depth : nat) (ts : list tree) : list string :=
  match ts with
  | [] => []
  | t :: ts' => render ps depth (match ts' with [] => true | _ => false end) t ++ render_forest ps depth ts'
  end.

Lemma render_eq ps depth isLast i ts :
  render ps depth isLast (T i ts) = node_text ps i depth isLast ++ render_forest ps (S depth) ts.
Proof.
  cbn [render]. f_equal. induction ts as [|t ts IH]; [done|]. cbn [render_forest]. by rewrite <- IH.
Qed.

Section printing.
Context {W : Type} (K : kernel posix W).

Lemma print_node_ok ps m i p depth isLast w :
  ps !! i = Some p →
  wp K (print_node (node_at ps m i p) depth isLast) w (λ r w' t,
    r = Returned tt ∧ w' = w ∧ outs t = node_text ps i depth isLast).
Proof.
  intros Hp. unfold print_node, node_text. rewrite Hp.
  assert (∀ n k w, wp K (for_each (seq k n) (λ _ (_ : unit), printf (S := posix) (if isLast then "    " else "|   ")) tt) w
    (λ r w' t, r = Returned tt ∧ w' = w ∧ outs t = repeat (if isLast then "    " else "|   ")%string n)) as Hsep.
  { induction n as [|n IH]; intros k w0; cbn [for_each seq]; [by apply wp_ret|].
    apply wp_bind, wp_put, wp_ret. eapply wp_mono; [apply IH|]. intros r w' t (-> & -> & Ho).
    cbn. by rewrite Ho. }
  apply wp_bind. eapply wp_mono; [apply Hsep|]. intros r w1 t1 (-> & -> & Ho1).
  destruct (0 <? depth)%nat; prog_steps; rewrite outs_app, Ho1; done.
Qed.

(** The loop over the children, from the [k0]-th of [n]. *)
Lemma print_childs_ok ps h f depth n : ∀ cs ts k0 w,
  n = k0 + length cs →
  Forall2 (λ c t, ∀ isLast w, wp K (print_tree_recursive f h c depth isLast) w (λ r w' t',
     r = Returned tt ∧ w' = w ∧ outs t' = render ps depth isLast t)) cs ts →
  wp K (for_each (imap (λ k c, (k0 + k, c)) cs)
          (λ '(k, c) (_ : unit), print_tree_recursive f h c depth (k =? n - 1)%nat) tt) w
    (λ r w' t', r = Returned tt ∧ w' = w ∧ outs t' = render_forest ps depth ts).
Proof.
  induction cs as [|c cs IH]; intros ts k0 w Hn HF; apply Forall2_cons_inv_l in HF || apply Forall2_nil_inv_l in HF.
  - subst ts. by apply wp_ret.
  - destruct HF as (t & ts' & Hc & HF & ->). rewrite imap_cons. cbn [for_each]. apply wp_bind.
    rewrite Nat.add_0_r. cbn [length] in Hn.
    assert ((k0 =? n - 1)%nat = match ts' with [] => true | _ => false end) as ->.
    { apply Forall2_length in HF. destruct ts'; cbn in HF; [apply Nat.eqb_eq|apply Nat.eqb_neq]; lia. }
    eapply wp_mono; [apply Hc|]. intros r w1 t1 (-> & -> & Ho).
    assert (imap ((λ k c0, (k0 + k, c0)) ∘ S) cs = imap (λ k c0, (S k0 + k, c0)) cs) as ->.
    { apply imap_ext. intros k x _. cbn. f_equal. lia. }
    eapply wp_mono; [apply (IH ts' (S k0)); [lia|done]|].
    intros r w2 t2 (-> & -> & Ho2). by rewrite outs_app, Ho, Ho2.
Qed.

Lemma print_tree_recursive_ok ps : ∀ f i t depth isLast w,
  is_tree ps i t → height t ≤ f →
  wp K (print_tree_recursive f (heap (state ps (length ps))) i depth isLast) w (λ r w' t',
    r = Returned tt ∧ w' = w ∧ outs t' = render ps depth isLast t).
Proof.
  induction f as [|f IH]; intros i t depth isLast w Ht Hf; [destruct t; cbn in Hf; lia|].
  inversion Ht as [i' p ts Hp HF]; subst. cbn [print_tree_recursive].
  rewrite state_lookup, Hp. cbn [fmap option_fmap option_map]. rewrite render_eq.
  apply wp_bind. eapply wp_mono; [by apply print_node_ok|]. intros r w1 t1 (-> & -> & Ho).
  change (p_childs (node_at ps (length ps) i p)) with (children ps (Node i)).
  eapply wp_mono; [apply (print_childs_ok ps _ f (S depth) (length (children ps (Node i))) _ ts 0); [done|]|].
  - cbn [height] in Hf. apply le_S_n in Hf. clear Ht Hp. revert Hf.
    induction HF as [|c t' cs ts' Hc HF IHF]; intros Hf; constructor.
    + intros l w0. apply IH; [done|]. cbn in Hf. lia.
    + apply IHF. cbn in Hf. lia.
  - intros r w2 t2 (-> & -> & Ho2). by rewrite outs_app, Ho, Ho2.
Qed.

Lemma print_tree_ok ps f ts w :
  ps ≠ [] → Forall2 (is_tree ps) (children ps Ghost) ts → Forall (λ t, height t ≤ f) ts →
  wp K (print_tree f (state ps (length ps))) w (λ r w' t',
    r = Returned tt ∧ w' = w ∧ outs t' = ("GHOST PROCESS(0)" +:+ nl) :: render_forest ps 1 ts).
Proof.
  intros Hne HF Hh. unfold print_tree. rewrite ghost_state by done.
  change (children_upto ps (length ps) Ghost) with (children ps Ghost).
  apply wp_bind, wp_put, wp_ret. eapply wp_mono; [apply (print_childs_ok ps _ f 1 (length (children ps Ghost)) _ ts 0); [done|]|].
  - clear Hne. induction HF as [|c t cs ts' Hc HF IHF]; constructor; apply Forall_cons in Hh as [Hh Hh'].
    + intros l w0. by apply print_tree_recursive_ok.
    + by apply IHF.
  - intros r w2 t2 (-> & -> & Ho2). cbn. by rewrite Ho2.
Qed.
End printing.

(** ** The whole program *)

(** What a line of a status file gives; [None] for a line on which the program
    dereferences NULL. *)
Definition ps_parse_line (l : bytes) (c : status) : option status :=
  match strtok TAB (cstr l) with
  | (None, _) => None
  | (Some tok, rest) =>
      if bool_decide (tok = to_bytes "Name:") then
        v ← (strtok TAB rest).1; Some (Status (Some (removelast v)) (CmdPID c) (CmdPPID c))
      else if bool_decide (tok = to_bytes "Pid:") then
        v ← (strtok TAB rest).1; Some (Status (CmdName c) (Some (removelast v)) (CmdPPID c))
      else if bool_decide (tok = to_bytes "PPid:") then
        v ← (strtok TAB rest).1; Some (Status (CmdName c) (CmdPID c) (Some (removelast v)))
      else Some c
  end.

Fixpoint ps_parse (ls : list bytes) (c : status) : option status :=
  match ls with [] => Some c | l :: ls' => c ← ps_parse_line l c; ps_parse ls' c end.

(** The process a status file describes. *)
Definition proc_of (ls : list bytes) : option proc :=
  c ← ps_parse ls (Status None None None);
  n ← CmdName c; p ← CmdPID c; q ← CmdPPID c;
  Some (Proc n (to_int (st_val (strtol p 10))) (to_int (st_val (strtol q 10)))).

Definition entry_proc (v : procfs) (e : dirent) : list proc :=
  if is_process e then
    match ls ← texts v !! status_path e; proc_of ls with Some p => [p] | None => [] end
  else [].

Section whole.
Context {W : Type} (K : kernel posix W) (view : W → procfs) `{!ProcKernel K view}.

Lemma ps_line_ok l c c' w :
  ps_parse_line l c = Some c' →
  wp K (ps_line l c) w (λ r w' t, outs t = [] ∧ match r with
    | Returned c2 => c2 = c' ∧ view w' = view w
    | _ => alloc_stop r
    end).
Proof.
  unfold ps_parse_line, ps_line. destruct (strtok TAB (cstr l)) as [[tok|] rest]; [|done].
  assert (∀ f : bytes → status, (v ← (strtok TAB rest).1; Some (f v)) = Some c' →
    wp K (v <- next_token rest ;; Ret (f v)) w (λ r w' t, outs t = [] ∧ match r with
      | Returned c2 => c2 = c' ∧ view w' = view w
      | _ => alloc_stop r
      end)) as Htok.
  { intros f Hf. unfold next_token. destruct (strtok TAB rest) as [[v|] r2]; [|done]. cbn in Hf.
    injection Hf as <-. apply wp_bind, wp_bind. eapply wp_mono; [by apply (xmalloc_ok K view)|].
    intros [u|h|] w' t [Ho Hr]; [|done..]. apply wp_ret, wp_ret. by rewrite !app_nil_r. }
  repeat case_bool_decide; intros Hc.
  - by apply (Htok (λ v, Status (Some (removelast v)) (CmdPID c) (CmdPPID c))).
  - by apply (Htok (λ v, Status (CmdName c) (Some (removelast v)) (CmdPPID c))).
  - by apply (Htok (λ v, Status (CmdName c) (CmdPID c) (Some (removelast v)))).
  - injection Hc as <-. by apply wp_ret.
Qed.

Lemma ps_lines_ok f ls : ∀ fuel c c' w,
  ps_parse ls c = Some c' → Forall (λ l, length l < 100) ls → length ls < fuel →
  fstreams (view w) !! f = Some ls →
  wp K (ps_lines fuel f c) w (λ r w' t, outs t = [] ∧ match r with
    | Returned c2 => c2 = c' ∧ view w' = set_fstreams (<[f := []]> (fstreams (view w))) (view w)
    | _ => alloc_stop r
    end).
Proof.
  induction ls as [|l ls IH]; intros fuel c c' w Hp Hl Hf Hs; destruct fuel as [|fuel]; cbn in Hf; try lia;
    unfold ps_lines; cbn [loop].
  - apply wp_bind. prog_call. apply proc_kernel in H. cbn in H. rewrite Hs in H. destruct H as [-> Hv].
    apply wp_ret, wp_ret. injection Hp as <-. split; [done|]. split; [done|]. rewrite Hv, insert_id by done.
    by destruct (view w).
  - apply Forall_cons in Hl as [Hl Hls]. cbn in Hp. destruct (ps_parse_line l c) as [c1|] eqn:Hc1; [|done].
    apply wp_bind. prog_call. apply proc_kernel in H. cbn in H. rewrite Hs in H.
    destruct H as [-> Hv]; [unfold STATUS_FILE_LINE_LEN; lia|].
    apply wp_bind. eapply wp_mono; [by apply ps_line_ok|].
    intros [c2|h|] w2 t2 [Ho Hr]; [|done..]. destruct Hr as [-> Hv2]. apply wp_ret.
    eapply wp_mono; [apply (IH fuel c1 c'); [done|done|lia|]|].
    { rewrite Hv2, Hv. cbn. by rewrite lookup_insert_eq. }
    intros [c3|h|] w3 t3 [Ho3 Hr3]; (split; [rewrite !outs_app; cbn; rewrite ?outs_app, Ho; cbn; by rewrite ?Ho3|]); [|done..].
    destruct Hr3 as [-> Hv3]. split; [done|]. rewrite Hv3, Hv2, Hv. unfold set_fstreams. cbn.
    by rewrite insert_insert_eq.
Qed.

Lemma ps_entry_ok v0 fuel e ps w :
  same_tables v0 (view w) →
  (is_process e = true → ∃ ls p, texts v0 !! status_path e = Some ls ∧ Forall (λ l, length l < 100) ls ∧
     length ls < fuel ∧ proc_of ls = Some p ∧ length (pr_name p) < 128) →
  wp K (ps_entry fuel e (state ps 0)) w (λ r w' t, outs t = [] ∧ match r with
    | Returned g => g = state (ps ++ entry_proc v0 e) 0 ∧ same_tables v0 (view w') ∧
        dstreams (view w') = dstreams (view w)
    | _ => alloc_stop r
    end).
Proof.
  intros Hv Hp. unfold ps_entry, entry_proc, is_process in *.
  destruct (dot_entry e); [apply wp_ret; by rewrite app_nil_r|]. cbn [negb andb] in *.
  destruct (d_isdir e && numeric_name (d_name e)); [|apply wp_ret; by rewrite app_nil_r].
  destruct (Hp eq_refl) as (ls & p & Hls & Hl & Hfuel & Hpr & Hname). unfold status_path in *.
  rewrite Hls. cbn [mbind option_bind]. rewrite Hpr.
  unfold proc_of in Hpr. destruct (ps_parse ls _) as [c|] eqn:Hc; [|done]. cbn [mbind option_bind] in Hpr.
  destruct (CmdName c) as [n|] eqn:En; [|done]. cbn [mbind option_bind] in Hpr.
  destruct (CmdPID c) as [pid|] eqn:Ep; [|done]. cbn [mbind option_bind] in Hpr.
  destruct (CmdPPID c) as [ppid|] eqn:Eq; [|done]. injection Hpr as <-. cbn [pr_name] in Hname.
  apply wp_bind. eapply wp_mono; [by apply (xmalloc_ok K view)|].
  intros [_|h|] w1 t1 [Ho1 H1]; [|done..].
  prog_call; [|by rewrite outs_app, Ho1]. apply proc_kernel in H. cbn [proc_step] in H.
  rewrite H1, (proj1 (proj2 Hv)), Hls in H. destruct H as [Ha Hv2].
  rewrite (proj2 (Z.eqb_neq _ _) Ha).
  apply wp_bind. eapply wp_mono.
  { eapply (ps_lines_ok (ret a) ls); [done..|]. rewrite Hv2. cbn. by rewrite lookup_insert_eq. }
  intros [c3|h|] w3 t3 [Ho3 H3]; (try by (split; [rewrite outs_app, Ho1; cbn; by rewrite Ho3|])).
  destruct H3 as [-> Hv3]. rewrite En, Ep, Eq.
  apply wp_bind. eapply wp_mono; [by apply (insert_ok K view ps (Proc n _ _))|].
  intros [g|h|] w4 t4 [Ho4 H4];
    (try by (split; [rewrite outs_app, Ho1; cbn; rewrite outs_app, Ho3; cbn; by rewrite Ho4|])).
  destruct H4 as [-> Hv4].
  assert (same_tables v0 (view w4) ∧ dstreams (view w4) = dstreams (view w)) as [Hs4 Hd4].
  { rewrite Hv4, Hv3, Hv2. split; [|done]. by destruct Hv as (?&?&?&?). }
  prog_call; [|rewrite outs_app, Ho1; cbn; rewrite outs_app, Ho3; cbn; by rewrite outs_app, Ho4].
  apply proc_kernel in H. cbn in H. prog_steps.
  split; [rewrite outs_app, Ho1; cbn; rewrite outs_app, Ho3; cbn; by rewrite outs_app, Ho4|].
  split; [done|]. rewrite H. split; [by destruct Hs4 as (?&?&?&?)|done].
Qed.

Lemma pstree_ok (w : W) (fuel : nat) (argv0 : string) (es : list dirent) (ts : list tree) :
  dirs (view w) !! PROC_PATH = Some es →
  (∀ e, e ∈ es → is_process e = true → ∃ ls p, texts (view w) !! status_path e = Some ls ∧
     Forall (λ l, length l < 100) ls ∧ length ls < fuel ∧ proc_of ls = Some p ∧ length (pr_name p) < 128) →
  let ps := es ≫= entry_proc (view w) in
  well_formed ps → Forall2 (is_tree ps) (children ps Ghost) ts → Forall (λ t, height t ≤ fuel) ts →
  length es < fuel → length ps < fuel →
  wp K (pstree_main fuel [argv0]) w (λ r _ t, match r with
    | Halted (Exited 0) => outs t = ("GHOST PROCESS(0)" +:+ nl) :: render_forest ps 1 ts
    | _ => alloc_stop r
    end).
Proof.
  intros Hes Hproc ps Hwf Hts Hh Hfuel Hfuel2. set (v0 := view w) in *. unfold pstree_main.
  change (1 <? length [argv0])%nat with false. cbv iota.
  prog_call. destruct (ret a =? 0)%Z eqn:Ha; [by prog_steps|]. zbool.
  apply proc_kernel in H. cbn in H. fold v0 in H. rewrite Hes in H.
  destruct H as [[? _]|(es' & Hes' & _ & _ & Hv2)]; [done|]. injection Hes' as <-.
  apply wp_bind. eapply wp_mono.
  { apply (wp_loop K (λ g w2 t, ∃ rest, es = rest.1 ++ rest.2 ∧ same_tables v0 (view w2) ∧
        dstreams (view w2) !! ret a = Some rest.2 ∧ g = state (rest.1 ≫= entry_proc v0) 0 ∧ outs t = [])
      (λ _ w2, length (default [] (dstreams (view w2) !! ret a)))
      _ (λ r _ t, match r with
         | Returned g => g = state ps 0 ∧ outs t = []
         | _ => alloc_stop r
         end)) with (t := []).
    - intros g w2 t ([ds rest] & -> & Hs & Hd & -> & Ho). cbn [fst snd] in *.
      prog_call. apply proc_kernel in H. cbn in H. rewrite Hd in H.
      destruct rest as [|e rest]; destruct H as [-> Hv3].
      { apply wp_ret. rewrite outs_app, Ho. unfold ps. by rewrite app_nil_r. }
      apply wp_bind. eapply wp_mono.
      { apply (ps_entry_ok v0); [|intros Hp; apply Hproc; [|done]; apply elem_of_app; right; left].
        rewrite Hv3. by destruct Hs as (?&?&?&?). }
      intros [g|h|] w3 t3 [Ho3 H3]; [|done..]. destruct H3 as (-> & Hs3 & Hd3). apply wp_ret.
      assert (dstreams (view w3) !! ret a = Some rest) as Hd4
        by (rewrite Hd3, Hv3; cbn; by rewrite lookup_insert_eq).
      split.
      + exists (ds ++ [e], rest). cbn [fst snd]. rewrite <- app_assoc. split; [done|]. split; [done|].
        split; [done|]. split; [rewrite bind_app; cbn; by rewrite app_nil_r|].
        rewrite app_nil_r, outs_app, Ho. cbn. by rewrite Ho3.
      + rewrite Hd, Hd4. cbn. lia.
    - exists ([], es). cbn. split; [done|]. split; [|split; [|done]].
      + by rewrite Hv2.
      + rewrite Hv2. cbn. by rewrite lookup_insert_eq.
    - rewrite Hv2. cbn. rewrite lookup_insert_eq. done. }
  cbn [app]. intros [g|h|] w3 t3 H3; [|by destruct h as [[]| | | |]|done]. destruct H3 as [-> Ho3].
  prog_call.
  assert (ps ≠ []) as Hne by (destruct Hwf as [Hwf _]; by destruct ps; [cbn in Hwf; lia|]).
  assert (at_index (length ps) 0 = Some 0) as Hat
    by (unfold at_index; by rewrite decide_True by (destruct Hwf; lia)).
  unfold create_tree. apply wp_bind, wp_bind. eapply wp_mono; [by apply (xmalloc_ok K view)|].
  intros [_|h|] w5 t5 [Ho5 H5]; [|by destruct h as [[]| | | |]|done].
  rewrite start_state, <- Hat by done.
  replace (Globals _ _ _ []) with (state ps 0) by (rewrite Hat; by destruct ps).
  eapply wp_mono; [apply create_tree_from_ok; try done; lia|].
  intros r w6 t6 (-> & -> & ->). apply wp_bind.
  eapply wp_mono; [by apply print_tree_ok|]. intros r w7 t7 (-> & -> & Ho7).
  rewrite start_state, <- Hat by done. rewrite free_everything_ok by (destruct Hwf; lia).
  rewrite length_seq, (proj2 (Nat.ltb_lt _ _)) by lia. prog_steps.
  cbn. rewrite outs_app, Ho3. cbn. rewrite !outs_app, Ho5, Ho7. cbn. by rewrite app_nil_r.
Qed.

(** C17: The data structure of pstree.c.  Inserting the processes of a table one
    by one gives the list of their nodes in order.  For a table of at least two
    processes in which every parent is in the table (or 0) and no process has
    more than 512 children, [create_tree] ends with, for each node, its parent
    and the list of its children in the order of the table, and
    [free_everything] then frees each node exactly once.  A list of one process
    is closed into a loop by [create_and_insert_process_node_ll]: [create_tree]
    never returns from it, it overruns the array of children instead.
    pstree.c as a whole.  For every /proc in which each process directory has
    a readable status file with a name, a pid and a parent, and whose process
    table is a forest of at least two processes with at most 512 children each:
    the program ends, and with status 0 it has printed the ghost process and
    then the forest, every node on its own line under its parent, indented by
    depth and in the order of the directory; the only other end is status 1
    when the directory cannot be opened or memory runs out. *)
Theorem pstree_correct (w : W) :
  (∀ (ps : list proc) (fuel : nat),
  Forall (λ p, length (pr_name p) < 128) ps →
  wp K (for_each ps (λ p g, create_and_insert_process_node_ll (pr_name p) (pr_pid p) (pr_ppid p) g)
          (Globals [] None None [])) w (λ r _ _, match r with
    | Returned g => g = state ps 0 | _ => alloc_stop r end) ∧
  (well_formed ps → length ps ≤ fuel →
   wp K (create_tree fuel (state ps 0)) w (λ r _ _, match r with
     | Returned g =>
         ghost_childs g = children ps Ghost ∧ length (heap g) = length ps ∧
         (∀ j p, ps !! j = Some p → ∃ q, heap g !! j = Some q ∧ p_name q = pr_name p ∧
            p_pid q = pr_pid p ∧ p_parent q = parent_of ps j ∧ p_childs q = children ps (Node j)) ∧
         free_everything fuel (heap g) (process_ll_start g) = seq 0 (length ps)
     | _ => alloc_stop r
     end)) ∧
  (∀ p, ps = [p] → pr_ppid p = 0%Z →
   wp K (create_tree fuel (state ps 0)) w (λ r _ _,
     r = Halted Cut ∨ r = Halted (Undef "childs overflows") ∨ alloc_stop r))) ∧
  (∀ (fuel : nat) (argv0 : string) (es : list dirent) (ts : list tree),
  dirs (view w) !! PROC_PATH = Some es →
  (∀ e, e ∈ es → is_process e = true → ∃ ls p, texts (view w) !! status_path e = Some ls ∧
     Forall (λ l, length l < 100) ls ∧ length ls < fuel ∧ proc_of ls = Some p ∧ length (pr_name p) < 128) →
  let ps := es ≫= entry_proc (view w) in
  well_formed ps → Forall2 (is_tree ps) (children ps Ghost) ts → Forall (λ t, height t ≤ fuel) ts →
  length es < fuel → length ps < fuel →
  wp K (pstree_main fuel [argv0]) w (λ r _ t, match r with
    | Halted (Exited 0) => outs t = ("GHOST PROCESS(0)" +:+ nl) :: render_forest ps 1 ts
    | _ => alloc_stop r
    end)).
Proof.
  split; [intros ps fuel; by apply (process_tree_ok K view)|exact (pstree_ok w)].
Qed.
End whole.

(** ** The program at work *)

Definition status3 (name pid ppid : string) : list bytes :=
  [to_bytes ("Name:" +:+ tab +:+ name +:+ nl); to_bytes ("Umask:" +:+ tab +:+ "0022" +:+ nl);
   to_bytes ("Pid:" +:+ tab +:+ pid +:+ nl); to_bytes ("PPid:" +:+ tab +:+ ppid +:+ nl)].

Definition tree_proc : procfs :=
  ProcFs {[ "/proc/"%string := [Dirent "." true; Dirent "1" true; Dirent "self" false; Dirent "7" true; Dirent "42" true] ]}
    {[ "/proc/1/status"%string := status3 "init" "1" "0"; "/proc/7/status"%string := status3 "sh" "7" "1";
       "/proc/42/status"%string := status3 "vi" "42" "7" ]} ∅ ∅ ∅ ∅.

Definition tree_table : list proc :=
  [Proc (to_bytes "init") 1 0; Proc (to_bytes "sh") 7 1; Proc (to_bytes "vi") 42 7].

Lemma tree_table_wf : well_formed tree_table.
Proof.
  split; [cbn; lia|]. split.
  - intros j Hj. cbn in Hj. destruct j as [|[|[|j]]]; [by eexists|by eexists|by eexists|lia].
  - intros q. unfold children, children_upto, CHILDS_SIZE.
    pose proof (length_filter (λ j, parent_of tree_table j = Some q) (seq 0 (length tree_table))) as H.
    cbn [length tree_table seq] in *. lia.
Qed.


Lemma pstree_correct_witness :
  wp prockernel (create_tree 3 (state tree_table 0)) tree_proc (λ r _ _, match r with
     | Returned g =>
         ghost_childs g = children tree_table Ghost ∧ length (heap g) = length tree_table ∧
         (∀ j p, tree_table !! j = Some p → ∃ q, heap g !! j = Some q ∧ p_name q = pr_name p ∧
            p_pid q = pr_pid p ∧ p_parent q = parent_of tree_table j ∧ p_childs q = children tree_table (Node j)) ∧
         free_everything 3 (heap g) (process_ll_start g) = seq 0 (length tree_table)
     | _ => alloc_stop r
     end) ∧
  wp prockernel (pstree_main 9 ["pstree"]) tree_proc (λ r _ t, match r with
    | Halted (Exited 0) => outs t =
        ["GHOST PROCESS(0)" +:+ nl; "`-- "; "init(1)" +:+ nl; "    "; "`-- "; "sh(7)" +:+ nl;
         "    "; "    "; "`-- "; "vi(42)" +:+ nl]%string
    | _ => alloc_stop r
    end).
Proof.
  destruct (pstree_correct prockernel id tree_proc) as [H1 H2]. split.
  - apply (H1 tree_table 3).
    + repeat constructor; cbn; lia.
    + exact tree_table_wf.
    + cbn. lia.
  - apply (H2 9 "pstree"
    [Dirent "." true; Dirent "1" true; Dirent "self" false; Dirent "7" true; Dirent "42" true]
    [T 0 [T 1 [T 2 []]]]).
    + reflexivity.
    + intros e He Hp. rewrite !elem_of_cons, elem_of_nil in He.
    destruct He as [->|[->|[->|[->|[->|[]]]]]]; try (vm_compute in Hp; discriminate);
      (eexists _, _; split; [reflexivity|]; split; [repeat constructor; cbn; lia|];
       split; [cbn; lia|]; split; [vm_compute; reflexivity|cbn; lia]).
    + exact tree_table_wf.
    + repeat (constructor; [econstructor; [reflexivity|]|]); constructor.
    + repeat constructor; cbn; lia.
    + cbn. lia.
    + vm_compute. lia.
Defined.
