(* ===== verification/Conc.v ===== *)
(** * Threads over a shared state

    A multi-threaded program is a list of [prog]s that share one state [W].  A
    [machine] says what a call of thread [i] does to it: it succeeds, it has to
    wait (a mutex that is held), or it is undefined behaviour.  [sched_step i]
    runs thread [i] for one call, [cstep] is any such step, and so the
    reachable configurations are those of all interleavings (of a sequentially
    consistent memory).

    [rg] is a rely/guarantee logic for one thread: thread [i] relies on the
    others changing the state only along [R i] and within the invariant [Inv],
    and guarantees the same to them.  [rg_sound] and [rg_progress] put the
    threads together; [cstep_terminates] says every execution is finite. *)
From S2P Require Import Prelude Prog.
From stdpp Require Import base gmap list relations well_founded.

Inductive mresult (A W : Type) :=
| MOk (a : A) (w : W)
| MBlocked
| MFault.
Arguments MOk {A W} a w.
Arguments MBlocked {A W}.
Arguments MFault {A W}.

Record machine (S : sig) (W : Type) := Machine {
  mstep : nat → ∀ c : op S, W → mresult (ans S c) W;
  memit : nat → output → W → W
}.
Arguments mstep {S W} m i c w.
Arguments memit {S W} m i o w.

Section conc.
Context {S : sig} {W A : Type} (M : machine S W).

Definition config : Type := W * list (prog S A).

(** Thread [i] makes its next call or writes its next text. *)
Definition sched_step (i : nat) (c : config) : option config :=
  match c.2 !! i with
  | Some (Put o k) => Some (memit M i o c.1, <[i := k]> c.2)
  | Some (Sys op k) =>
      match mstep M i op c.1 with
      | MOk a w => Some (w, <[i := k a]> c.2)
      | _ => None
      end
  | _ => None
  end.

Definition cstep (c c' : config) : Prop := ∃ i, sched_step i c = Some c'.

(** A run under a given schedule; a thread that cannot move is skipped. *)
Fixpoint schedule (sch : list nat) (c : config) : config :=
  match sch with
  | [] => c
  | i :: sch' => schedule sch' (default c (sched_step i c))
  end.

Definition finished (p : prog S A) : bool :=
  match p with Ret _ | Stop _ => true | _ => false end.

Definition faulty (i : nat) (c : config) : Prop :=
  ∃ op k, c.2 !! i = Some (Sys op k) ∧ mstep M i op c.1 = MFault.

Lemma schedule_steps sch c : rtc cstep c (schedule sch c).
Proof.
  revert c. induction sch as [|i sch IH]; intros c; [reflexivity|]. cbn [schedule].
  destruct (sched_step i c) as [c'|] eqn:E; cbn; [|apply IH].
  eapply rtc_l; [by exists i|apply IH].
Qed.

(** ** Every execution is finite *)

(** [child q p]: [q] is what [p] may be after one move. *)
Definition child (q p : prog S A) : Prop :=
  match p with
  | Put _ k => q = k
  | Sys c k => ∃ a, q = k a
  | _ => False
  end.

Inductive list_child : list (prog S A) → list (prog S A) → Prop :=
| list_child_head q p ts : child q p → list_child (q :: ts) (p :: ts)
| list_child_tail p ts ts' : list_child ts' ts → list_child (p :: ts') (p :: ts).

Lemma child_wf : well_founded child.
Proof.
  intros p. induction p as [a|h|o k IH|c k IH]; constructor; intros q H; cbn in H; [done|done| |].
  - by subst.
  - destruct H as [a ->]. apply IH.
Qed.

Lemma list_child_wf : well_founded list_child.
Proof.
  intros ts. induction ts as [|p ts IH]; [constructor; intros ? H; inversion H|].
  revert ts IH. induction (child_wf p) as [p _ IHp].
  intros ts Hts. induction Hts as [ts Hts IHts]. constructor.
  intros ts' H. inversion H as [q p' ts0 Hq|p' ts0 ts1 Hq]; subst.
  - apply IHp; [done|by constructor].
  - by apply IHts.
Qed.

Lemma list_child_insert i p q ts :
  ts !! i = Some p → child q p → list_child (<[i := q]> ts) ts.
Proof.
  revert i. induction ts as [|p' ts IH]; intros [|i] Hi Hc; [done..| |].
  - injection Hi as ->. by constructor.
  - constructor. by apply IH.
Qed.

Lemma cstep_child c c' : cstep c c' → list_child c'.2 c.2.
Proof.
  intros [i H]. unfold sched_step in H. destruct (c.2 !! i) as [[a|h|o k|op k]|] eqn:Hi; try done.
  - injection H as <-. eapply list_child_insert; [done|done].
  - destruct (mstep M i op c.1) as [a w| |]; [|done..]. injection H as <-.
    eapply list_child_insert; [done|by exists a].
Qed.

(** There is no infinite execution. *)
Lemma cstep_terminates : well_founded (flip cstep).
Proof.
  intros c. remember c.2 as ts eqn:E. revert c E.
  induction (list_child_wf ts) as [ts _ IH]. intros c ->. constructor.
  intros c' H. by eapply IH; [apply cstep_child|].
Qed.

(** ** The logic of one thread *)

Section rely.
Context (Inv : W → Prop) (R : nat → W → W → Prop) (Waits : nat → W → Prop).
Context `{Hpre : !∀ i, PreOrder (R i)}.

(** What thread [i] guarantees when it changes [w] to [w']. *)
Definition guar (i : nat) (w w' : W) : Prop := Inv w' ∧ ∀ j, j ≠ i → R j w w'.

(** [rg i p Q w]: whatever the others do, every move of [p] respects the
    guarantee, is never undefined behaviour, waits only in a state that
    satisfies [Waits i], and [p] ends in [Q]. *)
Fixpoint rg {B} (i : nat) (p : prog S B) (Q : outcome B → W → Prop) (w : W) : Prop :=
  match p with
  | Ret a => ∀ w', R i w w' → Inv w' → Q (Returned a) w'
  | Stop h => ∀ w', R i w w' → Inv w' → Q (Halted h) w'
  | Put o k => ∀ w', R i w w' → Inv w' →
      guar i w' (memit M i o w') ∧ rg i k Q (memit M i o w')
  | Sys c k => ∀ w', R i w w' → Inv w' →
      match mstep M i c w' with
      | MOk a w'' => guar i w' w'' ∧ rg i (k a) Q w''
      | MBlocked => Waits i w'
      | MFault => False
      end
  end.

Lemma rg_stable {B} i (p : prog S B) Q w w' : rg i p Q w → R i w w' → Inv w' → rg i p Q w'.
Proof. destruct p; cbn; intros H Hr HI w2 Hr2 HI2; apply H; [by etrans|done|by etrans|done|by etrans|done|by etrans|done]. Qed.

Lemma rg_mono {B} i (p : prog S B) (Q Q' : outcome B → W → Prop) w :
  rg i p Q w → (∀ r w, Inv w → Q r w → Q' r w) → rg i p Q' w.
Proof.
  intros H HQ. revert w H. induction p as [a|h|o k IH|c k IH]; cbn; intros w H w' Hr HI.
  - auto.
  - auto.
  - destruct (H w' Hr HI) as [Hg Hk]. auto.
  - specialize (H w' Hr HI). destruct (mstep M i c w') as [a w''| |]; [|done..].
    destruct H as [Hg Hk]. auto.
Qed.

Lemma rg_bind {B C} i (f : B → prog S C) p Q w :
  rg i p (λ r w, match r with
    | Returned a => rg i (f a) Q w
    | Halted h => Q (Halted h) w
    | Gone => True
    end) w →
  rg i (bind f p) Q w.
Proof.
  revert w. induction p as [a|h|o k IH|c k IH]; cbn; intros w H.
  - destruct (f a) eqn:E; cbn; intros w' Hr HI; by apply (H w' Hr HI).
  - auto.
  - intros w' Hr HI. destruct (H w' Hr HI) as [Hg Hk]. auto.
  - intros w' Hr HI. specialize (H w' Hr HI).
    destruct (mstep M i c w') as [a w''| |]; [|done..]. destruct H as [Hg Hk]. auto.
Qed.

(** Each of the [n] threads of a configuration satisfies its specification. *)
Definition good (Q : nat → outcome A → W → Prop) (n : nat) (c : config) : Prop :=
  Inv c.1 ∧ length c.2 = n ∧ ∀ i p, c.2 !! i = Some p → rg i p (Q i) c.1.

Lemma good_step Q n c c' : good Q n c → cstep c c' → good Q n c'.
Proof.
  intros (HI & Hn & Hg) [i H]. unfold sched_step in H. destruct (c.2 !! i) as [p|] eqn:Hi; [|done].
  pose proof (Hg i p Hi) as Hp.
  assert (∃ w' q, c' = (w', <[i := q]> c.2) ∧ guar i c.1 w' ∧ rg i q (Q i) w') as (w' & q & -> & [HI' HR] & Hq).
  { destruct p as [a|h|o k|op k]; try done.
    - injection H as <-. destruct (Hp c.1 ltac:(reflexivity) HI). by do 2 eexists.
    - specialize (Hp c.1 ltac:(reflexivity) HI). destruct (mstep M i op c.1); [|done..].
      injection H as <-. destruct Hp. by do 2 eexists. }
  split; [done|]. split; [cbn; by rewrite length_insert|]. cbn. intros j p' Hj. destruct (decide (i = j)) as [<-|Hne].
  - rewrite list_lookup_insert_eq in Hj by (by eapply lookup_lt_Some). by injection Hj as <-.
  - rewrite list_lookup_insert_ne in Hj by done. eapply rg_stable; [by apply Hg|by apply HR|done].
Qed.

(** Every reachable configuration satisfies the invariant, no thread is about
    to reach undefined behaviour, and a thread that has ended satisfies its
    postcondition. *)
Theorem rg_sound Q n c c' : good Q n c → rtc cstep c c' →
  good Q n c' ∧ (∀ i, ¬ faulty i c') ∧
  (∀ i a, c'.2 !! i = Some (Ret a) → Q i (Returned a) c'.1) ∧
  (∀ i h, c'.2 !! i = Some (Stop h) → Q i (Halted h) c'.1).
Proof.
  intros Hg Hs. assert (good Q n c') as Hgood.
  { induction Hs as [c|c c1 c2 H _ IH]; [done|]. by apply IH, (good_step _ _ c). }
  split; [done|]. destruct Hgood as (HI & _ & Hg'). split; [|split].
  - intros i (op & k & Hi & Hf). pose proof (Hg' i _ Hi c'.1 ltac:(reflexivity) HI) as H. cbn in H.
    by rewrite Hf in H.
  - intros i a Hi. by apply (Hg' i _ Hi).
  - intros i h Hi. by apply (Hg' i _ Hi).
Qed.

(** If, whenever a thread waits, some unfinished thread does not, then no
    reachable configuration is a deadlock... *)
Theorem rg_progress Q n c :
  (∀ c i, good Q n c → Waits i c.1 → ∃ j p, c.2 !! j = Some p ∧ finished p = false ∧ ¬ Waits j c.1) →
  good Q n c → (∃ i p, c.2 !! i = Some p ∧ finished p = false) → ∃ c', cstep c c'.
Proof.
  intros HW Hgood (i & p & Hi & Hp).
  assert (∃ j p, c.2 !! j = Some p ∧ finished p = false ∧
    match p with Sys op _ => mstep M j op c.1 ≠ MBlocked | _ => True end) as (j & q & Hj & Hq & Hb).
  { assert (∀ j q, c.2 !! j = Some q → match q with Sys op _ => mstep M j op c.1 = MBlocked → Waits j c.1 | _ => True end) as Hw.
    { intros j q Hj. pose proof (proj2 (proj2 Hgood) j q Hj) as H. destruct q; [done..|]. intros Hb.
      specialize (H c.1 ltac:(reflexivity) (proj1 Hgood)). by rewrite Hb in H. }
    destruct p as [a|h|o k|op k]; [done|done|by exists i, (Put o k)|].
    destruct (mstep M i op c.1) as [a w| |] eqn:E.
    1,3: exists i, (Sys op k); split; [done|]; split; [done|]; by rewrite E.
    destruct (HW c i Hgood (Hw i _ Hi E)) as (j & q & Hj & Hq & Hn).
    exists j, q. split; [done|]. split; [done|]. pose proof (Hw j q Hj). destruct q; [done..|]. auto. }
  destruct q as [a|h|o k|op k]; [done|done| |].
  - eexists. exists j. unfold sched_step. by rewrite Hj.
  - destruct (mstep M j op c.1) as [a w| |] eqn:E; [|done|].
    + eexists. exists j. unfold sched_step. by rewrite Hj, E.
    + pose proof (proj2 (proj2 Hgood) j _ Hj c.1 ltac:(reflexivity) (proj1 Hgood)) as H. cbn in H. by rewrite E in H.
Qed.

(** ...and every execution can be continued to one in which all threads have
    ended. *)
Theorem rg_completes Q n c :
  (∀ c i, good Q n c → Waits i c.1 → ∃ j p, c.2 !! j = Some p ∧ finished p = false ∧ ¬ Waits j c.1) →
  good Q n c → ∃ c', rtc cstep c c' ∧ Forall (λ p, finished p = true) c'.2.
Proof.
  intros HW. induction (cstep_terminates c) as [c _ IH]. intros Hgood.
  destruct (decide (Forall (λ p, finished p = true) c.2)) as [Hf|Hn]; [by exists c|].
  apply not_Forall_Exists in Hn; [|apply _]. apply Exists_exists in Hn as (p & Hp & Hf).
  apply list_elem_of_lookup in Hp as [i Hi].
  destruct (rg_progress Q n c HW Hgood) as [c1 H1].
  { exists i, p. split; [done|]. by apply not_true_is_false. }
  destruct (IH c1 H1 (good_step Q n c c1 Hgood H1)) as (c' & Hs & Hd).
  exists c'. split; [by eapply rtc_l|done].
Qed.

End rely.
End conc.
