(* ===== verification/ThreadTree.v ===== *)
(** * The thread-safe binary tree: data and operations

    thread_safe_tree.c (CH30): an unbalanced search tree of nodes, each with a
    mutex.  Every access to a field of a node, every allocation and every
    mutex operation is one call of the signature [tree_sig]; [tree_machine]
    gives their effect on the heap of nodes.  An access to a node that does
    not exist (never allocated, or freed), a lock of a mutex that is not
    initialised and an unlock of one the caller does not hold are undefined
    behaviour.  The bound of the recursions is the argument [fuel]. *)
From Stdlib Require Import ZArith Lia Ascii String.
From stdpp Require Import base gmap strings list.
From S2P Require Import Prelude Prog CString Posix Conc.
Local Open Scope prog_scope.

(** A node's address: the thread that allocated it and a number. *)
Definition loc : Type := nat * nat.

Inductive side := L | R.

(** A mutex: the zeroed memory of [calloc], unlocked, or held by a thread. *)
Inductive mutex := Uninit | Unlocked | Held (owner : nat).

(** [struct Node].  [n_creator] is not in the code: it records the thread that
    allocated the node until its mutex is unlocked for the first time, and no
    call depends on it. *)

Record node := Node {
  n_key : option string;
  n_value : Z;
  n_left : option loc;
  n_right : option loc;
  nodeMutex : mutex;
  n_creator : option nat
}.

#[global] Instance side_eq_dec : EqDecision side.
Proof. solve_decision. Defined.
#[global] Instance mutex_eq_dec : EqDecision mutex.
Proof. solve_decision. Defined.
#[global] Instance node_eq_dec : EqDecision node.
Proof. solve_decision. Defined.

Definition n_child (nd : node) (s : side) : option loc :=
  match s with L => n_left nd | R => n_right nd end.
Definition set_key (k : option string) (nd : node) : node :=
  Node k (n_value nd) (n_left nd) (n_right nd) (nodeMutex nd) (n_creator nd).
Definition set_value (v : Z) (nd : node) : node :=
  Node (n_key nd) v (n_left nd) (n_right nd) (nodeMutex nd) (n_creator nd).
Definition set_child (s : side) (p : option loc) (nd : node) : node :=
  match s with
  | L => Node (n_key nd) (n_value nd) p (n_right nd) (nodeMutex nd) (n_creator nd)
  | R => Node (n_key nd) (n_value nd) (n_left nd) p (nodeMutex nd) (n_creator nd)
  end.
Definition set_mutex (m : mutex) (nd : node) : node :=
  Node (n_key nd) (n_value nd) (n_left nd) (n_right nd) m (n_creator nd).
Definition released (nd : node) : node :=
  Node (n_key nd) (n_value nd) (n_left nd) (n_right nd) Unlocked None.

(** What [calloc] gives thread [i]. *)
Definition zeroed (i : nat) : node := Node None 0 None None Uninit (Some i).

Inductive tree_op :=
| LoadKey (l : loc)
| LoadValue (l : loc)
| LoadChild (l : loc) (s : side)
| StoreKey (l : loc) (k : option string)
| StoreValue (l : loc) (v : Z)
| StoreChild (l : loc) (s : side) (p : option loc)
| Calloc
| FreeNode (l : loc)
| MutexInit (l : loc)
| MutexLock (l : loc)
| MutexUnlock (l : loc).

Definition tree_ans (c : tree_op) : Type :=
  match c with
  | LoadKey _ => option string
  | LoadValue _ => Z
  | LoadChild _ _ | Calloc => option loc
  | MutexInit _ | MutexLock _ | MutexUnlock _ => Z
  | _ => unit
  end.

Canonical Structure tree_sig : sig := Sig tree_op tree_ans.

(** ** The operations of the library *)

Section operations.
(** [errno] of the caller, which the functions of pthreads do not set. *)
Context (errno : Z).

Definition unlock_and_return (l : loc) (r : Z) : prog tree_sig Z :=
  s <- sys (MutexUnlock l);;
  if negb (s =? 0)%Z then perror "pthread_mutex_lock" errno ;;; Ret (-1)%Z else Ret r.

Definition initialize (node : loc) : prog tree_sig Z :=
  s <- sys (MutexInit node);;
  if negb (s =? 0)%Z then perror "pthread_mutex_init" errno ;;; Ret (-1)%Z else
  s <- sys (MutexLock node);;
  if negb (s =? 0)%Z then perror "pthread_mutex_lock" errno ;;; Ret (-1)%Z else
  sys (StoreKey node None) ;;; sys (StoreValue node 0) ;;;
  sys (StoreChild node L None) ;;; sys (StoreChild node R None) ;;;
  s <- sys (MutexUnlock node);;
  if negb (s =? 0)%Z then perror "pthread_mutex_unlock" errno ;;; Ret (-1)%Z else
  Ret 0%Z.

(** The branch of [add] for a key that belongs under [root] on side [side]:
    the child is made when there is none, [root] is unlocked and [add] is
    called on the child; its result is not used. *)
Definition add_under (add : option loc → prog tree_sig Z) (root : loc) (side : side) : prog tree_sig Z :=
  c <- sys (LoadChild root side);;
  made <- (match c with
    | None =>
        c <- sys Calloc;;
        sys (StoreChild root side c) ;;;
        c <- sys (LoadChild root side);;
        match c with
        | None => perror "calloc" ENOMEM ;;; Ret false
        | Some _ =>
            c <- sys (LoadChild root side);;
            match c with
            | None => undef "NULL dereference"
            | Some c => initialize c ;;; Ret true
            end
        end
    | Some _ => Ret true
    end);;
  if negb made then Ret (-1)%Z else
  s <- sys (MutexUnlock root);;
  if negb (s =? 0)%Z then perror "pthread_mutex_lock" errno ;;; Ret (-1)%Z else
  c <- sys (LoadChild root side);;
  add c ;;;
  Ret 0%Z.

Fixpoint add (fuel : nat) (root : option loc) (key : option string) (value : Z) : prog tree_sig Z :=
  match fuel with
  | O => Stop Cut
  | S fuel =>
      match key with
      | None => printf ("key cannot be NULL" +:+ nl) ;;; Ret (-1)%Z
      | Some k =>
          match root with
          | None => undef "NULL dereference"
          | Some root =>
              s <- sys (MutexLock root);;
              if negb (s =? 0)%Z then perror "pthread_mutex_lock" errno ;;; Ret (-1)%Z else
              rk <- sys (LoadKey root);;
              match rk with
              | None =>
                  sys (StoreKey root key) ;;;
                  sys (StoreValue root value) ;;;
                  unlock_and_return root 0
              | Some _ =>
                  rk <- sys (LoadKey root);;
                  match rk with
                  | None => undef "strcmp of NULL"
                  | Some rk =>
                      let s := strcmp k rk in
                      if (s <? 0)%Z then add_under (λ c, add fuel c key value) root L
                      else if (0 <? s)%Z then add_under (λ c, add fuel c key value) root R
                      else
                        s <- sys (MutexUnlock root);;
                        if negb (s =? 0)%Z then perror "pthread_mutex_lock" errno ;;; Ret (-1)%Z else
                        printf "key's must be unique" ;;;
                        Ret (-1)%Z
                  end
              end
          end
      end
  end.

(** [lookup] reads without locking.  [value] is what the caller's pointer
    holds: the function assigns its own copy of the parameter, so the caller's
    value never changes. *)
Fixpoint lookup (fuel : nat) (root : option loc) (key : option string) (value : Z) : prog tree_sig (bool * Z) :=
  match fuel with
  | O => Stop Cut
  | S fuel =>
      match key, root with
      | Some k, Some root =>
          rk <- sys (LoadKey root);;
          match rk with
          | None => Ret (false, value)
          | Some _ =>
              rk <- sys (LoadKey root);;
              match rk with
              | None => undef "strcmp of NULL"
              | Some rk =>
                  let s := strcmp rk k in
                  if (0 <? s)%Z then c <- sys (LoadChild root L);; lookup fuel c key value
                  else if (s <? 0)%Z then c <- sys (LoadChild root R);; lookup fuel c key value
                  else Ret (true, value)
              end
          end
      | _, _ => Ret (false, value)
      end
  end.

(** [parent] is the caller's variable: [None] when it is not initialised. *)
Fixpoint getParent (fuel : nat) (root : option loc) (childKey : option string) (parent : option loc) :
    prog tree_sig (Z * option loc) :=
  match fuel with
  | O => Stop Cut
  | S fuel =>
      match childKey, root with
      | Some k, Some root =>
          rk <- sys (LoadKey root);;
          match rk with
          | None => Ret (-1, parent)%Z
          | Some _ =>
              rk <- sys (LoadKey root);;
              match rk with
              | None => undef "strcmp of NULL"
              | Some rk =>
                  let s := strcmp rk k in
                  if (0 <? s)%Z then
                    c <- sys (LoadChild root L);;
                    let parent := match c with Some _ => Some root | None => parent end in
                    c <- sys (LoadChild root L);;
                    getParent fuel c childKey parent
                  else if (s <? 0)%Z then
                    c <- sys (LoadChild root R);;
                    let parent := match c with Some _ => Some root | None => parent end in
                    c <- sys (LoadChild root R);;
                    getParent fuel c childKey parent
                  else Ret (0, parent)%Z
              end
          end
      | _, _ => Ret (-1, parent)%Z
      end
  end.

Fixpoint getNode (fuel : nat) (root : option loc) (key : option string) (self : option loc) :
    prog tree_sig (Z * option loc) :=
  match fuel with
  | O => Stop Cut
  | S fuel =>
      match key, root with
      | Some k, Some root =>
          rk <- sys (LoadKey root);;
          match rk with
          | None => Ret (-1, self)%Z
          | Some _ =>
              rk <- sys (LoadKey root);;
              match rk with
              | None => undef "strcmp of NULL"
              | Some rk =>
                  let s := strcmp rk k in
                  if (0 <? s)%Z then c <- sys (LoadChild root L);; getNode fuel c key self
                  else if (s <? 0)%Z then c <- sys (LoadChild root R);; getNode fuel c key self
                  else Ret (0%Z, Some root)
              end
          end
      | _, _ => Ret (-1, self)%Z
      end
  end.

(** [getMin] ([L]) and [getMax] ([R]): to the end of one side of the tree. *)
Definition getEnd (fuel : nat) (side : side) (root : option loc) (res : option loc) :
    prog tree_sig (Z * option loc) :=
  match root with
  | None => Ret (-1, res)%Z
  | Some root =>
      rk <- sys (LoadKey root);;
      match rk with
      | None => Ret (-1, res)%Z
      | Some _ =>
          tmp <- loop fuel (λ tmp,
            c <- sys (LoadChild tmp side);;
            match c with
            | None => Ret (inr tmp)
            | Some _ =>
                c <- sys (LoadChild tmp side);;
                match c with
                | None => undef "NULL dereference"
                | Some c => Ret (inl c)
                end
            end) root;;
          Ret (0%Z, Some tmp)
      end
  end.
Definition getMin (fuel : nat) := getEnd fuel L.
Definition getMax (fuel : nat) := getEnd fuel R.

(** The branches of [delete] for a node with a child: the key and value of the
    extreme node [getMM] of the subtree on side [side] replace those of [self],
    and that node is freed. *)
Definition delete_inner (getMM : option loc → option loc → prog tree_sig (Z * option loc))
    (side : side) (self : loc) : prog tree_sig Z :=
  c <- sys (LoadChild self side);;
  '(s, mm) <- getMM c None;;
  if negb (s =? 0)%Z then Ret (-1)%Z else
  s <- sys (MutexLock self);;
  if negb (s =? 0)%Z then perror "pthread_mutex_lock" errno ;;; Ret (-1)%Z else
  match mm with
  | None => undef "NULL dereference"
  | Some mm =>
      k <- sys (LoadKey mm);; sys (StoreKey self k) ;;;
      v <- sys (LoadValue mm);; sys (StoreValue self v) ;;;
      sys (FreeNode mm) ;;;
      s <- sys (MutexUnlock self);;
      if negb (s =? 0)%Z then perror "pthread_mutex_unlock" errno ;;; Ret (-1)%Z else
      Ret 0%Z
  end.

(** [delete] once [parent] and [self] are known. *)
Definition delete_found (fuel : nat) (parent self root : loc) (key : string) : prog tree_sig Z :=
  s <- sys (MutexLock parent);;
  if negb (s =? 0)%Z then perror "pthread_mutex_lock" errno ;;; Ret (-1)%Z else
  l <- sys (LoadChild self L);;
  leaf <- (match l with
    | None => r <- sys (LoadChild self R);; Ret (match r with None => true | Some _ => false end)
    | Some _ => Ret false
    end);;
  if leaf : bool then
    rk <- sys (LoadKey root);;
    match rk with
    | None => undef "strcmp of NULL"
    | Some rk =>
        (if (0 <? strcmp rk key)%Z then sys (StoreChild parent L None)
         else sys (StoreChild parent R None)) ;;;
        sys (FreeNode self) ;;;
        s <- sys (MutexUnlock parent);;
        if negb (s =? 0)%Z then perror "pthread_mutex_unlock" errno ;;; Ret (-1)%Z else
        Ret 0%Z
    end
  else
    l <- sys (LoadChild self L);;
    match l with
    | Some _ => delete_inner (getMax fuel) L self
    | None => delete_inner (getMin fuel) R self
    end.

Definition delete (fuel : nat) (root : option loc) (key : option string) : prog tree_sig Z :=
  '(s, parent) <- getParent fuel root key None;;
  if negb (s =? 0)%Z then Ret (-1)%Z else
  '(s, self) <- getNode fuel root key None;;
  if negb (s =? 0)%Z then Ret (-1)%Z else
  match parent, self, root, key with
  | Some parent, Some self, Some root, Some key => delete_found fuel parent self root key
  | None, _, _, _ => undef "parent is not initialised"
  | _, _, _, _ => undef "NULL dereference"
  end.

End operations.

(** ** The heap of nodes *)

Record tstate := TState { nodes : gmap loc node; t_next : gmap nat nat }.

Definition set_nodes (f : gmap loc node → gmap loc node) (σ : tstate) : tstate :=
  TState (f (nodes σ)) (t_next σ).

(** How many nodes thread [i] has asked for. *)
Definition next_of (σ : tstate) (i : nat) : nat := default 0 (t_next σ !! i).

(** An access to a node. *)
Definition with_node {A} (l : loc) (σ : tstate) (f : node → mresult A tstate) : mresult A tstate :=
  match nodes σ !! l with Some nd => f nd | None => MFault end.

Definition store_node (l : loc) (nd : node) (σ : tstate) : tstate := set_nodes <[l := nd]> σ.

(** The effect of a call of thread [i]; [oom i n] says that its [n]-th
    allocation fails. *)
Definition tree_step (oom : nat → nat → bool) (i : nat) (c : tree_op) (σ : tstate) : mresult (tree_ans c) tstate :=
  match c with
  | LoadKey l => with_node l σ (λ nd, MOk (n_key nd) σ)
  | LoadValue l => with_node l σ (λ nd, MOk (n_value nd) σ)
  | LoadChild l s => with_node l σ (λ nd, MOk (n_child nd s) σ)
  | StoreKey l k => with_node l σ (λ nd, MOk tt (store_node l (set_key k nd) σ))
  | StoreValue l v => with_node l σ (λ nd, MOk tt (store_node l (set_value v nd) σ))
  | StoreChild l s p => with_node l σ (λ nd, MOk tt (store_node l (set_child s p nd) σ))
  | Calloc =>
      let n := next_of σ i in
      let next := <[i := S n]> (t_next σ) in
      if oom i n then MOk None (TState (nodes σ) next)
      else MOk (Some (i, n)) (TState (<[(i, n) := zeroed i]> (nodes σ)) next)
  | FreeNode l => with_node l σ (λ nd, MOk tt (set_nodes (base.delete l) σ))
  | MutexInit l => with_node l σ (λ nd, match nodeMutex nd with
      | Uninit => MOk 0%Z (store_node l (set_mutex Unlocked nd) σ)
      | _ => MFault
      end)
  | MutexLock l => with_node l σ (λ nd, match nodeMutex nd with
      | Uninit => MFault
      | Unlocked => MOk 0%Z (store_node l (set_mutex (Held i) nd) σ)
      | Held _ => MBlocked
      end)
  | MutexUnlock l => with_node l σ (λ nd,
      if decide (nodeMutex nd = Held i) then MOk 0%Z (store_node l (released nd) σ)
      else MFault)
  end.

Definition tree_machine (oom : nat → nat → bool) : machine tree_sig tstate :=
  Machine tree_sig tstate (tree_step oom) (λ _ _ σ, σ).

(** The kernel of a single thread. *)
Definition tree_kernel (oom : nat → nat → bool) (i : nat) : kernel tree_sig tstate := λ c σ,
  match tree_step oom i c σ with
  | MOk a σ' => Answer a σ'
  | _ => NoReturn σ
  end.

(** ** Search trees *)

Section search_tree.
Context (m : gmap loc node).

Definition above (lo : option string) (k : string) : Prop :=
  match lo with Some a => (strcmp a k < 0)%Z | None => True end.
Definition below (hi : option string) (k : string) : Prop :=
  match hi with Some b => (strcmp k b < 0)%Z | None => True end.

(** [reach root path l lo hi]: from [root], through the nodes of [path] (the
    nearest first), the child pointers lead to [l], and a key belongs at [l]
    only if it is between [lo] and [hi]. *)
Inductive reach (root : loc) : list loc → loc → option string → option string → Prop :=
| reach_root : reach root [] root None None
| reach_left path l nd k lo hi c :
    reach root path l lo hi → m !! l = Some nd → n_key nd = Some k → n_left nd = Some c →
    reach root (l :: path) c lo (Some k)
| reach_right path l nd k lo hi c :
    reach root path l lo hi → m !! l = Some nd → n_key nd = Some k → n_right nd = Some c →
    reach root (l :: path) c (Some k) hi.

(** The key is in the tree. *)
Definition has (root : loc) (k : string) : Prop :=
  ∃ path l lo hi nd, reach root path l lo hi ∧ m !! l = Some nd ∧ n_key nd = Some k.

(** The search-tree invariant: every node that can be reached exists and its
    key is in its place, a node without a key has no children, and no node is
    linked twice or above the root. *)
Record search_tree (root : loc) : Prop := {
  st_reach path l lo hi : reach root path l lo hi → ∃ nd, m !! l = Some nd ∧
    ∀ k, n_key nd = Some k → above lo k ∧ below hi k;
  st_empty l nd s : m !! l = Some nd → n_key nd = None → n_child nd s = None;
  st_child l nd s c : m !! l = Some nd → n_child nd s = Some c → is_Some (m !! c);
  st_once l1 nd1 s1 l2 nd2 s2 c : m !! l1 = Some nd1 → m !! l2 = Some nd2 →
    n_child nd1 s1 = Some c → n_child nd2 s2 = Some c → l1 = l2 ∧ s1 = s2;
  st_root l nd s : m !! l = Some nd → n_child nd s ≠ Some root
}.

End search_tree.
