(* ===== verification/SearchTree.v ===== *)
(** * The search-tree invariant of the thread-safe tree

    The invariant [search_tree] of ThreadTree under the changes the operations
    make: heaps only grow while no node is deleted ([heap_grows]), a node is
    reached in one way, the keys of a path are distinct, a key of the tree is
    found by comparisons ([search]), and an update of one node, an allocation
    and a link of a new child keep the invariant. *)
From Stdlib Require Import ZArith Lia Ascii String.
From stdpp Require Import base gmap strings list relations well_founded.
From S2P Require Import Prelude Prog CString Posix Conc ThreadTree.
Local Open Scope prog_scope.

(** ** Growing heaps *)

Definition initialised (nd : node) : Prop := n_creator nd = None.

(** A node is only ever completed while no thread deletes. *)
Record grows (nd nd' : node) : Prop := {
  grows_key k : n_key nd = Some k → n_key nd' = Some k;
  grows_child s c : n_child nd s = Some c → n_child nd' s = Some c;
  grows_init : initialised nd → initialised nd'
}.

Definition heap_grows (m m' : gmap loc node) : Prop :=
  ∀ l nd, m !! l = Some nd → ∃ nd', m' !! l = Some nd' ∧ grows nd nd'.

#[global] Instance grows_preorder : PreOrder grows.
Proof. split; [by constructor|]. intros a b c [K1 C1 I1] [K2 C2 I2]. constructor; eauto. Qed.

#[global] Instance heap_grows_preorder : PreOrder heap_grows.
Proof.
  split; [intros m l nd H; by exists nd|].
  intros a b c H1 H2 l nd H. destruct (H1 l nd H) as (nd1 & E1 & G1).
  destruct (H2 l nd1 E1) as (nd2 & E2 & G2). exists nd2. split; [done|by etrans].
Qed.

Lemma heap_grows_insert m l nd nd' :
  m !! l = Some nd → grows nd nd' → heap_grows m (<[l := nd']> m).
Proof.
  intros H G l' nd0 H0. destruct (decide (l = l')) as [<-|Hne].
  - rewrite lookup_insert_eq. simplify_eq. by eexists.
  - rewrite lookup_insert_ne by done. by exists nd0.
Qed.

Lemma heap_grows_fresh m l nd : m !! l = None → heap_grows m (<[l := nd]> m).
Proof.
  intros H l' nd0 H0. exists nd0. split; [|done]. rewrite lookup_insert_ne; [done|congruence].
Qed.

Lemma reach_grows m m' root path l lo hi :
  heap_grows m m' → reach m root path l lo hi → reach m' root path l lo hi.
Proof.
  intros G. induction 1 as [|path l nd k lo hi c _ IH Hl Hk Hc|path l nd k lo hi c _ IH Hl Hk Hc].
  - constructor.
  - destruct (G l nd Hl) as (nd' & Hl' & [GK GC _]). eapply reach_left; eauto. by apply (GC L).
  - destruct (G l nd Hl) as (nd' & Hl' & [GK GC _]). eapply reach_right; eauto. by apply (GC R).
Qed.

Lemma has_grows m m' root k : heap_grows m m' → has m root k → has m' root k.
Proof.
  intros G (path & l & lo & hi & nd & Hr & Hl & Hk). destruct (G l nd Hl) as (nd' & Hl' & GK).
  exists path, l, lo, hi, nd'. split; [by eapply reach_grows|]. split; [done|by apply GK].
Qed.

(** A link of the heap, with the key of its node. *)
Definition link (m : gmap loc node) (l : loc) (s : side) (k : string) (c : loc) : Prop :=
  ∃ nd, m !! l = Some nd ∧ n_key nd = Some k ∧ n_child nd s = Some c.

Definition lo_of (s : side) (k : string) (lo : option string) := match s with L => lo | R => Some k end.
Definition hi_of (s : side) (k : string) (hi : option string) := match s with L => Some k | R => hi end.

Lemma reach_link m root path l s k c lo hi :
  reach m root path l lo hi → link m l s k c → reach m root (l :: path) c (lo_of s k lo) (hi_of s k hi).
Proof. intros Hr (nd & Hl & Hk & Hc). destruct s; [by eapply reach_left|by eapply reach_right]. Qed.

Lemma reach_links m root (P : list loc → loc → option string → option string → Prop) :
  P [] root None None →
  (∀ path l s k c lo hi, reach m root path l lo hi → P path l lo hi → link m l s k c →
     P (l :: path) c (lo_of s k lo) (hi_of s k hi)) →
  ∀ path l lo hi, reach m root path l lo hi → P path l lo hi.
Proof.
  intros H0 HS. induction 1 as [|path l nd k lo hi c Hr IH Hl Hk Hc|path l nd k lo hi c Hr IH Hl Hk Hc]; [done| |].
  - apply (HS path l L k c lo hi Hr IH). by exists nd.
  - apply (HS path l R k c lo hi Hr IH). by exists nd.
Qed.

Lemma reach_inv m root path l lo hi : reach m root path l lo hi →
  (path = [] ∧ l = root ∧ lo = None ∧ hi = None) ∨
  ∃ p path' s k lo' hi', path = p :: path' ∧ reach m root path' p lo' hi' ∧ link m p s k l ∧
    lo = lo_of s k lo' ∧ hi = hi_of s k hi'.
Proof.
  intros H. destruct H as [|path l nd k lo hi c Hr Hl Hk Hc|path l nd k lo hi c Hr Hl Hk Hc]; [by left|right..].
  - exists l, path, L, k, lo, hi. split_and!; [done|done|by exists nd|done|done].
  - exists l, path, R, k, lo, hi. split_and!; [done|done|by exists nd|done|done].
Qed.

Lemma reach_back m m' root path l lo hi :
  (∀ l s k c, link m' l s k c → link m l s k c) →
  reach m' root path l lo hi → reach m root path l lo hi.
Proof.
  intros HL. revert path l lo hi. apply reach_links; [constructor|].
  intros path l s k c lo hi _ IH Hl. by apply reach_link, HL.
Qed.

Lemma reach_unique m root path1 path2 l lo1 hi1 lo2 hi2 :
  search_tree m root → reach m root path1 l lo1 hi1 → reach m root path2 l lo2 hi2 →
  path1 = path2 ∧ lo1 = lo2 ∧ hi1 = hi2.
Proof.
  intros Hst H1. revert path1 l lo1 hi1 H1 path2 lo2 hi2.
  apply (reach_links m root (λ path1 l lo1 hi1, ∀ path2 lo2 hi2, reach m root path2 l lo2 hi2 →
    path1 = path2 ∧ lo1 = lo2 ∧ hi1 = hi2)).
  - intros path2 lo2 hi2 H2. destruct (reach_inv _ _ _ _ _ _ H2) as [(-> & _ & -> & ->)|H3]; [done|].
    destruct H3 as (p & path' & s & k & lo' & hi' & _ & _ & (nd & Hp & _ & Hc) & _).
    by destruct (st_root m root Hst p nd s Hp).
  - intros path l s k c lo hi _ IH (nd & Hl & Hk & Hc) path2 lo2 hi2 H2.
    destruct (reach_inv _ _ _ _ _ _ H2) as [(_ & -> & _)|H3].
    { by destruct (st_root m root Hst l nd s Hl). }
    destruct H3 as (p & path' & s' & k' & lo' & hi' & -> & Hr & (nd' & Hp & Hk' & Hc') & -> & ->).
    destruct (st_once m root Hst l nd s p nd' s' c Hl Hp Hc Hc') as [-> ->]. simplify_eq.
    by destruct (IH path' lo' hi' Hr) as (-> & -> & ->).
Qed.

(** ** Keys on the way down *)

(** The keys of the nodes on a path are distinct, are in the tree, and differ
    from any key that belongs at its end. *)
Lemma path_keys m root path l lo hi : search_tree m root → reach m root path l lo hi →
  ∃ ks, length ks = length path ∧ NoDup ks ∧ (∀ k, k ∈ ks → has m root k) ∧
    ∀ key, above lo key → below hi key → key ∉ ks.
Proof.
  intros Hst. revert path l lo hi. apply (reach_links m root (λ path l lo hi, ∃ ks, length ks = length path ∧
    NoDup ks ∧ (∀ k, k ∈ ks → has m root k) ∧ ∀ key, above lo key → below hi key → key ∉ ks)).
  - exists []. split_and!; [done|constructor|by intros k ?%not_elem_of_nil|intros; apply not_elem_of_nil].
  - intros path l s k c lo hi Hr (ks & Hlen & Hnd & Hin & Hout) (nd & Hl & Hk & Hc).
    destruct (st_reach m root Hst path l lo hi Hr) as (nd' & Hl' & Hb). simplify_eq.
    destruct (Hb k Hk) as [Hlo Hhi]. exists (k :: ks). split_and!.
    + cbn. by rewrite Hlen.
    + constructor; [by apply Hout|done].
    + intros k' [->|H]%elem_of_cons; [|by apply Hin]. by exists path, l, lo, hi, nd.
    + intros key Ha Hb'. apply not_elem_of_cons. split.
      * intros ->. destruct s; cbn in *; by rewrite (proj2 (strcmp_eq k k)) in *.
      * apply Hout; destruct s; cbn in *; try done.
        -- destruct lo as [a|]; [|done]. cbn in *. by eapply strcmp_trans.
        -- destruct hi as [b|]; [|done]. cbn in *. by eapply strcmp_trans.
Qed.

(** A key that is in the tree and belongs under [l] is found by the
    comparisons of [lookup] from [l] on. *)
Inductive search (m : gmap loc node) (key : string) : loc → Prop :=
| search_here l nd : m !! l = Some nd → n_key nd = Some key → search m key l
| search_left l nd k c : m !! l = Some nd → n_key nd = Some k → (0 < strcmp k key)%Z →
    n_left nd = Some c → search m key c → search m key l
| search_right l nd k c : m !! l = Some nd → n_key nd = Some k → (strcmp k key < 0)%Z →
    n_right nd = Some c → search m key c → search m key l.

Lemma search_grows m m' key l : heap_grows m m' → search m key l → search m' key l.
Proof.
  intros G. induction 1 as [l nd Hl Hk|l nd k c Hl Hk Hs Hc _ IH|l nd k c Hl Hk Hs Hc _ IH];
    destruct (G l nd Hl) as (nd' & Hl' & [GK GC _]).
  - eapply search_here; eauto.
  - eapply search_left; eauto. by apply (GC L).
  - eapply search_right; eauto. by apply (GC R).
Qed.

Lemma has_search m root key : search_tree m root → has m root key → search m key root.
Proof.
  intros Hst (path & l & lo & hi & nd & Hr & Hl & Hk).
  destruct (st_reach m root Hst path l lo hi Hr) as (nd' & Hl' & Hb). simplify_eq.
  destruct (Hb key Hk) as [Hlo Hhi].
  assert (search m key l) as Hs by by eapply search_here. clear Hl Hk Hb.
  revert path l lo hi Hr Hs Hlo Hhi.
  apply (reach_links m root (λ path l lo hi, search m key l → above lo key → below hi key → search m key root)); [done|].
  clear nd. intros path l s k c lo hi Hr IH (nd & Hl & Hk & Hc) Hs Hlo Hhi.
  destruct (st_reach m root Hst path l lo hi Hr) as (nd' & Hl' & Hb). simplify_eq.
  destruct (Hb k Hk) as [Hklo Hkhi]. destruct s; cbn in *.
  - apply IH; [|done|].
    + eapply search_left; eauto. rewrite strcmp_opp. lia.
    + destruct hi as [b|]; [|done]. cbn in *. by eapply strcmp_trans.
  - apply IH; [|..|done].
    + by eapply search_right; eauto.
    + destruct lo as [a|]; [|done]. cbn in *. by eapply strcmp_trans.
Qed.

(** ** Updates of one node *)

Lemma insert_inv (m : gmap loc node) l l' nd nd' :
  <[l := nd]> m !! l' = Some nd' → l = l' ∧ nd = nd' ∨ l ≠ l' ∧ m !! l' = Some nd'.
Proof. intros H. apply lookup_insert_Some in H. naive_solver. Qed.

(** The same children, and the same key or a key put into an empty node where
    it belongs. *)
Lemma search_tree_update m root l nd nd' :
  search_tree m root → m !! l = Some nd → (∀ s, n_child nd' s = n_child nd s) →
  n_key nd' = n_key nd ∨
    (n_key nd = None ∧ ∃ k path lo hi, n_key nd' = Some k ∧ reach m root path l lo hi ∧ above lo k ∧ below hi k) →
  search_tree (<[l := nd']> m) root ∧
  (∀ k, has (<[l := nd']> m) root k → has m root k ∨ (n_key nd = None ∧ n_key nd' = Some k)).
Proof.
  intros Hst Hl Hc Hk.
  assert (∀ p s k c, link (<[l := nd']> m) p s k c → link m p s k c) as Hlink.
  { intros p s k c (n & Hp & Hpk & Hpc). apply insert_inv in Hp as [[-> ->]|[Hne Hp]]; [|by exists n].
    rewrite Hc in Hpc. destruct Hk as [Hk|[Hk _]]; [exists nd; by rewrite <- Hk|].
    by rewrite (st_empty m root Hst p nd s Hl Hk) in Hpc. }
  split; [constructor|].
  - intros path p lo hi Hr. apply (reach_back m) in Hr; [|done].
    destruct (st_reach m root Hst path p lo hi Hr) as (n & Hp & Hb).
    destruct (decide (l = p)) as [->|Hne].
    + rewrite lookup_insert_eq. eexists. split; [done|]. simplify_eq.
      destruct Hk as [->|(_ & k & path' & lo' & hi' & -> & Hr' & Hlo & Hhi)]; [done|].
      destruct (reach_unique m root _ _ _ _ _ _ _ Hst Hr Hr') as (_ & -> & ->). intros k1 [= <-]. done.
    + rewrite lookup_insert_ne by done. by exists n.
  - intros p n s Hp Hn. apply insert_inv in Hp as [[-> ->]|[Hne Hp]]; [|by eapply st_empty].
    rewrite Hc. destruct Hk as [Hk|(Hk & k & ? & ? & ? & Hk' & _)]; [|congruence].
    eapply st_empty; [done..|congruence].
  - intros p n s c Hp Hn. rewrite lookup_insert_is_Some'. right.
    apply insert_inv in Hp as [[-> ->]|[Hne Hp]]; [rewrite Hc in Hn|]; by eapply st_child.
  - intros p1 n1 s1 p2 n2 s2 c H1 H2 Hc1 Hc2.
    apply insert_inv in H1 as [[-> ->]|[Hne1 H1]]; apply insert_inv in H2 as [[-> ->]|[Hne2 H2]];
      rewrite ?Hc in Hc1; rewrite ?Hc in Hc2; by eapply (st_once m root Hst).
  - intros p n s Hp. apply insert_inv in Hp as [[-> ->]|[Hne Hp]]; [rewrite Hc|]; by eapply st_root.
  - intros k (path & p & lo & hi & n & Hr & Hp & Hn).
    apply (reach_back m) in Hr; [|done].
    apply insert_inv in Hp as [[-> ->]|[Hne Hp]]; [|by left; exists path, p, lo, hi, n].
    destruct Hk as [Hk|[Hk _]]; [left|by right].
    exists path, p, lo, hi, nd. split; [done|]. split; [done|congruence].
Qed.

(** A node that is not linked. *)
Lemma search_tree_alloc m root l nd :
  search_tree m root → m !! l = None → n_key nd = None → (∀ s, n_child nd s = None) →
  search_tree (<[l := nd]> m) root ∧ (∀ k, has (<[l := nd]> m) root k → has m root k).
Proof.
  intros Hst Hl Hk Hc.
  assert (∀ p s k c, link (<[l := nd]> m) p s k c → link m p s k c) as Hlink.
  { intros p s k c (n & Hp & Hpk & Hpc). apply insert_inv in Hp as [[-> ->]|[Hne Hp]]; [|by exists n]. congruence. }
  split; [constructor|].
  - intros path p lo hi Hr. apply (reach_back m) in Hr; [|done].
    destruct (st_reach m root Hst path p lo hi Hr) as (n & Hp & Hb). exists n.
    split; [|done]. rewrite lookup_insert_ne; [done|congruence].
  - intros p n s Hp Hn. apply insert_inv in Hp as [[-> ->]|[Hne Hp]]; [done|by eapply st_empty].
  - intros p n s c Hp Hn. rewrite lookup_insert_is_Some'. right.
    apply insert_inv in Hp as [[-> ->]|[Hne Hp]]; [congruence|by eapply st_child].
  - intros p1 n1 s1 p2 n2 s2 c H1 H2 Hc1 Hc2.
    apply insert_inv in H1 as [[-> ->]|[Hne1 H1]]; [by rewrite Hc in Hc1|].
    apply insert_inv in H2 as [[-> ->]|[Hne2 H2]]; [by rewrite Hc in Hc2|]. by eapply (st_once m root Hst).
  - intros p n s Hp. apply insert_inv in Hp as [[-> ->]|[Hne Hp]]; [by rewrite Hc|by eapply st_root].
  - intros k (path & p & lo & hi & n & Hr & Hp & Hn).
    apply insert_inv in Hp as [[-> ->]|[Hne Hp]]; [congruence|].
    exists path, p, lo, hi, n. split; [by apply (reach_back m) in Hr|done].
Qed.

(** A new empty child under a node with a key. *)
Lemma search_tree_link m root l nd k s c ndc :
  search_tree m root → m !! l = Some nd → n_key nd = Some k → n_child nd s = None →
  m !! c = Some ndc → n_key ndc = None → c ≠ root →
  (∀ p n s', m !! p = Some n → n_child n s' ≠ Some c) →
  let m' := <[l := set_child s (Some c) nd]> m in
  search_tree m' root ∧ (∀ k, has m' root k → has m root k).
Proof.
  intros Hst Hl Hk Hs Hc Hkc Hcr Hfree m'.
  assert (l ≠ c) as Hlc by congruence.
  assert (∀ s', n_child (set_child s (Some c) nd) s' = if decide (s' = s) then Some c else n_child nd s') as Hch
    by (by destruct s; intros []).
  assert (n_key (set_child s (Some c) nd) = Some k) as Hkey by (by destruct s).
  assert (∀ p s' k' d, link m' p s' k' d → link m p s' k' d ∨ (p = l ∧ s' = s ∧ k' = k ∧ d = c)) as Hlink.
  { intros p s' k' d (n & Hp & Hpk & Hpc). apply insert_inv in Hp as [[<- <-]|[Hne Hp]]; [|left; by exists n].
    rewrite Hch in Hpc. destruct (decide (s' = s)); [right; naive_solver|left; exists nd; naive_solver]. }
  assert (∀ path p lo hi, reach m' root path p lo hi → reach m root path p lo hi ∨ p = c) as Hreach.
  { apply reach_links; [left; constructor|]. intros path p s' k' d lo hi _ IH Hd.
    apply Hlink in Hd as [Hd|(-> & -> & -> & ->)]; [|by right]. left.
    destruct IH as [IH| ->]; [by apply reach_link|].
    destruct Hd as (n & Hp & Hkn & _). congruence. }
  split; [constructor|].
  - intros path p lo hi Hr. apply Hreach in Hr as [Hr| ->].
    + destruct (st_reach m root Hst path p lo hi Hr) as (n & Hp & Hb). unfold m'.
      destruct (decide (l = p)) as [->|Hne]; [|by rewrite lookup_insert_ne by done; exists n].
      rewrite lookup_insert_eq. eexists. split; [done|]. rewrite Hkey. assert (n = nd) as -> by congruence. intros k1 [= <-]. by apply Hb.
    + exists ndc. unfold m'. rewrite lookup_insert_ne by done. split; [done|congruence].
  - intros p n s' Hp Hn. apply insert_inv in Hp as [[<- <-]|[Hne Hp]]; [congruence|by eapply st_empty].
  - intros p n s' d Hp Hn. unfold m'. rewrite lookup_insert_is_Some'. right.
    apply insert_inv in Hp as [[<- <-]|[Hne Hp]]; [|by eapply st_child].
    rewrite Hch in Hn. destruct (decide (s' = s)); [simplify_eq; by eexists|by apply (st_child m root Hst _ _ _ _ Hl Hn)].
  - intros p1 n1 s1 p2 n2 s2 d H1 H2 Hc1 Hc2.
    apply insert_inv in H1 as [[<- <-]|[Hne1 H1]]; apply insert_inv in H2 as [[<- <-]|[Hne2 H2]];
      rewrite ?Hch in Hc1; rewrite ?Hch in Hc2; repeat case_decide; simplify_eq; try done;
      (by destruct (Hfree _ _ _ H1 Hc1)) || (by destruct (Hfree _ _ _ H2 Hc2)) ||
      (by destruct (Hfree _ _ _ Hl Hc2)) || (by destruct (Hfree _ _ _ Hl Hc1)) || by eapply (st_once m root Hst).
  - intros p n s' Hp. apply insert_inv in Hp as [[<- <-]|[Hne Hp]]; [|by eapply st_root].
    rewrite Hch. destruct (decide (s' = s)); [congruence|by eapply st_root].
  - intros k' (path & p & lo & hi & n & Hr & Hp & Hn).
    apply Hreach in Hr as [Hr| ->].
    + apply insert_inv in Hp as [[<- <-]|[Hne Hp]].
      * exists path, l, lo, hi, nd. split; [done|]. split; [done|]. congruence.
      * by exists path, p, lo, hi, n.
    + apply insert_inv in Hp as [[-> _]|[_ Hp]]; [done|]. congruence.
Qed.
