(* ===== verification/TreeThreads.v ===== *)
(** * The thread-safe binary tree under concurrent adds and lookups

    The proof in the rely/guarantee logic of Conc that any interleaving of
    calls of [add] and [lookup] keeps the search-tree invariant, loses no key,
    never deadlocks and ends. *)
From Stdlib Require Import ZArith Lia Ascii String.
From stdpp Require Import base gmap strings list relations well_founded.
From S2P Require Import Prelude Prog CString Posix Conc ThreadTree SearchTree.
Local Open Scope prog_scope.

(** The nodes that are thread [i]'s own: it holds their mutex, or has not yet
    made them known. *)
Definition is_mine (i : nat) (x : loc * node) : Prop :=
  nodeMutex x.2 = Held i ∨ n_creator x.2 = Some i.
#[global] Instance is_mine_dec i x : Decision (is_mine i x).
Proof. unfold is_mine. apply _. Defined.
Definition mine (i : nat) (m : gmap loc node) : gmap loc node := filter (is_mine i) m.

Lemma lookup_mine i m l nd : mine i m !! l = Some nd ↔ m !! l = Some nd ∧ is_mine i (l, nd).
Proof. apply map_lookup_filter_Some. Qed.

Section logic.
Context (errno : Z) (root : loc) (n : nat) (allowed : list string) (legal old : string → Prop).

(** The keys the tree may hold: one of a finite list, with a property. *)
Definition okkey (k : string) : Prop := k ∈ allowed ∧ legal k.

Definition no_oom : nat → nat → bool := λ _ _, false.
Abbreviation M := (tree_machine no_oom).

(** The invariant all threads keep. *)
Record Inv (σ : tstate) : Prop := {
  i_tree : search_tree (nodes σ) root;
  i_root nd : nodes σ !! root = Some nd → initialised nd;
  i_link l nd s c ndc j : nodes σ !! l = Some nd → n_child nd s = Some c →
    nodes σ !! c = Some ndc → n_creator ndc = Some j → nodeMutex nd = Held j;
  i_uninit l nd : nodes σ !! l = Some nd → nodeMutex nd = Uninit → ¬ initialised nd;
  i_fresh i k nd : nodes σ !! (i, k) = Some nd → k < next_of σ i;
  i_owner l nd j : nodes σ !! l = Some nd → nodeMutex nd = Held j → j < n;
  i_keys k : has (nodes σ) root k → okkey k;
  i_old k : old k → has (nodes σ) root k
}.

(** What thread [i] relies on: the heap grows, and its own nodes stay. *)
Definition rely (i : nat) (σ σ' : tstate) : Prop :=
  heap_grows (nodes σ) (nodes σ') ∧ mine i (nodes σ') = mine i (nodes σ).

#[global] Instance rely_preorder i : PreOrder (rely i).
Proof.
  split; [done|]. intros a b c [G1 M1] [G2 M2]. split; [by etrans|congruence].
Qed.

(** A thread waits only for a mutex that is held, and holds none itself. *)
Definition waits (i : nat) (σ : tstate) : Prop :=
  mine i (nodes σ) = ∅ ∧ ∃ l nd j, nodes σ !! l = Some nd ∧ nodeMutex nd = Held j.

Abbreviation tree_rg := (rg M Inv rely waits).
Abbreviation guarantee := (guar Inv rely).

(** Thread [i] is at node [l], reached by [path], and owns the nodes [H]. *)
Record at_node (i : nat) (H : gmap loc node) (path : list loc) (l : loc) (lo hi : option string) (σ : tstate) : Prop := {
  at_mine : mine i (nodes σ) = H;
  at_reach : reach (nodes σ) root path l lo hi;
  at_init : ∃ nd, nodes σ !! l = Some nd ∧ initialised nd
}.

Lemma at_stable i H path l lo hi σ σ' :
  at_node i H path l lo hi σ → rely i σ σ' → at_node i H path l lo hi σ'.
Proof.
  intros [Hm Hr (nd & Hl & Hi)] [G Hm']. split; [congruence|by eapply reach_grows|].
  destruct (G l nd Hl) as (nd' & Hl' & [_ _ GI]). eauto.
Qed.

Lemma link_stable i σ σ' l s k c :
  link (nodes σ) l s k c → rely i σ σ' → link (nodes σ') l s k c.
Proof.
  intros (nd & Hl & Hk & Hc) [G _]. destruct (G l nd Hl) as (nd' & Hl' & [GK GC _]). exists nd'. auto.
Qed.

Lemma mine_stable i H p nd σ σ' :
  mine i (nodes σ) = H → H !! p = Some nd → rely i σ σ' → nodes σ' !! p = Some nd.
Proof. intros <- Hp [_ Hm]. rewrite <- Hm in Hp. by apply lookup_mine in Hp as [? _]. Qed.

(** ** What the updates guarantee *)

Lemma guar_refl i σ : Inv σ → guarantee i σ σ.
Proof. split; [done|]. intros j _. reflexivity. Qed.

Lemma mine_insert_other j m l nd nd' :
  m !! l = Some nd → ¬ is_mine j (l, nd) → ¬ is_mine j (l, nd') → mine j (<[l := nd']> m) = mine j m.
Proof. intros Hl H1 H2. apply map_filter_insert_not'; [done|]. intros y Hy. by simplify_eq. Qed.

(** A change of one node: of its mutex, of its value, or the first key of an
    empty node. *)
Lemma guar_update i σ l nd nd' :
  Inv σ → nodes σ !! l = Some nd → grows nd nd' → (∀ s, n_child nd' s = n_child nd s) →
  (n_key nd' = n_key nd ∨ (n_key nd = None ∧ ∃ k path lo hi, n_key nd' = Some k ∧ okkey k ∧
      reach (nodes σ) root path l lo hi ∧ above lo k ∧ below hi k)) →
  (∀ j, j ≠ i → ¬ is_mine j (l, nd) ∧ ¬ is_mine j (l, nd')) →
  (nodeMutex nd' = Uninit → ¬ initialised nd') →
  (∀ j, nodeMutex nd' = Held j → j < n) →
  (∀ j, n_creator nd' = Some j → n_creator nd = Some j) →
  (∀ s c ndc j, n_child nd s = Some c → nodes σ !! c = Some ndc → n_creator ndc = Some j → nodeMutex nd' = Held j) →
  guarantee i σ (store_node l nd' σ).
Proof.
  intros HI Hl Hg Hc Hk Hm Hu Ho Hcr Hlk.
  assert (heap_grows (nodes σ) (<[l := nd']> (nodes σ))) as HG by by eapply heap_grows_insert.
  destruct (search_tree_update (nodes σ) root l nd nd' (i_tree σ HI) Hl Hc) as [Hst Hhas].
  { destruct Hk as [Hk|(Hk & k & path & lo & hi & Hk' & _ & H3)]; [by left|right].
    split; [done|]. by exists k, path, lo, hi. }
  split; [constructor; cbn|].
  - done.
  - intros nd0 H0. apply insert_inv in H0 as [[-> <-]|[_ H0]]; [|by eapply i_root].
    by eapply Hg, i_root.
  - intros p np s c ndc j Hp Hpc Hcn Hj.
    apply insert_inv in Hp as [[<- <-]|[Hne Hp]]; apply insert_inv in Hcn as [[<- <-]|[Hne' Hcn]];
      rewrite ?Hc in Hpc; try by (eapply (i_link σ HI); eauto). all: eauto.
  - intros p np Hp. apply insert_inv in Hp as [[_ <-]|[_ Hp]]; [done|by eapply i_uninit].
  - intros j k nd0 H0. apply insert_inv in H0 as [[-> _]|[_ H0]]; by eapply (i_fresh σ HI).
  - intros p np j Hp. apply insert_inv in Hp as [[_ <-]|[_ Hp]]; [by apply Ho|by eapply i_owner].
  - intros k Hh. apply Hhas in Hh as [Hh|[Hn Hh]]; [by eapply i_keys|].
    destruct Hk as [Hk|(Hk & k' & path & lo & hi & Hk' & Hall & _)]; congruence.
  - intros k Hk0. eapply has_grows; [done|by apply (i_old σ HI)].
  - intros j Hj. split; [done|]. cbn. destruct (Hm j Hj). by eapply mine_insert_other.
Qed.

Lemma mine_insert_own i m l nd' :
  is_mine i (l, nd') → mine i (<[l := nd']> m) = <[l := nd']> (mine i m).
Proof. apply map_filter_insert_True. Qed.

Lemma mine_insert_left i m l nd' :
  ¬ is_mine i (l, nd') → mine i (<[l := nd']> m) = base.delete l (mine i m).
Proof. intros H. unfold mine. rewrite map_filter_insert_False by done. apply map_filter_delete. Qed.

(** ** Rules for the calls *)

Section rules.
Context {B : Type} (i : nat) (Hin : i < n) (Q : outcome B → tstate → Prop).

Lemma rg_load_key l nd σ (k : option string → prog tree_sig B) :
  nodes σ !! l = Some nd →
  (∀ σ' nd', Inv σ' → rely i σ σ' → nodes σ' !! l = Some nd' → grows nd nd' → tree_rg i (k (n_key nd')) Q σ') →
  tree_rg i (Sys (LoadKey l) k) Q σ.
Proof.
  intros Hl Hk σ' Hr HI. destruct (proj1 Hr l nd Hl) as (nd' & Hl' & G). cbn. unfold with_node. rewrite Hl'.
  split; [by apply guar_refl|by eapply Hk].
Qed.

Lemma rg_load_child l nd s σ (k : option loc → prog tree_sig B) :
  nodes σ !! l = Some nd →
  (∀ σ' nd', Inv σ' → rely i σ σ' → nodes σ' !! l = Some nd' → grows nd nd' → tree_rg i (k (n_child nd' s)) Q σ') →
  tree_rg i (Sys (LoadChild l s) k) Q σ.
Proof.
  intros Hl Hk σ' Hr HI. destruct (proj1 Hr l nd Hl) as (nd' & Hl' & G). cbn. unfold with_node. rewrite Hl'.
  split; [by apply guar_refl|by eapply Hk].
Qed.

(** Reads of an own node. *)
Lemma rg_own_key H p nd path l lo hi σ (k : option string → prog tree_sig B) :
  at_node i H path l lo hi σ → H !! p = Some nd →
  (∀ σ', Inv σ' → at_node i H path l lo hi σ' → tree_rg i (k (n_key nd)) Q σ') →
  tree_rg i (Sys (LoadKey p) k) Q σ.
Proof.
  intros Hat Hp Hk σ' Hr HI. cbn. unfold with_node. rewrite (mine_stable i H p nd σ σ'); [|apply Hat|done..].
  split; [by apply guar_refl|by eapply Hk, at_stable].
Qed.

Lemma rg_own_child H p nd s path l lo hi σ (k : option loc → prog tree_sig B) :
  at_node i H path l lo hi σ → H !! p = Some nd →
  (∀ σ', Inv σ' → at_node i H path l lo hi σ' → tree_rg i (k (n_child nd s)) Q σ') →
  tree_rg i (Sys (LoadChild p s) k) Q σ.
Proof.
  intros Hat Hp Hk σ' Hr HI. cbn. unfold with_node. rewrite (mine_stable i H p nd σ σ'); [|apply Hat|done..].
  split; [by apply guar_refl|by eapply Hk, at_stable].
Qed.

Lemma rg_lock path l lo hi σ (k : Z → prog tree_sig B) :
  at_node i ∅ path l lo hi σ →
  (∀ σ' nd, Inv σ' → nodeMutex nd = Held i → initialised nd → at_node i {[l := nd]} path l lo hi σ' →
     tree_rg i (k 0%Z) Q σ') →
  tree_rg i (Sys (MutexLock l) k) Q σ.
Proof.
  intros Hat Hk σ' Hr HI. apply (at_stable _ _ _ _ _ _ _ σ') in Hat; [|done]. clear Hr.
  destruct Hat as [Hm Hreach (nd & Hl & Hi)]. cbn. unfold with_node. rewrite Hl.
  destruct (nodeMutex nd) eqn:E.
  - by destruct (i_uninit σ' HI l nd Hl).
  - assert (guarantee i σ' (store_node l (set_mutex (Held i) nd) σ')) as Hg.
    { eapply guar_update; try done.
      - by left.
      - intros j Hj. unfold is_mine. cbn. rewrite E, Hi. split; intros [?|?]; congruence.
      - cbn. intros j [= <-]. done.
      - intros s c ndc j Hc Hcn Hj. rewrite (i_link σ' HI l nd s c ndc j) in E; done. }
    split; [done|]. apply (Hk _ (set_mutex (Held i) nd)); [apply Hg|done|done|].
    split; cbn.
    + rewrite mine_insert_own by (by left). by rewrite Hm.
    + eapply reach_grows; [|done]. by apply heap_grows_insert with nd.
    + exists (set_mutex (Held i) nd). split; [apply lookup_insert_eq|done].
  - split; [done|]. by exists l, nd, owner.
Qed.

(** An update of an own node that stays own. *)
Lemma rg_own_store H p nd nd' path l lo hi σ op (k : tree_ans op → prog tree_sig B) (a : tree_ans op) :
  (∀ σ', nodes σ' !! p = Some nd → tree_step no_oom i op σ' = MOk a (store_node p nd' σ')) →
  at_node i H path l lo hi σ → H !! p = Some nd →
  (∀ σ', Inv σ' → at_node i H path l lo hi σ' → nodes σ' !! p = Some nd → guarantee i σ' (store_node p nd' σ')) →
  grows nd nd' → is_mine i (p, nd') →
  (∀ σ', Inv σ' → at_node i (<[p := nd']> H) path l lo hi σ' → tree_rg i (k a) Q σ') →
  tree_rg i (Sys op k) Q σ.
Proof.
  intros Hop Hat Hp Hg HG Hm Hk σ' Hr HI.
  pose proof (mine_stable i H p nd σ σ' (at_mine _ _ _ _ _ _ _ Hat) Hp Hr) as Hp'.
  apply (at_stable _ _ _ _ _ _ _ σ') in Hat; [|done]. clear Hr.
  cbn. rewrite Hop by done. specialize (Hg σ' HI Hat Hp'). split; [done|].
  apply Hk; [apply Hg|]. destruct Hat as [Hm' Hr Hi].
  assert (heap_grows (nodes σ') (<[p := nd']> (nodes σ'))) as HG' by by apply heap_grows_insert with nd.
  split; cbn.
  - by rewrite mine_insert_own, Hm'.
  - by eapply reach_grows.
  - destruct Hi as (nl & Hl & Hnl). destruct (HG' l nl Hl) as (nl' & ? & [_ _ HI']). eauto.
Qed.

(** A store of what the node already holds. *)
Lemma rg_own_same H p nd path l lo hi σ op (k : tree_ans op → prog tree_sig B) (a : tree_ans op) :
  (∀ σ', nodes σ' !! p = Some nd → tree_step no_oom i op σ' = MOk a (store_node p nd σ')) →
  at_node i H path l lo hi σ → H !! p = Some nd →
  (∀ σ', Inv σ' → at_node i H path l lo hi σ' → tree_rg i (k a) Q σ') →
  tree_rg i (Sys op k) Q σ.
Proof.
  intros Hop Hat Hp Hk σ' Hr HI.
  pose proof (mine_stable i H p nd σ σ' (at_mine _ _ _ _ _ _ _ Hat) Hp Hr) as Hp'.
  apply (at_stable _ _ _ _ _ _ _ σ') in Hat; [|done]. cbn. rewrite Hop by done.
  assert (store_node p nd σ' = σ') as ->.
  { unfold store_node, set_nodes. rewrite insert_id by done. by destruct σ'. }
  split; [by apply guar_refl|by apply Hk].
Qed.

Lemma guar_own σ p nd nd' :
  Inv σ → nodes σ !! p = Some nd → n_key nd' = n_key nd → (∀ s, n_child nd' s = n_child nd s) →
  nodeMutex nd' = nodeMutex nd ∨ (∀ s, n_child nd s = None) →
  (n_creator nd' = n_creator nd ∨ n_creator nd' = None) →
  (∀ j, j ≠ i → ¬ is_mine j (p, nd) ∧ ¬ is_mine j (p, nd')) →
  (nodeMutex nd' = Uninit → ¬ initialised nd') → (∀ j, nodeMutex nd' = Held j → j < n) →
  guarantee i σ (store_node p nd' σ).
Proof.
  intros HI Hp Hk Hc Hm Hcr Hmi Hu Ho. eapply guar_update; try done.
  - constructor; [congruence|intros s c; by rewrite Hc|]. unfold initialised. destruct Hcr; congruence.
  - by left.
  - intros j Hj. destruct Hcr; congruence.
  - intros s c ndc j Hs Hcn Hj. destruct Hm as [->|Hm]; [|congruence]. by eapply (i_link σ HI).
Qed.

Lemma rg_calloc H path l lo hi σ (k : option loc → prog tree_sig B) :
  at_node i H path l lo hi σ →
  (∀ σ' c, Inv σ' → H !! c = None → c ≠ root → (∀ p nd s, H !! p = Some nd → n_child nd s ≠ Some c) →
     at_node i (<[c := zeroed i]> H) path l lo hi σ' → tree_rg i (k (Some c)) Q σ') →
  tree_rg i (Sys Calloc k) Q σ.
Proof.
  intros Hat Hk σ' Hr HI. apply (at_stable _ _ _ _ _ _ _ σ') in Hat; [|done]. clear Hr. cbn.
  set (c := (i, next_of σ' i) : loc).
  set (σ1 := TState (<[c := zeroed i]> (nodes σ')) (<[i := S (next_of σ' i)]> (t_next σ'))).
  assert (nodes σ' !! c = None) as Hc.
  { destruct (nodes σ' !! c) as [nd|] eqn:E; [|done]. pose proof (i_fresh σ' HI i (next_of σ' i) nd E). lia. }
  assert (∀ p nd s, nodes σ' !! p = Some nd → n_child nd s ≠ Some c) as Hfree.
  { intros p nd s Hp Hs. destruct (st_child _ _ (i_tree σ' HI) p nd s c Hp Hs) as [nc Hnc]. by rewrite Hc in Hnc. }
  assert (c ≠ root) as Hcr.
  { intros E. destruct (st_reach _ _ (i_tree σ' HI) [] root None None) as (nd & Hnr & _); [constructor|by rewrite <- E, Hc in Hnr]. }
  destruct (search_tree_alloc (nodes σ') root c (zeroed i) (i_tree σ' HI) Hc eq_refl) as [Hst Hhas]; [by intros []|].
  assert (heap_grows (nodes σ') (nodes σ1)) as HG by by apply heap_grows_fresh.
  assert (guarantee i σ' σ1) as Hg.
  { split; [constructor; cbn|].
    - done.
    - intros nd H0. apply insert_inv in H0 as [[? _]|[_ H0]]; [done|by eapply i_root].
    - intros p np s d nd j Hp Hs Hd Hj. apply insert_inv in Hp as [[_ <-]|[_ Hp]]; [by destruct s|].
      apply insert_inv in Hd as [[<- _]|[_ Hd]]; [by destruct (Hfree p np s)|by eapply (i_link σ' HI)].
    - intros p np Hp. apply insert_inv in Hp as [[_ <-]|[_ Hp]]; [done|by eapply i_uninit].
    - intros j k0 nd H0. unfold next_of. cbn. apply insert_inv in H0 as [[H0 _]|[_ H0]].
      + injection H0 as <- <-. rewrite lookup_insert_eq. cbn. lia.
      + pose proof (i_fresh σ' HI j k0 nd H0) as Hlt. destruct (decide (i = j)) as [<-|Hne].
        * rewrite lookup_insert_eq. cbn. lia.
        * by rewrite lookup_insert_ne.
    - intros p np j Hp. apply insert_inv in Hp as [[_ <-]|[_ Hp]]; [done|by eapply i_owner].
    - intros k0 H0. by eapply (i_keys σ' HI), Hhas.
    - intros k0 H0. eapply has_grows; [done|by apply (i_old σ' HI)].
    - intros j Hj. split; [done|]. cbn. apply map_filter_insert_not'; [|intros y Hy; by rewrite Hc in Hy].
      unfold is_mine. cbn. intros [?|?]; congruence. }
  split; [done|]. apply Hk; [apply Hg|..|destruct Hat as [Hm Hreach (nl & Hl & Hi)]; split; cbn].
  - rewrite <- (at_mine _ _ _ _ _ _ _ Hat). apply map_lookup_filter_None. by left.
  - done.
  - intros p nd s Hp. rewrite <- (at_mine _ _ _ _ _ _ _ Hat) in Hp. apply lookup_mine in Hp as [Hp _]. by eapply Hfree.
  - rewrite mine_insert_own by (by right). by rewrite Hm.
  - by eapply reach_grows.
  - destruct (HG l nl Hl) as (nl' & ? & [_ _ HI']). eauto.
Qed.

Lemma rg_link H path l lo hi σ s c nd key (k : unit → prog tree_sig B) :
  at_node i H path l lo hi σ → H !! l = Some nd → nodeMutex nd = Held i → initialised nd →
  n_key nd = Some key → n_child nd s = None →
  H = {[l := nd; c := zeroed i]} → l ≠ c → c ≠ root → (∀ s', n_child nd s' ≠ Some c) →
  (∀ σ', Inv σ' → at_node i {[l := set_child s (Some c) nd; c := zeroed i]} path l lo hi σ' → tree_rg i (k tt) Q σ') →
  tree_rg i (Sys (StoreChild l s (Some c)) k) Q σ.
Proof.
  intros Hat Hl Hheld Hini Hkey Hs HH Hlc Hcr Hfree Hk.
  assert (H !! c = Some (zeroed i)) as Hc by (by rewrite HH, lookup_insert_ne, lookup_singleton_eq).
  eapply (rg_own_store H l nd (set_child s (Some c) nd) path l lo hi σ); [|done..| | | |].
  - intros σ' Hp. cbn. unfold with_node. by rewrite Hp.
  - intros σ' HI Hat' Hl'.
    pose proof (mine_stable i H c _ σ' σ' (at_mine _ _ _ _ _ _ _ Hat') Hc ltac:(reflexivity)) as Hc'.
    assert (∀ p np s', nodes σ' !! p = Some np → n_child np s' ≠ Some c) as Hfree'.
    { intros p np s' Hp Hs'. pose proof (i_link σ' HI p np s' c _ i Hp Hs' Hc' eq_refl) as Hh.
      assert (H !! p = Some np) as HHp.
      { rewrite <- (at_mine _ _ _ _ _ _ _ Hat'). apply lookup_mine. split; [done|by left]. }
      rewrite HH in HHp. apply lookup_insert_Some in HHp as [[<- <-]|[_ HHp]]; [by eapply Hfree|].
      apply lookup_singleton_Some in HHp as [<- <-]. by destruct s'. }
    destruct (search_tree_link (nodes σ') root l nd key s c (zeroed i) (i_tree σ' HI) Hl' Hkey Hs Hc' eq_refl Hcr Hfree')
      as [Hst Hhas].
    assert (∀ s', n_child (set_child s (Some c) nd) s' = if decide (s' = s) then Some c else n_child nd s') as Hch
      by (by destruct s; intros []).
    assert (nodeMutex (set_child s (Some c) nd) = Held i ∧ initialised (set_child s (Some c) nd)) as [Hm1 Hi1]
      by (by destruct s).
    split; [constructor; cbn|].
    + done.
    + intros nd0 H0. apply insert_inv in H0 as [[_ <-]|[_ H0]]; [done|by eapply i_root].
    + intros p np s' d ndd j Hp Hs' Hd Hj.
      assert (nodes σ' !! d = Some ndd ∨ ndd = set_child s (Some c) nd) as [Hd'| ->].
      { apply insert_inv in Hd as [[_ <-]|[_ Hd]]; auto. }
      * apply insert_inv in Hp as [[_ <-]|[_ Hp]]; [|by eapply (i_link σ' HI)].
        rewrite Hch in Hs'. destruct (decide (s' = s)) as [->|Hne].
        -- injection Hs' as <-. rewrite Hc' in Hd'. injection Hd' as <-. by injection Hj as <-.
        -- rewrite Hm1, <- Hheld. by eapply (i_link σ' HI).
      * unfold initialised in Hi1. congruence.
    + intros p np Hp. apply insert_inv in Hp as [[_ <-]|[_ Hp]]; [congruence|by eapply i_uninit].
    + intros j k0 nd0 H0. apply insert_inv in H0 as [[-> _]|[_ H0]]; by eapply (i_fresh σ' HI).
    + intros p np j Hp. apply insert_inv in Hp as [[_ <-]|[_ Hp]]; [|by eapply i_owner].
      rewrite Hm1. by intros [= <-].
    + intros k0 H0. by eapply (i_keys σ' HI), Hhas.
    + intros k0 H0. eapply has_grows; [|by apply (i_old σ' HI)]. apply heap_grows_insert with nd; [done|].
      constructor; [by destruct s| |by destruct s]. intros s' d Hd. rewrite Hch. destruct (decide _); [congruence|done].
    + intros j Hj. split; cbn.
      * apply heap_grows_insert with nd; [done|].
        constructor; [by destruct s| |by destruct s]. intros s' d Hd. rewrite Hch. destruct (decide _); [congruence|done].
      * eapply mine_insert_other; [done|..]; unfold is_mine, initialised in *; cbn; intros [?|?]; congruence.
  - constructor; [by destruct s| |by destruct s]. intros s' d Hd. destruct s, s'; cbn in *; congruence.
  - left. by destruct s.
  - intros σ' HI Hat'. apply Hk; [done|]. by rewrite HH, insert_insert_eq in Hat'.
Qed.

(** The unlock of an own node, which ends the ownership. *)
Lemma rg_release H path l lo hi σ p nd (k : Z → prog tree_sig B) :
  at_node i H path l lo hi σ → H !! p = Some nd → nodeMutex nd = Held i →
  (∀ s c ndc, n_child nd s = Some c → H !! c = Some ndc → n_creator ndc ≠ Some i) →
  (n_creator nd = None ∨ n_creator nd = Some i) →
  (∀ σ', Inv σ' → at_node i (base.delete p H) path l lo hi σ' → nodes σ' !! p = Some (released nd) →
     (∀ s c, n_child nd s = Some c → ∃ ndc, nodes σ' !! c = Some ndc ∧ (c ≠ p → initialised ndc)) →
     tree_rg i (k 0%Z) Q σ') →
  tree_rg i (Sys (MutexUnlock p) k) Q σ.
Proof.
  intros Hat Hp Hheld Hkids Hcr Hk σ' Hr HI.
  pose proof (mine_stable i H p nd σ σ' (at_mine _ _ _ _ _ _ _ Hat) Hp Hr) as Hp'.
  apply (at_stable _ _ _ _ _ _ _ σ') in Hat; [|done]. clear Hr.
  cbn. unfold with_node. rewrite Hp'. rewrite decide_True by done.
  assert (∀ s c ndc, n_child nd s = Some c → nodes σ' !! c = Some ndc → initialised ndc) as Hkid.
  { intros s c ndc Hs Hc. destruct (n_creator ndc) as [j|] eqn:Ej; [|done].
    pose proof (i_link σ' HI p nd s c ndc j Hp' Hs Hc Ej) as Hh.
    destruct (Hkids s c ndc Hs); [|congruence].
    rewrite <- (at_mine _ _ _ _ _ _ _ Hat). apply lookup_mine. split; [done|right; cbn; congruence]. }
  assert (guarantee i σ' (store_node p (released nd) σ')) as Hg.
  { eapply guar_update; try done.
    - by left.
    - intros j Hj. unfold is_mine. cbn. split; intros [?|?]; destruct Hcr; congruence.
    - intros s c ndc j Hs Hc Hj. pose proof (Hkid s c ndc Hs Hc) as Hi. unfold initialised in Hi. congruence. }
  split; [done|]. apply Hk; [apply Hg|..].
  - assert (heap_grows (nodes σ') (<[p := released nd]> (nodes σ'))) as HG by by apply heap_grows_insert with nd.
    destruct Hat as [Hm Hreach (nl & Hl & Hi)]. split; cbn.
    + rewrite mine_insert_left, Hm; [done|]. unfold is_mine. cbn. by intros [?|?].
    + by eapply reach_grows.
    + destruct (HG l nl Hl) as (nl' & ? & [_ _ HI']). eauto.
  - apply lookup_insert_eq.
  - intros s c Hs. destruct (st_child _ _ (i_tree σ' HI) p nd s c Hp' Hs) as [ndc Hc].
    destruct (decide (p = c)) as [<-|Hne]; [exists (released nd); cbn; by rewrite lookup_insert_eq|].
    exists ndc. cbn. rewrite lookup_insert_ne by done. split; [done|]. intros _. by eapply Hkid.
Qed.

End rules.

(** ** The operations *)

Ltac call := unfold sys; cbn [bind].
Ltac seq := apply rg_bind; [exact rely_preorder|].
Ltac no_error := change (negb (0 =? 0)%Z) with false; cbv iota.

(** A path is shorter than the list of keys. *)
Lemma path_short key path l lo hi σ :
  okkey key → Inv σ → reach (nodes σ) root path l lo hi → above lo key → below hi key → length path < length allowed.
Proof.
  intros Hkey HI Hr Hlo Hhi. destruct (path_keys _ _ _ _ _ _ (i_tree σ HI) Hr) as (ks & Hlen & Hnd & Hks & Hout).
  assert (key :: ks ⊆+ allowed) as Hsub.
  { apply NoDup_submseteq; [constructor; [by apply Hout|done]|].
    intros k [->|Hk]%elem_of_cons; [apply Hkey|by eapply (i_keys σ HI), Hks]. }
  apply submseteq_length in Hsub. cbn in Hsub. lia.
Qed.

Section adding.
Context (i : nat) (Hin : i < n) (key : string) (Hkey : okkey key).

(** A new child is initialised while its parent is locked. *)
Lemma rg_initialize path l lo hi σ c nd Q :
  at_node i {[l := nd; c := zeroed i]} path l lo hi σ → l ≠ c →
  (∀ σ', Inv σ' → at_node i {[l := nd]} path l lo hi σ' → Q (Returned 0%Z) σ') →
  tree_rg i (initialize errno c) Q σ.
Proof.
  intros Hat Hlc HQ. unfold initialize. call.
  assert (∀ x : node, ({[l := nd; c := x]} : gmap loc node) !! c = Some x) as Hc.
  { intros x. by rewrite lookup_insert_ne, lookup_singleton_eq. }
  assert (∀ x y : node, <[c := y]> ({[l := nd; c := x]} : gmap loc node) = {[l := nd; c := y]}) as Hset.
  { intros x y. rewrite insert_insert_ne by done. f_equal. apply insert_singleton_eq. }
  assert (∀ j, j ≠ i → ∀ mu, mu ≠ Held j → ¬ is_mine j (c, set_mutex mu (zeroed i))) as Hother.
  { intros j Hj mu Hmu. unfold is_mine. cbn. intros [?|?]; congruence. }
  eapply (rg_own_store i _ _ c (zeroed i) (set_mutex Unlocked (zeroed i))); [|done|apply Hc|..].
  { intros σ' Hp. cbn. unfold with_node. by rewrite Hp. }
  { intros σ' HI _ Hp. eapply guar_own; try done; [right; by intros []|by left|].
    intros j Hj. by split; [apply (Hother j Hj Uninit)|apply (Hother j Hj Unlocked)]. }
  { constructor; [done|by intros []|done]. }
  { by right. }
  rewrite Hset. clear σ Hat. intros σ _ Hat. cbn [bind]. no_error. call.
  eapply (rg_own_store i _ _ c (set_mutex Unlocked (zeroed i)) (set_mutex (Held i) (zeroed i))); [|done|apply Hc|..].
  { intros σ' Hp. cbn. unfold with_node. by rewrite Hp. }
  { intros σ' HI _ Hp. eapply guar_own; try done; [right; by intros []|by left| |by intros j [= <-]].
    intros j Hj. split; [by apply (Hother j Hj Unlocked)|apply (Hother j Hj (Held i)); congruence]. }
  { constructor; [done|by intros []|done]. }
  { by left. }
  rewrite Hset. clear σ Hat. intros σ _ Hat. cbn [bind]. no_error.
  do 4 (call; eapply (rg_own_same i _ _ c (set_mutex (Held i) (zeroed i)));
    [intros ? Hp; cbn; unfold with_node; by rewrite Hp|done|apply Hc|]; clear σ Hat; intros σ _ Hat; cbn [bind]).
  call. eapply rg_release; [done|apply Hc|done|by intros []|by right|].
  clear σ Hat. intros σ _ Hat _ _. cbn [bind]. no_error. intros σ' Hr HI. apply HQ; [done|].
  eapply at_stable; [|done]. rewrite delete_insert_ne in Hat by done.
  by rewrite delete_singleton_eq, insert_empty in Hat.
Qed.

Definition added (r : outcome Z) (l : loc) (σ : tstate) : Prop :=
  mine i (nodes σ) = ∅ ∧ has (nodes σ) root key ∧
  (r = Returned 0%Z ∨ r = Returned (-1)%Z ∧ ∃ nd, nodes σ !! l = Some nd ∧ n_key nd = Some key).

Lemma added_stable r l σ σ' : added r l σ → rely i σ σ' → added r l σ'.
Proof.
  intros (Hm & Hh & Hr) [G Hm']. split_and!; [congruence|by eapply has_grows|].
  destruct Hr as [?|(? & nd & Hl & Hk)]; [by left|right]. split; [done|].
  destruct (G l nd Hl) as (nd' & ? & [GK _ _]). eauto.
Qed.

Lemma add_under_ok (add : option loc → prog tree_sig Z) path l lo hi σ nd kl s :
  at_node i {[l := nd]} path l lo hi σ → nodeMutex nd = Held i → initialised nd → n_key nd = Some kl →
  (∀ σ' c, Inv σ' → at_node i ∅ (l :: path) c (lo_of s kl lo) (hi_of s kl hi) σ' →
     tree_rg i (add (Some c)) (λ r σ, added r c σ) σ') →
  tree_rg i (add_under errno add l s) (λ r σ, added r l σ) σ.
Proof.
  intros Hat Hheld Hini Hkl Hrec. unfold add_under. call.
  eapply rg_own_child; [done|apply lookup_singleton_eq|]. clear σ Hat. intros σ _ Hat. cbn [bind].
  seq. eapply (rg_mono _ _ _ _ i _ (λ r σ, r = Returned true ∧ ∃ nd' c, at_node i {[l := nd']} path l lo hi σ ∧
    nodeMutex nd' = Held i ∧ initialised nd' ∧ n_key nd' = Some kl ∧ n_child nd' s = Some c)).
  - destruct (n_child nd s) as [c|] eqn:Hc.
    { intros σ' Hr _. split; [done|]. exists nd, c. split; [by eapply at_stable|done]. }
    call. eapply rg_calloc; [done|done|]. clear σ Hat. intros σ c _ Hnew Hcr Hfree Hat. cbn [bind]. call.
    assert (l ≠ c) as Hlc by (intros ->; by rewrite lookup_singleton_eq in Hnew).
    assert (<[c := zeroed i]> ({[l := nd]} : gmap loc node) = {[l := nd; c := zeroed i]}) as E.
    { rewrite <- (insert_empty l), <- (insert_empty c). by rewrite insert_insert_ne. }
    rewrite E in Hat.
    eapply rg_link; [done|done|apply lookup_insert_eq|done..| |].
    { intros s'. eapply Hfree, lookup_singleton_eq. }
    clear σ Hat. intros σ _ Hat. set (nd' := set_child s (Some c) nd) in *.
    assert (n_child nd' s = Some c ∧ nodeMutex nd' = Held i ∧ initialised nd' ∧ n_key nd' = Some kl)
      as (Hc' & Hm' & Hi' & Hk') by (by destruct s).
    do 2 (cbn [bind]; call; eapply rg_own_child; [done|apply lookup_insert_eq|];
      clear σ Hat; intros σ _ Hat; cbn [bind]; rewrite Hc').
    seq. eapply rg_initialize; [done|done|]. intros σ' _ Hat'.
    intros σ2 Hr _. split; [done|]. exists nd', c. split; [by eapply at_stable|done].
  - clear σ Hat nd Hheld Hini Hkl. intros r σ _ (-> & nd & c & Hat & Hheld & Hini & Hkl & Hc).
    cbn [negb]. cbv iota. call.
    eapply rg_release; [done|apply lookup_singleton_eq|done| |by left|].
    { intros s' c' ndc Hc' Hn. apply lookup_singleton_Some in Hn as [<- <-]. unfold initialised in Hini. congruence. }
    clear σ Hat. intros σ _ Hat Hl Hkid. rewrite delete_singleton_eq in Hat. cbn [bind]. no_error. call.
    eapply rg_load_child; [done|]. intros σ' nd' HI Hr Hl' [_ GC _].
    rewrite (GC s c) by (by destruct s). cbn [bind].
    assert (at_node i ∅ (l :: path) c (lo_of s kl lo) (hi_of s kl hi) σ) as Hat1.
    { split; [apply Hat| |].
      - apply reach_link; [apply Hat|]. exists (released nd). split; [done|]. by destruct s.
      - destruct (Hkid s c Hc) as (ndc & Hcn & Hci). destruct (decide (c = l)) as [->|Hne]; [|by eauto].
        by exists (released nd). }
    seq. eapply rg_mono; [apply Hrec; [done|by eapply at_stable]|].
    intros r σ2 _ (Hm & Hh & Hres). destruct Hres as [->|(-> & _)];
      (intros σ3 Hr3 _; eapply added_stable; [|done]; split_and!; auto).
Qed.

Lemma add_ok fuel value : ∀ path l lo hi σ,
  Inv σ → at_node i ∅ path l lo hi σ → above lo key → below hi key → length allowed ≤ length path + fuel →
  tree_rg i (add errno fuel (Some l) (Some key) value) (λ r σ, added r l σ) σ.
Proof.
  induction fuel as [|fuel IH]; intros path l lo hi σ HI Hat Hlo Hhi Hf.
  { pose proof (path_short key path l lo hi σ Hkey HI (at_reach _ _ _ _ _ _ _ Hat) Hlo Hhi). lia. }
  cbn [add]. call. eapply rg_lock; [done|done|]. clear σ HI Hat. intros σ nd _ Hheld Hini Hat. no_error. call.
  eapply rg_own_key; [done|apply lookup_singleton_eq|]. clear σ Hat. intros σ _ Hat. cbn [bind].
  destruct (n_key nd) as [kl|] eqn:Hkl.
  - call. eapply rg_own_key; [done|apply lookup_singleton_eq|]. clear σ Hat. intros σ _ Hat. cbn [bind].
    rewrite Hkl. cbn zeta.
    destruct (strcmp key kl <? 0)%Z eqn:E1; [|destruct (0 <? strcmp key kl)%Z eqn:E2]; zbool.
    + eapply add_under_ok; [done..|]. intros σ' c HI Hat'. eapply IH; [done|done|done|done|]. cbn. lia.
    + eapply add_under_ok; [done..|]. intros σ' c HI Hat'. eapply IH; [done|done| |done|].
      * cbn. rewrite strcmp_opp. lia.
      * cbn. lia.
    + assert (key = kl) as <- by (apply strcmp_eq; lia). call.
      eapply rg_release; [done|apply lookup_singleton_eq|done| |by left|].
      { intros s' c' ndc Hc' Hn. apply lookup_singleton_Some in Hn as [<- <-]. unfold initialised in Hini. congruence. }
      clear σ Hat. intros σ _ Hat Hl _. rewrite delete_singleton_eq in Hat. no_error.
      unfold printf, put. cbn [bind]. intros σ' Hr HI. split; [by apply guar_refl|]. cbn.
      intros σ2 Hr2 _. apply added_stable with σ; [|by etrans]. split_and!; [apply Hat| |right].
      * exists path, l, lo, hi, (released nd). split; [apply Hat|done].
      * split; [done|]. by exists (released nd).
  - call. eapply (rg_own_store i _ _ l nd (set_key (Some key) nd)); [|done|apply lookup_singleton_eq|..].
    { intros σ' Hp. cbn. unfold with_node. by rewrite Hp. }
    { intros σ' HI Hat' Hp. eapply guar_update; try done.
      - constructor; [cbn; congruence|done|done].
      - right. split; [done|]. exists key, path, lo, hi. split_and!; try done. apply Hat'.
      - intros j Hj. unfold is_mine, initialised in *. cbn. split; intros [?|?]; congruence.
      - cbn. congruence.
      - cbn. intros j ?. assert (j = i) as -> by congruence. done.
      - intros s c ndc j Hc. by rewrite (st_empty _ _ (i_tree σ' HI) l nd s Hp Hkl) in Hc. }
    { constructor; [cbn; congruence|done|done]. }
    { by left. }
    rewrite insert_singleton_eq. clear σ Hat. intros σ _ Hat. cbn [bind]. call.
    eapply (rg_own_store i _ _ l (set_key (Some key) nd) (set_value value (set_key (Some key) nd)));
      [|done|apply lookup_singleton_eq|..].
    { intros σ' Hp. cbn. unfold with_node. by rewrite Hp. }
    { intros σ' HI Hat' Hp. eapply guar_own; try done; [by left|by left|..].
      - intros j Hj. unfold is_mine, initialised in *. cbn. split; intros [?|?]; congruence.
      - cbn. congruence.
      - cbn. intros j ?. assert (j = i) as -> by congruence. done. }
    { done. }
    { by left. }
    rewrite insert_singleton_eq. clear σ Hat. intros σ _ Hat. cbn [bind].
    unfold unlock_and_return. call.
    eapply rg_release; [done|apply lookup_singleton_eq|done| |by left|].
    { intros s' c' ndc Hc' Hn. apply lookup_singleton_Some in Hn as [<- <-]. unfold initialised in Hini. cbn. congruence. }
    clear σ Hat. intros σ _ Hat Hl _. rewrite delete_singleton_eq in Hat. no_error.
    intros σ2 Hr2 _. eapply added_stable; [|done]. split_and!; [apply Hat| |by left].
    eexists path, l, lo, hi, _. split; [apply Hat|done].
Qed.

End adding.

Section looking.
Context (i : nat) (key : string).

Definition looked (value : Z) (r : outcome (bool * Z)) (σ : tstate) : Prop :=
  mine i (nodes σ) = ∅ ∧ ∃ b, r = Returned (b, value) ∧ (b = true → has (nodes σ) root key) ∧ (old key → b = true).

Lemma looked_stable value r σ σ' : looked value r σ → rely i σ σ' → looked value r σ'.
Proof.
  intros (Hm & b & Hr & Ht & Ho) [G Hm']. split; [congruence|]. exists b. split_and!; [done| |done].
  intros Hb. eapply has_grows; [done|auto].
Qed.

(** Where [lookup] is: at a node below which a key of the old tree is found,
    or past the end of the tree. *)
Definition looking (path : list loc) (c : option loc) (σ : tstate) : Prop :=
  mine i (nodes σ) = ∅ ∧ (∀ l, c = Some l → ∃ lo hi, reach (nodes σ) root path l lo hi) ∧
  (old key → ∃ l, c = Some l ∧ search (nodes σ) key l).

Lemma looking_stable path c σ σ' : looking path c σ → rely i σ σ' → looking path c σ'.
Proof.
  intros (Hm & Hr & Hs) [G Hm']. split_and!; [congruence| |].
  - intros l ->. destruct (Hr l eq_refl) as (lo & hi & H). exists lo, hi. by eapply reach_grows.
  - intros Ho. destruct (Hs Ho) as (l & -> & H). exists l. split; [done|]. by eapply search_grows.
Qed.

Lemma looking_short path l σ : Inv σ → looking path (Some l) σ → length path ≤ length allowed.
Proof.
  intros HI (_ & Hr & _). destruct (Hr l eq_refl) as (lo & hi & H).
  destruct (path_keys _ _ _ _ _ _ (i_tree σ HI) H) as (ks & Hlen & Hnd & Hin' & _).
  assert (ks ⊆+ allowed) as Hsub%submseteq_length; [|lia].
  apply NoDup_submseteq; [done|]. intros k Hk. by eapply (i_keys σ HI), Hin'.
Qed.

Lemma lookup_ok fuel value : ∀ path c σ,
  Inv σ → looking path c σ → length path ≤ length allowed + 1 → length allowed + 2 ≤ length path + fuel →
  tree_rg i (lookup fuel c (Some key) value) (looked value) σ.
Proof.
  induction fuel as [|fuel IH]; intros path c σ HI Hlk Hle Hf; [lia|].
  cbn [lookup]. destruct c as [l|].
  2:{ intros σ' Hr _. eapply looked_stable; [|done]. destruct Hlk as (Hm & _ & Ho). split; [done|].
      exists false. split_and!; [done|done|]. intros H. by destruct (Ho H) as (? & ? & _). }
  assert (∃ nd, nodes σ !! l = Some nd) as [nd Hl].
  { destruct Hlk as (_ & Hr & _). destruct (Hr l eq_refl) as (lo & hi & H).
    destruct (st_reach _ _ (i_tree σ HI) path l lo hi H) as (nd & ? & _). by exists nd. }
  call. eapply rg_load_key; [done|]. clear HI. intros σ1 nd1 HI Hr Hl1 _. clear nd Hl. rename nd1 into nd, Hl1 into Hl.
  apply (looking_stable path _ _ σ1) in Hlk; [|done]. clear σ Hr. cbn [bind].
  destruct (n_key nd) as [kl|] eqn:Hkl.
  2:{ intros σ' Hr _. eapply looked_stable; [|done]. destruct Hlk as (Hm & _ & Ho). split; [done|].
      exists false. split_and!; [done|done|]. intros H. destruct (Ho H) as (l' & [= <-] & Hs).
      inversion Hs; simplify_eq. }
  call. eapply rg_load_key; [done|]. clear HI. intros σ2 nd2 HI Hr Hl2 [GK _ _].
  apply (looking_stable path _ _ σ2) in Hlk; [|done]. clear σ1 Hr Hl. cbn [bind].
  pose proof (GK kl Hkl) as Hk2. rewrite Hk2. clear nd Hkl GK. cbn zeta.
  assert (length path < length allowed) as Hlt.
  { destruct Hlk as (_ & Hr & _). destruct (Hr l eq_refl) as (lo & hi & H).
    destruct (st_reach _ _ (i_tree σ2 HI) path l lo hi H) as (nd & Hl & Hb). simplify_eq.
    destruct (Hb kl Hk2). eapply (path_short kl); [|done..].
    eapply (i_keys σ2 HI). by exists path, l, lo, hi, nd2. }
  assert (∀ s, (match s with L => 0 < strcmp kl key | R => strcmp kl key < 0 end)%Z →
    tree_rg i (c <- sys (LoadChild l s);; lookup fuel c (Some key) value) (looked value) σ2) as Hdown.
  { intros s Hs. call. eapply rg_load_child; [done|]. clear HI. intros σ3 nd3 HI Hr Hl3 [GK _ _].
    apply (looking_stable path _ _ σ3) in Hlk; [|done]. clear Hr Hl2.
    apply (IH (l :: path)); [done| |cbn; lia..]. destruct Hlk as (Hm & Hr & Ho). split_and!; [done| |].
    - intros c Hc. destruct (Hr l eq_refl) as (lo & hi & H). do 2 eexists. apply reach_link; [done|].
      exists nd3. split; [done|]. split; [by apply GK|done].
    - intros H. destruct (Ho H) as (l' & [= <-] & Hsr). specialize (GK kl Hk2).
      inversion Hsr as [? ? ? Hk|? ? ? c ? Hk Hcmp Hc Hsc|? ? ? c ? Hk Hcmp Hc Hsc]; simplify_eq.
      + destruct s; by rewrite (proj2 (strcmp_eq key key)) in Hs.
      + destruct s; [by exists c|lia].
      + destruct s; [lia|by exists c]. }
  destruct (0 <? strcmp kl key)%Z eqn:E1; [|destruct (strcmp kl key <? 0)%Z eqn:E2]; zbool.
  - by apply (Hdown L).
  - by apply (Hdown R).
  - assert (kl = key) as -> by (apply strcmp_eq; lia).
    intros σ' Hr' _. eapply looked_stable; [|done]. destruct Hlk as (Hm & Hr & Ho). split; [done|].
    exists true. split_and!; [done| |done]. intros _. destruct (Hr l eq_refl) as (lo & hi & H).
    by exists path, l, lo, hi, nd2.
Qed.

End looking.
End logic.

(** ** Any number of threads *)

Inductive request :=
| ReqAdd (key : string) (value : Z)
| ReqLookup (key : string) (value : Z).

(** One thread: a call of [add] or of [lookup] on the shared tree. *)
Definition thread (errno : Z) (fuel : nat) (root : loc) (r : request) : prog tree_sig (Z + bool * Z) :=
  match r with
  | ReqAdd k v => z <- add errno fuel (Some root) (Some k) v;; Ret (inl z)
  | ReqLookup k v => b <- lookup fuel (Some root) (Some k) v;; Ret (inr b)
  end.

(** No mutex is held, every node's is initialised, and the allocator's numbers
    are in use below its counters only. *)
Record quiet (σ : tstate) : Prop := {
  q_free l nd : nodes σ !! l = Some nd → nodeMutex nd = Unlocked ∧ initialised nd;
  q_fresh i k nd : nodes σ !! (i, k) = Some nd → k < next_of σ i
}.

(** What a thread has achieved when it ends. *)
Definition outcome_ok (σ0 : tstate) (root : loc) (r : request) (o : outcome (Z + bool * Z)) (σ : tstate) : Prop :=
  match r with
  | ReqAdd k _ => ∃ z, o = Returned (inl z) ∧ has (nodes σ) root k ∧
      (z = 0%Z ∨ z = (-1)%Z ∧ ∃ nd, nodes σ !! root = Some nd ∧ n_key nd = Some k)
  | ReqLookup k v => ∃ b, o = Returned (inr (b, v)) ∧
      (b = true → has (nodes σ) root k) ∧ (has (nodes σ0) root k → b = true)
  end.

Section threads.
Context (errno : Z) (σ0 : tstate) (root : loc) (reqs : list request) (fuel : nat).
Context (Htree : search_tree (nodes σ0) root) (Hquiet : quiet σ0) (Hfuel : size (nodes σ0) + length reqs + 2 ≤ fuel).

Definition req_key (r : request) : option string := match r with ReqAdd k _ => Some k | _ => None end.
Definition all_keys : list string := omap (n_key ∘ snd) (map_to_list (nodes σ0)) ++ omap req_key reqs.
Definition legal_key (k : string) : Prop := has (nodes σ0) root k ∨ ∃ v, ReqAdd k v ∈ reqs.

Abbreviation TInv := (Inv root (length reqs) all_keys legal_key (has (nodes σ0) root)).
Abbreviation TGood := (good (tree_machine no_oom) TInv rely waits).

Lemma length_all_keys : length all_keys + 2 ≤ fuel.
Proof.
  unfold all_keys. rewrite length_app.
  pose proof (length_omap_le (n_key ∘ snd) (map_to_list (nodes σ0))) as H1.
  pose proof (length_omap_le req_key reqs). rewrite length_map_to_list in H1. lia.
Qed.

Lemma init_inv : TInv σ0.
Proof.
  constructor; try done.
  - intros nd H. by destruct (q_free σ0 Hquiet _ _ H).
  - intros l nd s c ndc j _ _ H Hj. destruct (q_free σ0 Hquiet _ _ H) as [_ Hi]. unfold initialised in Hi. congruence.
  - intros l nd H Hu. destruct (q_free σ0 Hquiet _ _ H). congruence.
  - apply (q_fresh σ0 Hquiet).
  - intros l nd j H Hu. destruct (q_free σ0 Hquiet _ _ H). congruence.
  - intros k Hk. split; [|by left]. destruct Hk as (path & l & lo & hi & nd & _ & Hl & Hk).
    apply elem_of_app. left. apply list_elem_of_omap. exists (l, nd). split; [by apply elem_of_map_to_list|done].
Qed.

Lemma init_mine i : mine i (nodes σ0) = ∅.
Proof.
  apply map_empty. intros l. apply map_lookup_filter_None. right. intros nd H [Hh|Hh]; cbn in Hh; destruct (q_free σ0 Hquiet _ _ H) as [? Hi];
    unfold initialised in Hi; congruence.
Qed.

Lemma init_root : ∃ nd, nodes σ0 !! root = Some nd ∧ initialised nd.
Proof.
  destruct (st_reach _ _ Htree [] root None None) as (nd & Hl & _); [constructor|].
  exists nd. split; [done|]. by destruct (q_free σ0 Hquiet _ _ Hl).
Qed.

Definition thread_post (i : nat) (o : outcome (Z + bool * Z)) (σ : tstate) : Prop :=
  mine i (nodes σ) = ∅ ∧ ∃ r, reqs !! i = Some r ∧ outcome_ok σ0 root r o σ.

Lemma threads_good : TGood thread_post (length reqs) (σ0, thread errno fuel root <$> reqs).
Proof.
  split; [apply init_inv|]. split; [cbn; by rewrite length_fmap|]. cbn.
  intros i p Hp. rewrite list_lookup_fmap in Hp. destruct (reqs !! i) as [r|] eqn:Hr; [|done].
  injection Hp as <-. pose proof (lookup_lt_Some _ _ _ Hr) as Hi. pose proof length_all_keys as Hlen.
  destruct r as [k v|k v]; cbn [thread].
  - apply rg_bind; [apply rely_preorder|]. eapply rg_mono.
    { apply (add_ok errno root (length reqs) all_keys legal_key (has (nodes σ0) root) i Hi k) with (path := []) (lo := None) (hi := None).
      - split; [|right; exists v; by eapply list_elem_of_lookup_2].
        apply elem_of_app. right. apply list_elem_of_omap. exists (ReqAdd k v).
        split; [by eapply list_elem_of_lookup_2|done].
      - apply init_inv.
      - split; [apply init_mine|constructor|apply init_root].
      - done.
      - done.
      - cbn. lia. }
    intros o σ _ Ha. assert (∃ z, o = Returned z) as [z ->] by (destruct Ha as (_ & _ & [->|[-> _]]); eauto).
    intros σ' Hrel _. destruct (added_stable _ _ _ _ _ _ _ Ha Hrel) as (Hm & Hh & Hz).
    split; [done|]. exists (ReqAdd k v). split; [done|]. exists z. split; [done|]. split; [done|].
    destruct Hz as [[= ->]|[[= ->] ?]]; auto.
  - apply rg_bind; [apply rely_preorder|]. eapply rg_mono.
    { apply (lookup_ok root (length reqs) all_keys legal_key (has (nodes σ0) root) i k) with (path := []).
      - apply init_inv.
      - split_and!; [apply init_mine|intros l [= <-]; exists None, None; constructor|].
        intros Hh. exists root. split; [done|by apply has_search].
      - cbn. lia.
      - cbn. lia. }
    intros o σ _ Ha. assert (∃ b, o = Returned b) as [b ->] by (destruct Ha as (_ & b & -> & _); eauto).
    intros σ' Hrel _. destruct (looked_stable _ _ _ _ _ _ _ _ Ha Hrel) as (Hm & b' & [= ->] & Ht & Ho).
    split; [done|]. exists (ReqLookup k v). split; [done|]. by exists b'.
Qed.

Lemma threads_wait c i : TGood thread_post (length reqs) c → waits i c.1 →
  ∃ j p, c.2 !! j = Some p ∧ finished p = false ∧ ¬ waits j c.1.
Proof.
  intros (HI & Hlen & Hg) (_ & l & nd & j & Hl & Hh).
  assert (mine j (nodes c.1) !! l = Some nd) as Hm by (apply lookup_mine; split; [done|by left]).
  destruct (lookup_lt_is_Some_2 c.2 j) as [p Hp].
  { rewrite Hlen. by eapply i_owner. }
  assert (mine j (nodes c.1) ≠ ∅) as Hne by (intros E; by rewrite E in Hm).
  exists j, p. split; [done|]. split; [|by intros [? _]].
  specialize (Hg j p Hp). destruct p as [a|h|o k|op k]; [| |done..].
  - by destruct (Hg c.1 ltac:(reflexivity) HI).
  - by destruct (Hg c.1 ltac:(reflexivity) HI).
Qed.

End threads.

(** C1: thread_safe_tree.c under any interleaving of calls of [add] and [lookup]
    (no allocation fails, no thread deletes).  Whatever the schedule, at every
    moment the tree is a search tree, nobody is about to access a missing node
    or misuse a mutex, every key that was there is there, and every new key is
    one that a call adds.  A call of [add] that has returned 0 has its key in
    the tree; one that has returned -1 found its key at the root.  A call of
    [lookup] that has returned true has seen its key, one that has returned
    false looked for a key that was not there when the threads started, and
    the caller's value is unchanged in both cases.  There is no deadlock: the
    threads can always go on until all have returned, and every execution is
    finite. *)
Theorem concurrent_tree_correct (errno : Z) (σ0 : tstate) (root : loc) (reqs : list request) (fuel : nat) :
  search_tree (nodes σ0) root → quiet σ0 → size (nodes σ0) + length reqs + 2 ≤ fuel →
  let M := tree_machine no_oom in
  ∀ c, rtc (cstep M) (σ0, thread errno fuel root <$> reqs) c →
  search_tree (nodes c.1) root ∧
  (∀ i, ¬ faulty M i c) ∧
  (∀ k, has (nodes σ0) root k → has (nodes c.1) root k) ∧
  (∀ k, has (nodes c.1) root k → has (nodes σ0) root k ∨ ∃ v, ReqAdd k v ∈ reqs) ∧
  (∀ i r a, reqs !! i = Some r → c.2 !! i = Some (Ret a) → outcome_ok σ0 root r (Returned a) c.1) ∧
  (∀ i h, c.2 !! i ≠ Some (Stop h)) ∧
  (Forall (λ p, finished p = true) c.2 ∨ ∃ c', cstep M c c') ∧
  (∃ c', rtc (cstep M) c c' ∧ Forall (λ p, finished p = true) c'.2) ∧
  Acc (flip (cstep M)) c.
Proof.
  intros Htree Hquiet Hfuel M c Hs.
  destruct (rg_sound _ _ _ _ _ _ _ _ (threads_good errno σ0 root reqs fuel Htree Hquiet Hfuel) Hs)
    as (Hgood & Hfault & Hret & Hstop).
  pose proof (proj1 Hgood) as HI.
  pose proof (rg_completes _ _ _ _ _ _ c (threads_wait σ0 root reqs) Hgood) as Hend.
  split_and!.
  - apply HI.
  - done.
  - intros k. by apply (i_old _ _ _ _ _ _ HI).
  - intros k Hk. by destruct (i_keys _ _ _ _ _ _ HI k Hk).
  - intros i r a Hr Ha. destruct (Hret i a Ha) as (_ & r' & Hr' & H). by simplify_eq.
  - intros i h Hh. destruct (Hstop i h Hh) as (_ & r & _ & H). by destruct r; destruct H as (? & ? & _).
  - destruct Hend as (c' & Hc' & Hf). inversion Hc'; subst; [by left|right; eauto].
  - done.
  - apply cstep_terminates.
Qed.

(** ** An execution *)

Definition start_root : loc := (0, 0).
(** The tree after [initialize(root)]. *)
Definition start : tstate :=
  TState {[start_root := Node None 0 None None Unlocked None]} {[0 := 1]}.

Lemma start_node l nd : nodes start !! l = Some nd → l = start_root ∧ nd = Node None 0 None None Unlocked None.
Proof. intros H. cbn in H. by apply lookup_singleton_Some in H as [<- <-]. Qed.

Lemma start_tree : search_tree (nodes start) start_root.
Proof.
  constructor.
  - intros path l lo hi Hr. exists (Node None 0 None None Unlocked None).
    destruct (reach_inv _ _ _ _ _ _ Hr) as [(_ & -> & _)|H]; [done|].
    destruct H as (p & ? & s & k & ? & ? & _ & _ & (nd & Hl & Hk & _) & _). by apply start_node in Hl as [_ ->].
  - intros l nd s Hl _. apply start_node in Hl as [_ ->]. by destruct s.
  - intros l nd s c Hl Hc. apply start_node in Hl as [_ ->]. by destruct s.
  - intros l1 nd1 s1 l2 nd2 s2 c Hl _ Hc _. apply start_node in Hl as [_ ->]. by destruct s1.
  - intros l nd s Hl Hc. apply start_node in Hl as [_ ->]. by destruct s.
Qed.

Lemma start_quiet : quiet start.
Proof.
  constructor.
  - intros l nd Hl. by apply start_node in Hl as [_ ->].
  - intros i k nd Hl. apply start_node in Hl as [[= -> ->] _]. vm_compute. lia.
Qed.

Definition some_requests : list request := [ReqAdd "b" 1; ReqAdd "a" 2; ReqAdd "c" 3; ReqLookup "b" 7].
(** The threads that add move in turn; the lookup comes last. *)
Definition some_run : config (A := Z + bool * Z) :=
  schedule (tree_machine no_oom) (mjoin (repeat [0; 1; 2] 60) ++ repeat 3 20) (start, thread 0 7 start_root <$> some_requests).

Lemma concurrent_tree_correct_witness :
  some_run.2 = [Ret (inl 0%Z); Ret (inl 0%Z); Ret (inl 0%Z); Ret (inr (true, 7%Z))] ∧
  search_tree (nodes some_run.1) start_root ∧ has (nodes some_run.1) start_root "a".
Proof.
  assert (some_run.2 = [Ret (inl 0%Z); Ret (inl 0%Z); Ret (inl 0%Z); Ret (inr (true, 7%Z))]) as E by (vm_compute; reflexivity).
  split; [exact E|].
  destruct (concurrent_tree_correct 0 start start_root some_requests 7 start_tree start_quiet ltac:(vm_compute; lia)
    some_run (schedule_steps _ _ _)) as (H1 & _ & _ & _ & H2 & _).
  split; [exact H1|].
  destruct (H2 1 (ReqAdd "a" 2) (inl 0%Z) eq_refl) as (z & _ & H3 & _); [by rewrite E|exact H3].
Defined.
