(* ===== verification/TreeDelete.v ===== *)
(** * Deleting from the thread-safe tree

    [delete] of thread_safe_tree.c run by one thread on a tree nobody else
    uses, on every path: the key is absent, at the root, at a leaf, at an inner
    node; and [add] when memory runs out. *)
From Stdlib Require Import ZArith Lia Ascii String.
From stdpp Require Import base gmap strings list.
From S2P Require Import Prelude Prog CString Posix Conc ThreadTree SearchTree TreeThreads.
Local Open Scope prog_scope.

(** The comparison of a node's key with the one looked for, as a direction. *)
Definition towards (k key : string) (s : side) : Prop :=
  match s with L => (0 < strcmp k key)%Z | R => (strcmp k key < 0)%Z end.

Lemma towards_irrefl k s : ¬ towards k k s.
Proof. destruct s; cbn; rewrite (proj2 (strcmp_eq k k) eq_refl); lia. Qed.

(** [walk m key l n self par]: from [l], the comparisons lead in [n] steps to
    the node [self] that holds [key]; [par] is the last node and side on the
    way, if any. *)
Inductive walk (m : gmap loc node) (key : string) : loc → nat → loc → option (loc * side) → Prop :=
| walk_here l nd : m !! l = Some nd → n_key nd = Some key → walk m key l 0 l None
| walk_down l nd k s c n self par :
    m !! l = Some nd → n_key nd = Some k → towards k key s → n_child nd s = Some c →
    walk m key c n self par → walk m key l (S n) self (Some (default (l, s) par)).

Lemma walk_unique m key l n1 n2 self1 self2 par1 par2 :
  walk m key l n1 self1 par1 → walk m key l n2 self2 par2 → n1 = n2 ∧ self1 = self2 ∧ par1 = par2.
Proof.
  intros H1. revert n2 self2 par2. induction H1 as [l nd Hl Hk|l nd k s c n self par Hl Hk Ht Hc _ IH];
    intros n2 self2 par2 H2; inversion H2 as [l' nd' Hl' Hk'|l' nd' k' s' c' n' self' par' Hl' Hk' Ht' Hc' H2']; simplify_eq.
  - done.
  - by apply towards_irrefl in Ht'.
  - by apply towards_irrefl in Ht.
  - assert (s = s') as <- by (destruct s, s'; cbn in *; try done; lia). simplify_eq.
    by destruct (IH _ _ _ H2') as (-> & -> & ->).
Qed.

Lemma walk_self m key l n self par : walk m key l n self par → ∃ nd, m !! self = Some nd ∧ n_key nd = Some key.
Proof. induction 1; eauto. Qed.

(** The parent is linked to the node. *)
Lemma walk_parent m key l n self p s :
  walk m key l n self (Some (p, s)) → ∃ k, link m p s k self ∧ towards k key s.
Proof.
  intros H. remember (Some (p, s)) as par eqn:E. revert p s E.
  induction H as [|l nd k s' c n self par Hl Hk Ht Hc Hw IH]; intros p s E; [done|].
  destruct par as [[p' s'']|]; cbn in E; injection E as -> ->; [by apply IH|].
  exists k. split; [|done]. exists nd. split_and!; [done|done|].
  by inversion Hw; subst.
Qed.

(** In a search tree the walk finds exactly the node that holds the key. *)
Lemma reach_walk m root key path l lo hi nd : search_tree m root → reach m root path l lo hi →
  m !! l = Some nd → n_key nd = Some key → ∃ n par, walk m key root n l par.
Proof.
  intros Hst Hr Hl Hk. destruct (st_reach m root Hst path l lo hi Hr) as (nd' & Hl' & Hb). simplify_eq.
  destruct (Hb key Hk) as [Hlo Hhi]. assert (∃ self, self = l) as [self Hself] by eauto. rewrite <- Hself.
  assert (∃ n par, walk m key l n self par) as Hw by (subst; exists 0, None; by eapply walk_here).
  clear Hl Hk Hb nd Hself. revert path l lo hi Hr Hw Hlo Hhi.
  apply (reach_links m root (λ path l lo hi, (∃ n par, walk m key l n self par) → above lo key → below hi key →
    ∃ n par, walk m key root n self par)); [done|].
  intros path l s k c lo hi Hr IH (nd & Hl & Hk & Hc) (n & par & Hw) Hlo Hhi.
  destruct (st_reach m root Hst path l lo hi Hr) as (nd' & Hl' & Hb). assert (nd' = nd) as -> by congruence.
  destruct (Hb k Hk) as [Hklo Hkhi]. apply IH.
  - exists (S n), (Some (default (l, s) par)). eapply walk_down; eauto.
    destruct s; cbn in *; [rewrite strcmp_opp; lia|lia].
  - destruct s; cbn in *; [done|]. destruct lo as [a|]; [|done]. by eapply strcmp_trans.
  - destruct s; cbn in *; [|done]. destruct hi as [b|]; [|done]. by eapply strcmp_trans.
Qed.

Lemma walk_reach m root key l path lo hi n self par :
  reach m root path l lo hi → walk m key l n self par → ∃ path' lo' hi', reach m root path' self lo' hi' ∧ length path' = length path + n.
Proof.
  intros Hr Hw. revert path lo hi Hr. induction Hw as [l nd Hl Hk|l nd k s c n self par Hl Hk Ht Hc _ IH]; intros path lo hi Hr.
  - exists path, lo, hi. split; [done|lia].
  - destruct (IH (l :: path) (lo_of s k lo) (hi_of s k hi)) as (path' & lo' & hi' & H1 & H2).
    { apply reach_link; [done|]. by exists nd. }
    exists path', lo', hi'. split; [done|]. cbn in H2. lia.
Qed.

(** A path is no longer than the heap is large. *)
Lemma path_le_size m root path l lo hi : search_tree m root → reach m root path l lo hi → length path ≤ size m.
Proof.
  intros Hst Hr. destruct (path_keys m root path l lo hi Hst Hr) as (ks & <- & Hnd & Hin & _).
  assert (ks ⊆+ omap (n_key ∘ snd) (map_to_list m)) as Hs%submseteq_length.
  { apply NoDup_submseteq; [done|]. intros k Hk. destruct (Hin k Hk) as (? & l' & ? & ? & nd & _ & Hl & Hkn).
    apply list_elem_of_omap. exists (l', nd). split; [by apply elem_of_map_to_list|done]. }
  pose proof (length_omap_le (n_key ∘ snd) (map_to_list m)) as H1. rewrite length_map_to_list in H1. lia.
Qed.

Lemma has_walk m root key : search_tree m root → has m root key ↔ ∃ n self par, walk m key root n self par.
Proof.
  intros Hst. split.
  - intros (path & l & lo & hi & nd & Hr & Hl & Hk). destruct (reach_walk _ _ _ _ _ _ _ _ Hst Hr Hl Hk) as (n & par & H). eauto.
  - intros (n & self & par & Hw). destruct (walk_self _ _ _ _ _ _ Hw) as (nd & Hl & Hk).
    destruct (walk_reach m root key root [] None None n self par) as (path & lo & hi & Hr & _); [constructor|done|].
    by exists path, self, lo, hi, nd.
Qed.

(** ** Paths and removed leaves *)

Lemma reach_suffix m root path l lo hi : reach m root path l lo hi → ∀ a, a ∈ path →
  ∃ path' lo' hi', reach m root path' a lo' hi' ∧ length path' < length path.
Proof.
  revert path l lo hi. apply (reach_links m root (λ path l lo hi, ∀ a, a ∈ path →
    ∃ path' lo' hi', reach m root path' a lo' hi' ∧ length path' < length path)).
  - intros a H. by apply not_elem_of_nil in H.
  - intros path l s k c lo hi Hr IH _ a [->|Ha]%elem_of_cons.
    + exists path, lo, hi. split; [done|]. cbn. lia.
    + destruct (IH a Ha) as (path' & lo' & hi' & H & Hlt). exists path', lo', hi'. split; [done|]. cbn. lia.
Qed.

Lemma reach_acyclic m root path l lo hi : search_tree m root → reach m root path l lo hi → l ∉ path.
Proof.
  intros Hst Hr Hin. destruct (reach_suffix _ _ _ _ _ _ Hr l Hin) as (path' & lo' & hi' & Hr' & Hlt).
  destruct (reach_unique _ _ _ _ _ _ _ _ _ Hst Hr Hr') as (-> & _). lia.
Qed.

(** A leaf taken out: its parent loses the link, the node is freed. *)
Lemma search_tree_unlink m root path lo hi p pn kp s self sn key pn' :
  search_tree m root → reach m root path p lo hi → m !! p = Some pn → n_key pn = Some kp → n_child pn s = Some self →
  m !! self = Some sn → n_key sn = Some key → (∀ s', n_child sn s' = None) →
  n_key pn' = Some kp → (∀ s', n_child pn' s' = if decide (s' = s) then None else n_child pn s') →
  let m' := <[p := pn']> (base.delete self m) in
  search_tree m' root ∧ (∀ k, has m' root k ↔ has m root k ∧ k ≠ key).
Proof.
  intros Hst Hp Hpl Hkp Hself Hsl Hks Hleaf Hk' Hc' m'.
  assert (reach m root (p :: path) self (lo_of s kp lo) (hi_of s kp hi)) as Hrs by (apply reach_link; [done|by exists pn]).
  assert (p ≠ self) as Hne.
  { intros ->. apply (reach_acyclic _ _ _ _ _ _ Hst) in Hrs. apply Hrs. left. }
  assert (∀ l nd, m' !! l = Some nd → l ≠ self ∧ ∃ nd0, m !! l = Some nd0 ∧ n_key nd = n_key nd0 ∧
     (∀ s' c, n_child nd s' = Some c → n_child nd0 s' = Some c ∧ c ≠ self)) as Hback.
  { intros l nd Hl. apply insert_inv in Hl as [[<- <-]|[Hnp Hl]].
    - split; [done|]. exists pn. split_and!; [done|congruence|]. intros s' c. rewrite Hc'.
      destruct (decide (s' = s)) as [->|Hns]; [done|]. intros Hc. split; [done|]. intros ->.
      by destruct (st_once m root Hst p pn s' p pn s self Hpl Hpl Hc Hself).
    - apply lookup_delete_Some in Hl as [Hls Hl]. split; [done|]. exists nd. split_and!; [done|done|].
      intros s' c Hc. split; [done|]. intros ->.
      by destruct (st_once m root Hst l nd s' p pn s self Hl Hpl Hc Hself). }
  assert (∀ path l lo hi, reach m' root path l lo hi → reach m root path l lo hi ∧ l ≠ self) as Hr1.
  { apply reach_links.
    - split; [constructor|]. intros ->. by destruct (st_root m self Hst p pn s).
    - intros path0 l s' k c lo0 hi0 _ [IH _] (nd & Hl & Hk & Hc). destruct (Hback l nd Hl) as (_ & nd0 & Hl0 & Hk0 & Hcc).
      destruct (Hcc s' c Hc) as [Hc0 Hcs]. split; [|done]. apply reach_link; [done|]. exists nd0. split_and!; congruence. }
  assert (∀ l nd, m !! l = Some nd → l ≠ self → ∃ nd', m' !! l = Some nd' ∧ n_key nd' = n_key nd ∧
     ∀ s' c, n_child nd s' = Some c → c ≠ self → n_child nd' s' = Some c) as Hfwd.
  { intros l nd Hl Hls. destruct (decide (p = l)) as [<-|Hnp].
    - exists pn'. unfold m'. rewrite lookup_insert_eq. simplify_eq. split_and!; [done|congruence|].
      intros s' c Hc Hcs. rewrite Hc'. destruct (decide (s' = s)); congruence.
    - exists nd. unfold m'. rewrite lookup_insert_ne, lookup_delete_ne by done. done. }
  assert (∀ path l lo hi, reach m root path l lo hi → l ≠ self → reach m' root path l lo hi) as Hr2.
  { apply (reach_links m root (λ path l lo hi, l ≠ self → reach m' root path l lo hi)); [intros _; constructor|].
    intros path0 l s' k c lo0 hi0 _ IH (nd & Hl & Hk & Hc) Hcs.
    assert (l ≠ self) as Hls by (intros ->; by simplify_eq; rewrite Hleaf in Hc).
    destruct (Hfwd l nd Hl Hls) as (nd' & Hl' & Hk'' & Hcc).
    apply reach_link; [by apply IH|]. exists nd'. split_and!; [done|congruence|by apply Hcc]. }
  split; [constructor|].
  - intros path0 l lo0 hi0 Hr. destruct (Hr1 _ _ _ _ Hr) as [Hr' Hls].
    destruct (st_reach m root Hst _ _ _ _ Hr') as (nd & Hl & Hb). destruct (Hfwd l nd Hl Hls) as (nd' & Hl' & Hkk & _).
    exists nd'. split; [done|]. intros k. rewrite Hkk. apply Hb.
  - intros l nd s' Hl Hk. destruct (Hback l nd Hl) as (_ & nd0 & Hl0 & Hk0 & Hcc).
    destruct (n_child nd s') as [c|] eqn:Hc; [|done]. destruct (Hcc s' c Hc) as [Hc0 _].
    by rewrite (st_empty m root Hst l nd0 s') in Hc0 by congruence.
  - intros l nd s' c Hl Hc. destruct (Hback l nd Hl) as (_ & nd0 & Hl0 & _ & Hcc). destruct (Hcc s' c Hc) as [Hc0 Hcs].
    destruct (st_child m root Hst l nd0 s' c Hl0 Hc0) as [ndc Hcn]. destruct (Hfwd c ndc Hcn Hcs) as (nd' & H & _). by eexists.
  - intros l1 nd1 s1 l2 nd2 s2 c H1 H2 Hc1 Hc2.
    destruct (Hback l1 nd1 H1) as (_ & nd1' & Hl1 & _ & Hcc1). destruct (Hback l2 nd2 H2) as (_ & nd2' & Hl2 & _ & Hcc2).
    eapply (st_once m root Hst); [exact Hl1|exact Hl2|by apply Hcc1|by apply Hcc2].
  - intros l nd s' Hl Hc. destruct (Hback l nd Hl) as (_ & nd0 & Hl0 & _ & Hcc). destruct (Hcc s' root Hc) as [Hc0 _].
    by destruct (st_root m root Hst l nd0 s').
  - intros k. split.
    + intros (path0 & l & lo0 & hi0 & nd & Hr & Hl & Hk). destruct (Hr1 _ _ _ _ Hr) as [Hr' Hls].
      destruct (Hback l nd Hl) as (_ & nd0 & Hl0 & Hk0 & _). split; [exists path0, l, lo0, hi0, nd0; split_and!; congruence|].
      intros ->. destruct (reach_walk m root key _ _ _ _ _ Hst Hr' Hl0) as (n1 & par1 & Hw1); [congruence|].
      destruct (reach_walk m root key _ _ _ _ _ Hst Hrs Hsl Hks) as (n2 & par2 & Hw2).
      by destruct (walk_unique _ _ _ _ _ _ _ _ _ Hw1 Hw2) as (_ & -> & _).
    + intros [(path0 & l & lo0 & hi0 & nd & Hr & Hl & Hk) Hkk].
      assert (l ≠ self) as Hls by (intros ->; congruence).
      destruct (Hfwd l nd Hl Hls) as (nd' & Hl' & Hk'' & _). exists path0, l, lo0, hi0, nd'.
      split_and!; [by apply Hr2|done|congruence].
Qed.

(** ** Walking the tree *)

Section single.
Context (errno : Z) (i : nat) (root : loc).
Abbreviation K := (tree_kernel no_oom i).

(** A call on a node whose content is known. *)
Ltac on_node H :=
  unfold sys; cbn [bind]; eapply wp_answer;
  [unfold tree_kernel, tree_step, with_node; rewrite H; reflexivity|cbn [bind]].

(** The walk of [getParent], [getNode]: the answer with the key's node and
    parent, or -1 when the key is not below [l]. *)
Definition found (m : gmap loc node) (key : string) (l : loc)
    (res : option (loc * side) → loc → option loc) (r : outcome (Z * option loc)) : Prop :=
  (∃ n self par, walk m key l n self par ∧ r = Returned (0%Z, res par self)) ∨
  (∃ x, r = Returned ((-1)%Z, x) ∧ ∀ n self par, ¬ walk m key l n self par).

Lemma walk_absent m key l nd : m !! l = Some nd → n_key nd = None → ∀ n self par, ¬ walk m key l n self par.
Proof. intros Hl Hk n self par Hw. inversion Hw; congruence. Qed.

Lemma walk_end m key l nd k s : m !! l = Some nd → n_key nd = Some k → towards k key s → n_child nd s = None →
  ∀ n self par, ¬ walk m key l n self par.
Proof.
  intros Hl Hk Ht Hc n self par Hw. inversion Hw as [? nd' ? Hk'|? nd' k' s' c ? ? ? Hl' Hk' Ht' Hc' _]; simplify_eq.
  - by apply towards_irrefl in Ht.
  - destruct s, s'; cbn in *; try lia; congruence.
Qed.

Lemma walk_below m key l nd k s c : m !! l = Some nd → n_key nd = Some k → towards k key s → n_child nd s = Some c →
  (∀ n self par, ¬ walk m key c n self par) → ∀ n self par, ¬ walk m key l n self par.
Proof.
  intros Hl Hk Ht Hc Hn n self par Hw. inversion Hw as [? nd' ? Hk'|? nd' k' s' c' n' ? par' Hl' Hk' Ht' Hc' Hw']; simplify_eq.
  - by apply towards_irrefl in Ht.
  - destruct s, s'; cbn in *; try lia; simplify_eq; by eapply Hn.
Qed.

Lemma getNode_ok key fuel : ∀ path l lo hi σ,
  search_tree (nodes σ) root → reach (nodes σ) root path l lo hi → size (nodes σ) + 1 < length path + fuel → length path ≤ size (nodes σ) →
  wp K (getNode fuel (Some l) (Some key) None) σ (λ r σ' _, σ' = σ ∧ found (nodes σ) key l (λ _ self, Some self) r).
Proof.
  induction fuel as [|fuel IH]; intros path l lo hi σ Hst Hr Hf Hlen; [lia|].
  destruct (st_reach _ _ Hst path l lo hi Hr) as (nd & Hl & Hb). cbn [getNode]. on_node Hl.
  destruct (n_key nd) as [k|] eqn:Hk.
  2:{ apply wp_ret. split; [done|]. right. eexists. split; [done|]. by eapply walk_absent. }
  on_node Hl. rewrite Hk. cbn zeta.
  assert (∀ s, towards k key s → wp K (c <- sys (LoadChild l s);; getNode fuel c (Some key) None) σ
    (λ r σ' _, σ' = σ ∧ found (nodes σ) key l (λ _ self, Some self) r)) as Hdown.
  { intros s Ht. on_node Hl. destruct (n_child nd s) as [c|] eqn:Hc.
    - assert (reach (nodes σ) root (l :: path) c (lo_of s k lo) (hi_of s k hi)) as Hr' by (apply reach_link; [done|by exists nd]).
      pose proof (path_le_size _ _ _ _ _ _ Hst Hr'). eapply wp_mono; [eapply IH; [done|done|cbn in *; lia|done]|].
      intros r σ' _ [-> [(n & self & par & Hw & ->)|(x & -> & Hn)]]; (split; [done|]).
      + left. exists (S n), self, (Some (default (l, s) par)). split; [|done]. by eapply walk_down.
      + right. exists x. split; [done|]. by eapply walk_below.
    - destruct fuel as [|fuel]; [lia|]. apply wp_ret. split; [done|]. right. eexists. split; [done|]. by eapply walk_end. }
  destruct (0 <? strcmp k key)%Z eqn:E1; [|destruct (strcmp k key <? 0)%Z eqn:E2]; zbool.
  - by apply (Hdown L).
  - by apply (Hdown R).
  - assert (k = key) as -> by (apply strcmp_eq; lia). apply wp_ret. split; [done|]. left.
    exists 0, l, None. split; [by eapply walk_here|done].
Qed.

Lemma getParent_ok key fuel : ∀ path l lo hi σ par0,
  search_tree (nodes σ) root → reach (nodes σ) root path l lo hi → size (nodes σ) + 1 < length path + fuel → length path ≤ size (nodes σ) →
  wp K (getParent fuel (Some l) (Some key) par0) σ (λ r σ' _, σ' = σ ∧
    found (nodes σ) key l (λ par _, match par with Some p => Some p.1 | None => par0 end) r).
Proof.
  induction fuel as [|fuel IH]; intros path l lo hi σ par0 Hst Hr Hf Hlen; [lia|].
  destruct (st_reach _ _ Hst path l lo hi Hr) as (nd & Hl & Hb). cbn [getParent]. on_node Hl.
  destruct (n_key nd) as [k|] eqn:Hk.
  2:{ apply wp_ret. split; [done|]. right. eexists. split; [done|]. by eapply walk_absent. }
  on_node Hl. rewrite Hk. cbn zeta.
  assert (∀ s, towards k key s → wp K (c <- sys (LoadChild l s);;
      (let parent := match c with Some _ => Some l | None => par0 end in
       c <- sys (LoadChild l s);; getParent fuel c (Some key) parent)) σ
    (λ r σ' _, σ' = σ ∧ found (nodes σ) key l (λ par _, match par with Some p => Some p.1 | None => par0 end) r)) as Hdown.
  { intros s Ht. on_node Hl. on_node Hl. destruct (n_child nd s) as [c|] eqn:Hc.
    - assert (reach (nodes σ) root (l :: path) c (lo_of s k lo) (hi_of s k hi)) as Hr' by (apply reach_link; [done|by exists nd]).
      pose proof (path_le_size _ _ _ _ _ _ Hst Hr'). eapply wp_mono; [eapply IH; [done|done|cbn in *; lia|done]|].
      intros r σ' _ [-> [(n & self & par & Hw & ->)|(x & -> & Hn)]]; (split; [done|]).
      + left. exists (S n), self, (Some (default (l, s) par)). split; [by eapply walk_down|]. by destruct par.
      + right. exists x. split; [done|]. by eapply walk_below.
    - destruct fuel as [|fuel]; [lia|]. apply wp_ret. split; [done|]. right. eexists. split; [done|]. by eapply walk_end. }
  destruct (0 <? strcmp k key)%Z eqn:E1; [|destruct (strcmp k key <? 0)%Z eqn:E2]; zbool.
  - by apply (Hdown L).
  - by apply (Hdown R).
  - assert (k = key) as -> by (apply strcmp_eq; lia). apply wp_ret. split; [done|]. left.
    exists 0, l, None. split; [by eapply walk_here|done].
Qed.

(** To the end of one side: the last node, and the link that leads to it. *)
Lemma getEnd_loop fuel side σ c path0 :
  search_tree (nodes σ) root → ∀ path l lo hi, reach (nodes σ) root path l lo hi → path0 ⊆ path →
  (l = c ∨ ∃ q k, link (nodes σ) q side k l ∧ q ∈ path) → size (nodes σ) < length path + fuel →
  wp K (loop fuel (λ tmp, c <- sys (LoadChild tmp side);;
      match c with
      | None => Ret (inr tmp)
      | Some _ =>
          c <- sys (LoadChild tmp side);;
          match c with None => undef "NULL dereference" | Some c => Ret (inl c) end
      end) l) σ (λ r σ' _, σ' = σ ∧ ∃ mm path' lo' hi', r = Returned mm ∧ reach (nodes σ) root path' mm lo' hi' ∧
        path0 ⊆ path' ∧ (mm = c ∨ ∃ q k, link (nodes σ) q side k mm ∧ q ∈ path')).
Proof.
  intros Hst. induction fuel as [|fuel IH]; intros path l lo hi Hr Hsub Hor Hf.
  { pose proof (path_le_size _ _ _ _ _ _ Hst Hr). lia. }
  destruct (st_reach _ _ Hst path l lo hi Hr) as (nd & Hl & _). cbn [loop]. apply wp_bind. on_node Hl.
  destruct (n_child nd side) as [d|] eqn:Hd.
  - on_node Hl. rewrite Hd. apply wp_ret.
    destruct (n_key nd) as [k|] eqn:Hk; [|by rewrite (st_empty _ _ Hst l nd side) in Hd].
    assert (link (nodes σ) l side k d) as Hlink by by exists nd.
    eapply wp_mono; [eapply (IH (l :: path) d)|].
    + by apply reach_link.
    + intros a Ha. right. by apply Hsub.
    + right. exists l, k. split; [done|left].
    + cbn. lia.
    + intros r σ' t H. exact H.
  - apply wp_ret. apply wp_ret. split; [done|]. by exists l, path, lo, hi.
Qed.

Lemma getEnd_ok fuel side σ c path lo hi nd k :
  search_tree (nodes σ) root → reach (nodes σ) root path c lo hi → nodes σ !! c = Some nd → n_key nd = Some k →
  size (nodes σ) < fuel →
  wp K (getEnd fuel side (Some c) None) σ (λ r σ' _, σ' = σ ∧ ∃ mm path' lo' hi', r = Returned (0%Z, Some mm) ∧
    reach (nodes σ) root path' mm lo' hi' ∧ path ⊆ path' ∧ (mm = c ∨ ∃ q k, link (nodes σ) q side k mm ∧ q ∈ path')).
Proof.
  intros Hst Hr Hl Hk Hf. unfold getEnd. on_node Hl. rewrite Hk. apply wp_bind.
  eapply wp_mono; [eapply getEnd_loop; [done|done|done|by left|lia]|].
  intros r σ' _ (-> & mm & path' & lo' & hi' & -> & H). apply wp_ret. split; [done|]. by exists mm, path', lo', hi'.
Qed.

(** A node that does not exist any more is still linked. *)
Definition dangling (m : gmap loc node) : Prop :=
  ∃ c q nq s, m !! c = None ∧ m !! q = Some nq ∧ n_child nq s = Some c.

Lemma set_value_key_mutex v k mu nd : set_value v (set_key k (set_mutex mu nd)) = set_mutex mu (set_value v (set_key k nd)).
Proof. done. Qed.

Lemma delete_inner_ok fuel e side σ path lo hi self sn c nc kc :
  search_tree (nodes σ) root → reach (nodes σ) root path self lo hi → nodes σ !! self = Some sn →
  nodeMutex sn = Unlocked → n_child sn side = Some c → nodes σ !! c = Some nc → n_key nc = Some kc →
  size (nodes σ) < fuel →
  wp K (delete_inner errno (getEnd fuel e) side self) σ (λ r σ' _, r = Returned 0%Z ∧ dangling (nodes σ') ∧
    ∃ mm mn, mm ≠ self ∧ ¬ (mm ∈ path) ∧ nodes σ !! mm = Some mn ∧
      nodes σ' = base.delete mm (<[self := released (set_value (n_value mn) (set_key (n_key mn) sn))]> (nodes σ))).
Proof.
  intros Hst Hr Hself Hmu Hc Hcn Hkc Hf.
  destruct (n_key sn) as [ks|] eqn:Hks; [|by rewrite (st_empty _ _ Hst self sn side) in Hc].
  assert (link (nodes σ) self side ks c) as Hlink by by exists sn.
  unfold delete_inner. on_node Hself. rewrite Hc. apply wp_bind.
  eapply wp_mono; [eapply getEnd_ok; [done|by eapply reach_link|done|done|done]|].
  intros r σ' t (-> & mm & path' & lo' & hi' & -> & Hr' & Hsub & Hor). cbv beta iota.
  change (negb (0 =? 0)%Z) with false. cbv iota.
  destruct (st_reach _ _ Hst _ _ _ _ Hr') as (mn & Hmm & _).
  pose proof (reach_acyclic _ _ _ _ _ _ Hst Hr') as Hac.
  assert (mm ≠ self) as Hms by (intros ->; apply Hac, Hsub; left).
  assert (mm ∉ path) as Hmp by (intros Hin; apply Hac, Hsub; by right).
  unfold sys. cbn [bind]. eapply wp_answer.
  { unfold tree_kernel, tree_step, with_node. rewrite Hself, Hmu. reflexivity. }
  change (negb (0 =? 0)%Z) with false. cbv iota.
  assert (∀ x σ0, nodes (store_node self x σ0) !! self = Some x) as Hs by (intros x σ0; apply lookup_insert_eq).
  assert (∀ x σ0, nodes σ0 !! mm = Some mn → nodes (store_node self x σ0) !! mm = Some mn) as Hm.
  { intros x σ0 H. cbn. by rewrite lookup_insert_ne. }
  assert (∀ x y σ0, store_node self y (store_node self x σ0) = store_node self y σ0) as Hss.
  { intros x y σ0. unfold store_node, set_nodes. cbn. by rewrite insert_insert_eq. }
  cbn [bind]. on_node (Hm (set_mutex (Held i) sn) σ Hmm). on_node (Hs (set_mutex (Held i) sn) σ). rewrite Hss.
  on_node (Hm (set_key (n_key mn) (set_mutex (Held i) sn)) σ Hmm).
  on_node (Hs (set_key (n_key mn) (set_mutex (Held i) sn)) σ). rewrite Hss, set_value_key_mutex.
  set (sn' := set_value (n_value mn) (set_key (n_key mn) sn)).
  on_node (Hm (set_mutex (Held i) sn') σ Hmm).
  assert (nodes (set_nodes (base.delete mm) (store_node self (set_mutex (Held i) sn') σ)) !! self =
    Some (set_mutex (Held i) sn')) as Hd.
  { cbn. rewrite lookup_delete_ne by done. apply lookup_insert_eq. }
  eapply wp_answer.
  { unfold tree_kernel, tree_step, with_node. rewrite Hd. rewrite decide_True by done. reflexivity. }
  change (negb (0 =? 0)%Z) with false. cbv iota. apply wp_ret.
  assert (nodes (store_node self (released (set_mutex (Held i) sn'))
      (set_nodes (base.delete mm) (store_node self (set_mutex (Held i) sn') σ))) =
    base.delete mm (<[self := released sn']> (nodes σ))) as Hfin.
  { cbn. rewrite <- delete_insert_ne by done. f_equal. apply insert_insert_eq. }
  split; [done|]. rewrite Hfin. split; [|by exists mm, mn].
  assert (∃ q nq s, nodes σ !! q = Some nq ∧ n_child nq s = Some mm ∧ q ≠ mm) as (q & nq & sq & Hq & Hqc & Hqm).
  { destruct Hor as [->|(q & k & (nq & Hq & _ & Hqc) & Hin)]; [by exists self, sn, side|].
    exists q, nq, e. split_and!; [done|done|]. intros ->. done. }
  exists mm, q. rewrite lookup_delete_eq. rewrite lookup_delete_ne by done.
  destruct (decide (self = q)) as [<-|Hne].
  - rewrite lookup_insert_eq. exists (released sn'), sq. simplify_eq. by destruct sq.
  - rewrite lookup_insert_ne by done. by exists nq, sq.
Qed.

(** The side of the parent that [delete] clears when it removes a leaf: it
    compares with the key of the root. *)
Definition cleared (rk key : string) : side := if (0 <? strcmp rk key)%Z then L else R.

Lemma set_child_released s p mu nd : released (set_child s p (set_mutex mu nd)) = released (set_child s p nd).
Proof. by destruct s. Qed.

(** What [delete] does to a node [self] under [p] on side [s]. *)
Definition deleted (key : string) (m m' : gmap loc node) (self p : loc) (s : side) : Prop :=
  ∃ sn pn rn rk, m !! self = Some sn ∧ m !! p = Some pn ∧ m !! root = Some rn ∧ n_key rn = Some rk ∧
  if decide (n_left sn = None ∧ n_right sn = None)
  then m' = <[p := released (set_child (cleared rk key) None pn)]> (base.delete self m)
  else dangling m' ∧ ∃ pn', m' !! p = Some pn' ∧ nodeMutex pn' = Held i.

(** Every child of a node holds a key. *)
Definition children_keyed (m : gmap loc node) : Prop :=
  ∀ l nd s c nc, m !! l = Some nd → n_child nd s = Some c → m !! c = Some nc → n_key nc ≠ None.

Lemma delete_found_ok key fuel σ self p s path lo hi sn pn kp rn rk :
  search_tree (nodes σ) root → quiet σ → children_keyed (nodes σ) → size (nodes σ) < fuel →
  reach (nodes σ) root path p lo hi → nodes σ !! p = Some pn → n_key pn = Some kp → n_child pn s = Some self →
  nodes σ !! self = Some sn → nodes σ !! root = Some rn → n_key rn = Some rk →
  wp K (delete_found errno fuel p self root key) σ (λ r σ' _, r = Returned 0%Z ∧ deleted key (nodes σ) (nodes σ') self p s).
Proof.
  intros Hst Hq Hck Hf Hp Hpl Hkp Hself Hsl Hroot Hrk.
  assert (reach (nodes σ) root (p :: path) self (lo_of s kp lo) (hi_of s kp hi)) as Hrs by (apply reach_link; [done|by exists pn]).
  assert (self ≠ p) as Hne.
  { intros ->. apply (reach_acyclic _ _ _ _ _ _ Hst) in Hrs. apply Hrs. left. }
  unfold delete_found, sys. cbn [bind]. eapply wp_answer.
  { unfold tree_kernel, tree_step, with_node. rewrite Hpl. rewrite (proj1 (q_free _ Hq _ _ Hpl)). reflexivity. }
  change (negb (0 =? 0)%Z) with false. cbv iota.
  set (σ1 := store_node p (set_mutex (Held i) pn) σ).
  assert (nodes σ1 !! self = Some sn) as Hs1 by (cbn; by rewrite lookup_insert_ne).
  assert (nodes σ1 !! p = Some (set_mutex (Held i) pn)) as Hp1 by apply lookup_insert_eq.
  assert (∃ rn1, nodes σ1 !! root = Some rn1 ∧ n_key rn1 = Some rk) as (rn1 & Hr1 & Hrk1).
  { cbn. destruct (decide (p = root)) as [<-|Hpr].
    - rewrite lookup_insert_eq. eexists. split; [done|]. cbn. congruence.
    - rewrite lookup_insert_ne by done. by exists rn. }
  assert (∀ e side c, n_child sn side = Some c → ¬ (n_left sn = None ∧ n_right sn = None) →
    wp K (delete_inner errno (getEnd fuel e) side self) σ1
      (λ r σ' _, r = Returned 0%Z ∧ deleted key (nodes σ) (nodes σ') self p s)) as Hinner.
  { intros e side c Hc Hnl.
    destruct (search_tree_update (nodes σ) root p pn (set_mutex (Held i) pn) Hst Hpl) as [Hst1 _]; [by intros []|by left|].
    assert (heap_grows (nodes σ) (nodes σ1)) as HG by (by apply heap_grows_insert with pn).
    destruct (st_child _ _ Hst1 self sn side c Hs1 Hc) as [nc1 Hc1].
    assert (∃ kc, n_key nc1 = Some kc) as [kc Hkc].
    { destruct (st_child _ _ Hst self sn side c Hsl Hc) as [nc Hcn]. destruct (HG c nc Hcn) as (nc' & Hcn' & [GK _ _]).
      destruct (n_key nc) as [k|] eqn:Hk; [|by destruct (Hck self sn side c nc)]. exists k. specialize (GK k eq_refl). cbn in Hc1, Hcn'. congruence. }
    eapply wp_mono; [eapply delete_inner_ok with (path := p :: path); try done|].
    - by eapply reach_grows.
    - apply (q_free _ Hq _ _ Hsl).
    - cbn. by rewrite map_size_insert_Some.
    - intros r σ' t (-> & Hd & mm & mn & Hms & Hmp & Hmm & Hfin). split; [done|].
      exists sn, pn, rn, rk. rewrite decide_False by done. split_and!; try done.
      exists (set_mutex (Held i) pn). rewrite Hfin. split; [|done].
      rewrite lookup_delete_ne by (intros ->; apply Hmp; left). by rewrite lookup_insert_ne. }
  on_node Hs1. apply wp_bind. cbn [n_child].
  eapply (wp_mono _ _ _ (λ r σ' _, σ' = σ1 ∧ r = Returned (bool_decide (n_left sn = None ∧ n_right sn = None)))).
  { destruct (n_left sn) as [cl|] eqn:Hcl; [apply wp_ret; split; [done|]; by rewrite bool_decide_false by (intros [? _]; done)|].
    on_node Hs1. apply wp_ret. split; [done|]. cbn [n_child]. destruct (n_right sn) as [cr|] eqn:Hcr.
    - by rewrite bool_decide_false by (intros [_ ?]; done).
    - by rewrite bool_decide_true by done. }
  intros r σ' t [-> ->]. destruct (decide (n_left sn = None ∧ n_right sn = None)) as [Hleaf|Hnl].
  - rewrite bool_decide_true by done. on_node Hr1. rewrite Hrk1.
    eapply wp_mono with (Q := λ r σ' _, r = Returned 0%Z ∧
      nodes σ' = <[p := released (set_child (cleared rk key) None pn)]> (base.delete self (nodes σ))).
    2:{ intros r σ' t' [-> Hfin]. split; [done|]. exists sn, pn, rn, rk. rewrite decide_True by done. done. }
    assert (∀ side, wp K (sys (StoreChild p side None) ;;; sys (FreeNode self) ;;;
        s <- sys (MutexUnlock p);;
        if negb (s =? 0)%Z then perror "pthread_mutex_unlock" errno ;;; Ret (-1)%Z else Ret 0%Z) σ1
        (λ r σ' _, r = Returned 0%Z ∧ nodes σ' = <[p := released (set_child side None pn)]> (base.delete self (nodes σ)))) as Hrun.
    { intros side. on_node Hp1. set (σ2 := store_node p _ σ1).
      assert (nodes σ2 !! self = Some sn) as Hs2 by (cbn; by rewrite !lookup_insert_ne).
      on_node Hs2. eapply wp_answer.
      { unfold tree_kernel, tree_step, with_node. cbn. rewrite lookup_delete_ne by done.
        rewrite lookup_insert_eq, decide_True by (by destruct side). reflexivity. }
      change (negb (0 =? 0)%Z) with false. cbv iota. apply wp_ret. split; [done|]. cbn.
      rewrite set_child_released. rewrite !delete_insert_ne by done. by rewrite !insert_insert_eq. }
    unfold cleared. destruct (0 <? strcmp rk key)%Z; [apply (Hrun L)|apply (Hrun R)].
  - rewrite bool_decide_false by done. on_node Hs1. cbn [n_child].
    destruct (n_left sn) as [cl|] eqn:Hcl; [by apply (Hinner R L cl)|].
    destruct (n_right sn) as [cr|] eqn:Hcr; [|by destruct Hnl]. by apply (Hinner L R cr).
Qed.

End single.

(** C2: [delete] of thread_safe_tree.c, by thread [i] alone on a search tree in
    which nothing is locked.  An absent key gives -1 and changes nothing.  The
    key of the root makes [delete] use its uninitialised [parent].  A leaf is
    unlinked and freed, and when it hangs on the same side of its parent as it
    lies of the root, the result is the search tree of the other keys; when
    not, [delete] clears the wrong link and the tree keeps a link to the freed
    node.  For an inner node the extreme node of a subtree is freed while still
    linked, and the parent's mutex stays locked. *)
Theorem delete_correct (errno : Z) (i : nat) (root : loc) (σ : tstate) (key : string) (fuel : nat) :
  search_tree (nodes σ) root → quiet σ → children_keyed (nodes σ) → size (nodes σ) + 2 ≤ fuel →
  wp (tree_kernel no_oom i) (delete errno fuel (Some root) (Some key)) σ (λ r σ' _,
    (¬ has (nodes σ) root key ∧ r = Returned (-1)%Z ∧ σ' = σ) ∨
    ((∃ rn, nodes σ !! root = Some rn ∧ n_key rn = Some key) ∧ r = Halted (Undef "parent is not initialised")) ∨
    (∃ n self p s sn rn rk, walk (nodes σ) key root n self (Some (p, s)) ∧ nodes σ !! self = Some sn ∧
       nodes σ !! root = Some rn ∧ n_key rn = Some rk ∧ r = Returned 0%Z ∧
       if decide (n_left sn = None ∧ n_right sn = None) then
         if decide (cleared rk key = s)
         then search_tree (nodes σ') root ∧ ∀ k, has (nodes σ') root k ↔ has (nodes σ) root k ∧ k ≠ key
         else dangling (nodes σ')
       else dangling (nodes σ') ∧ ∃ pn, nodes σ' !! p = Some pn ∧ nodeMutex pn = Held i)).
Proof.
  intros Hst Hq Hck Hf. assert (reach (nodes σ) root [] root None None) as Hr0 by constructor.
  unfold delete. apply wp_bind. eapply wp_mono; [eapply getParent_ok; [done|done|cbn; lia|cbn; lia]|].
  intros r σ1 t1 [-> [(n & self & par & Hw & ->)|(x & -> & Hn)]].
  2:{ apply wp_ret. left. split; [|done]. rewrite has_walk by done. intros (n & self & par & Hw). by apply (Hn n self par). }
  cbv beta iota. change (negb (0 =? 0)%Z) with false. cbv iota.
  apply wp_bind. eapply wp_mono; [eapply getNode_ok; [done|done|cbn; lia|cbn; lia]|].
  intros r σ1 t2 [-> [(n' & self' & par' & Hw' & ->)|(x & -> & Hn)]]; [|by destruct (Hn n self par)].
  destruct (walk_unique _ _ _ _ _ _ _ _ _ Hw Hw') as (<- & <- & <-). clear Hw'.
  cbv beta iota. change (negb (0 =? 0)%Z) with false. cbv iota.
  destruct par as [[p s]|]; cbn [fst].
  2:{ apply wp_stop. right. left. split; [|done]. inversion Hw; subst. eauto. }
  destruct (walk_parent _ _ _ _ _ _ _ Hw) as (kp & (pn & Hpl & Hkp & Hself) & _).
  destruct (walk_self _ _ _ _ _ _ Hw) as (sn & Hsl & Hks).
  assert (∃ rn rk, nodes σ !! root = Some rn ∧ n_key rn = Some rk) as (rn & rk & Hroot & Hrk) by (inversion Hw; subst; eauto).
  destruct (walk_reach _ _ _ _ _ _ _ _ _ _ Hr0 Hw) as (path' & lo' & hi' & Hrs & _).
  destruct (reach_inv _ _ _ _ _ _ Hrs) as [(_ & -> & _)|(p' & path & s' & k' & lo & hi & -> & Hp & (pn' & Hpl' & Hk' & Hc') & _)].
  { by destruct (st_root _ _ Hst p pn s). }
  destruct (st_once _ _ Hst p pn s p' pn' s' self Hpl Hpl' Hself Hc') as [<- <-].
  eapply wp_mono; [eapply delete_found_ok; try done; lia|].
  intros r σ' t (-> & sn' & pn0 & rn' & rk' & Hsl' & Hpl0 & Hroot' & Hrk' & Hfin). right. right.
  rewrite Hsl in Hsl'. rewrite Hpl in Hpl0. rewrite Hroot in Hroot'. injection Hsl' as <-. injection Hpl0 as <-. injection Hroot' as <-.
  rewrite Hrk in Hrk'. injection Hrk' as <-. exists n, self, p, s, sn, rn, rk. split_and!; try done.
  destruct (decide (n_left sn = None ∧ n_right sn = None)) as [[Hl Hr]|Hnl]; [|done].
  destruct (decide (cleared rk key = s)) as [Hs|Hs]; rewrite Hfin.
  - subst s. eapply (search_tree_unlink (nodes σ) root path lo hi p pn kp _ self sn key); try done.
    + by intros [].
    + by destruct (cleared rk key).
    + by destruct (cleared rk key); intros [].
  - assert (p ≠ self) as Hne.
    { intros ->. apply (reach_acyclic _ _ _ _ _ _ Hst) in Hrs. apply Hrs. left. }
    exists self, p, (released (set_child (cleared rk key) None pn)), s.
    rewrite lookup_insert_ne, lookup_delete_eq, lookup_insert_eq by done. split_and!; [done|done|].
    by destruct (cleared rk key), s.
Qed.

(** [add] when memory runs out.  If the key belongs under [l] on a side where
    there is no child and the allocation fails, [add] reports the error and
    returns -1 with the mutex of [l] still held by the caller; from then on
    every [add] that comes to [l], whoever calls it, waits for ever. *)
Theorem add_out_of_memory (errno : Z) (oom : nat → nat → bool) (i : nat) (σ : tstate) (l : loc) (nd : node)
    (k key : string) (s : side) (value : Z) (fuel : nat) :
  nodes σ !! l = Some nd → nodeMutex nd = Unlocked → n_key nd = Some k → n_child nd s = None → towards k key s →
  oom i (next_of σ i) = true →
  wp (tree_kernel oom i) (add errno (S fuel) (Some l) (Some key) value) σ (λ r σ' t,
    r = Returned (-1)%Z ∧ nodes σ' = <[l := set_mutex (Held i) nd]> (nodes σ) ∧
    EOut (Perror "calloc" ENOMEM) ∈ t ∧
    ∀ j key' value', run (tree_kernel oom j) (add errno (S fuel) (Some l) (Some key') value') σ' =
      (Gone, σ', [EGone (MutexLock l : op tree_sig)])).
Proof.
  intros Hl Hmu Hk Hc Ht Hoom. cbn [add]. unfold sys. cbn [bind]. eapply wp_answer.
  { unfold tree_kernel, tree_step, with_node. rewrite Hl, Hmu. reflexivity. }
  change (negb (0 =? 0)%Z) with false. cbv iota.
  set (σ1 := store_node l (set_mutex (Held i) nd) σ).
  assert (nodes σ1 !! l = Some (set_mutex (Held i) nd)) as Hl1 by apply lookup_insert_eq.
  eapply wp_answer; [unfold tree_kernel, tree_step, with_node; rewrite Hl1; reflexivity|].
  cbn [n_key set_mutex]. rewrite Hk. eapply wp_answer; [unfold tree_kernel, tree_step, with_node; rewrite Hl1; reflexivity|].
  cbn [n_key set_mutex]. rewrite Hk. cbn zeta.
  eapply wp_mono with (Q := λ r σ' t, r = Returned (-1)%Z ∧ nodes σ' = <[l := set_mutex (Held i) nd]> (nodes σ) ∧
    EOut (Perror "calloc" ENOMEM) ∈ t).
  2:{ intros r σ' t (-> & Hn & Ht'). split_and!; [done|done|by do 3 right|]. intros j key' value'. cbn. unfold tree_kernel, tree_step, with_node.
      rewrite Hn, lookup_insert_eq. done. }
  assert (∀ f, wp (tree_kernel oom i) (add_under errno f l s) σ1 (λ r σ' t, r = Returned (-1)%Z ∧
    nodes σ' = <[l := set_mutex (Held i) nd]> (nodes σ) ∧ EOut (Perror "calloc" ENOMEM) ∈ t)) as Hunder.
  { intros f. unfold add_under, sys. cbn [bind].
    eapply wp_answer; [unfold tree_kernel, tree_step, with_node; rewrite Hl1; reflexivity|].
    assert (n_child (set_mutex (Held i) nd) s = None) as -> by by destruct s. cbn [bind].
    eapply wp_answer; [unfold tree_kernel, tree_step; change (next_of σ1 i) with (next_of σ i); rewrite Hoom; reflexivity|].
    eapply wp_answer; [unfold tree_kernel, tree_step, with_node; cbn; rewrite lookup_insert_eq; reflexivity|].
    eapply wp_answer; [unfold tree_kernel, tree_step, with_node; cbn; rewrite lookup_insert_eq; reflexivity|].
    assert (set_child s None (set_mutex (Held i) nd) = set_mutex (Held i) nd) as Hsame by (destruct s, nd; cbn in *; by subst).
    rewrite Hsame. assert (n_child (set_mutex (Held i) nd) s = None) as -> by by destruct s.
    unfold perror, put. cbn [bind]. apply wp_put, wp_ret. split_and!; [done| |do 4 right; left].
    cbn. by rewrite insert_insert_eq. }
  destruct s; cbn in Ht.
  - rewrite (proj2 (Z.ltb_lt (strcmp key k) 0)) by (rewrite strcmp_opp; lia). apply Hunder.
  - rewrite strcmp_opp in Ht. rewrite (proj2 (Z.ltb_ge (strcmp key k) 0)) by lia.
    rewrite (proj2 (Z.ltb_lt 0 (strcmp key k))) by lia. apply Hunder.
Qed.

(** ** A tree of two nodes *)

Definition two : tstate :=
  TState {[(0, 0) := Node (Some "m") 1 (Some (0, 1)) None Unlocked None;
           (0, 1) := Node (Some "c") 2 None None Unlocked None]} {[0 := 2]}.

Lemma two_node l nd : nodes two !! l = Some nd →
  l = (0, 0) ∧ nd = Node (Some "m") 1 (Some (0, 1)) None Unlocked None ∨
  l = (0, 1) ∧ nd = Node (Some "c") 2 None None Unlocked None.
Proof.
  intros H. cbn in H. apply lookup_insert_Some in H as [[<- <-]|[_ H]]; [by left|].
  apply lookup_singleton_Some in H as [<- <-]. by right.
Qed.

Lemma two_reach path l lo hi : reach (nodes two) (0, 0) path l lo hi →
  l = (0, 0) ∧ lo = None ∧ hi = None ∨ l = (0, 1) ∧ lo = None ∧ hi = Some "m".
Proof.
  revert path l lo hi. apply reach_links; [by left|].
  intros path l s k c lo hi _ IH (nd & Hl & Hk & Hc).
  apply two_node in Hl as [[-> ->]|[-> ->]]; [|by destruct s].
  destruct s; [|done]. injection Hk as <-. injection Hc as <-. right.
  destruct IH as [(_ & -> & ->)|(? & _)]; done.
Qed.

Lemma two_tree : search_tree (nodes two) (0, 0) ∧ quiet two ∧ children_keyed (nodes two).
Proof.
  split_and!; [constructor|constructor|].
  - intros path l lo hi [(-> & -> & ->)|(-> & -> & ->)]%two_reach; eexists; (split; [done|]); by intros k [= <-].
  - intros l nd s [[-> ->]|[-> ->]]%two_node Hk; done.
  - intros l nd s c [[-> ->]|[-> ->]]%two_node Hc; destruct s; try done. injection Hc as <-. by eexists.
  - intros l1 nd1 s1 l2 nd2 s2 c [[-> ->]|[-> ->]]%two_node [[-> ->]|[-> ->]]%two_node; by destruct s1, s2.
  - intros l nd s [[-> ->]|[-> ->]]%two_node; by destruct s.
  - intros l nd [[-> ->]|[-> ->]]%two_node; done.
  - intros j k nd [[[= -> ->] ->]|[[= -> ->] ->]]%two_node; vm_compute; lia.
  - intros l nd s c nc _ _ [[-> ->]|[-> ->]]%two_node; done.
Qed.

Definition delete_run := run (tree_kernel no_oom 0) (delete 0 4 (Some (0, 0)) (Some "c")) two.

Lemma delete_correct_witness : delete_run.1.1 = Returned 0%Z ∧
  search_tree (nodes delete_run.1.2) (0, 0) ∧ ¬ has (nodes delete_run.1.2) (0, 0) "c".
Proof.
  assert (delete_run.1.1 = Returned 0%Z) as E by (vm_compute; reflexivity). split; [exact E|].
  destruct delete_run as [[r σ'] t] eqn:E0. unfold delete_run in E0. cbn in E |- *. subst r.
  pose proof (wp_run _ _ _ _ _ _ _ (delete_correct 0 0 (0, 0) two "c" 4 (proj1 two_tree) (proj1 (proj2 two_tree))
    (proj2 (proj2 two_tree)) ltac:(vm_compute; lia)) E0) as H. cbv beta in H.
  destruct H as [(_ & ? & _)|[[_ ?]|(n & self & p & s & sn & rn & rk & Hw & Hs & Hr & Hk & _ & H)]]; [done|done|].
  inversion Hw as [? nd Hl Hk0|? nd k s0 c n0 self0 par Hl Hk0 Ht Hc Hw0 E1 E2 E3 E4]; subst.
  apply two_node in Hl as [[_ ->]|[? _]]; [|done]. destruct s0; [|done]. injection Hc as <-.
  inversion Hw0 as [? nd Hl Hk1|? nd k1 s1 c1 n1 self1 par1 Hl Hk1 Ht1 Hc1 Hw1]; subst.
  2:{ apply two_node in Hl as [[? _]|[_ ->]]; [done|]. by destruct s1. }
  cbn in E4. injection E4 as <- <-. vm_compute in Hs, Hr. injection Hs as <-. injection Hr as <-. injection Hk as <-.
  destruct H as [H1 H2]. split; [exact H1|]. rewrite H2. intros [_ ?]. done.
Defined.

Lemma add_out_of_memory_witness : ∃ r σ' t,
  run (tree_kernel (λ _ _, true) 3) (add 0 1 (Some (0, 1)) (Some "d") 5) two = (r, σ', t) ∧ r = Returned (-1)%Z ∧
  run (tree_kernel (λ _ _, true) 4) (add 0 1 (Some (0, 1)) (Some "a") 5) σ' = (Gone, σ', [EGone (MutexLock (0, 1) : op tree_sig)]).
Proof.
  destruct (run (tree_kernel (λ _ _, true) 3) (add 0 1 (Some (0, 1)) (Some "d") 5) two) as [[r σ'] t] eqn:E.
  pose proof (wp_run _ _ _ _ _ _ _ (add_out_of_memory 0 (λ _ _, true) 3 two (0, 1)
    (Node (Some "c") 2 None None Unlocked None) "c" "d" R 5 0 eq_refl eq_refl eq_refl eq_refl eq_refl eq_refl) E) as H.
  destruct H as (H1 & _ & _ & H2). exists r, σ', t. split; [exact eq_refl|]. split; [exact H1|apply H2].
Defined.
