(* ===== verification/ThreadCounters.v ===== *)
(** * One-time initialisation and the unprotected counter

    [one_time_init] of one_time_init.c (CH31): a flag and a mutex that make a
    function run once; and [threadFunc] of thread_incr.c (CH30): two threads
    that increment a shared variable without a mutex.  Both are proved for all
    interleavings in the logic of Conc. *)
From Stdlib Require Import ZArith Lia Ascii String.
From stdpp Require Import base gmap strings list relations well_founded.
From S2P Require Import Prelude Prog CString Posix GetNum ErrorFunctions Conc.
Local Open Scope prog_scope.

(** ** one_time_init.c *)

Inductive once_op := LoadFired | StoreFired (b : bool) | LockControl | UnlockControl.
Definition once_ans (c : once_op) : Type := match c with LoadFired => bool | _ => Z end.
Canonical Structure once_sig : sig := Sig once_op once_ans.

(** [struct control], with the holder of its mutex; [log] is what has been
    written to stdout. *)
Record control := Control { fired : bool; controlMtx : option nat; log : list output }.

Definition one_time_init (init : prog once_sig unit) : prog once_sig Z :=
  sys LockControl ;;;
  f <- sys LoadFired;;
  (if negb f then sys (StoreFired true) ;;; init else Ret tt) ;;;
  sys UnlockControl ;;;
  Ret 0%Z.

Definition initfunc : prog once_sig unit := printf ("HELLO " +:+ nl).

(** A lock of a held mutex waits; an unlock by another thread is undefined. *)
Definition once_step (i : nat) (c : once_op) (σ : control) : mresult (once_ans c) control :=
  match c with
  | LoadFired => MOk (fired σ) σ
  | StoreFired b => MOk 0%Z (Control b (controlMtx σ) (log σ))
  | LockControl => match controlMtx σ with None => MOk 0%Z (Control (fired σ) (Some i) (log σ)) | Some _ => MBlocked end
  | UnlockControl =>
      if decide (controlMtx σ = Some i) then MOk 0%Z (Control (fired σ) None (log σ)) else MFault
  end.

Definition once_machine : machine once_sig control :=
  Machine once_sig control once_step (λ _ o σ, Control (fired σ) (controlMtx σ) (log σ ++ [o])).

(** An initialisation function that writes the given texts. *)
Fixpoint writes (os : list output) : prog once_sig unit :=
  match os with [] => Ret tt | o :: os' => Put o (writes os') end.

Section once.
Context (n : nat) (os : list output).

Definition complete (σ : control) : Prop := fired σ = true ∧ log σ = os.

Record once_inv (σ : control) : Prop := {
  o_prefix : log σ `prefix_of` os;
  o_new : fired σ = false → log σ = [];
  o_free : controlMtx σ = None → fired σ = true → complete σ;
  o_owner j : controlMtx σ = Some j → j < n
}.

Definition once_rely (i : nat) (σ σ' : control) : Prop :=
  (controlMtx σ = Some i → σ' = σ) ∧ (controlMtx σ' = Some i → controlMtx σ = Some i) ∧ (complete σ → complete σ').

#[global] Instance once_rely_preorder i : PreOrder (once_rely i).
Proof.
  split; [done|]. intros a b c (H1 & H2 & H3) (H4 & H5 & H6). split_and!; [|by auto|by auto].
  intros Ha. rewrite <- (H1 Ha). apply H4. by rewrite (H1 Ha).
Qed.

Definition once_waits (i : nat) (σ : control) : Prop := controlMtx σ ≠ Some i ∧ is_Some (controlMtx σ).

Abbreviation once_rg := (rg once_machine once_inv once_rely once_waits).

Definition once_post (i : nat) (r : outcome Z) (σ : control) : Prop :=
  r = Returned 0%Z ∧ complete σ ∧ controlMtx σ ≠ Some i.

Lemma post_stable i r σ σ' : once_post i r σ → once_rely i σ σ' → once_post i r σ'.
Proof. intros (-> & Hc & Hm) (_ & H2 & H3). split_and!; auto. Qed.

(** From the unlock on, once the initialisation is complete. *)
Lemma once_unlock i σ : i < n → controlMtx σ = Some i → complete σ →
  once_rg i (sys UnlockControl ;;; Ret 0%Z) (once_post i) σ.
Proof.
  intros Hi Hm [Hf Hl]. unfold sys. cbn [bind]. intros σ' (H1 & _) HI. rewrite (H1 Hm) in *. clear H1. cbn.
  rewrite decide_True by done. split.
  - split; [constructor; cbn; [apply HI|by rewrite Hf|by split|done]|]. intros j Hj. split_and!; cbn; [congruence|done|by intros [? ?]].
  - intros σ2 H2 _. eapply post_stable; [|done]. split_and!; done.
Qed.

Lemma once_writes i σ os1 os2 (k : prog once_sig Z) : i < n → controlMtx σ = Some i → fired σ = true →
  log σ = os1 → os = os1 ++ os2 →
  (∀ σ', controlMtx σ' = Some i → complete σ' → once_rg i k (once_post i) σ') →
  once_rg i (writes os2 ;;; k) (once_post i) σ.
Proof.
  intros Hi. revert σ os1. induction os2 as [|o os2 IH]; intros σ os1 Hm Hf Hl Ho Hk; cbn [writes bind].
  { apply Hk; [done|]. split; [done|]. by rewrite Hl, Ho, app_nil_r. }
  intros σ' (H1 & _) HI. rewrite (H1 Hm) in *. clear H1. cbn. split.
  - split; [constructor; cbn|].
    + exists os2. by rewrite Hl, <- app_assoc.
    + by rewrite Hf.
    + by rewrite Hm.
    + intros j. rewrite Hm. by intros [= <-].
    + intros j Hj. split_and!; cbn; [congruence|done|]. intros [_ Hc]. exfalso. rewrite Hl in Hc.
      apply (f_equal length) in Ho, Hc. rewrite length_app in Ho. cbn in Ho. lia.
  - apply (IH _ (os1 ++ [o])); [done|done|cbn; by rewrite Hl|by rewrite <- app_assoc|done].
Qed.

Lemma one_time_init_ok i σ : i < n → controlMtx σ ≠ Some i → once_inv σ →
  once_rg i (one_time_init (writes os)) (once_post i) σ.
Proof.
  intros Hi Hm HI0. unfold one_time_init, sys at 1. cbn [bind].
  intros σ1 (_ & H2 & _) HI. cbn. destruct (controlMtx σ1) as [j|] eqn:E1.
  { split; [|by rewrite E1]. intros E. rewrite E1 in E. injection E as ->. auto. }
  destruct HI as [I1 I2 I3 I4]. split.
  { split; [constructor; cbn; try done; by intros j [= <-]|].
    intros j Hj. split_and!; cbn; [by rewrite E1|congruence|by intros [? ?]]. }
  set (σ2 := Control (fired σ1) (Some i) (log σ1)).
  intros σ3 (H3 & _) HI3. rewrite (H3 eq_refl) in *. clear H3 σ3. cbn. split; [by split|].
  destruct (fired σ1) eqn:Ef; cbn [negb bind].
  - apply once_unlock; [done|done|]. by destruct (I3 E1 eq_refl).
  - intros σ3 (H3 & _) HI3'. rewrite (H3 eq_refl) in *. clear H3 σ3. cbn. split.
    + split; [constructor; cbn; try done; by intros j [= <-]|].
      intros j Hj. split_and!; cbn; [congruence|done|by intros [? ?]].
    + apply (once_writes _ _ []); [done|done|done|by apply I2|done|]. intros σ' Hm' Hc. by apply once_unlock.
Qed.

Lemma once_start_good :
  good once_machine once_inv once_rely once_waits once_post n
    (Control false None [], repeat (one_time_init (writes os)) n).
Proof.
  assert (once_inv (Control false None [])) as HI by (constructor; cbn; try done; apply prefix_nil).
  split; [done|]. split; [apply repeat_length|]. cbn. intros i p Hp.
  pose proof (lookup_lt_Some _ _ _ Hp) as Hi. rewrite repeat_length in Hi.
  apply list_elem_of_lookup_2, list_elem_of_In, repeat_spec in Hp as ->. by apply one_time_init_ok.
Qed.

Lemma once_wait c i : good once_machine once_inv once_rely once_waits once_post n c → once_waits i c.1 →
  ∃ j p, c.2 !! j = Some p ∧ finished p = false ∧ ¬ once_waits j c.1.
Proof.
  intros (HI & Hlen & Hg) [_ [j Hj]]. destruct (lookup_lt_is_Some_2 c.2 j) as [p Hp].
  { rewrite Hlen. by apply (o_owner _ HI). }
  exists j, p. split; [done|]. split; [|by intros [? _]].
  specialize (Hg j p Hp). destruct p as [a|h|o k|op k]; [| |done..];
    by destruct (Hg c.1 ltac:(reflexivity) HI) as (_ & _ & ?).
Qed.

End once.

Lemma one_time_init_safe (n : nat) (os : list output) :
  let M := once_machine in
  initfunc = writes [Out ("HELLO " +:+ nl)] ∧
  ∀ c, rtc (cstep M) (Control false None [], repeat (one_time_init (writes os)) n) c →
  log c.1 `prefix_of` os ∧ (∀ i, ¬ faulty M i c) ∧
  (∀ i a, c.2 !! i = Some (Ret a) → a = 0%Z ∧ fired c.1 = true ∧ log c.1 = os) ∧
  (∀ i h, c.2 !! i ≠ Some (Stop h)) ∧
  (Forall (λ p, finished p = true) c.2 ∨ ∃ c', cstep M c c') ∧
  (∃ c', rtc (cstep M) c c' ∧ Forall (λ p, finished p = true) c'.2) ∧
  Acc (flip (cstep M)) c.
Proof.
  intros M. split; [done|]. intros c Hs.
  destruct (rg_sound _ _ _ _ _ _ _ _ (once_start_good n os) Hs) as (Hgood & Hfault & Hret & Hstop).
  pose proof (rg_completes _ _ _ _ _ _ c (once_wait n os) Hgood) as Hend. split_and!.
  - apply (proj1 Hgood).
  - done.
  - intros i a Ha. destruct (Hret i a Ha) as ([= ->] & [Hf Hl] & _). done.
  - intros i h Hh. by destruct (Hstop i h Hh).
  - destruct Hend as (c' & Hc' & Hf). inversion Hc'; subst; [by left|right; eauto].
  - done.
  - apply cstep_terminates.
Qed.

(** ** thread_incr.c *)

Inductive incr_op := LoadGlob | StoreGlob (v : Z).
Definition incr_ans (c : incr_op) : Type := match c with LoadGlob => Z | _ => unit end.
Canonical Structure incr_sig : sig := Sig incr_op incr_ans.

(** [threadFunc] with the loop limit and the identifier of its argument; the
    increment of an [int] that holds [INT_MAX] is undefined. *)
Definition print_glob (tid : string) : prog incr_sig unit :=
  g <- sys LoadGlob;;
  printf (tid +:+ ": Current value of glob is " +:+ zstr g +:+ nl).

Definition threadFunc (loops : nat) (tid : string) : prog incr_sig unit :=
  print_glob tid ;;;
  for_each (seq 0 loops) (λ _ _,
    loc <- sys LoadGlob;;
    (if (loc =? INT_MAX)%Z then undef "signed overflow" else Ret tt) ;;;
    sys (StoreGlob (loc + 1)) ;;;
    print_glob tid) tt.

(** [main]; [glob] is what the last [printf] reads after both threads ended. *)
Section main.
Context (ename strerror : Z → string).
Local Abbreviation errExitEN := (errExitEN ename strerror).

Definition SIZEOF_PARAM : Z := 16.

Definition thread_incr_main (glob : Z) (argv : list string) : prog posix Z :=
  loops <- (if 1 <? length argv then getInt (argv !! 1) GN_GT_0 (Some "num-loops"%string) else Ret 10000000%Z);;
  param1 <- sys (Malloc SIZEOF_PARAM);;
  if (ret param1 =? 0)%Z then perror "malloc" (errno param1) ;;; exit EXIT_FAILURE else
  param2 <- sys (Malloc SIZEOF_PARAM);;
  if (ret param1 =? 0)%Z then perror "malloc" (errno param2) ;;; exit EXIT_FAILURE else
  sys (Malloc 9) ;;;
  if (ret param2 =? 0)%Z then undef "store through a null pointer" else
  sys (Malloc 9) ;;;
  s <- sys PthreadCreate;;
  if negb (ret s =? 0)%Z then errExitEN (ret s) "pthread_create" [] else
  s <- sys PthreadCreate;;
  if negb (ret s =? 0)%Z then errExitEN (ret s) "pthread_create" [] else
  s <- sys PthreadJoin;;
  if negb (ret s =? 0)%Z then errExitEN (ret s) "pthread_join" [] else
  s <- sys PthreadJoin;;
  if negb (ret s =? 0)%Z then errExitEN (ret s) "pthread_join" [] else
  printf ("glob = " +:+ zstr glob +:+ nl) ;;;
  exit EXIT_SUCCESS.
End main.

(** The shared variable; [stores] counts the stores of each thread, which no
    thread reads. *)
Record counter := Counter { glob : Z; stores : nat → nat }.

Definition incr_step (i : nat) (c : incr_op) (σ : counter) : mresult (incr_ans c) counter :=
  match c with
  | LoadGlob => MOk (glob σ) σ
  | StoreGlob v => MOk tt (Counter v (λ j, if decide (j = i) then S (stores σ j) else stores σ j))
  end.

Definition incr_machine : machine incr_sig counter := Machine incr_sig counter incr_step (λ _ _ σ, σ).

Definition incr_rely (i : nat) (σ σ' : counter) : Prop :=
  stores σ' i = stores σ i ∧ stores σ 0 + stores σ 1 ≤ stores σ' 0 + stores σ' 1.

#[global] Instance incr_rely_preorder i : PreOrder (incr_rely i).
Proof. split; [done|]. intros a b c [H1 H2] [H3 H4]. split; [congruence|lia]. Qed.

Section incr.
Context (loops : nat) (Hpos : 0 < loops) (Hmax : (2 * Z.of_nat loops <= INT_MAX)%Z).

Record incr_inv (σ : counter) : Prop := {
  c_upper : (0 <= glob σ <= Z.of_nat (stores σ 0 + stores σ 1))%Z;
  c_one : 0 < stores σ 0 + stores σ 1 → (1 <= glob σ)%Z;
  c_limit : stores σ 0 ≤ loops ∧ stores σ 1 ≤ loops;
  c_end : stores σ 0 = loops → stores σ 1 = loops → (Z.of_nat (Nat.min 2 loops) <= glob σ)%Z
}.

Abbreviation incr_rg := (rg incr_machine incr_inv incr_rely (λ _ _, False)).

Lemma incr_load i {B} (k : Z → prog incr_sig B) Q σ :
  (∀ σ', incr_inv σ' → incr_rely i σ σ' → incr_rg i (k (glob σ')) Q σ') → incr_rg i (Sys LoadGlob k) Q σ.
Proof.
  intros Hk σ' Hr HI. cbn. split; [|by apply Hk]. split; [done|]. intros j _. reflexivity.
Qed.

Lemma incr_print i tid Q σ :
  (∀ σ', incr_inv σ' → incr_rely i σ σ' → Q (Returned tt) σ') → incr_rg i (print_glob tid) Q σ.
Proof.
  intros HQ. unfold print_glob, sys, printf, put. cbn [bind]. apply incr_load. intros σ1 H1 Hr1 σ2 Hr2 H2. cbn.
  split; [split; [done|]; intros j _; reflexivity|]. intros σ3 Hr3 H3. apply HQ; [done|]. etrans; [done|]. by etrans.
Qed.

Lemma incr_store i (Hi : i < 2) v {B} (k : unit → prog incr_sig B) Q σ d :
  stores σ i = d → d < loops → (0 <= v <= Z.of_nat (stores σ 0 + stores σ 1))%Z → (0 < d → (1 <= v)%Z) →
  (∀ σ', incr_inv σ' → stores σ' i = S d → incr_rg i (k tt) Q σ') →
  incr_rg i (Sys (StoreGlob (v + 1)) k) Q σ.
Proof.
  intros Hd Hlt Hv H1 Hk σ' [Hr1 Hr2] HI. cbn.
  set (σ'' := Counter (v + 1) (λ j, if decide (j = i) then S (stores σ' j) else stores σ' j)).
  assert (∀ j, stores σ'' j = if decide (j = i) then S (stores σ' j) else stores σ' j) as Hs by done.
  assert (i = 0 ∨ i = 1) as Hi01 by lia.
  assert (incr_inv σ'') as HI'.
  { pose proof (c_limit _ HI) as [HL0 HL1].
    assert (stores σ'' 0 + stores σ'' 1 = S (stores σ' 0 + stores σ' 1)) as Hsum.
    { rewrite !Hs. destruct Hi01 as [->| ->]; repeat case_decide; lia. }
    constructor.
    - rewrite Hsum. cbn. lia.
    - cbn. lia.
    - rewrite !Hs. rewrite Hd in Hr1. destruct Hi01 as [->| ->]; repeat case_decide; lia.
    - intros H0 H0'. change (glob σ'') with (v + 1)%Z. assert (S d = loops).
      { rewrite <- Hd, <- Hr1. rewrite Hs in H0, H0'. destruct Hi01 as [->| ->]; repeat case_decide; lia. }
      destruct (decide (d = 0)) as [->|Hn]; lia. }
  split; [split; [done|]|apply Hk; [done|]].
  - intros j Hj. split; [by rewrite Hs, decide_False|]. rewrite !Hs. destruct Hi01 as [->| ->]; repeat case_decide; lia.
  - by rewrite Hs, decide_True, Hr1, Hd.
Qed.

Definition incr_post (i : nat) (r : outcome unit) (σ : counter) : Prop := r = Returned tt ∧ stores σ i = loops.

Lemma threadFunc_ok i tid σ : i < 2 → incr_inv σ → stores σ i = 0 → incr_rg i (threadFunc loops tid) (incr_post i) σ.
Proof.
  intros Hi HI Hs. unfold threadFunc. apply rg_bind; [apply incr_rely_preorder|].
  apply incr_print. intros σ1 HI1 [Hr1 _].
  assert (∀ m d u σ, incr_inv σ → stores σ i = d → d + m = loops →
    incr_rg i (for_each (seq d m) (λ _ _, loc <- sys LoadGlob;;
      (if (loc =? INT_MAX)%Z then undef "signed overflow" else Ret tt) ;;;
      sys (StoreGlob (loc + 1)) ;;; print_glob tid) u) (incr_post i) σ) as Hloop.
  { induction m as [|m IH]; intros d u σ2 HI2 Hd Hsum; cbn [seq for_each].
    { intros σ3 [Hr3 _] _. destruct u. split; [done|]. rewrite Hr3, Hd. lia. }
    apply rg_bind; [apply incr_rely_preorder|]. unfold sys at 1. cbn [bind]. apply incr_load.
    intros σ3 HI3 [Hr3 _]. pose proof (c_upper _ HI3). pose proof (c_limit _ HI3).
    destruct (glob σ3 =? INT_MAX)%Z eqn:E; zbool.
    { exfalso. assert (i = 0 ∨ i = 1) as [->| ->] by lia; lia. }
    unfold sys. cbn [bind]. eapply incr_store with (d := d); [done|by rewrite Hr3, Hd|lia|lia| |].
    { intros Hd0. apply (c_one _ HI3). rewrite <- Hd, <- Hr3 in Hd0.
      assert (i = 0 ∨ i = 1) as [->| ->] by lia; lia. }
    intros σ4 HI4 Hs4. apply incr_print. intros σ5 HI5 [Hr5 _].
    apply IH; [done|by rewrite Hr5, Hs4|lia]. }
  apply Hloop; [done|congruence|done].
Qed.

End incr.

Lemma thread_incr_ok (loops : nat) (tid1 tid2 : string) :
  0 < loops → (2 * Z.of_nat loops <= INT_MAX)%Z →
  let M := incr_machine in
  ∀ c, rtc (cstep M) (Counter 0 (λ _, 0), [threadFunc loops tid1; threadFunc loops tid2]) c →
  (∀ i h, c.2 !! i ≠ Some (Stop h)) ∧
  (Forall (λ p, finished p = true) c.2 → (Z.of_nat (Nat.min 2 loops) <= glob c.1 <= 2 * Z.of_nat loops)%Z) ∧
  (Forall (λ p, finished p = true) c.2 ∨ ∃ c', cstep M c c') ∧
  (∃ c', rtc (cstep M) c c' ∧ Forall (λ p, finished p = true) c'.2) ∧
  Acc (flip (cstep M)) c.
Proof.
  intros Hpos Hmax M c Hs.
  assert (good M (incr_inv loops) incr_rely (λ _ _, False) (incr_post loops) 2
    (Counter 0 (λ _, 0), [threadFunc loops tid1; threadFunc loops tid2])) as Hgood0.
  { assert (incr_inv loops (Counter 0 (λ _, 0))) as HI by (constructor; cbn; lia).
    split; [done|]. split; [done|]. cbn. intros [|[|i]] p Hp; [injection Hp as <-|injection Hp as <-|done];
      (apply threadFunc_ok; [done|done|lia|done|done]). }
  destruct (rg_sound _ _ _ _ _ _ _ _ Hgood0 Hs) as (Hgood & _ & Hret & Hstop).
  assert (∃ c', rtc (cstep M) c c' ∧ Forall (λ p, finished p = true) c'.2) as Hend.
  { eapply rg_completes; [by apply incr_rely_preorder| |exact Hgood]. by intros. }
  split_and!.
  - intros i h Hh. by destruct (Hstop i h Hh).
  - intros Hf. destruct Hgood as (HI & Hlen & _).
    assert (∀ i, i < 2 → stores c.1 i = loops) as Hall.
    { intros i Hi. destruct (lookup_lt_is_Some_2 c.2 i) as [p Hp]; [by rewrite Hlen|].
      pose proof (Forall_lookup_1 _ _ _ _ Hf Hp) as Hfin. destruct p as [a|h|o k|op k]; [|by destruct (Hstop i h Hp)|done..].
      by destruct (Hret i a Hp). }
    pose proof (c_upper _ _ HI). pose proof (c_end _ _ HI). rewrite !Hall in * by lia. lia.
  - destruct Hend as (c' & Hc' & Hf). inversion Hc'; subst; [by left|right; eauto].
  - done.
  - apply cstep_terminates.
Qed.

(** A call about a thread that succeeded, or something else. *)
Definition thread_call_ok (e : event posix) : Prop :=
  match e with
  | ECall c a => match c as c return posix_ans c → Prop with PthreadCreate | PthreadJoin => λ a, ret a = 0%Z | _ => λ _, True end a
  | _ => True
  end.

(** [main] prints [glob] only after both threads were made and joined. *)
Definition both_joined (glob : Z) (t : list (event posix)) : Prop :=
  (∃ m1 m2 d1 d2, calls t = [Malloc m1; Malloc m2; Malloc d1; Malloc d2; PthreadCreate; PthreadCreate; PthreadJoin; PthreadJoin]) ∧
  Forall thread_call_ok t ∧
  last t = Some (EOut (Out ("glob = " +:+ zstr glob +:+ nl))).

Lemma thread_incr_main_ok (ename strerror : Z → string) {W} (K : kernel posix W) w glob argv :
  wp K (thread_incr_main ename strerror glob argv) w (λ r _ t, match r with
    | Halted (Exited 0) => both_joined glob t
    | Halted (Undef why) => why = "store through a null pointer" ∧ ∃ n a, (ECall (Malloc n) a : event posix) ∈ t ∧ ret a = 0%Z
    | r => failed r
    end).
Proof.
  unfold thread_incr_main.
  assert (∀ (f : Z → prog posix Z) (Q : outcome Z → W → list (event posix) → Prop),
    (∀ z, wp K (f z) w Q) → (∀ t, Q (Halted (Exited 1)) w t) →
    wp K (z <- (if 1 <? length argv then getInt (argv !! 1) GN_GT_0 (Some "num-loops"%string) else Ret 10000000%Z);; f z) w Q) as Hopt.
  { intros f Q Hf HQ. destruct (1 <? length argv); [|apply Hf]. apply wp_getInt; [by intros|done]. }
  apply Hopt; [intros _|done]. clear Hopt. apply wpa_wp.
  assert (∀ e text b t w', vformat (to_bytes text) [] = Some b → wpa K t (errExitEN ename strerror (A := Z) e text []) w' (λ r _ t', match r with
    | Halted (Exited 0) => both_joined glob t'
    | Halted (Undef why) => why = "store through a null pointer" ∧ ∃ n a, (ECall (Malloc n) a : event posix) ∈ t' ∧ ret a = 0%Z
    | r => failed r
    end)) as Hexit.
  { intros e text b t w' Hb. unfold wpa. eapply wp_mono; [by eapply wp_report_terminate|]. intros r w1 t1 [H1 _]. by destruct r as [|[[]| | | |]|]. }
  acc_call; [|done]. destruct (ret a =? 0)%Z eqn:E1; zbool; [by acc_steps|].
  acc_call; [|done]. acc_call; [|done]. destruct (ret a0 =? 0)%Z eqn:E2; zbool.
  { acc_steps. split; [done|]. exists SIZEOF_PARAM, a0. split; [right; left|done]. }
  acc_call; [|done].
  acc_call; [|done]. destruct (negb (ret a3 =? 0)%Z) eqn:E3; zbool; [by eapply Hexit|].
  acc_call; [|done]. destruct (negb (ret a4 =? 0)%Z) eqn:E4; zbool; [by eapply Hexit|].
  acc_call; [|done]. destruct (negb (ret a5 =? 0)%Z) eqn:E5; zbool; [by eapply Hexit|].
  acc_call; [|done]. destruct (negb (ret a6 =? 0)%Z) eqn:E6; zbool; [by eapply Hexit|].
  acc_steps. cbn [app]. split_and!.
  - by eexists _, _, _, _.
  - repeat (apply Forall_cons; split; [done|]). by apply Forall_nil.
  - done.
Qed.

(** C19: the counters shared by threads.  one_time_init.c, called by any
    number of threads with an initialisation function that writes the texts [os]
    (such as [initfunc]).  In every interleaving the function has run at most
    once, a call that has returned returned 0 and the function has then run
    completely, nothing is undefined, no state is a deadlock, every execution is
    finite, and all threads can always finish.
    thread_incr.c: two threads that increment the unprotected [glob]
    [loops] times each, with the total within [int].  In every interleaving
    the increments are never undefined and the threads always finish; when
    both have finished [glob] is at most [2 * loops] and at least 2 (1 when
    [loops] is 1).  Its [main] prints [glob] and ends with status 0 only after
    both threads were made and joined; the only undefined behaviour is the store
    through the pointer of a failed malloc, which the second check lets pass. *)
Theorem shared_counters_correct :
  (∀ (n : nat) (os : list output),
  let M := once_machine in
  initfunc = writes [Out ("HELLO " +:+ nl)] ∧
  ∀ c, rtc (cstep M) (Control false None [], repeat (one_time_init (writes os)) n) c →
  log c.1 `prefix_of` os ∧ (∀ i, ¬ faulty M i c) ∧
  (∀ i a, c.2 !! i = Some (Ret a) → a = 0%Z ∧ fired c.1 = true ∧ log c.1 = os) ∧
  (∀ i h, c.2 !! i ≠ Some (Stop h)) ∧
  (Forall (λ p, finished p = true) c.2 ∨ ∃ c', cstep M c c') ∧
  (∃ c', rtc (cstep M) c c' ∧ Forall (λ p, finished p = true) c'.2) ∧
  Acc (flip (cstep M)) c) ∧
  (∀ (loops : nat) (tid1 tid2 : string),
  0 < loops → (2 * Z.of_nat loops <= INT_MAX)%Z →
  let M := incr_machine in
  ∀ c, rtc (cstep M) (Counter 0 (λ _, 0), [threadFunc loops tid1; threadFunc loops tid2]) c →
  (∀ i h, c.2 !! i ≠ Some (Stop h)) ∧
  (Forall (λ p, finished p = true) c.2 → (Z.of_nat (Nat.min 2 loops) <= glob c.1 <= 2 * Z.of_nat loops)%Z) ∧
  (Forall (λ p, finished p = true) c.2 ∨ ∃ c', cstep M c c') ∧
  (∃ c', rtc (cstep M) c c' ∧ Forall (λ p, finished p = true) c'.2) ∧
  Acc (flip (cstep M)) c) ∧
  (∀ (ename strerror : Z → string) {W} (K : kernel posix W) w glob argv,
  wp K (thread_incr_main ename strerror glob argv) w (λ r _ t, match r with
    | Halted (Exited 0) => both_joined glob t
    | Halted (Undef why) => why = "store through a null pointer" ∧ ∃ n a, (ECall (Malloc n) a : event posix) ∈ t ∧ ret a = 0%Z
    | r => failed r
    end)).
Proof. split; [exact one_time_init_safe|split; [exact thread_incr_ok|exact (@thread_incr_main_ok)]]. Qed.

(** Both bounds are reached: by one thread after the other, and by the schedule that
    loses all but two increments: each thread's last store undoes the other's work. *)
Definition incr_run (loops : nat) (sch : list nat) : config (A := unit) :=
  schedule incr_machine sch (Counter 0 (λ _, 0), [threadFunc loops "Thread 1"; threadFunc loops "Thread 2"]).

Lemma shared_counters_correct_witness :
  let slow := incr_run 3 (repeat 0 3 ++ repeat 1 10 ++ [0; 1] ++ repeat 0 30 ++ repeat 1 30) in
  let fast := incr_run 3 (repeat 0 30 ++ repeat 1 30) in
  glob slow.1 = 2%Z ∧ glob fast.1 = 6%Z ∧ (2 <= glob slow.1 <= 6)%Z ∧ (2 <= glob fast.1 <= 6)%Z.
Proof.
  destruct shared_counters_correct as (_ & H & _). cbn zeta. split; [vm_compute; reflexivity|]. split; [vm_compute; reflexivity|]. split.
  - apply (H 3 "Thread 1" "Thread 2" ltac:(lia) ltac:(vm_compute; discriminate) _ (schedule_steps _ _ _)).
    vm_compute. repeat constructor.
  - apply (H 3 "Thread 1" "Thread 2" ltac:(lia) ltac:(vm_compute; discriminate) _ (schedule_steps _ _ _)).
    vm_compute. repeat constructor.
Defined.
