(* ===== verification/InetSockets.v ===== *)
(** * Sockets, descriptors and daemons

    The contract of the calls that make and release descriptors and processes
    ([NetKernel]), the functions of inet_sockets.c and [becomeDaemon] of
    become_daemon.c (CH60). *)
From Stdlib Require Import ZArith Lia Ascii String.
From stdpp Require Import base gmap strings list.
From S2P Require Import Prelude Prog CString Posix FileSys Kernels.
Local Open Scope prog_scope.

(** ** The contract *)

(** What a process has: its descriptors with what they refer to, its working
    directory and file mode mask, and whether it leads its session. *)
Record netview := NetView {
  nfds : gmap Z string;
  cwd : string;
  fmask : Z;
  leader : bool
}.

Definition set_nfds (f : gmap Z string) (v : netview) : netview := NetView f (cwd v) (fmask v) (leader v).

(** A call that makes a descriptor for [what]. *)
Definition new_fd (what : string) (v : netview) (a : rc) (v' : netview) : Prop :=
  (ret a = (-1)%Z ∧ v' = v) ∨
  ((0 <= ret a)%Z ∧ nfds v !! ret a = None ∧ v' = set_nfds (<[ret a := what]> (nfds v)) v).

Definition net_step (v : netview) (c : posix_op) : posix_ans c → netview → Prop :=
  match c with
  | Socket _ _ _ => new_fd "socket" v
  | Accept _ => new_fd "connection" v
  | Open path _ _ => λ a v', new_fd path v a v' ∧
      ((0 <= ret a)%Z → ∀ k, (0 <= k < ret a)%Z → is_Some (nfds v !! k))
  | Close fd => λ _ v', v' = set_nfds (delete fd (nfds v)) v
  | Dup2 old new => λ a v', (ret a = (-1)%Z ∧ v' = v) ∨
      ∃ what, nfds v !! old = Some what ∧ ret a = new ∧ v' = set_nfds (<[new := what]> (nfds v)) v
  | Fork => λ a v', v' = if (ret a =? 0)%Z then NetView (nfds v) (cwd v) (fmask v) false else v
  | Setsid => λ a v', (ret a = (-1)%Z ∧ v' = v) ∨ v' = NetView (nfds v) (cwd v) (fmask v) true
  | Umask m => λ _ v', v' = NetView (nfds v) (cwd v) m (leader v)
  | Chdir p => λ a v', (ret a = (-1)%Z ∧ v' = v) ∨ (ret a = 0%Z ∧ v' = NetView (nfds v) p (fmask v) (leader v))
  | Connect _ _ | Bind _ _ | Listen _ _ | Setsockopt _ _ | Sysconf _ | Freeaddrinfo => λ _ v', v' = v
  | Getaddrinfo _ _ _ _ | Getnameinfo _ => λ _ v', v' = v
  | _ => λ _ _, True
  end.

Class NetKernel {W} (K : kernel posix W) (view : W → netview) : Prop :=
  net_kernel c w a w' : K c w = Answer a w' → net_step (view w) c a (view w').

(** ** inet_sockets.c *)

Definition AF_UNSPEC : Z := 0.
Definition SOCK_STREAM : Z := 1.
Definition AI_PASSIVE : Z := 1.
Definition SO_REUSEADDR : Z := 2.

(** The walk of [inetConnect] through the addresses: the socket connected, or
    [None] when [rp] became NULL; with [errno]. *)
Fixpoint connect_first (addrs : list addrinfo) (e : Z) : prog posix (option Z * Z) :=
  match addrs with
  | [] => Ret (None, e)
  | rp :: rest =>
      s <- sys (Socket (ai_family rp) (ai_socktype rp) (ai_protocol rp));;
      if (ret s =? -1)%Z then connect_first rest (errno s) else
      c <- sys (Connect (ret s) (ai_addr rp));;
      if negb (ret c =? -1)%Z then Ret (Some (ret s), errno c) else
      c <- sys (Close (ret s));;
      connect_first rest (errno c)
  end.

(** The value returned and [errno]. *)
Definition inetConnect (host : option string) (service : string) (type : Z) : prog posix rc :=
  '(s, result) <- sys (Getaddrinfo host service type 0);;
  if negb (ret s =? 0)%Z then Ret (Rc (-1) ENOSYS) else
  '(rp, e) <- connect_first result (errno s);;
  f <- sys Freeaddrinfo;;
  Ret (Rc (match rp with None => -1 | Some sfd => sfd end) (errno f)).

(** The walk of [inetPassiveSocket]: the socket bound with its address, [None]
    when [rp] became NULL, or a failed [setsockopt], at which the function
    returns ([inr]). *)
Fixpoint bind_first (doListen : bool) (addrs : list addrinfo) (e : Z) : prog posix (option (Z * addrinfo) + Z) :=
  match addrs with
  | [] => Ret (inl None)
  | rp :: rest =>
      s <- sys (Socket (ai_family rp) (ai_socktype rp) (ai_protocol rp));;
      if (ret s =? -1)%Z then bind_first doListen rest (errno s) else
      opt <- (if doListen then o <- sys (Setsockopt (ret s) SO_REUSEADDR);; Ret (ret o =? -1)%Z else Ret false);;
      if opt : bool then
        sys (Close (ret s)) ;;;
        f <- sys Freeaddrinfo;;
        Ret (inr (errno f))
      else
      b <- sys (Bind (ret s) (ai_addr rp));;
      if (ret b =? 0)%Z then Ret (inl (Some (ret s, rp))) else
      c <- sys (Close (ret s));;
      bind_first doListen rest (errno c)
  end.

(** [addrlen] is the variable the caller's pointer refers to ([None] for a NULL
    pointer); its value after the call is returned with the descriptor. *)
Definition inetPassiveSocket (service : string) (type : Z) (addrlen : option Z) (doListen : bool) (backlog : Z) :
    prog posix (rc * option Z) :=
  '(s, result) <- sys (Getaddrinfo None service type AI_PASSIVE);;
  if negb (ret s =? 0)%Z then Ret (Rc (-1) (errno s), addrlen) else
  found <- bind_first doListen result (errno s);;
  match found with
  | inr e => Ret (Rc (-1) e, addrlen)
  | inl rp =>
      l <- (match rp with
        | Some (sfd, _) =>
            if doListen then l <- sys (Listen sfd backlog);; Ret (ret l =? -1)%Z else Ret false
        | None => Ret false
        end);;
      if l : bool then
        f <- sys Freeaddrinfo;;
        Ret (Rc (-1) (errno f), addrlen)
      else
      let addrlen := match rp, addrlen with
        | Some (_, ai), Some _ => Some (ai_addrlen ai)
        | _, _ => addrlen
        end in
      f <- sys Freeaddrinfo;;
      Ret (Rc (match rp with None => -1 | Some (sfd, _) => sfd end) (errno f), addrlen)
  end.

Definition inetListen (service : string) (backlog : Z) (addrlen : option Z) :=
  inetPassiveSocket service SOCK_STREAM addrlen true backlog.
Definition inetBind (service : string) (type : Z) (addrlen : option Z) :=
  inetPassiveSocket service type addrlen false 0.

(** [snprintf] into a buffer of [n] bytes. *)
Definition snprintf (n : Z) (s : string) : string := String.substring 0 (Z.to_nat (n - 1)) s.

Definition inetAddressStr (addr : string) (addrStrLen : Z) : prog posix string :=
  '(s, (host, service)) <- sys (Getnameinfo addr);;
  if (ret s =? 0)%Z then Ret (snprintf addrStrLen ("(" +:+ host +:+ ", " +:+ service +:+ ")"))
  else Ret (snprintf addrStrLen "(?UNKNOWN?)").

Lemma length_substring s n m : String.length (String.substring n m s) ≤ m.
Proof.
  revert n m. induction s as [|c s IH]; intros [|n] [|m]; cbn; try lia; [|apply IH|apply IH].
  specialize (IH 0 m). lia.
Qed.

(** ** become_daemon.c *)

Definition BD_NO_CHDIR : Z := 1.
Definition BD_NO_CLOSE_FILES : Z := 2.
Definition BD_NO_REOPEN_STD_FDS : Z := 4.
Definition BD_NO_UMASK0 : Z := 8.
Definition BD_MAX_CLOSE : Z := 8192.
Definition SC_OPEN_MAX : Z := 4.

(** A fork after which only the child goes on; the [errno] of a failure. *)
Definition fork_away : prog posix (option Z) :=
  f <- sys Fork;;
  if (ret f =? -1)%Z then Ret (Some (errno f))
  else if (ret f =? 0)%Z then Ret None
  else quick_exit EXIT_SUCCESS.

Definition reopen_std : prog posix rc :=
  sys (Close STDIN_FILENO) ;;;
  fd <- sys (Open "/dev/null" O_RDWR 0);;
  if negb (ret fd =? STDIN_FILENO)%Z then Ret (Rc (-1) (errno fd)) else
  d <- sys (Dup2 STDIN_FILENO STDOUT_FILENO);;
  if negb (ret d =? STDOUT_FILENO)%Z then Ret (Rc (-1) (errno d)) else
  d <- sys (Dup2 STDIN_FILENO STDERR_FILENO);;
  if negb (ret d =? STDERR_FILENO)%Z then Ret (Rc (-1) (errno d)) else
  Ret (Rc 0 0).

Definition close_files_below : prog posix unit :=
  m <- sys (Sysconf SC_OPEN_MAX);;
  let maxfd := to_int (ret m) in
  let maxfd := if (maxfd =? -1)%Z then BD_MAX_CLOSE else maxfd in
  for_each (Z.of_nat <$> seq 0 (Z.to_nat maxfd)) (λ fd _, sys (Close fd) ;;; Ret tt) tt.

(** The value returned, and [errno] when it is -1. *)
Definition becomeDaemon (flags : Z) : prog posix rc :=
  f <- fork_away;;
  match f with Some e => Ret (Rc (-1) e) | None =>
  s <- sys Setsid;;
  if (ret s =? -1)%Z then Ret (Rc (-1) (errno s)) else
  f <- fork_away;;
  match f with Some e => Ret (Rc (-1) e) | None =>
  when (negb (flag_set flags BD_NO_UMASK0)) (sys (Umask 0) ;;; Ret tt) ;;;
  when (negb (flag_set flags BD_NO_CHDIR)) (sys (Chdir "/") ;;; Ret tt) ;;;
  when (negb (flag_set flags BD_NO_CLOSE_FILES)) close_files_below ;;;
  if negb (flag_set flags BD_NO_REOPEN_STD_FDS) then reopen_std else Ret (Rc 0 0)
  end end.

(** ** Correctness *)

Lemma set_nfds_id v : set_nfds (nfds v) v = v.
Proof. by destruct v. Qed.

Lemma set_nfds_close v fd what : nfds v !! fd = None →
  set_nfds (delete fd (nfds (set_nfds (<[fd := what]> (nfds v)) v))) (set_nfds (<[fd := what]> (nfds v)) v) = v.
Proof. intros H. cbn. rewrite delete_insert_eq, delete_id by done. by destruct v. Qed.

(** How many address lists are allocated and not freed. *)
Fixpoint unfreed (t : list (event posix)) : Z :=
  match t with
  | [] => 0
  | ECall (Getaddrinfo _ _ _ _) a :: t' => (if (ret a.1 =? 0)%Z then 1 else 0) + unfreed t'
  | ECall Freeaddrinfo _ :: t' => -1 + unfreed t'
  | _ :: t' => unfreed t'
  end.

Lemma unfreed_app t1 t2 : unfreed (t1 ++ t2) = (unfreed t1 + unfreed t2)%Z.
Proof.
  induction t1 as [|[o|c a|c] t1 IH]; cbn; [done..| |done]. destruct c; rewrite ?IH; lia || done.
Qed.

(** What the forks of a trace returned. *)
Definition fork_ans (e : event posix) : option Z :=
  match e with ECall Fork a => Some (ret a) | _ => None end.
Definition forks (t : list (event posix)) : list Z := omap fork_ans t.

Lemma forks_app t1 t2 : forks (t1 ++ t2) = forks t1 ++ forks t2.
Proof. apply omap_app. Qed.

Section net.
Context {W : Type} (K : kernel posix W) (view : W → netview) `{HN : !NetKernel K view}.

Ltac net H := apply net_kernel in H; cbn in H.

(** A socket for one of the addresses was made, and is all that is new. *)
Definition one_socket (addrs : list addrinfo) (w w' : W) (sfd : Z) (rp : addrinfo) : Prop :=
  rp ∈ addrs ∧ (0 <= sfd)%Z ∧ nfds (view w) !! sfd = None ∧
  view w' = set_nfds (<[sfd := "socket"]> (nfds (view w))) (view w).

Lemma connect_first_ok addrs e w : wp K (connect_first addrs e) w (λ r w' t, match r with
  | Returned (None, _) => view w' = view w ∧ unfreed t = 0%Z
  | Returned (Some sfd, _) => unfreed t = 0%Z ∧ ∃ rp, one_socket addrs w w' sfd rp ∧
      called t (Connect sfd (ai_addr rp)) (λ a, ret a ≠ (-1)%Z)
  | r => r = Gone
  end).
Proof.
  revert e w. induction addrs as [|rp rest IH]; intros e w; cbn [connect_first]; [by apply wp_ret|].
  assert (∀ sfd w1 w2 rp', view w1 = view w → one_socket rest w1 w2 sfd rp' → one_socket (rp :: rest) w w2 sfd rp') as Hstep.
  { intros sfd w1 w2 rp' E (H1 & H2). rewrite E in H2. split; [by right|done]. }
  prog_call. destruct (ret a =? -1)%Z eqn:Ha; zbool.
  - net H. destruct H as [[_ Hv]|[? _]]; [|lia]. eapply wp_mono; [apply IH|].
    intros [[[sfd|] e']|h|] w2 t H; cbn; [|by rewrite <- Hv| done..].
    destruct H as (Hu & rp' & H1 & H2). split; [done|]. exists rp'. split; [by eapply Hstep|by apply called_cons].
  - net H. destruct H as [[? _]|(Hpos & Hnew & Hv)]; [done|]. prog_call. net H.
    destruct (ret a0 =? -1)%Z eqn:Hc; zbool; cbn [negb].
    + prog_call. net H0. assert (view w'1 = view w) as Hv1.
      { rewrite H0, H, Hv. by apply set_nfds_close. }
      eapply wp_mono; [apply IH|]. intros [[[sfd|] e']|h|] w2 t H2; cbn; [|by rewrite <- Hv1| done..].
      destruct H2 as (Hu & rp' & H2 & H3). split; [done|]. exists rp'. split; [by eapply Hstep|by do 3 apply called_cons].
    + apply wp_ret. split; [done|]. exists rp. split.
      * split; [left|]. rewrite H. done.
      * exists a0. split; [right; left|done].
Qed.

Lemma bind_first_ok doListen addrs e w : wp K (bind_first doListen addrs e) w (λ r w' t, match r with
  | Returned (inl None) => view w' = view w ∧ unfreed t = 0%Z
  | Returned (inl (Some (sfd, rp))) => unfreed t = 0%Z ∧ one_socket addrs w w' sfd rp ∧
      called t (Bind sfd (ai_addr rp)) (λ a, ret a = 0%Z) ∧
      (doListen = true → called t (Setsockopt sfd SO_REUSEADDR) (λ a, ret a ≠ (-1)%Z))
  | Returned (inr _) => view w' = view w ∧ unfreed t = (-1)%Z
  | r => r = Gone
  end).
Proof.
  revert e w. induction addrs as [|rp rest IH]; intros e w; cbn [bind_first]; [by apply wp_ret|].
  assert (∀ sfd w1 w2 rp', view w1 = view w → one_socket rest w1 w2 sfd rp' → one_socket (rp :: rest) w w2 sfd rp') as Hstep.
  { intros sfd w1 w2 rp' E (H1 & H2). rewrite E in H2. split; [by right|done]. }
  assert (∀ e w1 t1, view w1 = view w → unfreed t1 = 0%Z → wp K (bind_first doListen rest e) w1 (λ r w' t, match r with
    | Returned (inl None) => view w' = view w ∧ unfreed (t1 ++ t) = 0%Z
    | Returned (inl (Some (sfd, rp'))) => unfreed (t1 ++ t) = 0%Z ∧ one_socket (rp :: rest) w w' sfd rp' ∧
        called (t1 ++ t) (Bind sfd (ai_addr rp')) (λ a, ret a = 0%Z) ∧
        (doListen = true → called (t1 ++ t) (Setsockopt sfd SO_REUSEADDR) (λ a, ret a ≠ (-1)%Z))
    | Returned (inr _) => view w' = view w ∧ unfreed (t1 ++ t) = (-1)%Z
    | r => r = Gone end)) as Hrest.
  { intros e' w1 t1 E Ht. eapply wp_mono; [apply IH|]. intros [[[[sfd rp']|]|e2]|h|] w2 t H; rewrite ?unfreed_app, ?Ht; cbn; try done.
    - destruct H as (Hu & H1 & H2 & H3). split; [done|]. split; [by eapply Hstep|].
      split; [by apply called_app_r|]. intros Hd. by apply called_app_r, H3.
    - by rewrite <- E.
    - by rewrite <- E. }
  prog_call. net H. destruct (ret a =? -1)%Z eqn:Ha; zbool.
  { destruct H as [[_ Hv]|[? _]]; [|lia]. by apply (Hrest _ _ [_]). }
  destruct H as [[? _]|(Hpos & Hnew & Hv)]; [done|].
  assert (∀ w1 t1, view w1 = view w' → unfreed t1 = 0%Z →
    (doListen = true → called t1 (Setsockopt (ret a) SO_REUSEADDR) (λ a, ret a ≠ (-1)%Z)) →
    wp K (b <- sys (Bind (ret a) (ai_addr rp));;
      if (ret b =? 0)%Z then Ret (inl (Some (ret a, rp))) else
      c <- sys (Close (ret a));;
      bind_first doListen rest (errno c)) w1 (λ r w' t, match r with
    | Returned (inl None) => view w' = view w ∧ unfreed (t1 ++ t) = 0%Z
    | Returned (inl (Some (sfd, rp'))) => unfreed (t1 ++ t) = 0%Z ∧ one_socket (rp :: rest) w w' sfd rp' ∧
        called (t1 ++ t) (Bind sfd (ai_addr rp')) (λ a, ret a = 0%Z) ∧
        (doListen = true → called (t1 ++ t) (Setsockopt sfd SO_REUSEADDR) (λ a, ret a ≠ (-1)%Z))
    | Returned (inr _) => view w' = view w ∧ unfreed (t1 ++ t) = (-1)%Z
    | r => r = Gone end)) as Hbind.
  { intros w1 t1 E Ht Hopt. prog_call. net H. destruct (ret a0 =? 0)%Z eqn:Hb; zbool.
    - apply wp_ret. rewrite unfreed_app, Ht. split; [done|]. split; [|split].
      + split; [left|]. rewrite H, E. done.
      + exists a0. split; [apply elem_of_app; right; left|done].
      + intros Hd. by apply called_app_l, Hopt.
    - prog_call. net H0.
      eapply wp_mono; [apply (Hrest _ _ (t1 ++ [ECall (Bind (ret a) (ai_addr rp)) a0; ECall (Close (ret a)) a1]))|].
      + rewrite H0, H, E, Hv. by apply set_nfds_close.
      + rewrite unfreed_app, Ht. done.
      + intros r w2 t H2. cbv beta in H2. by rewrite <- app_assoc in H2. }
  destruct doListen.
  - prog_call. net H. cbn [bind]. destruct (ret a0 =? -1)%Z eqn:Ho; zbool.
    + prog_call. net H0. prog_call. net H1. apply wp_ret. split; [|done].
      rewrite H1, H0, H, Hv. by apply set_nfds_close.
    + apply (Hbind _ [_; _]); [done|done|]. intros _. exists a0. split; [right; left|done].
  - cbn [bind]. by apply (Hbind _ [_]).
Qed.

(** What [inetPassiveSocket] returns: a bound socket, the only new descriptor,
    with its address length stored for the caller; or -1 and nothing new, except
    when [listen] fails, which leaves the socket open. *)
Definition passive_post (service : string) (type : Z) (addrlen : option Z) (doListen : bool) (backlog : Z) (w : W)
    (r : outcome (rc * option Z)) (w' : W) (t : list (event posix)) : Prop :=
  match r with
  | Returned (c, len) => unfreed t = 0%Z ∧
      ((ret c = (-1)%Z ∧ len = addrlen ∧ view w' = view w) ∨
       (∃ result sfd rp, called t (Getaddrinfo None service type AI_PASSIVE) (λ a, a.2 = result) ∧
          one_socket result w w' sfd rp ∧ called t (Bind sfd (ai_addr rp)) (λ a, ret a = 0%Z) ∧
          (doListen = true → called t (Setsockopt sfd SO_REUSEADDR) (λ a, ret a ≠ (-1)%Z)) ∧
          ((ret c = sfd ∧ len = (λ _, ai_addrlen rp) <$> addrlen ∧
            (doListen = true → called t (Listen sfd backlog) (λ a, ret a ≠ (-1)%Z))) ∨
           (ret c = (-1)%Z ∧ len = addrlen ∧ doListen = true ∧ called t (Listen sfd backlog) (λ a, ret a = (-1)%Z)))))
  | r => r = Gone
  end.

Lemma inetPassiveSocket_ok service type addrlen doListen backlog w :
  wp K (inetPassiveSocket service type addrlen doListen backlog) w
    (passive_post service type addrlen doListen backlog w).
Proof.
  unfold inetPassiveSocket. prog_call. net H. destruct a as [s result]. cbn [fst snd] in *.
  destruct (ret s =? 0)%Z eqn:Hs; cbn [negb].
  2:{ apply wp_ret. cbn. rewrite Hs. split; [done|]. left. by rewrite H. }
  apply wp_bind. eapply wp_mono; [apply bind_first_ok|]. intros [[[[sfd rp]|]|e]|h|] w1 t1 H1; [..|done|done].
  - destruct H1 as (Hu & Hone & Hbind & Hopt). unfold one_socket in Hone. rewrite H in Hone.
    assert (called ([ECall (Getaddrinfo None service type AI_PASSIVE) (s, result)] ++ t1)
      (Getaddrinfo None service type AI_PASSIVE) (λ a, a.2 = result)) as Hcall by (exists (s, result); split; [left|done]).
    set (t0 := [ECall (Getaddrinfo None service type AI_PASSIVE) (s, result)] ++ t1) in *.
    assert (unfreed t0 = 1%Z) as Hu0 by (unfold t0; rewrite unfreed_app, Hu; cbn; by rewrite Hs).
    assert (called t0 (Bind sfd (ai_addr rp)) (λ a, ret a = 0%Z)) as Hb0 by by apply called_app_r.
    assert (doListen = true → called t0 (Setsockopt sfd SO_REUSEADDR) (λ a, ret a ≠ (-1)%Z)) as Ho0
      by (intros Hd; by apply called_app_r, Hopt).
    assert (∀ (f : rc) t2, unfreed t2 = (-1)%Z → unfreed (t0 ++ t2) = 0%Z) as Huf
      by (intros _ t2 H2; rewrite unfreed_app, Hu0, H2; done).
    destruct doListen.
    + prog_call. net H0. cbn [bind]. destruct (ret a =? -1)%Z eqn:Hl; zbool.
      * prog_call. net H1. apply wp_ret. split; [by apply (Huf a)|]. right. exists result, sfd, rp.
        split; [by apply (called_app_l t0)|]. split; [unfold one_socket; by rewrite H1, H0|].
        split; [by apply (called_app_l t0)|]. split; [intros _; by apply (called_app_l t0), Ho0|]. right.
        split_and!; [done|done|done|]. apply (called_app_r t0). exists a. split; [left|done].
      * prog_call. net H1. apply wp_ret. split; [by apply (Huf a)|]. right. exists result, sfd, rp.
        split; [by apply (called_app_l t0)|]. split; [unfold one_socket; by rewrite H1, H0|].
        split; [by apply (called_app_l t0)|]. split; [intros _; by apply (called_app_l t0), Ho0|]. left.
        split; [done|]. split; [by destruct addrlen|]. intros _. apply (called_app_r t0). exists a. split; [left|done].
    + cbn [bind]. prog_call. net H0. apply wp_ret. split; [by apply (Huf s)|]. right. exists result, sfd, rp.
      split; [by apply (called_app_l t0)|]. split; [unfold one_socket; by rewrite H0|].
      split; [by apply (called_app_l t0)|]. split; [done|]. left. split; [done|]. split; [by destruct addrlen|done].
  - destruct H1 as (Hv & Hu). cbn [bind]. prog_call. net H0. apply wp_ret.
    split; [cbn; rewrite Hs, unfreed_app, Hu; done|]. left. split; [done|]. split; [done|]. by rewrite H0, Hv, H.
  - destruct H1 as (Hv & Hu). apply wp_ret. split; [cbn; rewrite Hs, unfreed_app, Hu; done|]. left.
    split; [done|]. split; [done|]. by rewrite Hv, H.
Qed.

(** inet_sockets.c, for every kernel that keeps the descriptor contract.
    [inetConnect] returns either a new socket that a [connect] to one of the
    addresses found succeeded on, which is then the only new descriptor, or -1
    and no new descriptor.  [inetBind] returns a socket that is bound, and
    [inetListen] one that is also listening with SO_REUSEADDR set, with the
    length of the address stored when asked for; on failure they return -1 and
    leave nothing open, except that a socket whose [listen] fails is never
    closed.  The list of addresses is freed exactly once.  [inetAddressStr]
    always fits into the caller's buffer. *)
Lemma inet_sockets_ok (w : W) (host : option string) (service : string) (type backlog : Z) (addrlen : option Z)
    (addr : string) (addrStrLen : Z) :
  wp K (inetConnect host service type) w (λ r w' t, match r with
    | Returned c => unfreed t = 0%Z ∧
        ((ret c = (-1)%Z ∧ view w' = view w) ∨
         ∃ result rp, called t (Getaddrinfo host service type 0) (λ a, a.2 = result) ∧
           one_socket result w w' (ret c) rp ∧ called t (Connect (ret c) (ai_addr rp)) (λ a, ret a ≠ (-1)%Z))
    | r => r = Gone
    end) ∧
  wp K (inetListen service backlog addrlen) w (passive_post service SOCK_STREAM addrlen true backlog w) ∧
  wp K (inetBind service type addrlen) w (passive_post service type addrlen false 0 w) ∧
  ((0 < addrStrLen)%Z → wp K (inetAddressStr addr addrStrLen) w (λ r _ _, match r with
    | Returned s => (Z.of_nat (String.length s) < addrStrLen)%Z
    | r => r = Gone
    end)).
Proof.
  split; [|split; [|split]].
  - unfold inetConnect. prog_call. net H. destruct a as [s result]. cbn [fst snd] in *.
    destruct (ret s =? 0)%Z eqn:Hs; cbn [negb].
    2:{ apply wp_ret. cbn. rewrite Hs. split; [done|]. left. by rewrite H. }
    apply wp_bind. eapply wp_mono; [apply connect_first_ok|]. intros [[[sfd|] e]|h|] w1 t1 H1; [..|done|done].
    + destruct H1 as (Hu & rp & Hone & Hc). prog_call. net H0. apply wp_ret.
      split; [cbn; rewrite Hs, unfreed_app, Hu; done|]. right. exists result, rp. cbn [ret].
      split; [exists (s, result); split; [left|done]|].
      split; [unfold one_socket in *; by rewrite H0, <- H|]. by apply called_cons, called_app_l.
    + destruct H1 as (Hv & Hu). prog_call. net H0. apply wp_ret.
      split; [cbn; rewrite Hs, unfreed_app, Hu; done|]. left. by rewrite H0, Hv, H.
  - apply inetPassiveSocket_ok.
  - apply inetPassiveSocket_ok.
  - intros Hlen. unfold inetAddressStr. prog_call. destruct a as [s [h sv]].
    assert (∀ x, (Z.of_nat (String.length (snprintf addrStrLen x)) < addrStrLen)%Z) as Hfit.
    { intros x. unfold snprintf. pose proof (length_substring x 0 (Z.to_nat (addrStrLen - 1))). lia. }
    destruct (ret s =? 0)%Z; apply wp_ret; apply Hfit.
Qed.

Lemma fork_away_ok w : wp K fork_away w (λ r w' t, match r with
  | Returned None => forks t = [0%Z] ∧ view w' = NetView (nfds (view w)) (cwd (view w)) (fmask (view w)) false
  | Returned (Some _) => forks t ≠ [0%Z; 0%Z]
  | Halted h => h = QuickExited 0 ∧ called t Fork (λ a, ret a ≠ 0%Z ∧ ret a ≠ (-1)%Z)
  | Gone => True
  end).
Proof.
  unfold fork_away. prog_call. net H. destruct (ret a =? -1)%Z eqn:H1; [|destruct (ret a =? 0)%Z eqn:H2]; zbool.
  - apply wp_ret. cbn. congruence.
  - apply wp_ret. split; [cbn; by rewrite H2|done].
  - apply wp_stop. split; [done|]. exists a. split; [left|done].
Qed.

Lemma close_all_ok fds w : wp K (for_each fds (λ fd _, sys (Close fd) ;;; Ret tt) tt) w (λ r w' t, match r with
  | Returned _ => view w' = set_nfds (foldl (λ m fd, delete fd m) (nfds (view w)) fds) (view w) ∧ forks t = []
  | r => r = Gone
  end).
Proof.
  revert w. induction fds as [|fd fds IH]; intros w; cbn [for_each].
  - apply wp_ret. cbn. by rewrite set_nfds_id.
  - prog_call. net H. apply wp_ret. eapply wp_mono; [apply IH|]. intros [[]|h|] w2 t H2; [|done..].
    destruct H2 as [H2 Hf]. split; [by rewrite H2, H|exact Hf].
Qed.

(** The standard descriptors on /dev/null. *)
Definition std_null (m : gmap Z string) : gmap Z string :=
  <[STDERR_FILENO := "/dev/null"]> (<[STDOUT_FILENO := "/dev/null"]> (<[STDIN_FILENO := "/dev/null"]> (delete STDIN_FILENO m))).

Lemma reopen_std_ok w : wp K reopen_std w (λ r w' t, match r with
  | Returned z => (z = Rc 0 0 ∧ forks t = [] ∧ view w' = set_nfds (std_null (nfds (view w))) (view w)) ∨ ret z = (-1)%Z
  | r => r = Gone
  end).
Proof.
  unfold reopen_std. prog_call. net H. prog_call. net H0. destruct H0 as [H0 _].
  destruct (ret a0 =? STDIN_FILENO)%Z eqn:E0; zbool; cbn [negb]; [|apply wp_ret; by right].
  destruct H0 as [[H0 _]|(_ & _ & H0)]; [rewrite H0 in E0; done|].
  prog_call. net H1. destruct (ret a1 =? STDOUT_FILENO)%Z eqn:E1; zbool; cbn [negb]; [|apply wp_ret; by right].
  destruct H1 as [[H1 _]|(x & Hx & _ & H1)]; [rewrite H1 in E1; done|].
  rewrite H0, E0 in Hx. cbn in Hx. rewrite lookup_insert_eq in Hx. injection Hx as <-.
  prog_call. net H2. destruct (ret a2 =? STDERR_FILENO)%Z eqn:E2; zbool; cbn [negb]; [|apply wp_ret; by right].
  destruct H2 as [[H2 _]|(y & Hy & _ & H2)]; [rewrite H2 in E2; done|].
  rewrite H1, H0, E0 in Hy. cbn in Hy. rewrite lookup_insert_ne, lookup_insert_eq in Hy by done. injection Hy as <-.
  apply wp_ret. left. split; [done|]. split; [done|]. rewrite H2, H1, H0, H, E0. done.
Qed.

(** The descriptors left after the loop over [0 .. maxfd-1]. *)
Definition closed_below (maxfd : Z) (m m' : gmap Z string) : Prop :=
  ∀ fd, m' !! fd = if decide (0 <= fd < maxfd)%Z then None else m !! fd.

Lemma closed_below_ok maxfd m : closed_below maxfd m (foldl (λ m fd, delete fd m) m (Z.of_nat <$> seq 0 (Z.to_nat maxfd))).
Proof.
  assert (∀ (fds : list Z) (m : gmap Z string) fd, foldl (λ m fd, delete fd m) m fds !! fd =
    if decide (fd ∈ fds) then None else m !! fd) as Hfold.
  { induction fds as [|f fds IH]; intros m0 fd; cbn [foldl]; [by rewrite decide_False by apply not_elem_of_nil|].
    rewrite IH. destruct (decide (fd ∈ fds)) as [H|H]; [by rewrite decide_True by (by right)|].
    destruct (decide (fd = f)) as [->|Hne].
    - rewrite lookup_delete_eq. by rewrite decide_True by left.
    - rewrite lookup_delete_ne by done. rewrite decide_False; [done|]. by intros [?|?]%elem_of_cons. }
  intros fd. rewrite Hfold. destruct (decide (0 <= fd < maxfd)%Z) as [H|H].
  - rewrite decide_True; [done|]. apply list_elem_of_fmap. exists (Z.to_nat fd). split; [lia|]. apply elem_of_seq. lia.
  - rewrite decide_False; [done|]. intros (k & -> & Hk)%list_elem_of_fmap. apply elem_of_seq in Hk. lia.
Qed.

Lemma close_files_below_ok w : wp K close_files_below w (λ r w' t, match r with
  | Returned _ => forks t = [] ∧ ∃ base maxfd, view w' = set_nfds base (view w) ∧
      closed_below maxfd (nfds (view w)) base ∧ called t (Sysconf SC_OPEN_MAX) (λ a,
        maxfd = if (to_int (ret a) =? -1)%Z then BD_MAX_CLOSE else to_int (ret a))
  | r => r = Gone
  end).
Proof.
  unfold close_files_below. apply wp_bind. prog_call. net H. apply wp_ret. eapply wp_mono; [apply close_all_ok|].
  intros [[]|h|] w1 t H1; [|done..]. destruct H1 as [H1 Hf]. split; [exact Hf|]. do 2 eexists.
  split; [rewrite H1, H; reflexivity|]. split; [apply closed_below_ok|]. exists a. split; [left|done].
Qed.

(** What a process that called [becomeDaemon(flags)] is when it returns 0. *)
Definition daemon (flags : Z) (t : list (event posix)) (v v' : netview) : Prop :=
  leader v' = false ∧
  fmask v' = (if flag_set flags BD_NO_UMASK0 then fmask v else 0%Z) ∧
  (if flag_set flags BD_NO_CHDIR then cwd v' = cwd v
   else cwd v' = "/" ∨ cwd v' = cwd v ∧ called t (Chdir "/") (λ a, ret a = (-1)%Z)) ∧
  ∃ base, (if flag_set flags BD_NO_CLOSE_FILES then base = nfds v
           else ∃ maxfd, called t (Sysconf SC_OPEN_MAX) (λ a,
                  maxfd = if (to_int (ret a) =? -1)%Z then BD_MAX_CLOSE else to_int (ret a)) ∧
                closed_below maxfd (nfds v) base) ∧
    nfds v' = (if flag_set flags BD_NO_REOPEN_STD_FDS then base else std_null base).

(** [becomeDaemon] of become_daemon.c, for every kernel that keeps the
    descriptor contract.  The caller and the first child end with status 0; a
    process in which it returns 0 has gone through both forks and a [setsid],
    does not lead its session, and unless the flags say otherwise has the file
    mode mask 0, the working directory "/" (or a [chdir] that failed, which
    goes unnoticed), all descriptors below the limit closed and 0, 1 and 2 on
    /dev/null.  On an error it returns -1. *)
Lemma becomeDaemon_ok (w : W) (flags : Z) :
  wp K (becomeDaemon flags) w (λ r w' t, match r with
    | Returned z => ret z = (-1)%Z ∨
        (ret z = 0%Z ∧ called t Setsid (λ a, ret a ≠ (-1)%Z) ∧
         forks t = [0%Z; 0%Z] ∧
         daemon flags t (view w) (view w'))
    | Halted h => h = QuickExited 0 ∧ called t Fork (λ a, ret a ≠ 0%Z ∧ ret a ≠ (-1)%Z)
    | Gone => True
    end).
Proof.
  assert (∀ (t1 t2 : list (event posix)) c P, called t2 c P → called (t1 ++ t2) c P) as Hr by apply called_app_r.
  unfold becomeDaemon. apply wp_bind. eapply wp_mono; [apply fork_away_ok|].
  intros [[e|]|h|] w1 t1 H1; [apply wp_ret; by left| |done|done]. destruct H1 as [Hf1 Hv1].
  prog_call. net H. destruct (ret a =? -1)%Z eqn:Hs; zbool; [apply wp_ret; by left|].
  destruct H as [[? _]|Hv2]; [done|].
  apply wp_bind. eapply wp_mono; [apply fork_away_ok|].
  intros [[e|]|h|] w2 t2 H2; [apply wp_ret; by left| | |done].
  2:{ destruct H2 as [-> H2]. split; [done|]. by apply Hr, called_cons. }
  destruct H2 as [Hf2 Hv3].
  set (t0 := t1 ++ ECall Setsid a :: t2).
  assert (forks t0 = [0%Z; 0%Z]) as Hf0 by (unfold t0; rewrite forks_app; change (forks (ECall Setsid a :: t2)) with (forks t2); by rewrite Hf1, Hf2).
  assert (called t0 Setsid (λ a, ret a ≠ (-1)%Z)) as Hc0 by (apply Hr; exists a; split; [left|done]).
  assert (view w2 = NetView (nfds (view w)) (cwd (view w)) (fmask (view w)) false) as Hv0 by (by rewrite Hv3, Hv2, Hv1).
  (* umask *)
  apply wp_bind. eapply (wp_mono _ _ _ (λ r w3 t3, match r with Returned _ => forks t3 = [] ∧ view w3 =
    NetView (nfds (view w)) (cwd (view w)) (if flag_set flags BD_NO_UMASK0 then fmask (view w) else 0%Z) false | r => r = Gone end)).
  { unfold when. destruct (flag_set flags BD_NO_UMASK0); cbn [negb]; [by apply wp_ret|].
    prog_call. net H. apply wp_ret. split; [done|]. by rewrite H, Hv0. }
  intros [[]|h|] w3 t3 H3; [|done..]. destruct H3 as [Hf3 Hv4].
  (* chdir *)
  apply wp_bind. eapply (wp_mono _ _ _ (λ r w4 t4, match r with Returned _ => forks t4 = [] ∧ ∃ d,
    (if flag_set flags BD_NO_CHDIR then d = cwd (view w)
     else d = "/" ∨ d = cwd (view w) ∧ called t4 (Chdir "/") (λ a, ret a = (-1)%Z)) ∧ view w4 =
    NetView (nfds (view w)) d (if flag_set flags BD_NO_UMASK0 then fmask (view w) else 0%Z) false | r => r = Gone end)).
  { unfold when. destruct (flag_set flags BD_NO_CHDIR); cbn [negb]; [apply wp_ret; split; [done|]; by eexists|].
    prog_call. net H. apply wp_ret. split; [done|]. rewrite Hv4 in H. destruct H as [[Ha Hv]|[_ Hv]]; eexists; (split; [|exact Hv]).
    - right. split; [done|]. exists a0. split; [left|done].
    - by left. }
  intros [[]|h|] w4 t4 H4; [|done..]. destruct H4 as (Hf4 & d & Hd & Hv5).
  (* the descriptors *)
  apply wp_bind. eapply (wp_mono _ _ _ (λ r w5 t5, match r with Returned _ => forks t5 = [] ∧ ∃ base,
    (if flag_set flags BD_NO_CLOSE_FILES then base = nfds (view w)
     else ∃ maxfd, called t5 (Sysconf SC_OPEN_MAX) (λ a,
        maxfd = if (to_int (ret a) =? -1)%Z then BD_MAX_CLOSE else to_int (ret a)) ∧ closed_below maxfd (nfds (view w)) base) ∧
    view w5 = set_nfds base (view w4) | r => r = Gone end)).
  { unfold when. destruct (flag_set flags BD_NO_CLOSE_FILES); cbn [negb].
    { apply wp_ret. split; [done|]. eexists. split; [done|]. by rewrite Hv5. }
    eapply wp_mono; [apply close_files_below_ok|]. intros [[]|h|] w5 t5 H5; [|done..].
    destruct H5 as (Hf5 & base & maxfd & Hv & Hcl & Hcall). split; [done|]. exists base. split; [|done].
    exists maxfd. split; [done|]. by rewrite Hv5 in Hcl. }
  intros [[]|h|] w5 t5 H5; [|done..]. destruct H5 as (Hf5 & base & Hbase & Hv6).
  assert (∀ t6 w6 m, forks t6 = [] → view w6 = set_nfds m (view w5) →
    m = (if flag_set flags BD_NO_REOPEN_STD_FDS then base else std_null base) →
    (ret (Rc 0 0) = (-1)%Z ∨ ret (Rc 0 0) = 0%Z ∧ called (t0 ++ t3 ++ t4 ++ t5 ++ t6) Setsid (λ a, ret a ≠ (-1)%Z) ∧
       forks (t0 ++ t3 ++ t4 ++ t5 ++ t6) = [0%Z; 0%Z] ∧ daemon flags (t0 ++ t3 ++ t4 ++ t5 ++ t6) (view w) (view w6))) as Hend.
  { intros t6 w6 m Hf6 Hv7 Hm. right. split; [done|]. split; [by apply called_app_l|].
    split; [by rewrite !forks_app, Hf0, Hf3, Hf4, Hf5, Hf6|].
    rewrite Hv7, Hv6, Hv5. split; [done|]. split; [done|]. split.
    - destruct (flag_set flags BD_NO_CHDIR); [done|]. destruct Hd as [->|[-> Hc]]; [by left|right]. split; [done|].
      by apply Hr, Hr, called_app_l.
    - exists base. split; [|done]. destruct (flag_set flags BD_NO_CLOSE_FILES); [done|].
      destruct Hbase as (maxfd & Hc & Hcl). exists maxfd. split; [by apply Hr, Hr, Hr, called_app_l|done]. }
  assert (∀ t6, t1 ++ ECall Setsid a :: t2 ++ t3 ++ t4 ++ t5 ++ t6 = t0 ++ t3 ++ t4 ++ t5 ++ t6) as Happ
    by (intros t6; unfold t0; by rewrite <- app_assoc).
  destruct (flag_set flags BD_NO_REOPEN_STD_FDS); cbn [negb].
  - apply wp_ret. rewrite Happ. apply (Hend [] w5 base); [done|by rewrite Hv6|done].
  - eapply wp_mono; [apply reopen_std_ok|]. intros [z|h|] w6 t6 H6; [|done..].
    destruct H6 as [(-> & Hf6 & Hv7)|?]; [|by left]. rewrite Happ. eapply Hend; [done|done|]. by rewrite Hv6.
Qed.

(** C23: what the server of limited_children is built on, for every kernel that
    keeps the descriptor contract.  inet_sockets.c: [inetConnect] returns a new
    socket that a [connect] to one of the addresses found succeeded on, the only
    new descriptor, or -1 and no new descriptor; [inetListen] and [inetBind]
    return a socket that is bound (and listening, with SO_REUSEADDR), with the
    length of the address when asked for, or -1 and nothing left open, except
    that a socket whose [listen] fails is never closed; the list of addresses is
    freed exactly once; [inetAddressStr] always fits the caller's buffer.
    become_daemon.c: the caller and the first child end with status 0; where
    [becomeDaemon] returns 0 the process has gone through two forks and a
    [setsid], leads no session, and unless the flags say otherwise has the file
    mode mask 0, the directory "/" (or a [chdir] that failed, unnoticed), the
    descriptors below the limit closed and 0, 1, 2 on /dev/null. *)
Theorem server_base_correct (w : W) (host : option string) (service : string) (type backlog : Z) (addrlen : option Z)
    (addr : string) (addrStrLen flags : Z) :
  wp K (inetConnect host service type) w (λ r w' t, match r with
    | Returned c => unfreed t = 0%Z ∧
        ((ret c = (-1)%Z ∧ view w' = view w) ∨
         ∃ result rp, called t (Getaddrinfo host service type 0) (λ a, a.2 = result) ∧
           one_socket result w w' (ret c) rp ∧ called t (Connect (ret c) (ai_addr rp)) (λ a, ret a ≠ (-1)%Z))
    | r => r = Gone
    end) ∧
  wp K (inetListen service backlog addrlen) w (passive_post service SOCK_STREAM addrlen true backlog w) ∧
  wp K (inetBind service type addrlen) w (passive_post service type addrlen false 0 w) ∧
  ((0 < addrStrLen)%Z → wp K (inetAddressStr addr addrStrLen) w (λ r _ _, match r with
    | Returned s => (Z.of_nat (String.length s) < addrStrLen)%Z
    | r => r = Gone
    end)) ∧
  wp K (becomeDaemon flags) w (λ r w' t, match r with
    | Returned z => ret z = (-1)%Z ∨
        (ret z = 0%Z ∧ called t Setsid (λ a, ret a ≠ (-1)%Z) ∧
         forks t = [0%Z; 0%Z] ∧
         daemon flags t (view w) (view w'))
    | Halted h => h = QuickExited 0 ∧ called t Fork (λ a, ret a ≠ 0%Z ∧ ret a ≠ (-1)%Z)
    | Gone => True
    end).
Proof.
  destruct (inet_sockets_ok w host service type backlog addrlen addr addrStrLen) as (H1 & H2 & H3 & H4).
  split_and!; try done. apply becomeDaemon_ok.
Qed.

End net.

(** ** A kernel that keeps the contract *)

Definition net_new (what : string) (v : netview) : reaction rc netview :=
  let fd := find_fd (S (size (nfds v))) (nfds v) 0 in
  Answer (Rc fd 0) (set_nfds (<[fd := what]> (nfds v)) v).

(** Everything succeeds; a fork is seen from the child. *)
Definition netkernel : kernel posix netview := λ c v,
  match c as c return reaction (posix_ans c) netview with
  | Socket _ _ _ => net_new "socket" v
  | Accept _ => net_new "connection" v
  | Open path _ _ => net_new path v
  | Close fd => Answer (Rc 0 0) (set_nfds (delete fd (nfds v)) v)
  | Dup2 old new => match nfds v !! old with
      | Some what => Answer (Rc new 0) (set_nfds (<[new := what]> (nfds v)) v)
      | None => Answer (Rc (-1) EBADF) v
      end
  | Fork => Answer (Rc 0 0) (NetView (nfds v) (cwd v) (fmask v) false)
  | Setsid => Answer (Rc 7 0) (NetView (nfds v) (cwd v) (fmask v) true)
  | Umask m => Answer (Rc (fmask v) 0) (NetView (nfds v) (cwd v) m (leader v))
  | Chdir p => Answer (Rc 0 0) (NetView (nfds v) p (fmask v) (leader v))
  | Connect _ _ => Answer (Rc 0 0) v
  | Bind _ _ => Answer (Rc 0 0) v
  | Listen _ _ => Answer (Rc 0 0) v
  | Setsockopt _ _ => Answer (Rc 0 0) v
  | Sysconf _ => Answer (Rc 16 0) v
  | Getaddrinfo _ _ _ _ => Answer (Rc 0 0, [Addrinfo 2 1 6 "127.0.0.1" 16]) v
  | Freeaddrinfo => Answer (Rc 0 0) v
  | Getnameinfo _ => Answer (Rc 0 0, ("localhost", "7")) v
  | _ => NoReturn v
  end.

Lemma net_new_ok what v a v' : net_new what v = Answer a v' →
  new_fd what v a v' ∧ ((0 <= ret a)%Z → ∀ k, (0 <= k < ret a)%Z → is_Some (nfds v !! k)).
Proof.
  unfold net_new. destruct (find_fd_spec (S (size (nfds v))) (nfds v) 0 (free_fd_exists _ _)) as (H1 & H2 & H3).
  intros [= <- <-]. split; [right; done|done].
Qed.

#[global] Instance netkernel_ok : NetKernel netkernel id.
Proof.
  intros c w a w' H. destruct c; cbn in H |- *; try done; try (by injection H as <- <-); try (by apply net_new_ok in H as [? _]).
  - by apply net_new_ok in H.
  - destruct (nfds w !! oldfd) as [what|] eqn:E; injection H as <- <-; [right; by exists what|by left].
  - injection H as <- <-. by right.
  - injection H as <- <-. by right.
Qed.

(** A shell's child with a file open becomes a daemon. *)
Definition shell_child : netview :=
  NetView {[0%Z := "tty"; 1%Z := "tty"; 2%Z := "tty"; 5%Z := "/tmp/log"]} "/home" 18 false.

Lemma server_base_correct_witness :
  wp netkernel (becomeDaemon 0) shell_child (λ r w' t, r = Returned (Rc 0 0) ∧ cwd w' = "/" ∧
    nfds w' = {[0%Z := "/dev/null"; 1%Z := "/dev/null"; 2%Z := "/dev/null"]} ∧
    leader w' = false ∧ forks t = [0%Z; 0%Z]) ∧
  wp netkernel (inetListen "echo" 10 (Some 0%Z)) shell_child (λ r w' _,
    r = Returned (Rc 3 0, Some 16%Z) ∧ nfds w' = <[3%Z := "socket"]> (nfds shell_child)).
Proof.
  destruct (server_base_correct netkernel id shell_child None "echo" 1 10 (Some 0%Z) "x" 10 0) as (_ & H0 & _ & _ & H1).
  assert ((run netkernel (becomeDaemon 0) shell_child).1.1 = Returned (Rc 0 0)) as E1 by (vm_compute; reflexivity).
  assert (cwd (run netkernel (becomeDaemon 0) shell_child).1.2 = "/") as E2 by (vm_compute; reflexivity).
  assert (nfds (run netkernel (becomeDaemon 0) shell_child).1.2 =
    {[0%Z := "/dev/null"; 1%Z := "/dev/null"; 2%Z := "/dev/null"]}) as E3 by (vm_compute; reflexivity).
  assert ((run netkernel (inetListen "echo" 10 (Some 0%Z)) shell_child).1.1 = Returned (Rc 3 0, Some 16%Z)) as E4
    by (vm_compute; reflexivity).
  split; apply wp_intro; intros r w' t E.
  - rewrite E in E1, E2, E3. cbn [fst snd] in *. pose proof (wp_run _ _ _ _ _ _ _ H1 E) as H.
    clear E H0 H1. subst r. destruct H as [?|(_ & _ & Hf & Hl & _)]; [done|]. split_and!; [done|done|done|exact Hl|exact Hf].
  - rewrite E in E4. cbn [fst snd] in *. pose proof (wp_run _ _ _ _ _ _ _ H0 E) as H. clear E H0 H1. subst r. split; [reflexivity|].
    destruct H as [_ [(? & _)|(result & sfd & rp & _ & (_ & _ & Hn & Hv) & _ & _ & [(Hs & _)|(? & _)])]]; [done| |done].
    cbn in Hs. subst sfd. cbn in Hv. rewrite Hv. reflexivity.
Defined.
