(* ===== verification/EchoServer.v ===== *)
(** * The echo server with a limit on its children

    is_echo_sv.c (CH60): a daemon that forks a child per connection, counts its
    children in [CHILD_COUNT] and discounts them in the SIGCHLD handler.  The
    handler runs where the environment says so ([sigpoint]), also between the
    load and the store of [CHILD_COUNT++]. *)
From Stdlib Require Import ZArith Lia Ascii String.
From stdpp Require Import base gmap strings list.
From S2P Require Import Prelude Prog CString Posix InetSockets.
Local Open Scope prog_scope.

Definition SERVICE : string := "echo".
Definition BUF_SIZE : Z := 4096.
Definition MAX_CHILD : Z := 10.
Definition WNOHANG : Z := 1.

Section server.
Context (strerror : Z → string) (fuel : nat).

Definition syslog_exit {A} (s : string) (e : Z) : prog posix A :=
  put (Syslog (s +:+ strerror e)) ;;; exit EXIT_FAILURE.

(** The handler: [CHILD_COUNT] after it.  [errno] is saved and restored. *)
Definition grimReaper (count : Z) : prog posix Z :=
  loop fuel (λ count,
    '(w, _) <- sys (Waitpid (-1) WNOHANG);;
    if (0 <? ret w)%Z then Ret (inl (count - 1)%Z) else Ret (inr count)) count.

Definition sigpoint (point : nat) (count : Z) : prog posix Z :=
  d <- sys (Deliver SIGCHLD point);;
  if (ret d =? 0)%Z then Ret count else grimReaper count.

Definition handleRequest (cfd : Z) : prog posix unit :=
  r <- loop fuel (λ _,
    '(r, buf) <- sys (Read cfd BUF_SIZE);;
    if (0 <? ret r)%Z then
      w <- sys (Write cfd (take (Z.to_nat (ret r)) buf));;
      if negb (ret w =? ret r)%Z then syslog_exit "write() failed: " (errno w) else Ret (inl tt)
    else Ret (inr r)) tt;;
  if (ret r =? -1)%Z then syslog_exit "Error from read():  " (errno r) else Ret tt.

(** One round of the loop of [main]; in the child it does not return. *)
Definition serve_one (lfd : Z) (count : Z) : prog posix (Z + unit) :=
  if (count =? MAX_CHILD)%Z then Ret (inr tt) else
  c <- sys (Accept lfd);;
  count <- sigpoint 0 count;;
  if (ret c =? -1)%Z then syslog_exit "Failure in accept(): " (errno c) else
  f <- sys Fork;;
  if (ret f =? -1)%Z then
    count <- sigpoint 0 count;;
    put (Syslog ("Can't create child (" +:+ strerror (errno f) +:+ ")")) ;;;
    sys (Close (ret c)) ;;;
    Ret (inl count)
  else if (ret f =? 0)%Z then
    sys (Close lfd) ;;;
    handleRequest (ret c) ;;;
    quick_exit EXIT_SUCCESS
  else
    count <- sigpoint 0 count;;
    let loaded := count in
    sigpoint 1 count ;;;
    let count := (loaded + 1)%Z in
    sys (Close (ret c)) ;;;
    count <- sigpoint 0 count;;
    Ret (inl count).

Definition echo_main : prog posix Z :=
  d <- becomeDaemon 0;;
  if (ret d =? -1)%Z then perror "becomeDaemon" (errno d) ;;; exit EXIT_FAILURE else
  s <- sys (Sigaction SIGCHLD (Sigact (Handler "grimReaper") 0 SA_RESTART));;
  if (ret s =? -1)%Z then syslog_exit "Error from sigaction(): " (errno s) else
  '(l, _) <- inetListen SERVICE 10 None;;
  if (ret l =? -1)%Z then
    put (Syslog ("Could not create server socket (" +:+ strerror (errno l) +:+ ")")) ;;; exit EXIT_FAILURE
  else
  loop fuel (serve_one (ret l)) 0%Z ;;;
  Ret 0%Z.

End server.

(** ** Correctness *)

(** The children alive by a trace: forked and not yet waited for. *)
Fixpoint live (t : list (event posix)) : Z :=
  match t with
  | [] => 0
  | ECall Fork a :: t' => (if (ret a =? -1)%Z || (ret a =? 0)%Z then 0 else 1) + live t'
  | ECall (Waitpid _ _) a :: t' => (if (0 <? ret a.1)%Z then -1 else 0) + live t'
  | _ :: t' => live t'
  end.

Lemma live_app t1 t2 : live (t1 ++ t2) = (live t1 + live t2)%Z.
Proof.
  induction t1 as [|[o|c a|c] t1 IH]; cbn; [done..| |done]. destruct c; rewrite ?IH; lia || done.
Qed.

(** At every moment of the trace at most [n] children are alive. *)
Definition at_most (n : Z) (t : list (event posix)) : Prop :=
  ∀ t1, t1 `prefix_of` t → (live t1 <= n)%Z.

Lemma at_most_app n t1 t2 : at_most n t1 → at_most (n - live t1) t2 → at_most n (t1 ++ t2).
Proof.
  intros H1 H2 t [u Hu]. apply app_eq_inv in Hu as [(k & E1 & E2)|(k & E1 & E2)]; subst.
  - apply H1. by exists k.
  - rewrite live_app. specialize (H2 k ltac:(by exists u)). lia.
Qed.

(** [counted n t]: [n] children are alive now, and there were never more than
    the limit. *)
Definition counted (n : Z) (t : list (event posix)) : Prop := live t = n ∧ at_most MAX_CHILD t.

Lemma counted_event n t e : counted n t → (live [e] + n <= MAX_CHILD)%Z → counted (n + live [e]) (t ++ [e]).
Proof.
  intros [Hn Ht] He. split; [rewrite live_app; lia|]. apply at_most_app; [done|].
  intros t1 [t2 E]. destruct t1 as [|e1 [|e2 t1]]; cbn in E; [|simplify_eq; lia|by simplify_eq].
  specialize (Ht t ltac:(reflexivity)). cbn. lia.
Qed.

Lemma counted_quiet n t e : counted n t → live [e] = 0%Z → counted n (t ++ [e]).
Proof.
  intros H He. pose proof (proj2 H t ltac:(reflexivity)). destruct H as [Hn H].
  replace n with (n + live [e])%Z by lia. apply counted_event; [done|]. lia.
Qed.

Lemma counted_nil : counted 0 [].
Proof. split; [done|]. intros t H. apply prefix_nil_inv in H as ->. done. Qed.

Lemma counted_limit n t : counted n t → (n <= MAX_CHILD)%Z.
Proof. intros [<- H]. apply H. reflexivity. Qed.

(** What the calls of a program do to the count. *)
Ltac quiet := first [assumption | apply counted_quiet; [quiet|reflexivity]].

Section echo.
Context {W : Type} (K : kernel posix W) (strerror : Z → string) (fuel : nat).

Lemma grimReaper_ok n t w : counted n t →
  wpa K t (grimReaper fuel n) w (λ r _ t', match r with
    | Returned n' => counted n' t' ∧ (n' <= n)%Z
    | Halted h => h = Cut ∧ ∃ n', counted n' t'
    | Gone => ∃ n', counted n' t'
    end).
Proof.
  intros H0. unfold grimReaper. apply (wpa_loop K (λ c _ t, counted c t ∧ (c <= n)%Z)); [| |done].
  - clear t w H0. intros c w t [H Hc]. acc_call; [|exists c; quiet]. destruct a as [a st]. cbn [ret fst].
    pose proof (counted_limit c t H). destruct (0 <? ret a)%Z eqn:E; acc_steps.
    + split; [|lia]. replace (c - 1)%Z with (c + live [ECall (Waitpid (-1) WNOHANG) (a, st) : event posix])%Z
        by (cbn; rewrite E; lia). apply counted_event; [done|]. cbn. rewrite E. lia.
    + split; [|done]. apply counted_quiet; [done|]. cbn. by rewrite E.
  - intros c w' t' [H _]. split; [done|by exists c].
Qed.

Lemma sigpoint_ok p n t w : counted n t →
  wpa K t (sigpoint fuel p n) w (λ r _ t', match r with
    | Returned n' => counted n' t' ∧ (n' <= n)%Z
    | Halted h => h = Cut ∧ ∃ n', counted n' t'
    | Gone => ∃ n', counted n' t'
    end).
Proof.
  intros H. unfold sigpoint. acc_call; [|exists n; quiet].
  destruct (ret a =? 0)%Z; [acc_steps; split; [quiet|done]|]. apply grimReaper_ok. quiet.
Qed.

Definition is_syslog (o : output) : Prop := match o with Syslog _ => True | _ => False end.

(** What [handleRequest] reads after [t0] it sends back. *)
Lemma handleRequest_ok n cfd t0 w : counted n t0 →
  wpa K t0 (handleRequest strerror fuel cfd) w (λ r _ t, counted n t ∧ ∃ x y,
    got cfd t = got cfd t0 ++ x ∧ sent cfd t = sent cfd t0 ++ y ∧ y `prefix_of` x ∧ match r with
    | Returned _ => y = x
    | Halted h => h = Cut ∨ h = Exited 1 ∧ ∃ o, last t = Some (EOut o) ∧ is_syslog o
    | Gone => True
    end).
Proof.
  intros Hn0. unfold handleRequest. apply wpa_bind.
  eapply (wpa_loop K (λ _ _ t, counted n t ∧ ∃ x, got cfd t = got cfd t0 ++ x ∧ sent cfd t = sent cfd t0 ++ x)).
  - intros [] w1 t (Hn & x & Hg & Hs).
    acc_call; [|split; [quiet|]; exists x, x; by rewrite sent_app, got_app, Hg, Hs, !app_nil_r].
    destruct a as [a buf]. destruct (0 <? ret a)%Z eqn:E.
    + set (d := take (Z.to_nat (ret a)) buf).
      assert (∀ e : event posix, got cfd ((t ++ [ECall (Read cfd BUF_SIZE) (a, buf)]) ++ [e]) = got cfd t0 ++ (x ++ d) ++ got cfd [e] ∧
        sent cfd ((t ++ [ECall (Read cfd BUF_SIZE) (a, buf)]) ++ [e]) = sent cfd t0 ++ x ++ sent cfd [e]) as Htr.
      { intros e. rewrite !sent_app, !got_app, Hg, Hs. cbn. rewrite Z.eqb_refl, !app_nil_r, <- !app_assoc. done. }
      acc_call.
      2:{ split; [quiet|]. destruct (Htr (EGone (Write cfd d))) as [-> ->]. exists (x ++ d), x. cbn. rewrite !app_nil_r.
          split_and!; [done|done|by exists d|done]. }
      destruct (Htr (ECall (Write cfd d) a0)) as [Hg' Hs']. cbn in Hg', Hs'. rewrite Z.eqb_refl in Hs'. rewrite !app_nil_r in Hg', Hs'.
      destruct (ret a0 =? ret a)%Z eqn:E2; cbn [negb]; zbool; unfold syslog_exit; acc_steps.
      * split; [quiet|]. exists (x ++ d). split; [done|]. rewrite Hs'. do 2 f_equal. rewrite E2. unfold d.
        by rewrite take_take, Nat.min_id.
      * split; [quiet|]. exists (x ++ d), (x ++ take (Z.to_nat (ret a0)) d).
        rewrite got_app, sent_app, Hg', Hs', !app_nil_r. split_and!; [done|done|apply prefix_app, prefix_take|].
        right. split; [done|]. eexists. split; [by rewrite last_snoc|done].
    + acc_steps. zbool.
      assert (got cfd (t ++ [ECall (Read cfd BUF_SIZE) (a, buf)]) = got cfd t0 ++ x ∧
        sent cfd (t ++ [ECall (Read cfd BUF_SIZE) (a, buf)]) = sent cfd t0 ++ x) as [Hg' Hs'].
      { rewrite sent_app, got_app, Hg, Hs. cbn. rewrite Z.eqb_refl. replace (Z.to_nat (ret a)) with 0 by lia.
        by rewrite take_0, !app_nil_r. }
      destruct (ret a =? -1)%Z; unfold syslog_exit; acc_steps.
      * split; [quiet|]. exists x, x. rewrite sent_app, got_app, Hg', Hs', !app_nil_r. split_and!; [done..|].
        right. split; [done|]. eexists. split; [by rewrite last_snoc|done].
      * split; [quiet|]. by exists x, x.
  - intros [] w' t (H1 & x & Hg & Hs). split; [done|]. exists x, x. by split_and!; [..|left].
  - split; [done|]. exists []. by rewrite !app_nil_r.
Qed.

(** Programs that neither fork nor wait nor end the process. *)
Fixpoint calm {A} (p : prog posix A) : Prop :=
  match p with
  | Ret _ => True
  | Stop _ => False
  | Put _ k => calm k
  | Sys c k => (∀ a, live [ECall c a : event posix] = 0%Z) ∧ ∀ a, calm (k a)
  end.

Lemma calm_bind {A B} (f : A → prog posix B) p : calm p → (∀ a, calm (f a)) → calm (bind f p).
Proof.
  intros Hp Hf. induction p as [a|h|o k IH|c k IH]; cbn in *; [done|done|by apply IH|].
  destruct Hp as [H1 H2]. split; [done|]. intros a. by apply IH.
Qed.

Lemma calm_ok {A} (p : prog posix A) n t w : calm p → counted n t → wpa K t p w (λ r _ t', counted n t' ∧ match r with Halted _ => False | _ => True end).
Proof.
  revert t w. induction p as [a|h|o k IH|c k IH]; intros t w Hp Hn; cbn in Hp.
  - by apply wpa_ret.
  - done.
  - apply wpa_put, IH; [done|]. quiet.
  - destruct Hp as [Hc Hk]. apply wpa_sys; [|intros w' _; split; [quiet|done]].
    intros a w' _. apply IH; [done|]. apply counted_quiet; [done|apply Hc].
Qed.

Lemma bind_first_calm d addrs e : calm (bind_first d addrs e).
Proof.
  revert e. induction addrs as [|rp rest IH]; intros e; cbn [bind_first]; [done|].
  split; [done|]. intros a. cbn [bind]. destruct (ret a =? -1)%Z; [apply IH|]. apply calm_bind.
  { destruct d; [|done]. by split. }
  intros []; [by repeat split|]. split; [done|]. intros b. cbn [bind].
  destruct (ret b =? 0)%Z; [done|]. split; [done|]. intros c. apply IH.
Qed.

Lemma inetListen_calm : calm (inetListen SERVICE 10 None).
Proof.
  unfold inetListen, inetPassiveSocket. split; [done|]. intros [s res]. cbn [bind]. destruct (negb (ret s =? 0)%Z); [done|].
  apply calm_bind; [apply bind_first_calm|]. intros [[[sfd rp]|]|e]; [|by repeat split|done].
  apply calm_bind; [by split|]. intros []; by repeat split.
Qed.

Lemma close_calm fds : calm (for_each fds (λ fd _, sys (Close fd) ;;; Ret tt) tt : prog posix unit).
Proof. induction fds as [|fd fds IH]; [done|]. by split. Qed.

(** [becomeDaemon] leaves a process without children. *)
Lemma becomeDaemon_counted w : wpa K [] (becomeDaemon 0) w (λ r _ t, match r with
  | Returned _ => counted 0 t
  | Halted h => h = QuickExited 0 ∧ at_most MAX_CHILD t
  | Gone => at_most MAX_CHILD t
  end).
Proof.
  assert (∀ t w, counted 0 t → wpa K t fork_away w (λ r _ t', match r with
    | Returned None => counted 0 t'
    | Returned (Some _) => counted 0 t'
    | Halted h => h = QuickExited 0 ∧ at_most MAX_CHILD t'
    | Gone => at_most MAX_CHILD t' end)) as Hfork.
  { intros t w0 H. unfold fork_away. acc_call; [|by apply (counted_quiet 0)].
    assert (∀ b, ret a = b → b = (-1)%Z ∨ b = 0%Z → live [ECall Fork a : event posix] = 0%Z) as Hq.
    { intros b Hb H1. cbn. rewrite Hb. by destruct H1 as [->| ->]. }
    destruct (ret a =? -1)%Z eqn:E1; [|destruct (ret a =? 0)%Z eqn:E2]; zbool; acc_steps.
    - apply counted_quiet; [done|]. eapply Hq; [done|by left].
    - apply counted_quiet; [done|]. eapply Hq; [done|by right].
    - split; [done|]. apply (counted_event 0 t); [done|]. cbn. unfold MAX_CHILD. destruct (_ || _); lia. }
  unfold becomeDaemon. apply wpa_bind. eapply wpa_mono; [apply Hfork, counted_nil|].
  intros [[e|]|h|] w1 t1 H1; [by acc_steps| |done..].
  acc_call; [|by apply (counted_quiet 0)]. destruct (ret a =? -1)%Z; [acc_steps; quiet|].
  apply wpa_bind. eapply wpa_mono; [apply Hfork; quiet|]. intros [[e|]|h|] w2 t2 H2; [by acc_steps| |done..].
  eapply wpa_mono; [apply (calm_ok _ 0); [|done]|].
  - do 2 (apply calm_bind; [by split|]; intros []). apply calm_bind.
    + split; [done|]. intros m. apply close_calm.
    + intros []. unfold reopen_std. split; [done|]. intros ?. split; [done|]. intros fd. cbn [bind].
      destruct (negb (ret fd =? STDIN_FILENO)%Z); [done|]. split; [done|]. intros d. cbn [bind].
      destruct (negb (ret d =? STDOUT_FILENO)%Z); [done|]. split; [done|]. intros d'. cbn [bind].
      by destruct (negb (ret d' =? STDERR_FILENO)%Z).
  - intros [x|h|] w3 t3 [H3 Hh]; [done|done|by destruct H3].
Qed.

(** One round of the loop keeps the count and the limit, as long as no handler
    runs between the load and the store of the increment. *)
Lemma serve_one_ok lfd n t w :
  (∀ w a w', K (Deliver SIGCHLD 1) w = Answer a w' → ret a = 0%Z) →
  counted n t →
  wpa K t (serve_one strerror fuel lfd n) w (λ r _ t', match r with
    | Returned (inl n') => counted n' t'
    | Returned (inr _) => n = MAX_CHILD ∧ t' = t
    | Halted h => at_most MAX_CHILD t' ∧ (h = Cut ∨ h = QuickExited 0 ∨ h = Exited 1)
    | Gone => at_most MAX_CHILD t'
    end).
Proof.
  intros Hrace Hn. pose proof (counted_limit n t Hn) as Hlim. unfold serve_one.
  destruct (n =? MAX_CHILD)%Z eqn:E; zbool; [by acc_steps|].
  acc_call; [|by apply (counted_quiet n)]. apply wpa_bind.
  eapply wpa_mono; [apply sigpoint_ok; quiet|].
  intros [n1|h|] w1 t1 H1; [|destruct H1 as [-> [? [_ H1]]]; by split; [|left]|by destruct H1 as [? [_ H1]]].
  destruct H1 as [Hn1 Hle]. destruct (ret a =? -1)%Z.
  { unfold syslog_exit. acc_steps. split; [by apply (counted_quiet n1)|by right; right]. }
  acc_call; [|by apply (counted_quiet n1)]. rename a0 into f.
  destruct (ret f =? -1)%Z eqn:E1; [|destruct (ret f =? 0)%Z eqn:E2]; zbool.
  - assert (counted n1 (t1 ++ [ECall Fork f])) as Hf.
    { apply counted_quiet; [done|]. cbn. by rewrite E1. }
    apply wpa_bind. eapply wpa_mono; [by apply sigpoint_ok|].
    intros [n2|h|] w2 t2 H2; [|destruct H2 as [-> [? [_ H2]]]; by split; [|left]|by destruct H2 as [? [_ H2]]].
    destruct H2 as [Hn2 _]. acc_call; [|apply (counted_quiet n2); [quiet|done]]. acc_steps. quiet.
  - assert (counted n1 (t1 ++ [ECall Fork f])) as Hf.
    { apply counted_quiet; [done|]. cbn. by rewrite E2. }
    acc_call; [|apply (counted_quiet n1); [quiet|done]]. apply wpa_bind.
    eapply wpa_mono; [apply (handleRequest_ok n1); quiet|].
    intros [[]|h|] w2 t2 (H2 & x & y & _ & _ & _ & Hh); [acc_steps|..].
    + split; [apply H2|by right; left].
    + split; [apply H2|]. destruct Hh as [->|[-> _]]; auto.
    + apply H2.
  - assert (counted (n1 + 1) (t1 ++ [ECall Fork f])) as Hf.
    { assert (live [ECall Fork f : event posix] = 1%Z) as <-.
      { cbn. by rewrite (proj2 (Z.eqb_neq _ _) E1), (proj2 (Z.eqb_neq _ _) E2). }
      apply counted_event; [done|]. cbn. unfold MAX_CHILD in *. destruct (_ || _); lia. }
    apply wpa_bind. eapply wpa_mono with (Q := λ r _ t', match r with
      | Returned n' => counted (n' + 1) t'
      | Halted h => h = Cut ∧ at_most MAX_CHILD t'
      | Gone => at_most MAX_CHILD t' end).
    { (* the handler runs while the new child is not yet counted *)
      unfold sigpoint. acc_call; [|apply (counted_quiet (n1 + 1)); [quiet|done]].
      destruct (ret a0 =? 0)%Z; [acc_steps; quiet|]. unfold grimReaper.
      apply (wpa_loop K (λ c _ t, counted (c + 1) t)); [| |quiet].
      - intros c w3 t3 H3. acc_call; [|by apply (counted_quiet (c + 1))]. destruct a1 as [a1 st]. cbn [fst].
        pose proof (counted_limit _ _ H3). destruct (0 <? ret a1)%Z eqn:E3; acc_steps.
        + replace (c - 1 + 1)%Z with (c + 1 + live [ECall (Waitpid (-1) WNOHANG) (a1, st) : event posix])%Z
            by (cbn; rewrite E3; lia). apply counted_event; [done|]. cbn. rewrite E3. lia.
        + apply counted_quiet; [done|]. cbn. by rewrite E3.
      - intros c w3 t3 H3. split; [done|apply H3]. }
    intros [n2|h|] w2 t2 H2; [|by destruct H2 as [-> H2]; split; [|left]|done].
    cbn zeta. apply wpa_bind. unfold sigpoint at 1. acc_call; [|by apply (counted_quiet (n2 + 1))].
    rewrite (proj2 (Z.eqb_eq _ _) (Hrace _ _ _ H1)). acc_steps.
    acc_call; [|apply (counted_quiet (n2 + 1)); [quiet|done]]. apply wpa_bind.
    eapply wpa_mono; [apply (sigpoint_ok 0 (n2 + 1)); quiet|].
    intros [n3|h|] w5 t5 H5; [by acc_steps; destruct H5|destruct H5 as [-> [? [_ H5]]]; by split; [|left]|by destruct H5 as [? [_ H5]]].
Qed.

End echo.


(** A busy day: every connection is accepted and no child ever ends.  The first
    two forks are those of [becomeDaemon]. *)
Definition busy : kernel posix nat := λ c n,
  match c as c return reaction (posix_ans c) nat with
  | Fork => Answer (Rc (if (n <? 2)%nat then 0 else Z.of_nat n) 0) (S n)
  | Setsid => Answer (Rc 1 0) n
  | Umask _ => Answer (Rc 0 0) n
  | Chdir _ => Answer (Rc 0 0) n
  | Sysconf _ => Answer (Rc 4 0) n
  | Close _ => Answer (Rc 0 0) n
  | Open _ _ _ => Answer (Rc 0 0) n
  | Dup2 _ new => Answer (Rc new 0) n
  | Sigaction _ _ => Answer (Rc 0 0) n
  | Getaddrinfo _ _ _ _ => Answer (Rc 0 0, [Addrinfo 2 1 6 "0.0.0.0" 16]) n
  | Socket _ _ _ => Answer (Rc 3 0) n
  | Setsockopt _ _ => Answer (Rc 0 0) n
  | Bind _ _ => Answer (Rc 0 0) n
  | Listen _ _ => Answer (Rc 0 0) n
  | Freeaddrinfo => Answer (Rc 0 0) n
  | Accept _ => Answer (Rc 4 0) n
  | Deliver _ _ => Answer (Rc 0 0) n
  | _ => NoReturn n
  end.

