(* ===== verification/DirObserver.v ===== *)
(** * The directory observer

    directory_observer.c (CH19): puts an inotify watch on every directory of a
    tree, displays the events the kernel reports, and scans the tree again when
    a directory is created.  The buffer [read] fills is parsed as the code
    walks through it, event by event. *)
From Stdlib Require Import ZArith Lia Ascii String.
From stdpp Require Import base gmap strings list.
From S2P Require Import Prelude Prog CString Posix.
Local Open Scope prog_scope.

(** [struct inotify_event], with the [len] bytes of its [name]. *)
Record inotify_event := Event { wd : Z; mask : Z; cookie : Z; len : Z; name : bytes }.

Definition HEADER : nat := 16.
Definition NAME_MAX : Z := 255.
Definition BUF_LEN : Z := 10 * (16 + NAME_MAX + 1).

(** The event at the start of the data, with what follows it. *)
Definition event_at (p : bytes) : option (inotify_event * bytes) :=
  let l := of_leu32 (drop 12 p) in
  if decide (HEADER + Z.to_nat l ≤ length p)
  then Some (Event (of_le32 p) (of_leu32 (drop 4 p)) (of_leu32 (drop 8 p)) l (take (Z.to_nat l) (drop HEADER p)),
             drop (HEADER + Z.to_nat l) p)
  else None.

Definition IN_ACCESS : Z := 1.
Definition IN_MODIFY : Z := 2.
Definition IN_ATTRIB : Z := 4.
Definition IN_CLOSE_WRITE : Z := 8.
Definition IN_CLOSE_NOWRITE : Z := 16.
Definition IN_OPEN : Z := 32.
Definition IN_MOVED_FROM : Z := 64.
Definition IN_MOVED_TO : Z := 128.
Definition IN_CREATE : Z := 256.
Definition IN_DELETE : Z := 512.
Definition IN_DELETE_SELF : Z := 1024.
Definition IN_MOVE_SELF : Z := 2048.
Definition IN_UNMOUNT : Z := 8192.
Definition IN_Q_OVERFLOW : Z := 16384.
Definition IN_IGNORED : Z := 32768.
Definition IN_ISDIR : Z := 1073741824.
Definition IN_ALL_EVENTS : Z := 4095.

(** The tests of the mask, in the order of the code. *)
Definition mask_names : list (Z * string) :=
  [(IN_ACCESS, "IN_ACCESS"); (IN_ATTRIB, "IN_ATTRIB"); (IN_CLOSE_NOWRITE, "IN_CLOSE_NOWRITE");
   (IN_CLOSE_WRITE, "IN_CLOSE_WRITE"); (IN_CREATE, "IN_CREATE"); (IN_DELETE, "IN_DELETE");
   (IN_DELETE_SELF, "IN_DELETE_SELF"); (IN_IGNORED, "IN_IGNORED"); (IN_ISDIR, "IN_ISDIR");
   (IN_MODIFY, "IN_MODIFY"); (IN_MOVE_SELF, "IN_MOVE_SELF"); (IN_MOVED_FROM, "IN_MOVED_FROM");
   (IN_MOVED_TO, "IN_MOVED_TO"); (IN_OPEN, "IN_OPEN"); (IN_Q_OVERFLOW, "IN_Q_OVERFLOW");
   (IN_UNMOUNT, "IN_UNMOUNT")].

(** [%2d], [%4d]: the number in a field of [n] characters. *)
Definition field (n : nat) (z : Z) : string :=
  of_bytes (repeat " "%char (n - length (zdec z)) ++ zdec z).

Definition directory_action (inotifyFD : Z) (fpath : string) (isdir : bool) : prog posix Z :=
  if isdir then
    a <- sys (InotifyAddWatch inotifyFD fpath IN_ALL_EVENTS);;
    if (ret a =? -1)%Z then perror "inotify_add_watch" (errno a) ;;; exit EXIT_FAILURE else Ret 0%Z
  else Ret 0%Z.

Definition displayInotifyEvent (i : inotify_event) : prog posix unit :=
  printf (tab +:+ "wd =" +:+ field 2 (wd i) +:+ "; ") ;;;
  when (0 <? cookie i)%Z (printf ("cookie = " +:+ field 4 (to_int (cookie i)) +:+ ";")) ;;;
  printf "mask = " ;;;
  for_each mask_names (λ fn _, when (flag_set (mask i) fn.1) (printf fn.2)) tt ;;;
  printf nl ;;;
  when (0 <? len i)%Z (printf (tab +:+ tab +:+ " name = " +:+ of_bytes (cstr (name i)) +:+ nl)).

(** [nftw(argv[1], directory_action, 1, 0)] and the test of its result. *)
Definition scan (inotifyFD : Z) (path : string) : prog posix unit :=
  '(r, entries) <- sys (Nftw path);;
  for_each entries (λ e _, directory_action inotifyFD e.1 e.2 ;;; Ret tt) tt ;;;
  if (ret r =? -1)%Z then perror "nftw" (errno r) ;;; exit EXIT_FAILURE else Ret tt.

(** The loop through the buffer: [p] is what is left of it. *)
Definition process_event (inotifyFD : Z) (path : string) (p : bytes) : prog posix (bytes + unit) :=
  match p with
  | [] => Ret (inr tt)
  | _ =>
      match event_at p with
      | None => undef "event past the data"
      | Some (ev, rest) =>
          displayInotifyEvent ev ;;;
          when (flag_set (mask ev) IN_CREATE && flag_set (mask ev) IN_ISDIR) (scan inotifyFD path) ;;;
          Ret (inl rest)
      end
  end.

Definition observe (inotifyFD : Z) (path : string) : prog posix (unit + unit) :=
  '(r, buf) <- sys (Read inotifyFD BUF_LEN);;
  if (ret r =? 0)%Z then perror "read() from inotify fd returned 0" (errno r) ;;; exit EXIT_FAILURE else
  if (ret r =? -1)%Z then perror "read" (errno r) ;;; exit EXIT_FAILURE else
  printf ("Read " +:+ zstr (ret r) +:+ " bytes from inotify fd" +:+ nl) ;;;
  let data := take (Z.to_nat (ret r)) buf in
  loop (S (length data)) (process_event inotifyFD path) data ;;;
  Ret (inl tt).

Definition observer_main (fuel : nat) (argv : list string) : prog posix unit :=
  match argv with
  | [_; path] =>
      if streq path "--help" then
        printf ("Usage: " +:+ argv_0 argv +:+ " <path_to_directory>" +:+ nl) ;;; exit EXIT_FAILURE
      else
      i <- sys InotifyInit;;
      if (ret i =? -1)%Z then perror "inotify_init" (errno i) ;;; exit EXIT_FAILURE else
      scan (ret i) path ;;;
      loop fuel (λ _, observe (ret i) path) tt
  | _ => printf ("Usage: " +:+ argv_0 argv +:+ " <path_to_directory>" +:+ nl) ;;; exit EXIT_FAILURE
  end.

(** ** The events of a buffer *)

(** How the kernel lays out an event. *)
Definition encode (e : inotify_event) : bytes :=
  le32 (wd e) ++ le32 (mask e) ++ le32 (cookie e) ++ le32 (len e) ++ name e.
Definition well_formed (e : inotify_event) : Prop :=
  in_int (wd e) ∧ (0 <= mask e < 2 ^ 32)%Z ∧ (0 <= cookie e < 2 ^ 32)%Z ∧
  len e = Z.of_nat (length (name e)) ∧ (len e < 2 ^ 32)%Z.

Lemma event_at_encode e rest : well_formed e → event_at (encode e ++ rest) = Some (e, rest).
Proof.
  intros (Hw & Hm & Hc & Hl & Hb). destruct e as [w m c l nm]. cbn [wd mask cookie len name] in *.
  unfold event_at, encode. cbn [wd mask cookie len name].
  change (of_le32 ((le32 w ++ le32 m ++ le32 c ++ le32 l ++ nm) ++ rest)) with (of_le32 (le32 w)).
  change (of_leu32 (drop 4 ((le32 w ++ le32 m ++ le32 c ++ le32 l ++ nm) ++ rest))) with (of_leu32 (le32 m)).
  change (of_leu32 (drop 8 ((le32 w ++ le32 m ++ le32 c ++ le32 l ++ nm) ++ rest))) with (of_leu32 (le32 c)).
  change (of_leu32 (drop 12 ((le32 w ++ le32 m ++ le32 c ++ le32 l ++ nm) ++ rest))) with (of_leu32 (le32 l)).
  rewrite of_le32_le32, !of_leu32_le32 by (done || lia). cbv zeta.
  change (drop HEADER ((le32 w ++ le32 m ++ le32 c ++ le32 l ++ nm) ++ rest)) with (nm ++ rest).
  rewrite Hl, Nat2Z.id, take_app_length. rewrite decide_True.
  - rewrite <- drop_drop. change (drop HEADER ((le32 w ++ le32 m ++ le32 c ++ le32 (Z.of_nat (length nm)) ++ nm) ++ rest)) with (nm ++ rest).
    by rewrite drop_app_length.
  - rewrite length_app. cbn. lia.
Qed.

Lemma event_at_shorter p e rest : event_at p = Some (e, rest) → length rest < length p.
Proof.
  unfold event_at. destruct (decide _) as [H|H]; [|done]. intros [= _ <-]. rewrite length_drop. unfold HEADER in *. lia.
Qed.

(** The events the walk through the buffer meets. *)
Fixpoint decode (fuel : nat) (p : bytes) : list inotify_event :=
  match fuel with
  | O => []
  | S fuel => match p with
      | [] => []
      | _ => match event_at p with Some (e, rest) => e :: decode fuel rest | None => [] end
      end
  end.
Definition events (p : bytes) : list inotify_event := decode (S (length p)) p.

Lemma decode_enough p : ∀ f1 f2, length p < f1 → length p < f2 → decode f1 p = decode f2 p.
Proof.
  induction p as [p IH] using (induction_ltof1 _ length). intros [|f1] [|f2] H1 H2; [lia..|]. cbn.
  destruct p as [|c p]; [done|]. destruct (event_at (c :: p)) as [[e rest]|] eqn:E; [|done].
  apply event_at_shorter in E as E'. f_equal. apply IH; [done|lia|lia].
Qed.

Lemma events_step p e rest : event_at p = Some (e, rest) → events p = e :: events rest.
Proof.
  intros E. apply event_at_shorter in E as E'. unfold events. destruct p as [|c p]; [done|].
  change (decode (S (length (c :: p))) (c :: p)) with (match event_at (c :: p) with
    Some (e, rest) => e :: decode (length (c :: p)) rest | None => [] end).
  rewrite E. f_equal. apply decode_enough; lia.
Qed.

(** The walk through the buffer finds the events the kernel put there. *)
Lemma inotify_roundtrip_ok (evs : list inotify_event) :
  Forall well_formed evs → events (mjoin (encode <$> evs)) = evs.
Proof.
  induction 1 as [|e evs He _ IH]; [done|]. cbn [fmap list_fmap mjoin list_join].
  erewrite events_step; [|by apply event_at_encode]. by f_equal.
Qed.

(** ** What is displayed *)

(** The texts written for an event. *)
Definition render (e : inotify_event) : list string :=
  [tab +:+ "wd =" +:+ field 2 (wd e) +:+ "; "] ++
  (if (0 <? cookie e)%Z then ["cookie = " +:+ field 4 (to_int (cookie e)) +:+ ";"] else []) ++
  ["mask = "] ++ (filter (λ fn, flag_set (mask e) fn.1 = true) mask_names).*2 ++ [nl] ++
  (if (0 <? len e)%Z then [tab +:+ tab +:+ " name = " +:+ of_bytes (cstr (name e)) +:+ nl] else []).

Definition new_dir (e : inotify_event) : bool := flag_set (mask e) IN_CREATE && flag_set (mask e) IN_ISDIR.

(** What the reads of a trace brought. *)
Definition batch (e : event posix) : option (Z * list inotify_event) :=
  match e with
  | ECall (Read _ _) a =>
      if (ret a.1 =? 0)%Z || (ret a.1 =? -1)%Z then None
      else Some (ret a.1, events (take (Z.to_nat (ret a.1)) a.2))
  | _ => None
  end.
Definition batches (t : list (event posix)) : list (Z * list inotify_event) := omap batch t.

Definition show_batch (b : Z * list inotify_event) : list string :=
  ("Read " +:+ zstr b.1 +:+ " bytes from inotify fd" +:+ nl) :: mjoin (render <$> b.2).
Definition expected (t : list (event posix)) : list string := mjoin (show_batch <$> batches t).
Definition new_dirs (t : list (event posix)) : list inotify_event :=
  filter (λ e, new_dir e = true) (mjoin (snd <$> batches t)).

(** The directories scans have met, those with a watch, and the scans. *)
Definition seen_by (e : event posix) : list string :=
  match e with ECall (Nftw _) a => (filter (λ x, x.2 = true) a.2).*1 | _ => [] end.
Definition watch_by (e : event posix) : list string :=
  match e with ECall (InotifyAddWatch _ p _) a => if (ret a =? -1)%Z then [] else [p] | _ => [] end.
Definition scan_by (e : event posix) : list unit := match e with ECall (Nftw _) _ => [tt] | _ => [] end.
Definition seen (t : list (event posix)) := t ≫= seen_by.
Definition watched (t : list (event posix)) := t ≫= watch_by.
Definition scans (t : list (event posix)) : nat := length (t ≫= scan_by).

Definition covered (t : list (event posix)) : Prop := ∀ d, d ∈ seen t → d ∈ watched t.
(** At every read, all directories met so far are watched. *)
Definition covered_at_reads (t : list (event posix)) : Prop :=
  ∀ t1 t2 fd n a, t = t1 ++ ECall (Read fd n) a :: t2 → covered t1.

(** The data the kernel puts in the buffer: whole events. *)
Definition kernel_events (p : bytes) : Prop := ∃ evs, Forall well_formed evs ∧ p = mjoin (encode <$> evs).
Definition malformed_read (t : list (event posix)) : Prop :=
  ∃ fd n a, ECall (Read fd n) a ∈ t ∧ ¬ kernel_events (take (Z.to_nat (ret a.1)) a.2).

Lemma kernel_events_rest p e rest : kernel_events p → event_at p = Some (e, rest) → kernel_events rest.
Proof.
  intros (evs & Hw & ->) E. destruct Hw as [|e' evs He Hevs]; [done|]. cbn [fmap list_fmap mjoin list_join] in E.
  rewrite event_at_encode in E by done. simplify_eq. by exists evs.
Qed.

Lemma kernel_events_none p : kernel_events p → event_at p = None → p = [].
Proof.
  intros (evs & Hw & ->) E. destruct Hw as [|e' evs He Hevs]; [done|]. cbn [fmap list_fmap mjoin list_join] in E.
  by rewrite event_at_encode in E.
Qed.

(** ** Correctness *)

Lemma says_batches l : batches (says l) = [].
Proof. unfold says. induction l as [|s l IH]; [done|]. exact IH. Qed.
Lemma says_bind {B} (f : event posix → list B) l : (∀ s, f (EOut (Out s)) = []) → says l ≫= f = [].
Proof. intros Hf. unfold says. induction l as [|s l IH]; [done|]. cbn. by rewrite Hf. Qed.
Lemma batches_app t1 t2 : batches (t1 ++ t2) = batches t1 ++ batches t2.
Proof. apply omap_app. Qed.

Definition no_read (e : event posix) : Prop := match e with ECall (Read _ _) _ => False | _ => True end.

Lemma covered_at_reads_app t t2 : covered_at_reads t → Forall no_read t2 → covered_at_reads (t ++ t2).
Proof.
  intros Ht H2 u1 u2 fd n a E. apply app_eq_inv in E as [(k & E1 & E2)|(k & E1 & E2)].
  - destruct k as [|e k]; cbn in E2.
    + rewrite <- E2 in H2. by apply Forall_cons in H2 as [[] _].
    + simplify_eq. by eapply Ht.
  - exfalso. rewrite E2 in H2. apply Forall_app in H2 as [_ H2]. by apply Forall_cons in H2 as [[] _].
Qed.

Lemma covered_at_reads_read t fd n a : covered_at_reads t → covered t → covered_at_reads (t ++ [ECall (Read fd n) a]).
Proof.
  intros Ht Hc u1 u2 fd' n' a' E. apply app_eq_inv in E as [(k & E1 & E2)|(k & E1 & E2)].
  - destruct k as [|e k]; cbn in E2; simplify_eq; [by rewrite app_nil_r in Hc|]. by eapply Ht.
  - destruct k as [|e [|]]; cbn in E2; simplify_eq. by rewrite app_nil_r.
Qed.

Lemma expected_quiet t t2 : batches t2 = [] → expected (t ++ t2) = expected t ∧ new_dirs (t ++ t2) = new_dirs t.
Proof. intros E. unfold expected, new_dirs. by rewrite batches_app, E, app_nil_r. Qed.

Lemma expected_read t fd n (a : rc * bytes) : let evs := events (take (Z.to_nat (ret a.1)) a.2) in
  ret a.1 ≠ 0%Z → ret a.1 ≠ (-1)%Z →
  expected (t ++ [ECall (Read fd n) a]) = expected t ++ show_batch (ret a.1, evs) ∧
  new_dirs (t ++ [ECall (Read fd n) a]) = new_dirs t ++ filter (λ e, new_dir e = true) evs.
Proof.
  intros evs H0 H1. unfold expected, new_dirs. rewrite batches_app. cbn [batches omap list_omap batch].
  rewrite (proj2 (Z.eqb_neq _ _) H0), (proj2 (Z.eqb_neq _ _) H1). cbn [orb].
  rewrite !fmap_app, !join_app, filter_app. cbn [fmap list_fmap mjoin list_join snd]. by rewrite !app_nil_r.
Qed.

(** [shown rest t]: everything read has been displayed but the events [rest],
    and every new directory displayed has been scanned for. *)
Definition shown (rest : list inotify_event) (t : list (event posix)) : Prop :=
  outs t ++ mjoin (render <$> rest) = expected t ∧
  scans t + length (filter (λ e, new_dir e = true) rest) = 1 + length (new_dirs t).
Definition safe (t : list (event posix)) : Prop := covered_at_reads t ∧ outs t `prefix_of` expected t.

Lemma safe_quiet t e : safe t → batch e = None → no_read e → outs [e] = [] → safe (t ++ [e]).
Proof.
  intros [H1 H2] Hb Hr Ho. split; [by apply covered_at_reads_app, Forall_singleton|].
  rewrite outs_app, Ho, app_nil_r. rewrite (proj1 (expected_quiet t [e] ltac:(cbn; by rewrite Hb))). done.
Qed.

(** From [t] to [t'], [k] scans and nothing read or displayed. *)
Definition frame (k : nat) (t t' : list (event posix)) : Prop :=
  outs t' = outs t ∧ batches t' = batches t ∧ covered_at_reads t' ∧ scans t' = k + scans t ∧ t `prefix_of` t'.

Lemma frame_event k t t' e : frame k t t' → no_read e → outs [e] = [] →
  frame (k + length (scan_by e)) t (t' ++ [e]).
Proof.
  intros (H1 & H2 & H3 & H4 & H5) Hr Ho. unfold frame. rewrite outs_app, Ho, batches_app.
  assert (scans (t' ++ [e]) = scans t' + length (scan_by e)) as ->.
  { unfold scans. rewrite bind_app, length_app. cbn. by rewrite app_nil_r. }
  rewrite !app_nil_r. split_and!.
  - done.
  - rewrite <- H2. destruct e as [o|c a|c]; cbn; rewrite ?app_nil_r; [done| |done].
    destruct c; cbn in *; rewrite ?app_nil_r; done.
  - by apply covered_at_reads_app, Forall_singleton.
  - lia.
  - by apply prefix_app_r.
Qed.

Lemma frame_safe k t t' : safe t → frame k t t' → safe t'.
Proof. intros [_ H] (H1 & H2 & H3 & _). split; [done|]. unfold expected. by rewrite H1, H2. Qed.

Section observer.
Context {W : Type} (K : kernel posix W) (fd : Z) (path : string).

Lemma scan_ok t w : safe t → covered t →
  wpa K t (scan fd path) w (λ r _ t', safe t' ∧ match r with
    | Returned _ => frame 1 t t' ∧ covered t'
    | Halted h => h = Exited 1 ∧ perror_last t'
    | Gone => True
    end).
Proof.
  intros Hs Hc. assert (frame 0 t t) as H0 by (split_and!; [done..|apply Hs|done|done]).
  unfold scan. acc_call; [|split; [by apply safe_quiet|done]]. destruct a as [r entries].
  assert (∀ t' e, frame 1 t t' → no_read e → outs [e] = [] → safe (t' ++ [e])) as Hsafe.
  { intros t' e Hf Hr Ho. eapply frame_safe; [exact Hs|]. by apply frame_event. }
  apply wpa_bind. apply (wpa_for_each K (λ entries _ _ t', frame 1 t t' ∧
    ∀ d, d ∈ seen t' → d ∈ watched t' ∨ (d, true) ∈ entries)).
  - intros [d isdir] rest [] w1 t1 [Hf Hd]. cbn [fst snd]. apply wpa_bind. unfold directory_action.
    destruct isdir.
    + acc_call; [|split; [by apply Hsafe|done]]. assert (frame 1 t (t1 ++ [ECall (InotifyAddWatch fd d IN_ALL_EVENTS) a])) as Hf1.
      { by apply (frame_event 1). }
      destruct (ret a =? -1)%Z eqn:E; acc_steps.
      * split; [by apply Hsafe|]. split; [done|]. apply perror_last_snoc.
      * split; [done|]. intros d' Hd'. unfold seen, watched in *. rewrite bind_app in *. cbn in *. rewrite E.
        rewrite app_nil_r in Hd'. destruct (Hd d' Hd') as [Hx|Hx].
        -- left. apply elem_of_app. by left.
        -- apply elem_of_cons in Hx as [Hx|Hx]; [|by right]. simplify_eq. left. apply elem_of_app. right. by left.
    + acc_steps. split; [done|]. intros d' Hd'. destruct (Hd d' Hd') as [Hx|Hx]; [by left|right].
      by apply elem_of_cons in Hx as [Hx|Hx].
  - intros [] w1 t1 [Hf Hd]. destruct (ret r =? -1)%Z; acc_steps.
    + split; [by apply Hsafe|]. split; [done|]. apply perror_last_snoc.
    + split; [by eapply frame_safe|]. split; [done|]. intros d Hd'. destruct (Hd d Hd') as [Hx|Hx]; [done|].
      by apply not_elem_of_nil in Hx.
  - split; [by apply (frame_event 0)|]. intros d Hd. unfold seen, watched in *. rewrite bind_app in *.
    apply elem_of_app in Hd as [Hd|Hd]; [left; apply elem_of_app; left; by apply Hc|right].
    cbn in Hd. rewrite app_nil_r in Hd. apply list_elem_of_fmap in Hd as ([d' b] & -> & Hd).
    apply list_elem_of_filter in Hd as [Hb Hd]. cbn in *. by subst.
Qed.

Lemma display_ok ev t w (Q : outcome unit → W → list (event posix) → Prop) :
  Q (Returned tt) w (t ++ says (render ev)) → wpa K t (displayInotifyEvent ev) w Q.
Proof.
  assert (∀ b s t w (R : outcome unit → W → list (event posix) → Prop),
    R (Returned tt) w (t ++ says (if b : bool then [s] else [])) → wpa K t (when b (printf s)) w R) as Hwhen.
  { intros [] s t1 w1 R H; unfold when; acc_steps; [exact H|]. cbn in H. by rewrite app_nil_r in H. }
  intros H. unfold displayInotifyEvent. acc_steps. apply wpa_bind, Hwhen. acc_steps. apply wpa_bind.
  apply (wpa_for_each K (λ names _ w1 t1, w1 = w ∧ t1 ++ says ((filter (λ fn, flag_set (mask ev) fn.1 = true) names).*2) =
    ((t ++ [EOut (Out (tab +:+ "wd =" +:+ field 2 (wd ev) +:+ "; "))]) ++
      says (if (0 <? cookie ev)%Z then ["cookie = " +:+ field 4 (to_int (cookie ev)) +:+ ";"] else [])) ++
      [EOut (Out "mask = ")] ++ says ((filter (λ fn, flag_set (mask ev) fn.1 = true) mask_names).*2))).
  - intros [f s] names [] w1 t1 [-> E]. cbn [fst snd]. apply Hwhen. split; [done|]. rewrite <- E.
    rewrite filter_cons. cbn [fst]. destruct (flag_set (mask ev) f); cbn [decide bool_decide]; cbn.
    + by rewrite <- app_assoc.
    + by rewrite app_nil_r.
  - intros [] w1 t1 [-> E]. cbn in E. rewrite app_nil_r in E. subst t1. acc_steps. apply Hwhen.
    unfold render in H. rewrite !says_app in H. rewrite <- ?app_assoc in H. rewrite <- ?app_assoc. exact H.
  - split; [done|]. by rewrite <- !app_assoc.
Qed.

Lemma shown_step ev rest t t' : shown (ev :: rest) t →
  frame (if new_dir ev then 1 else 0) (t ++ says (render ev)) t' → shown rest t'.
Proof.
  intros [H1 H2] (Ho & Hb & _ & Hk & _). unfold shown.
  assert (scans (t ++ says (render ev)) = scans t) as Hsc.
  { unfold scans. by rewrite bind_app, says_bind, app_nil_r. }
  assert (expected t' = expected t ∧ new_dirs t' = new_dirs t) as [-> ->].
  { unfold expected, new_dirs. rewrite Hb, batches_app, says_batches. by rewrite app_nil_r. }
  rewrite Ho, outs_app, outs_says, Hk, Hsc, <- H1, <- H2. cbn [fmap list_fmap mjoin list_join].
  rewrite <- app_assoc. split; [done|].
  destruct (new_dir ev) eqn:En; [rewrite filter_cons_True by done|rewrite filter_cons_False by congruence]; cbn; lia.
Qed.

Lemma shown_safe rest t : covered_at_reads t → shown rest t → safe t.
Proof. intros Hc [H _]. split; [done|]. exists (mjoin (render <$> rest)). done. Qed.

Definition post {A} (r : outcome A) (t : list (event posix)) : Prop := safe t ∧ match r with
  | Returned _ => False
  | Halted Cut => shown [] t ∧ covered t
  | Halted (Exited c) => c = 1%Z ∧ perror_last t
  | Halted (Undef _) => malformed_read t
  | Halted _ => False
  | Gone => True
  end.

(** What is left of a buffer is whole events, if the buffer was. *)
Definition from_read (p : bytes) (t : list (event posix)) : Prop :=
  kernel_events p ∨ ∃ fd n a, ECall (Read fd n) a ∈ t ∧
    (kernel_events (take (Z.to_nat (ret a.1)) a.2) → kernel_events p).

Definition inv (p : bytes) (t : list (event posix)) : Prop :=
  shown (events p) t ∧ covered_at_reads t ∧ covered t ∧ from_read p t.

Lemma from_read_step p e rest t t' : from_read p t → event_at p = Some (e, rest) → t `prefix_of` t' → from_read rest t'.
Proof.
  intros H E [u ->]. destruct H as [H|(f & n & a & H1 & H2)]; [left; by eapply kernel_events_rest|right].
  exists f, n, a. split; [apply elem_of_app; by left|]. intros H. eapply kernel_events_rest; [by apply H2|done].
Qed.

Lemma from_read_none p t : from_read p t → event_at p = None → p ≠ [] → malformed_read t.
Proof.
  intros [H|(f & n & a & H1 & H2)] E Hp; [by apply kernel_events_none in H|].
  exists f, n, a. split; [done|]. intros H. by apply H2, kernel_events_none in H.
Qed.

Lemma says_quiet t l : covered_at_reads t → covered t →
  covered_at_reads (t ++ says l) ∧ covered (t ++ says l).
Proof.
  intros H1 H2. split.
  - apply covered_at_reads_app; [done|]. apply Forall_fmap, Forall_forall. done.
  - intros d. unfold seen, watched. rewrite !bind_app, !says_bind, !app_nil_r by done. apply H2.
Qed.

Lemma process_event_ok p t w : inv p t →
  wpa K t (process_event fd path p) w (λ r _ t', match r with
    | Returned (inl rest) => inv rest t' ∧ length rest < length p
    | Returned (inr _) => inv [] t'
    | Halted h => post (Halted h : outcome unit) t'
    | Gone => post (Gone : outcome unit) t'
    end).
Proof.
  intros (Hsh & Hcr & Hc & Hk). unfold process_event. destruct p as [|b p']; [by acc_steps|].
  set (p := b :: p') in *. destruct (event_at p) as [[ev rest]|] eqn:E.
  2:{ acc_steps. split; [by eapply shown_safe|]. by eapply from_read_none. }
  pose proof (event_at_shorter _ _ _ E). rewrite (events_step _ _ _ E) in Hsh. apply wpa_bind, display_ok.
  set (t1 := t ++ says (render ev)). destruct (says_quiet t (render ev) Hcr Hc) as [Hcr1 Hc1].
  assert (t `prefix_of` t1) as Hp1 by by apply prefix_app_r.
  assert (safe t1) as Hs1.
  { split; [done|]. destruct Hsh as [Ho _]. unfold t1.
    rewrite (proj1 (expected_quiet t _ (says_batches _))), outs_app, outs_says, <- Ho.
    exists (mjoin (render <$> events rest)). cbn [fmap list_fmap mjoin list_join]. by rewrite <- app_assoc. }
  fold (new_dir ev). apply wpa_bind. unfold when. destruct (new_dir ev) eqn:En.
  - eapply wpa_mono; [by apply scan_ok|]. intros [[]|h|] w' t' [Hs' H']; [|by destruct H' as [-> H']|done].
    acc_steps. destruct H' as [Hf Hc']. split; [|done]. split_and!; [|apply Hs'|done|].
    + eapply shown_step; [done|]. by rewrite En.
    + eapply from_read_step; [done..|]. etrans; [exact Hp1|apply Hf].
  - acc_steps. split; [|done]. split_and!; [|done..|by eapply from_read_step]. eapply shown_step; [done|]. rewrite En. by split_and!.
Qed.

Lemma observe_ok t w : inv [] t →
  wpa K t (observe fd path) w (λ r _ t', match r with
    | Returned (inl _) => inv [] t'
    | Returned (inr _) => False
    | Halted h => post (Halted h : outcome unit) t'
    | Gone => post (Gone : outcome unit) t'
    end).
Proof.
  intros (Hsh & Hcr & Hc & Hk). pose proof (shown_safe _ _ Hcr Hsh) as Hs. unfold observe.
  acc_call; [|split; [by apply safe_quiet|done]]. destruct a as [r buf].
  set (e := ECall (Read fd BUF_LEN) (r, buf)).
  pose proof (covered_at_reads_read t fd BUF_LEN (r, buf) Hcr Hc : covered_at_reads (t ++ [e])) as Hcr1.
  assert (covered (t ++ [e])) as Hc1.
  { intros d. unfold seen, watched. rewrite !bind_app. cbn. rewrite !app_nil_r. apply Hc. }
  assert (∀ s, batch e = None → post (Halted (Exited 1) : outcome unit) ((t ++ [e]) ++ [EOut (Perror s (errno r))])) as Hfail.
  { intros s Hb. split; [apply safe_quiet; [split; [done|]|done..]|].
    - rewrite outs_app, app_nil_r. destruct Hs as [_ Hs]. unfold expected.
      rewrite batches_app. unfold batches at 2. cbn [omap list_omap]. by rewrite Hb, app_nil_r.
    - split; [done|]. apply perror_last_snoc. }
  destruct (ret r =? 0)%Z eqn:E0; [acc_steps; apply Hfail; cbn; by rewrite E0|].
  destruct (ret r =? -1)%Z eqn:E1; [acc_steps; apply Hfail; cbn; by rewrite E1, orb_true_r|]. zbool.
  acc_steps. apply wpa_bind. set (data := take (Z.to_nat (ret r)) buf). cbv zeta.
  assert (inv data ((t ++ [e]) ++ says [("Read " +:+ zstr (ret r) +:+ " bytes from inotify fd" +:+ nl)])) as Hinv.
  { destruct (says_quiet (t ++ [e]) [("Read " +:+ zstr (ret r) +:+ " bytes from inotify fd" +:+ nl)] Hcr1 Hc1) as [Hcr2 Hc2].
    destruct (expected_read t fd BUF_LEN (r, buf) E0 E1) as [He1 He2]. fold e in He1, He2. cbn [fst snd] in He1, He2.
    fold data in He1, He2. destruct Hsh as [Ho Hn]. cbn in Ho, Hn. rewrite app_nil_r in Ho. split_and!; [|done..|].
    - destruct (expected_quiet (t ++ [e]) (says [("Read " +:+ zstr (ret r) +:+ " bytes from inotify fd" +:+ nl)])
        (says_batches _)) as [Hq1 Hq2]. unfold shown. rewrite Hq1, Hq2, He1, He2, !outs_app, outs_says, Ho, length_app.
      cbn [outs]. rewrite app_nil_r, <- app_assoc. split; [done|].
      unfold scans. rewrite !bind_app, says_bind by done. cbn. rewrite !app_nil_r. fold (scans t). lia.
    - right. exists fd, BUF_LEN, (r, buf). split; [|done]. rewrite !elem_of_app. left. right. by left. }
  refine (wpa_loop_total K (λ p _ t, inv p t) length _ _ _ _ data w' _ Hinv _); [|lia].
  intros p w1 t1 Hp. eapply wpa_mono; [by apply process_event_ok|].
  intros [[rest|[]]|h|] w2 t2 H2; [done|by acc_steps|done..].
Qed.
End observer.

(** C21: directory_observer.c, on any kernel.  The walk through the buffer of
    [read] finds exactly the events the kernel put there, in order.  What is
    displayed is always a part
    of what the reads brought, event by event in order, and all of it whenever
    the next read is due; at every read all directories met by the scans are
    watched, and there has been one scan at the start and one for each event
    that announced a new directory.  The program ends only with a message of
    [perror]; it leaves the buffer only if the kernel put something else there
    than whole events. *)
Theorem directory_observer_correct {W} (K : kernel posix W) (fuel : nat) (argv0 path : string) (w : W) :
  (∀ evs : list inotify_event, Forall well_formed evs → events (mjoin (encode <$> evs)) = evs) ∧
  (path ≠ "--help" →
  wp K (observer_main fuel [argv0; path]) w (λ r _ t,
    covered_at_reads t ∧ outs t `prefix_of` expected t ∧ match r with
    | Returned _ => False
    | Halted Cut => outs t = expected t ∧ scans t = 1 + length (new_dirs t) ∧ covered t
    | Halted (Exited c) => c = 1%Z ∧ perror_last t
    | Halted (Undef _) => malformed_read t
    | Halted _ => False
    | Gone => True
    end)).
Proof.
  split; [exact inotify_roundtrip_ok|]. intros Hp. apply wpa_wp. eapply (wpa_mono K) with (Q := λ r _ t, post r t).
  2:{ intros [[]|h|] w' t [[H1 H2] H3]; split_and!; [done..| |done|done|done]. destruct h; [done..|].
      destruct H3 as [[Ho Hn] Hc]. cbn in Ho, Hn. rewrite app_nil_r in Ho. split_and!; [done|lia|done]. }
  assert (covered_at_reads []) as Hr0 by (intros [|] ? ? ? ? ?; done).
  cbn [observer_main]. destruct (streq path "--help") eqn:Eh; [by apply streq_true in Eh|].
  assert (∀ a, safe [ECall InotifyInit a]) as Hs.
  { intros a. apply (safe_quiet []); [|done..]. by split. }
  acc_call; [|split; [apply (safe_quiet []); [by split|done..]|done]].
  destruct (ret a =? -1)%Z; acc_steps.
  { split; [apply (safe_quiet [_]); [apply Hs|done..]|]. split; [done|]. apply perror_last_snoc. }
  assert (covered [ECall InotifyInit a]) as Hc by (intros d Hd; done).
  apply wpa_bind. eapply wpa_mono; [apply scan_ok; [apply Hs|exact Hc]|].
  intros [[]|h|] w1 t1 [Hs1 H1]; [|by destruct H1 as [-> H1]|done]. destruct H1 as [(Ho & Hb & Hcr & Hk & _) Hc1].
  apply (wpa_loop K (λ _ _ t, inv [] t)).
  - intros [] w2 t2 H2. eapply wpa_mono; [by apply observe_ok|]. by intros [[[]|[]]|h|] w3 t3 H3.
  - intros [] w2 t2 (H2 & H3 & H4 & _). split; [by eapply shown_safe|by split].
  - split_and!; [|done..|]. { split; unfold expected, new_dirs; rewrite ?Ho, ?Hb, ?Hk; done. }
    left. by exists [].
Qed.

(** A tree where [sub] appears while it is watched. *)
Definition sub_created : inotify_event := Event 1 (IN_CREATE + IN_ISDIR) 0 4 (to_bytes "sub" ++ [zero]).
Definition growing : kernel posix nat := λ c n,
  match c as c return reaction (posix_ans c) nat with
  | InotifyInit => Answer (Rc 3 0) n
  | Nftw _ => Answer (Rc 0 0, ("d", true) :: ("d/file", false) :: (if (n =? 0)%nat then [] else [("d/sub", true)])) n
  | InotifyAddWatch _ _ _ => Answer (Rc 1 0) n
  | Read _ _ => if (n =? 0)%nat then Answer (Rc 20 0, encode sub_created) 1 else NoReturn n
  | _ => NoReturn n
  end.

Lemma directory_observer_correct_witness :
  let evs := [sub_created; Event 2 IN_MOVED_FROM 77 0 []] in
  Forall well_formed evs ∧ events (mjoin (encode <$> evs)) = evs ∧
  wp growing (observer_main 1 ["observer"; "d"]) 0 (λ r _ t,
    r = Halted Cut ∧ watched t = ["d"; "d"; "d/sub"] ∧ covered_at_reads t ∧ scans t = 2 ∧ outs t = expected t ∧
    length (outs t) = 7).
Proof.
  intros evs. assert (Forall well_formed evs) as Hw.
  { do 2 (apply Forall_cons; split; [repeat split; vm_compute; first [reflexivity|discriminate]|]); by apply Forall_nil. }
  destruct (directory_observer_correct growing 1 "observer" "d" 0) as [Hev H0]. specialize (H0 ltac:(done)).
  split; [exact Hw|]. split; [exact (Hev evs Hw)|]. clear Hw Hev.
  assert ((run growing (observer_main 1 ["observer"; "d"]) 0).1.1 = Halted Cut ∧
    watched (run growing (observer_main 1 ["observer"; "d"]) 0).2 = ["d"; "d"; "d/sub"] ∧
    length (outs (run growing (observer_main 1 ["observer"; "d"]) 0).2) = 7 ∧
    length (new_dirs (run growing (observer_main 1 ["observer"; "d"]) 0).2) = 1) as E1
    by (vm_compute; split_and!; reflexivity).
  apply wp_intro. intros r w' t E. rewrite E in E1. cbn [fst snd] in E1.
  pose proof (wp_run _ _ _ _ _ _ _ H0 E) as H. clear E H0. destruct E1 as (-> & Hw & Hl & Hn).
  destruct H as (H1 & _ & H2 & H3 & _). rewrite Hn in H3. split_and!; [reflexivity|exact Hw|exact H1|exact H3|exact H2|exact Hl].
Defined.
