(* ===== verification/TsdPaths.v ===== *)
(** * Thread-safe dirname and basename

    dirname_basename_tsd.c (CH31): [basename_ts] and [dirname_ts] return their
    result in a buffer of the calling thread, kept under a key of thread-specific
    data.  [tsd] is what the calling thread sees of it; the calls of the threads
    library that can fail are answered by the environment. *)
From Stdlib Require Import ZArith Lia Ascii String.
From stdpp Require Import base gmap strings list.
From S2P Require Import Prelude Prog CString Posix.
Local Open Scope prog_scope.

Inductive tsd_op := PthreadKeyCreate | PthreadOnce | PthreadSetspecific | TsdMalloc (size : Z).
Canonical Structure tsd_sig : sig := Sig tsd_op (λ _, rc).

(** A block of [malloc], with the C string it holds. *)
Record buffer := Buffer { cap : nat; text : bytes }.

(** [basenameOnce] and the value of the thread under [basenameKey]. *)
Record tsd := Tsd { once_done : bool; value : option buffer }.

Definition slash : ascii := "/"%char.

Definition createKeyBaseName : prog tsd_sig unit :=
  s <- sys PthreadKeyCreate;;
  if negb (ret s =? 0)%Z then perror "pthread_key_create" (errno s) ;;; exit EXIT_FAILURE else Ret tt.

(** The same for [dirnameKey]; nothing calls it. *)
Definition createKeyDirName : prog tsd_sig unit :=
  s <- sys PthreadKeyCreate;;
  if negb (ret s =? 0)%Z then perror "pthread_key_create" (errno s) ;;; exit EXIT_FAILURE else Ret tt.

(** [pthread_once]: [init] runs at the first call only. *)
Definition pthread_once (done : bool) (init : prog tsd_sig unit) : prog tsd_sig (rc * bool) :=
  s <- sys PthreadOnce;;
  if negb (ret s =? 0)%Z then Ret (s, done) else
  if done then Ret (s, true) else init ;;; Ret (s, true).

(** [strcpy] into a block: one byte more than the string, for its NUL. *)
Definition strcpy (b : buffer) (s : bytes) : prog tsd_sig buffer :=
  if decide (length s < cap b) then Ret (Buffer (cap b) s) else undef "strcpy past the end of the block".

(** The prologue the two functions share, up to the test of [path]. *)
Definition thread_buffer (st : tsd) (path : option bytes) : prog tsd_sig (buffer * tsd) :=
  '(s, done) <- pthread_once (once_done st) createKeyBaseName;;
  if negb (ret s =? 0)%Z then perror "pthread_once" (errno s) ;;; exit EXIT_FAILURE else
  buf <- match value st with
         | Some b => Ret b
         | None => match path with
             | None => undef "strlen(NULL)"
             | Some p =>
                 m <- sys (TsdMalloc (Z.of_nat (length p)));;
                 if (ret m =? 0)%Z then perror "malloc" (errno m) ;;; exit EXIT_FAILURE
                 else Ret (Buffer (length p) [])
             end
         end;;
  s <- sys PthreadSetspecific;;
  if negb (ret s =? 0)%Z then perror "pthread_setspecific" (errno s) ;;; exit EXIT_FAILURE
  else Ret (buf, Tsd done (Some buf)).

(** [if (path[strlen(path) - 1] == '/') path[strlen(path) - 1] = '\0']. *)
Definition chop (p : bytes) : bytes :=
  if Ascii.eqb (List.last p NUL) slash then take (length p - 1) p else p.

(** The functions give the path as they leave it, and the thread's data, whose
    buffer is the result. *)
Definition basename_ts (st : tsd) (path : option bytes) : prog tsd_sig (option bytes * tsd) :=
  '(buf, st) <- thread_buffer st path;;
  match path with
  | None | Some [] => b <- strcpy buf ["."%char];; Ret (path, Tsd (once_done st) (Some b))
  | Some p =>
      let p := chop p in
      b <- strcpy buf match break_last slash p with None => p | Some (_, t) => t end;;
      Ret (Some p, Tsd (once_done st) (Some b))
  end.

Definition dirname_ts (st : tsd) (path : option bytes) : prog tsd_sig (option bytes * tsd) :=
  '(buf, st) <- thread_buffer st path;;
  match path with
  | None | Some [] => b <- strcpy buf ["."%char];; Ret (path, Tsd (once_done st) (Some b))
  | Some p =>
      let p := chop p in
      let p := match break_last slash p with None => p | Some (h, _) => h end in
      b <- strcpy buf p;;
      Ret (Some p, Tsd (once_done st) (Some b))
  end.

(** ** The definition of POSIX *)

Definition rstrip (p : bytes) : bytes := reverse (skip_delim slash (reverse p)).

Definition posix_basename (p : bytes) : bytes :=
  match p with
  | [] => ["."%char]
  | _ => match rstrip p with
      | [] => [slash]
      | q => match break_last slash q with None => q | Some (_, t) => t end
      end
  end.

Definition posix_dirname (p : bytes) : bytes :=
  match p with
  | [] => ["."%char]
  | _ => match rstrip p with
      | [] => [slash]
      | q => match break_last slash q with
          | None => ["."%char]
          | Some (h, _) => match rstrip h with [] => [slash] | h' => h' end
          end
      end
  end.

(** ** Correctness *)

(** What the two functions put into the buffer. *)
Definition base_of (p : bytes) : bytes :=
  match p with
  | [] => ["."%char]
  | _ => match break_last slash (chop p) with None => chop p | Some (_, t) => t end
  end.
Definition dir_of (p : bytes) : bytes :=
  match p with
  | [] => ["."%char]
  | _ => match break_last slash (chop p) with None => chop p | Some (h, _) => h end
  end.

(** How a call ends whose result is [s], in a block of [c] bytes; [p] is the
    path it leaves. *)
Definition answers (s p : bytes) (c : nat) (r : outcome (option bytes * tsd)) (t : list (event tsd_sig)) : Prop :=
  match r with
  | Returned (p', st) => p' = Some p ∧ value st = Some (Buffer c s) ∧ once_done st = true ∧ length s < c
  | Halted (Undef _) => c <= length s
  | Halted (Exited n) => n = 1%Z ∧ perror_last t
  | Halted _ => False
  | Gone => True
  end.

Section calls.
Context {W : Type} (K : kernel tsd_sig W).

Lemma thread_buffer_ok st p w :
  wpa K [] (thread_buffer st (Some p)) w (λ r _ t, match r with
    | Returned (b, st') => cap b = from_option cap (length p) (value st) ∧ once_done st' = true
    | Halted h => h = Exited 1 ∧ perror_last t
    | Gone => True
    end).
Proof.
  unfold thread_buffer. apply wpa_bind. unfold pthread_once. acc_call; [|done].
  destruct (ret a =? 0)%Z eqn:E0; cbn [negb]; [|acc_steps; rewrite E0; cbn [negb]; acc_steps; auto using perror_last_snoc].
  apply (wpa_mono K) with (Q := λ r _ t, match r with
    | Returned x => x = (a, true)
    | Halted h => h = Exited 1 ∧ perror_last t
    | Gone => True end).
  { destruct (once_done st); [by acc_steps|]. apply wpa_bind. unfold createKeyBaseName. acc_call; [|done].
    destruct (ret a0 =? 0)%Z; cbn [negb]; acc_steps; auto using perror_last_snoc. }
  intros [x|h|] w1 t1 H1; [subst x|done..]. rewrite E0. cbn [negb]. apply wpa_bind.
  apply (wpa_mono K) with (Q := λ r _ t, match r with
    | Returned b => cap b = from_option cap (length p) (value st)
    | Halted h => h = Exited 1 ∧ perror_last t
    | Gone => True end).
  { destruct (value st) as [b|]; [by acc_steps|]. acc_call; [|done].
    destruct (ret a0 =? 0)%Z; acc_steps; auto using perror_last_snoc. }
  intros [b|h|] w2 t2 H2; [|done..]. acc_call; [|done].
  destruct (ret a0 =? 0)%Z; cbn [negb]; acc_steps; auto using perror_last_snoc.
Qed.

Lemma strcpy_ok (b : buffer) (s p : bytes) (d : bool) t w :
  wpa K t (x <- strcpy b s;; Ret (Some p, Tsd d (Some x))) w (λ r _ t',
    match r with Returned (p', st) => p' = Some p ∧ value st = Some (Buffer (cap b) s) ∧ once_done st = d ∧ length s < cap b
    | Halted (Undef _) => cap b <= length s | _ => False end).
Proof. unfold strcpy. destruct (decide _); acc_steps; [by split_and!|lia]. Qed.

End calls.

(** *** Strings *)

Lemma rstrip_nil : rstrip [] = [].
Proof. done. Qed.
Lemma rstrip_slash p : rstrip (p ++ [slash]) = rstrip p.
Proof. unfold rstrip. by rewrite reverse_app. Qed.
Lemma rstrip_other p c : c ≠ slash → rstrip (p ++ [c]) = p ++ [c].
Proof.
  intros H. unfold rstrip. rewrite reverse_snoc. cbn [skip_delim]. destruct (Ascii.eqb_spec c slash) as [->|]; [done|].
  by rewrite reverse_cons, reverse_involutive.
Qed.
Lemma chop_slash p : chop (p ++ [slash]) = p.
Proof.
  unfold chop. rewrite last_last, Ascii.eqb_refl, length_app, Nat.add_sub. apply take_app_length.
Qed.
Lemma chop_other p c : c ≠ slash → chop (p ++ [c]) = p ++ [c].
Proof. intros H. unfold chop. rewrite last_last. by destruct (Ascii.eqb_spec c slash) as [->|]. Qed.

Lemma rstrip_ends p : rstrip p = [] ∨ ∃ x c, rstrip p = x ++ [c] ∧ c ≠ slash.
Proof.
  induction p as [|c p IH] using rev_ind; [by left|]. destruct (decide (c = slash)) as [->|H].
  - by rewrite rstrip_slash.
  - right. exists p, c. by rewrite rstrip_other.
Qed.

Lemma rstrip_le p : length (rstrip p) ≤ length p.
Proof.
  induction p as [|c p IH] using rev_ind; [done|]. destruct (decide (c = slash)) as [->|H].
  - rewrite rstrip_slash, length_app. lia.
  - by rewrite rstrip_other.
Qed.

Lemma break_last_ends h t p : break_last slash p = Some (h, t) → p = h ++ slash :: t ∧ slash ∉ t.
Proof.
  revert h. induction p as [|c p IH]; intros h; cbn; [done|]. destruct (break_last slash p) as [[h' t']|] eqn:E.
  - intros [= <- <-]. destruct (IH h' eq_refl) as [-> Ht]. done.
  - destruct (Ascii.eqb_spec c slash) as [->|]; [|done]. intros [= <- <-]. split; [done|].
    clear IH. induction p as [|c p IH]; [apply not_elem_of_nil|]. cbn in E. destruct (break_last slash p); [by destruct p0|].
    destruct (Ascii.eqb_spec c slash) as [->|]; [done|]. apply not_elem_of_cons. split; [done|by apply IH].
Qed.

Lemma length_last p : length (chop p) ≤ length p.
Proof. unfold chop. destruct (Ascii.eqb _ _); [rewrite length_take; lia|done]. Qed.

(** The path in pieces: directory, last component, an optional slash. *)
Definition pieces (d b : bytes) (trailing : bool) : bytes := d ++ slash :: b ++ (if trailing then [slash] else []).

Lemma component_ends b : slash ∉ b → b ≠ [] → ∃ x c, b = x ++ [c] ∧ c ≠ slash.
Proof.
  destruct b as [|c b] using rev_ind; [done|]. intros H _. exists b, c. split; [done|]. intros ->. apply H.
  apply elem_of_app. right. by left.
Qed.

Lemma pieces_stripped d b tr : slash ∉ b → b ≠ [] →
  chop (pieces d b tr) = d ++ slash :: b ∧ rstrip (pieces d b tr) = d ++ slash :: b.
Proof.
  intros H1 H2. destruct (component_ends b H1 H2) as (x & c & -> & Hc). unfold pieces. destruct tr.
  - replace (d ++ slash :: (x ++ [c]) ++ [slash]) with ((d ++ slash :: x ++ [c]) ++ [slash]) by (by rewrite <- app_assoc).
    rewrite chop_slash, rstrip_slash. split; [done|].
    replace (d ++ slash :: x ++ [c]) with ((d ++ slash :: x) ++ [c]) by (by rewrite <- app_assoc). by apply rstrip_other.
  - rewrite app_nil_r. replace (d ++ slash :: x ++ [c]) with ((d ++ slash :: x) ++ [c]) by (by rewrite <- app_assoc).
    by rewrite chop_other, rstrip_other.
Qed.

Lemma posix_basename_nonempty p : posix_basename p ≠ [].
Proof.
  unfold posix_basename. destruct p as [|c p]; [done|]. destruct (rstrip_ends (c :: p)) as [->|(x & e & -> & He)]; [done|].
  destruct (x ++ [e]) as [|y q] eqn:E; [by destruct x|]. rewrite <- E.
  destruct (break_last slash (x ++ [e])) as [[h t]|] eqn:Eb; [|by destruct x].
  apply break_last_ends in Eb as [Eb _]. intros ->. apply app_inj_tail in Eb as [_ Eb]. done.
Qed.

(** The last component is that of POSIX exactly when the path has at most one
    slash at its end and is not that slash alone. *)
Lemma base_equiv p : base_of p = posix_basename p ↔ p = [] ∨ (rstrip p = chop p ∧ chop p ≠ []).
Proof.
  split.
  - destruct p as [|c0 p0]; [by left|]. intros E. right. set (p := c0 :: p0) in *.
    assert (base_of p ≠ []) as Hne by (rewrite E; apply posix_basename_nonempty). clear E.
    change (base_of p) with (match break_last slash (chop p) with None => chop p | Some (_, t) => t end) in Hne.
    destruct p as [|c q] using rev_ind; [done|]. clear IHq. destruct (decide (c = slash)) as [->|H].
    + rewrite chop_slash in *. rewrite rstrip_slash. destruct q as [|e q] using rev_ind; [done|]. clear IHq.
      split; [|by destruct q]. apply rstrip_other. intros ->. by rewrite (break_last_Some slash q []) in Hne by apply not_elem_of_nil.
    + rewrite chop_other, rstrip_other by done. split; [done|]. by destruct q.
  - intros [->|[E Hne]]; [done|]. unfold base_of, posix_basename. rewrite E. destruct p; [done|]. by destruct (chop _).
Qed.

Lemma dir_pieces d b tr : slash ∉ b → b ≠ [] →
  base_of (pieces d b tr) = b ∧ dir_of (pieces d b tr) = d ∧
  posix_dirname (pieces d b tr) = (match rstrip d with [] => [slash] | h => h end).
Proof.
  intros H1 H2. destruct (pieces_stripped d b tr H1 H2) as [E1 E2]. unfold base_of, dir_of, posix_dirname.
  pose proof (break_last_Some slash d b H1) as Hb.
  rewrite E1, E2, Hb. destruct (pieces d b tr) eqn:E; [by destruct d|].
  split_and!; [done..|]. destruct (d ++ slash :: b) eqn:Ed; [by destruct d|]. by rewrite Hb.
Qed.

Lemma plain_path p : p ≠ [] → slash ∉ p → base_of p = p ∧ dir_of p = p ∧ posix_dirname p = ["."%char].
Proof.
  intros H1 H2. destruct (component_ends p H2 H1) as (x & c & E & Hc).
  assert (chop p = p ∧ rstrip p = p) as [E1 E2] by (subst; split; [by apply chop_other|by apply rstrip_other]).
  unfold base_of, dir_of, posix_dirname. pose proof (break_last_None slash p H2) as Hb.
  rewrite E1, E2, Hb. destruct p; [done|]. by rewrite Hb.
Qed.

Lemma fits p : slash ∈ p → length (base_of p) < length p ∧ length (dir_of p) < length p.
Proof.
  intros H. destruct p as [|c0 p0] eqn:E0; [by apply not_elem_of_nil in H|]. rewrite <- E0 in *. assert (p ≠ []) as Hne by by subst.
  unfold base_of, dir_of. destruct (break_last slash (chop p)) as [[h t]|] eqn:Eb.
  - apply break_last_ends in Eb as [Eb _]. pose proof (length_last p). rewrite Eb in *. rewrite length_app in *. cbn in *.
    destruct p; cbn in *; lia.
  - assert (length (chop p) < length p); [|by destruct p]. clear E0 c0 p0.
    destruct p as [|c q] using rev_ind; [done|]. clear IHq. destruct (decide (c = slash)) as [->|Hc].
    + rewrite chop_slash, length_app. cbn. lia.
    + rewrite chop_other in Eb by done. apply elem_of_app in H as [H|H]; [|apply list_elem_of_singleton in H; congruence].
      apply list_elem_of_split in H as (l1 & l2 & ->). exfalso. clear -Eb.
      induction l1 as [|x l1 IH]; cbn in Eb.
      * destruct (break_last slash (l2 ++ [c])) as [[]|]; done.
      * apply IH. destruct (break_last slash ((l1 ++ slash :: l2) ++ [c])) as [[]|]; done.
Qed.

(** ** The two functions *)

Lemma calls_ok {W} (K : kernel tsd_sig W) st p w :
  let c := from_option cap (length p) (value st) in
  wp K (basename_ts st (Some p)) w (λ r _ t, answers (base_of p) (chop p) c r t) ∧
  wp K (dirname_ts st (Some p)) w (λ r _ t, answers (dir_of p) (match p with [] => [] | _ => dir_of p end) c r t).
Proof.
  intros c. assert (∀ b (s p' : bytes) d t w, cap b = c → d = true →
    wpa K t (x <- strcpy b s;; Ret (Some p', Tsd d (Some x))) w (λ r _ t', answers s p' c r t')) as Hcpy.
  { intros b s p' d t w0 Hb ->. eapply wpa_mono; [apply strcpy_ok|]. rewrite Hb.
    intros [[q st']|h|] w' t' H; [|by destruct h|done].
    destruct H as (-> & Hv & Hd & H). by split_and!. }
  split; apply wpa_wp; unfold basename_ts, dirname_ts; apply wpa_bind;
    (eapply wpa_mono; [apply thread_buffer_ok|]);
    (intros [[b st']|h|] w1 t1 H1; [|by destruct H1 as [-> H1]|done]); destruct H1 as [H1 H2];
    (destruct p as [|x p]; [by apply Hcpy|]); by apply Hcpy.
Qed.

(** C24: [basename_ts] and [dirname_ts], whatever the calls they make answer.
    A call leaves [base_of p] ([dir_of p]) in the block of the thread, or ends the
    process with a message, or writes past the block.  A block of the first call
    is large enough exactly when the path has a slash.  [base_of] is POSIX's
    basename exactly on the paths with at most one slash at the end that are not
    that slash alone; [dir_of] is POSIX's dirname on a path in pieces exactly
    when the directory is not empty and has no slash at its end (but the root),
    and never on a path without a slash except ["."]. *)
Theorem ts_paths_correct {W} (K : kernel tsd_sig W) (st : tsd) (p d b : bytes) (trailing : bool) (w : W) :
  slash ∉ b → b ≠ [] →
  let c := from_option cap (length p) (value st) in
  wp K (basename_ts st (Some p)) w (λ r _ t, answers (base_of p) (chop p) c r t) ∧
  wp K (dirname_ts st (Some p)) w (λ r _ t, answers (dir_of p) (match p with [] => [] | _ => dir_of p end) c r t) ∧
  ((length (base_of p) < length p ↔ slash ∈ p) ∧ (length (dir_of p) < length p ↔ slash ∈ p)) ∧
  (base_of p = posix_basename p ↔ p = [] ∨ (rstrip p = chop p ∧ chop p ≠ [])) ∧
  base_of (pieces d b trailing) = b ∧
  (dir_of (pieces d b trailing) = posix_dirname (pieces d b trailing) ↔ d = [slash] ∨ (d ≠ [] ∧ rstrip d = d)) ∧
  (dir_of b = posix_dirname b ↔ b = ["."%char]).
Proof.
  intros H1 H2 c. destruct (calls_ok K st p w) as [Hb Hd]. destruct (dir_pieces d b trailing H1 H2) as (E1 & E2 & E3).
  destruct (plain_path b H2 H1) as (_ & E5 & E6). split_and!; [exact Hb|exact Hd| | |apply base_equiv|exact E1| |by rewrite E5, E6].
  - split; [|by intros; apply fits]. intros H. destruct (decide (slash ∈ p)) as [|Hn]; [done|exfalso].
    destruct (decide (p = [])) as [->|Hp]; [cbn in H; lia|]. destruct (plain_path p Hp Hn) as (E & _). rewrite E in H. lia.
  - split; [|by intros; apply fits]. intros H. destruct (decide (slash ∈ p)) as [|Hn]; [done|exfalso].
    destruct (decide (p = [])) as [->|Hp]; [cbn in H; lia|]. destruct (plain_path p Hp Hn) as (_ & E & _). rewrite E in H. lia.
  - rewrite E2, E3. split.
    + destruct (rstrip d) as [|x l] eqn:E; [by left|]. intros Ex. right. split; [by rewrite Ex|done].
    + intros [->|[Hne E]]; [done|]. rewrite E. by destruct d.
Qed.

(** A thread whose first call is [basename_ts] and whose second is [dirname_ts]. *)
Definition willing : kernel tsd_sig unit := λ c w, Answer (Rc (match c with TsdMalloc _ => 1 | _ => 0 end) 0) w.

Lemma ts_paths_correct_witness :
  wp willing (basename_ts (Tsd false None) (Some (to_bytes "/usr/lib/"))) tt (λ r _ _,
    r = Returned (Some (to_bytes "/usr/lib"), Tsd true (Some (Buffer 9 (to_bytes "lib"))))) ∧
  wp willing (dirname_ts (Tsd true (Some (Buffer 9 (to_bytes "lib")))) (Some (to_bytes "/usr/lib/"))) tt (λ r _ _,
    r = Returned (Some (to_bytes "/usr"), Tsd true (Some (Buffer 9 (to_bytes "/usr"))))) ∧
  base_of (to_bytes "/usr/lib/") = posix_basename (to_bytes "/usr/lib/") ∧
  dir_of (to_bytes "/usr/lib/") = posix_dirname (to_bytes "/usr/lib/") ∧
  wp willing (basename_ts (Tsd false None) (Some (to_bytes "lib"))) tt (λ r _ _, ∃ why, r = Halted (Undef why)).
Proof.
  assert (slash ∉ to_bytes "lib" ∧ to_bytes "lib" ≠ []) as [H1 H2].
  { split; [|discriminate]. cbn. repeat (apply not_elem_of_cons; split; [discriminate|]). apply not_elem_of_nil. }
  destruct (ts_paths_correct willing (Tsd false None) (to_bytes "/usr/lib/") (to_bytes "/usr") (to_bytes "lib") true tt H1 H2)
    as (Hb & _ & _ & He & _ & Hd & _).
  destruct (ts_paths_correct willing (Tsd false None) (to_bytes "lib") [] (to_bytes "lib") false tt H1 H2) as (Hu & _).
  split_and!.
  - reflexivity.
  - reflexivity.
  - apply He. right. split; [reflexivity|discriminate].
  - apply Hd. right. split; [discriminate|reflexivity].
  - eexists. reflexivity.
Defined.
