(* ===== verification/NiceProg.v ===== *)
(** * nice

    nice.c (CH35): runs a command at a changed priority.  [getopt] is glibc's:
    it moves the options, with their arguments, before the other words. *)
From Stdlib Require Import ZArith Lia Ascii String.
From stdpp Require Import base gmap strings list.
From S2P Require Import Prelude Prog CString Posix.
Local Open Scope prog_scope.

(** ** getopt(3) with ["n:"] *)

(** What a call returns: ['n'] with its [optarg], or ['?']. *)
Inductive opt := OptN (optarg : string) | OptUnknown.

(** The letters of a word of options: the results, and whether the last letter
    is an [n] whose argument is the next word. *)
Fixpoint letters (s : string) : list opt * bool :=
  match s with
  | EmptyString => ([], false)
  | String c s' =>
      if Ascii.eqb c "n" then match s' with EmptyString => ([], true) | _ => ([OptN s'], false) end
      else let '(rs, need) := letters s' in (OptUnknown :: rs, need)
  end.

Definition is_option (a : string) : bool :=
  match a with String c (String _ _) => Ascii.eqb c "-" | _ => false end.

(** The results of the calls, the words of options in order, the other words. *)
Fixpoint getopt_n (args : list string) : list opt * list string * list string :=
  match args with
  | [] => ([], [], [])
  | a :: args' =>
      if streq a "--" then ([], [a], args')
      else if is_option a then
        match letters (match a with String _ s => s | _ => a end) with
        | (rs, false) => let '(r, o, n) := getopt_n args' in (rs ++ r, a :: o, n)
        | (rs, true) =>
            match args' with
            | [] => (rs ++ [OptUnknown], [a], [])
            | b :: args'' => let '(r, o, n) := getopt_n args'' in (rs ++ OptN b :: r, a :: b :: o, n)
            end
        end
      else let '(r, o, n) := getopt_n args' in (r, o, a :: n)
  end.

(** ** The program *)

(** The blocks the copies need; the result is null when one is refused. *)
Definition strdup (s : string) : prog posix rc := sys (Malloc (Z.of_nat (String.length s) + 1)).

(** The loop that copies the arguments. *)
Definition copy_args (ws : list string) : prog posix (option Z) :=
  for_each ws (λ a (r : option Z), match r with
    | Some e => Ret (Some e)
    | None => m <- strdup a;; if (ret m =? 0)%Z then Ret (Some (errno m)) else Ret None
    end) None.

Definition nice_exec (command : string) (args : list string) (priority : Z) : prog posix Z :=
  s <- sys (Setpriority priority);;
  if (ret s =? -1)%Z then perror "setpriority" (errno s) ;;; Ret 125%Z else
  e <- sys (Execvp command args);;
  perror "execv" (errno e) ;;;
  Ret 125%Z.

(** The two branches differ in where the command starts, in the size of the
    array and in the priority: [strtol] of the option's argument. *)
Definition nice_command (start : nat) (size : Z) (priorityValue : option string) (argv : list string) : prog posix Z :=
  match argv !! start with
  | None => undef "strdup of a null pointer"
  | Some command =>
      c <- strdup command;;
      if (ret c =? 0)%Z then perror "strdup" (errno c) ;;; Ret 125%Z else
      m <- sys (Malloc (size * 8));;
      if (ret m =? 0)%Z then perror "malloc" (errno m) ;;; Ret 125%Z else
      r <- copy_args (drop start argv);;
      match r with
      | Some e => perror "strdup" e ;;; Ret 125%Z
      | None =>
          let priority := match priorityValue with
                          | Some v => to_int (st_val (strtol (to_bytes v) 10))
                          | None => 10%Z
                          end in
          if match priorityValue with Some _ => (priority =? EINVAL)%Z | None => false end
          then perror "strtol" (errno m) ;;; Ret 125%Z
          else nice_exec command (drop start argv) priority
      end
  end.

Definition nice_main (argv : list string) : prog posix Z :=
  match argv with
  | [_] =>
      p <- sys Getpriority;;
      printf (zstr (ret p) +:+ nl) ;;;
      Ret 0%Z
  | _ =>
      let '(opts, o, n) := getopt_n (tail argv) in
      let argv' := argv_0 argv :: o ++ n in
      let helpFlag := existsb (λ x, match x with OptUnknown => true | OptN _ => false end) opts in
      let priorityValue := last (omap (λ x, match x with OptN v => Some v | OptUnknown => None end) opts) in
      if (Z.of_nat (length argv) <? 2)%Z || helpFlag then
        printf ("Usage: nice [OPTION] [COMMAND [ARG]...]" +:+ nl) ;;; Ret 0%Z
      else
      match priorityValue with
      | Some v => nice_command 3 (Z.of_nat (length argv) - 2) (Some v) argv'
      | None => nice_command 1 (Z.of_nat (length argv)) None argv'
      end
  end.

(** ** getopt *)

Definition plain (a : string) : Prop := is_option a = false.

Lemma getopt_mid pre rest : Forall plain pre →
  getopt_n (pre ++ rest) = let '(r, o, n) := getopt_n rest in (r, o, pre ++ n).
Proof.
  induction 1 as [|a pre Ha Hpre IH]; cbn; [by destruct (getopt_n rest) as [[??]?]|].
  destruct (streq a "--") eqn:E; [apply streq_true in E as ->; done|]. rewrite Ha, IH.
  by destruct (getopt_n rest) as [[??]?].
Qed.

Lemma getopt_plain ws : Forall plain ws → getopt_n ws = ([], [], ws).
Proof. intros H. rewrite <- (app_nil_r ws) at 1. rewrite getopt_mid by done. cbn. by rewrite app_nil_r. Qed.

Lemma getopt_n_apart pre P post : Forall plain (pre ++ post) →
  getopt_n (pre ++ "-n" :: P :: post) = ([OptN P], ["-n"; P], pre ++ post).
Proof. intros [H1 H2]%Forall_app. rewrite getopt_mid by done. cbn. by rewrite getopt_plain. Qed.

Lemma getopt_n_joined pre P post : Forall plain (pre ++ post) → P ≠ EmptyString →
  getopt_n (pre ++ ("-n" +:+ P) :: post) = ([OptN P], ["-n" +:+ P], pre ++ post).
Proof.
  intros [H1 H2]%Forall_app HP. rewrite getopt_mid by done. destruct P as [|c P]; [done|]. cbn.
  by rewrite getopt_plain.
Qed.

(** A word of options that is not [-n] stops the program, wherever it stands. *)
Lemma getopt_unknown pre x c s post : Forall plain pre → x = String "-" (String c s) → c ≠ "n"%char → x ≠ "--" →
  OptUnknown ∈ (getopt_n (pre ++ x :: post)).1.1.
Proof.
  intros H1 -> Hc Hx. rewrite getopt_mid by done. cbn [getopt_n].
  destruct (streq (String "-" (String c s)) "--") eqn:E; [by apply streq_true in E|].
  cbn [is_option Ascii.eqb letters]. destruct (Ascii.eqb_spec c "n") as [->|_]; [done|].
  destruct (letters s) as [rs need]. destruct need; [destruct post as [|b post]|]; cbn.
  - left.
  - destruct (getopt_n post) as [[??]?]. left.
  - destruct (getopt_n post) as [[??]?]. left.
Qed.

(** ** Correctness *)

(** What the process did to its priority and which program it executed. *)
Definition act (e : event posix) : list (event posix) :=
  match e with
  | ECall (Setpriority _) _ | EGone (Setpriority _) | ECall (Execvp _ _) _ | EGone (Execvp _ _) => [e]
  | _ => []
  end.
Definition acts (t : list (event posix)) : list (event posix) := t ≫= act.

Definition launched (p : Z) (c : string) (a : list string) (r : outcome Z) (t : list (event posix)) : Prop :=
  match r with
  | Returned z => z = 125%Z ∧ perror_last t ∧ (acts t = [] ∨
      (∃ s, acts t = [ECall (Setpriority p) s] ∧ ret s = (-1)%Z) ∨
      ∃ s e, acts t = [ECall (Setpriority p) s; ECall (Execvp c a) e] ∧ ret s ≠ (-1)%Z)
  | Halted _ => False
  | Gone => acts t = [] ∨ acts t = [EGone (Setpriority p)] ∨
      ∃ s, acts t = [ECall (Setpriority p) s; EGone (Execvp c a)] ∧ ret s ≠ (-1)%Z
  end.

(** The command is not executed. *)
Definition refused (r : outcome Z) (t : list (event posix)) : Prop :=
  acts t = [] ∧ match r with Returned z => z = 125%Z ∧ perror_last t | Halted _ => False | Gone => True end.

Section nice.
Context {W : Type} (K : kernel posix W).

Lemma copy_args_ok ws t w : acts t = [] →
  wpa K t (copy_args ws) w (λ r _ t', acts t' = [] ∧ match r with Halted _ => False | _ => True end).
Proof.
  intros H0. unfold copy_args. apply (wpa_for_each K (λ _ _ _ t, acts t = [])); [|done|done].
  intros a xs s w1 t1 H1. assert (∀ e, act e = [] → acts (t1 ++ [e]) = []) as Hq.
  { intros e He. unfold acts in *. rewrite bind_app, H1. cbn. by rewrite He. }
  destruct s as [e|]; [by acc_steps|]. unfold strdup. acc_call; [|split; [by apply Hq|done]].
  destruct (ret a0 =? 0)%Z; acc_steps; by apply Hq.
Qed.

Lemma nice_exec_ok c a p t w : acts t = [] → wpa K t (nice_exec c a p) w (λ r _ t', launched p c a r t').
Proof.
  intros H0. unfold nice_exec. assert (∀ u, acts (t ++ u) = acts u) as Hu.
  { intros u. unfold acts in *. by rewrite bind_app, H0. }
  acc_call; [|right; left; by rewrite Hu]. destruct (ret a0 =? -1)%Z eqn:E; zbool.
  - acc_steps. split_and!; [done|apply perror_last_snoc|right; left; exists a0]. by rewrite <- app_assoc, Hu.
  - acc_call.
    + acc_steps. split_and!; [done|apply perror_last_snoc|right; right; exists a0, a1]. by rewrite <- !app_assoc, Hu.
    + right; right. exists a0. by rewrite <- app_assoc, Hu.
Qed.

Lemma nice_command_ok start size v argv w :
  let p := match v with Some v => to_int (st_val (strtol (to_bytes v) 10)) | None => 10%Z end in
  wpa K [] (nice_command start size v argv) w (λ r _ t, match argv !! start with
    | None => (∃ why, r = Halted (Undef why)) ∧ t = []
    | Some c => if decide (p = EINVAL) then refused r t else launched p c (drop start argv) r t
    end).
Proof.
  intros p. unfold nice_command. destruct (argv !! start) as [c|]; [|acc_steps; by split; [eexists|]].
  assert (∀ t r, acts t = [] → match r with Returned z => z = 125%Z ∧ perror_last t | Halted _ => False | Gone => True end →
    if decide (p = EINVAL) then refused r t else launched p c (drop start argv) r t) as Hno.
  { intros t r Ht Hr. destruct (decide _); [by split|]. destruct r; [|done|by left].
    destruct Hr as [Hz Hp]. split_and!; [done|done|by left]. }
  unfold strdup. acc_call; [|by apply Hno]. destruct (ret a =? 0)%Z.
  { acc_steps. apply Hno; [done|]. split; [done|apply perror_last_snoc]. }
  acc_call; [|by apply Hno]. destruct (ret a0 =? 0)%Z.
  { acc_steps. apply Hno; [done|]. split; [done|apply perror_last_snoc]. }
  apply wpa_bind. eapply wpa_mono; [by apply copy_args_ok|].
  intros [[e|]|h|] w1 t1 [H1 H2]; [| |done|by apply Hno].
  - acc_steps. apply Hno; [unfold acts in *; by rewrite bind_app, H1|]. split; [done|apply perror_last_snoc].
  - cbv zeta. fold p. assert ((match v with Some _ => (p =? EINVAL)%Z | None => false end) = bool_decide (p = EINVAL)) as ->.
    { destruct v; [|symmetry; by apply bool_decide_eq_false].
      destruct (p =? EINVAL)%Z eqn:E; zbool; symmetry; [by apply bool_decide_eq_true|by apply bool_decide_eq_false]. }
    case_bool_decide as E.
    + acc_steps. apply Hno; [unfold acts in *; by rewrite bind_app, H1|]. split; [done|apply perror_last_snoc].
    + eapply wpa_mono; [by apply nice_exec_ok|]. intros r w2 t2 Hl. by rewrite decide_False.
Qed.

End nice.

(** nice.c, on any kernel.  Without arguments it prints the priority.  A
    command without options of its own is executed at priority 10, or at the
    value of [-n] (as [strtol] and a conversion to [int] read it), wherever [-n]
    and its argument stand; with the value written in the same word the command
    loses its first word, and without one the program copies a null pointer; the
    value 22 is refused as if [strtol] had failed; any other option, also one
    meant for the command, makes it print its usage.  The command is only
    executed after the priority was changed, and a return has status 125 and a
    message. *)
Lemma nice_ok {W} (K : kernel posix W) (w : W) (n : string) (pre post : list string) (P : string) :
  Forall plain (pre ++ post) →
  let p := to_int (st_val (strtol (to_bytes P) 10)) in
  wp K (nice_main [n]) w (λ r _ t, match r with
    | Returned z => z = 0%Z ∧ ∃ v, t = [ECall Getpriority v; EOut (Out (zstr (ret v) +:+ nl))]
    | Halted _ => False
    | Gone => t = [EGone Getpriority]
    end) ∧
  (∀ c a, pre ++ post = c :: a →
    wp K (nice_main (n :: c :: a)) w (λ r _ t, launched 10 c (c :: a) r t) ∧
    wp K (nice_main (n :: pre ++ "-n" :: P :: post)) w (λ r _ t,
      if decide (p = EINVAL) then refused r t else launched p c (c :: a) r t) ∧
    (P ≠ EmptyString → wp K (nice_main (n :: pre ++ ("-n" +:+ P) :: post)) w (λ r _ t, match a with
       | [] => (∃ why, r = Halted (Undef why)) ∧ t = []
       | c' :: _ => if decide (p = EINVAL) then refused r t else launched p c' a r t
       end))) ∧
  (∀ x ch s, x = String "-" (String ch s) → ch ≠ "n"%char → x ≠ "--" →
    wp K (nice_main (n :: pre ++ x :: post)) w (λ r _ t,
      r = Returned 0%Z ∧ t = [EOut (Out ("Usage: nice [OPTION] [COMMAND [ARG]...]" +:+ nl))])).
Proof.
  intros Hplain p.
  assert (∀ ws res o m v, ws ≠ [] → getopt_n ws = (res, o, m) →
    existsb (λ x, match x with OptUnknown => true | OptN _ => false end) res = false →
    last (omap (λ x, match x with OptN v => Some v | OptUnknown => None end) res) = v →
    nice_main (n :: ws) = match v with
      | Some u => nice_command 3 (Z.of_nat (length (n :: ws)) - 2) (Some u) (n :: o ++ m)
      | None => nice_command 1 (Z.of_nat (length (n :: ws))) None (n :: o ++ m) end) as Hrun.
  { intros ws res o m v Hne E1 E2 <-. destruct ws as [|x ws]; [done|]. unfold nice_main. cbn [tail].
    rewrite E1, E2, orb_false_r. destruct (Z.of_nat (length (n :: x :: ws)) <? 2)%Z eqn:E; [|done]. zbool. cbn in E. lia. }
  split_and!.
  - apply wpa_wp. cbn [nice_main]. acc_call; [|done]. acc_steps. split; [done|]. by exists a.
  - intros c a E. split_and!.
    + rewrite (Hrun _ [] [] (c :: a) None); [|done|apply getopt_plain; by rewrite <- E|done..].
      apply wpa_wp. eapply wpa_mono; [apply (nice_command_ok K 1 _ None)|]. intros r w' t. cbn. done.
    + rewrite (Hrun _ [OptN P] ["-n"; P] (pre ++ post) (Some P)); [|by destruct pre|by apply getopt_n_apart|done..].
      rewrite E. apply wpa_wp. eapply wpa_mono; [apply (nice_command_ok K 3 _ (Some P))|]. intros r w' t. cbn. done.
    + intros HP. rewrite (Hrun _ [OptN P] ["-n" +:+ P] (pre ++ post) (Some P)); [|by destruct pre|by apply getopt_n_joined|done..].
      rewrite E. apply wpa_wp. eapply wpa_mono; [apply (nice_command_ok K 3 _ (Some P))|]. intros r w' t. cbn.
      by destruct a.
  - intros x ch s -> Hch Hx. apply Forall_app in Hplain as [H1 _].
    pose proof (getopt_unknown pre _ ch s post H1 eq_refl Hch Hx) as Hu.
    assert (∃ y ws, pre ++ String "-" (String ch s) :: post = y :: ws) as (y & ws & E) by (destruct pre; by eexists _, _).
    rewrite E in *. unfold nice_main. cbn [tail]. destruct (getopt_n (y :: ws)) as [[res o] m].
    assert (existsb (λ x, match x with OptUnknown => true | OptN _ => false end) res = true) as ->.
    { apply existsb_exists. exists OptUnknown. split; [by apply list_elem_of_In|done]. }
    rewrite orb_true_r. apply wpa_wp. by acc_steps.
Qed.

(** A machine on which any command can be executed. *)
Definition obliging : kernel posix Z := λ c p,
  match c as c return reaction (posix_ans c) Z with
  | Malloc _ => Answer (Rc 4096 0) p
  | Getpriority => Answer (Rc p 0) p
  | Setpriority q => Answer (Rc 0 0) q
  | _ => NoReturn p
  end.
