(* ===== verification/ChildStatus.v ===== *)
(** * child_status

    child_status.c (CH26): waits for a child with [waitid] and prints what it is
    told.  The macros of <sys/wait.h> decode a status of [wait]; here they are
    applied to [si_status], which is an exit code or a signal number. *)
From Stdlib Require Import ZArith Lia Ascii String.
From stdpp Require Import base gmap strings list.
From S2P Require Import Prelude Prog CString Posix GetNum.
Local Open Scope prog_scope.

Definition CLD_EXITED : Z := 1.
Definition CLD_KILLED : Z := 2.
Definition CLD_DUMPED : Z := 3.
Definition CLD_STOPPED : Z := 5.
Definition CLD_CONTINUED : Z := 6.
(** [WEXITED | WSTOPPED | WCONTINUED]. *)
Definition WAIT_OPTIONS : Z := 14.

Definition WTERMSIG (s : Z) : Z := Z.land s 127.
Definition WEXITSTATUS (s : Z) : Z := Z.shiftr (Z.land s 65280) 8.
Definition WSTOPSIG : Z → Z := WEXITSTATUS.
Definition WIFEXITED (s : Z) : bool := (WTERMSIG s =? 0)%Z.
Definition WIFSIGNALED (s : Z) : bool := (0 <? Z.shiftr (wrap 8 (Z.land s 127 + 1)) 1)%Z.
Definition WIFSTOPPED (s : Z) : bool := (Z.land s 255 =? 127)%Z.
Definition WIFCONTINUED (s : Z) : bool := (s =? 65535)%Z.
Definition WCOREDUMP (s : Z) : bool := flag_set s 128.

(** [%x], [%04x]. *)
Definition hex (z : Z) : string := of_bytes (numeral 16 (to_uint z)).
Definition hex4 (z : Z) : string :=
  of_bytes (repeat "0"%char (4 - length (numeral 16 (to_uint z)))) +:+ hex z.

Section program.
Context (strsignal : Z → string).

Definition printChildInfo (i : siginfo) : prog posix unit :=
  printf ("Information gathered from si_code" +:+ nl +:+ "------------------------------:" +:+ nl) ;;;
  (if (si_code i =? CLD_EXITED)%Z then printf ("Child terminated by calling _exit" +:+ nl) else
   if (si_code i =? CLD_KILLED)%Z then printf ("Child killed by a signal" +:+ nl) else
   if (si_code i =? CLD_STOPPED)%Z then printf ("Child stopped by a signal" +:+ nl) else
   if (si_code i =? CLD_CONTINUED)%Z then printf ("Child continued by a signal" +:+ nl) else Ret tt) ;;;
  printf (nl +:+ nl +:+ "Information gathered from si_status" +:+ nl +:+ "----------------------------:" +:+ nl) ;;;
  let s := si_status i in
  if WIFEXITED s then printf ("child exited, status=" +:+ zstr (WEXITSTATUS s) +:+ nl)
  else if WIFSIGNALED s then
    printf ("child is killed by signal " +:+ zstr (WTERMSIG s) +:+ " (" +:+ strsignal (WTERMSIG s) +:+ ")") ;;;
    when (WCOREDUMP s) (printf "(core dumped)") ;;;
    printf nl
  else if WIFSTOPPED s then
    printf ("child is stopped by signal " +:+ zstr (WSTOPSIG s) +:+ " (" +:+ strsignal (WSTOPSIG s) +:+ ")" +:+ nl)
  else if WIFCONTINUED s then printf ("child is continued" +:+ nl)
  else printf ("what happened to this child? (status=" +:+ hex s +:+ ")" +:+ nl).

(** The loop of the parent. *)
Definition wait_child (fuel : nat) : prog posix unit :=
  loop fuel (λ _,
    '(r, i) <- sys (Waitid WAIT_OPTIONS);;
    if (ret r =? -1)%Z then perror "waitid" (errno r) ;;; exit EXIT_FAILURE else
    printf ("waitid() returned: PID=" +:+ zstr (si_pid i) +:+ "; status=0x" +:+ hex4 (si_status i) +:+ " (" +:+
      zstr (Z.shiftr (si_status i) 8) +:+ "," +:+ zstr (Z.land (si_status i) 255) +:+ ")" +:+ nl) ;;;
    printChildInfo i ;;;
    if WIFEXITED (si_status i) || WIFSIGNALED (si_status i) then exit EXIT_SUCCESS else Ret (inl tt)) tt.

(** The child. *)
Definition status_child (fuel : nat) (argv : list string) : prog posix unit :=
  p <- sys Getpid;;
  printf ("Child started with PID = " +:+ zstr (ret p) +:+ nl) ;;;
  match argv with
  | _ :: a :: _ => z <- getInt (Some a) 0 (Some "exit-status");; exit z
  | _ => loop fuel (λ _, sys Pause ;;; Ret (inl tt)) tt
  end.

Definition child_status_main (fuel : nat) (argv : list string) : prog posix unit :=
  if match argv with _ :: a :: _ => streq a "--help" | _ => false end then
    printf (argv_0 argv +:+ " [exit-status]" +:+ nl) ;;; exit EXIT_FAILURE
  else
  f <- sys Fork;;
  if (ret f =? -1)%Z then perror "fork" (errno f) ;;; exit EXIT_FAILURE
  else if (ret f =? 0)%Z then status_child fuel argv
  else wait_child fuel.

End program.

(** ** Correctness *)

(** What is printed of [si_code], and of the status by its seven low bits. *)
Definition code_text (c : Z) : list string :=
  if (c =? CLD_EXITED)%Z then ["Child terminated by calling _exit" +:+ nl] else
  if (c =? CLD_KILLED)%Z then ["Child killed by a signal" +:+ nl] else
  if (c =? CLD_STOPPED)%Z then ["Child stopped by a signal" +:+ nl] else
  if (c =? CLD_CONTINUED)%Z then ["Child continued by a signal" +:+ nl] else [].

Definition status_text (strsignal : Z → string) (s : Z) : list string :=
  let low := (s mod 128)%Z in
  if decide (low = 0%Z) then ["child exited, status=0" +:+ nl]
  else if decide (low = 127%Z) then 
    (if decide (s = 127%Z) then ["child is stopped by signal 0 (" +:+ strsignal 0%Z +:+ ")" +:+ nl]
     else ["what happened to this child? (status=" +:+ hex s +:+ ")" +:+ nl])
  else ["child is killed by signal " +:+ zstr low +:+ " (" +:+ strsignal low +:+ ")"] ++
       (if decide (128 <= s)%Z then ["(core dumped)"] else []) ++ [nl].

Definition report (strsignal : Z → string) (i : siginfo) : list string :=
  ["waitid() returned: PID=" +:+ zstr (si_pid i) +:+ "; status=0x" +:+ hex4 (si_status i) +:+ " (0," +:+ zstr (si_status i) +:+ ")" +:+ nl;
   "Information gathered from si_code" +:+ nl +:+ "------------------------------:" +:+ nl] ++
  code_text (si_code i) ++
  [nl +:+ nl +:+ "Information gathered from si_status" +:+ nl +:+ "----------------------------:" +:+ nl] ++
  status_text strsignal (si_status i).

(** The macros on an exit code or a signal number. *)
Lemma status_bits s : (0 <= s <= 255)%Z →
  WTERMSIG s = (s mod 128)%Z ∧ WEXITSTATUS s = 0%Z ∧ Z.shiftr s 8 = 0%Z ∧ Z.land s 255 = s ∧
  WIFEXITED s = bool_decide (s mod 128 = 0)%Z ∧
  WIFSIGNALED s = bool_decide (s mod 128 ≠ 0 ∧ s mod 128 ≠ 127)%Z ∧
  (s mod 128 = 127 → WIFSTOPPED s = bool_decide (s = 127))%Z ∧
  WCOREDUMP s = bool_decide (128 <= s)%Z.
Proof.
  intros Hs.
  assert (∀ P : Z → bool, forallb (λ n, P (Z.of_nat n)) (seq 0 256) = true → P s = true) as Hall.
  { intros P HP. rewrite forallb_forall in HP. specialize (HP (Z.to_nat s)). rewrite Z2Nat.id in HP by lia.
    apply HP, in_seq. lia. }
  pose (P s := (WTERMSIG s =? s mod 128)%Z && (WEXITSTATUS s =? 0)%Z && (Z.shiftr s 8 =? 0)%Z && (Z.land s 255 =? s)%Z &&
    eqb (WIFEXITED s) (bool_decide (s mod 128 = 0)%Z) && eqb (WIFSIGNALED s) (bool_decide (s mod 128 ≠ 0 ∧ s mod 128 ≠ 127)%Z) &&
    (negb (s mod 128 =? 127)%Z || eqb (WIFSTOPPED s) (bool_decide (s = 127)%Z)) &&
    eqb (WCOREDUMP s) (bool_decide (128 <= s)%Z)).
  assert (P s = true) as H by (apply Hall; vm_compute; reflexivity). unfold P in H. clear Hall P.
  rewrite !andb_true_iff, !Z.eqb_eq, !eqb_true_iff in H. destruct H as [[[[[[[H1 H2] H3] H4] H5] H6] H7] H8].
  split_and!; [done..| |done]. intros E. rewrite E in H7. change (negb (127 =? 127)%Z) with false in H7. cbn [orb] in H7. by apply eqb_true_iff.
Qed.

Section runs.
Context {W : Type} (K : kernel posix W) (strsignal : Z → string).

Lemma printChildInfo_prints i : (0 <= si_status i <= 255)%Z → printChildInfo strsignal i = prints (tail (report strsignal i)).
Proof.
  intros Hs. destruct (status_bits _ Hs) as (B1 & B2 & _ & _ & B5 & B6 & B7 & B8).
  unfold printChildInfo, report, code_text, status_text, WSTOPSIG. rewrite B1, B2, B5, B6, B8.
  set (s := si_status i) in *. assert (WIFCONTINUED s = false) as -> by (apply Z.eqb_neq; lia).
  destruct (decide (s mod 128 = 0)%Z) as [E0|E0]; [rewrite (bool_decide_eq_true_2 _ E0)|rewrite (bool_decide_eq_false_2 _ E0)].
  { repeat (destruct (_ =? _)%Z; [reflexivity|]). reflexivity. }
  destruct (decide (s mod 128 = 127)%Z) as [E1|E1].
  - rewrite bool_decide_eq_false_2 by tauto. rewrite (B7 E1).
    destruct (decide (s = 127)%Z) as [E2|E2]; [rewrite (bool_decide_eq_true_2 _ E2)|rewrite (bool_decide_eq_false_2 _ E2)];
      repeat (destruct (si_code i =? _)%Z; [reflexivity|]); reflexivity.
  - rewrite bool_decide_eq_true_2 by tauto.
    destruct (decide (128 <= s)%Z) as [E2|E2]; [rewrite (bool_decide_eq_true_2 _ E2)|rewrite (bool_decide_eq_false_2 _ E2)];
      repeat (destruct (si_code i =? _)%Z; [reflexivity|]); reflexivity.
Qed.

(** What [waitid] may report of one child: an exit code, after which there is
    no child left, or the number of a signal. *)
Definition one_child : Prop := ∀ w r i w', K (Waitid WAIT_OPTIONS) w = Answer (r, i) w' → ret r ≠ (-1)%Z →
  (si_code i = CLD_EXITED ∧ (0 <= si_status i <= 255)%Z ∧
     ∀ r2 i2 w2, K (Waitid WAIT_OPTIONS) w' = Answer (r2, i2) w2 → ret r2 = (-1)%Z) ∨
  (si_code i ∈ [CLD_KILLED; CLD_DUMPED; CLD_STOPPED; CLD_CONTINUED] ∧ (1 <= si_status i <= 64)%Z).

Definition undecided (i : siginfo) : Prop := si_code i = CLD_EXITED ∧ (si_status i = 127 ∨ si_status i = 255)%Z.

(** One round of the loop, with the events it adds. *)
Lemma round_ok fuel t w (Q : outcome unit → W → list (event posix) → Prop) : one_child →
  (∀ r i w', ret r = (-1)%Z → Q (Halted (Exited 1)) w' ((t ++ [ECall (Waitid WAIT_OPTIONS) (r, i)]) ++ [EOut (Perror "waitid" (errno r))])) →
  (∀ r i w', ret r ≠ (-1)%Z → ¬ undecided i →
     Q (Halted (Exited 0)) w' ((t ++ [ECall (Waitid WAIT_OPTIONS) (r, i)]) ++ says (report strsignal i))) →
  (∀ r i w', ret r ≠ (-1)%Z → undecided i → (∀ r2 i2 w2, K (Waitid WAIT_OPTIONS) w' = Answer (r2, i2) w2 → ret r2 = (-1)%Z) →
     wpa K ((t ++ [ECall (Waitid WAIT_OPTIONS) (r, i)]) ++ says (report strsignal i)) (wait_child strsignal fuel) w' Q) →
  (∀ w', Q Gone w' (t ++ [EGone (Waitid WAIT_OPTIONS)])) →
  wpa K t (wait_child strsignal (S fuel)) w Q.
Proof.
  intros HK Hfail Hend Hagain Hgone. unfold wait_child. cbn [loop]. apply wpa_bind.
  acc_call; [|apply Hgone]. destruct a as [r i]. destruct (ret r =? -1)%Z eqn:E; zbool; [acc_steps; by apply Hfail|].
  assert (0 <= si_status i <= 255)%Z as Hs by (destruct (HK _ _ _ _ H E) as [(_ & ? & _)|[_ ?]]; lia).
  destruct (status_bits _ Hs) as (_ & _ & B3 & B4 & B5 & B6 & _). rewrite B3, B4, B5, B6.
  acc_steps. apply wpa_bind. rewrite (printChildInfo_prints i Hs). apply wpa_prints.
  rewrite <- (app_assoc _ [EOut _] (says _)).
  change ([EOut (Out ("waitid() returned: PID=" +:+ zstr (si_pid i) +:+ "; status=0x" +:+ hex4 (si_status i) +:+ " (" +:+
      zstr 0 +:+ "," +:+ zstr (si_status i) +:+ ")" +:+ nl))] ++ says (tail (report strsignal i)) : list (event posix)) with (says (S := posix) (report strsignal i)).
  destruct (bool_decide (si_status i mod 128 = 0)%Z || bool_decide (si_status i mod 128 ≠ 0 ∧ si_status i mod 128 ≠ 127)%Z) eqn:Eb.
  - acc_steps. apply Hend; [done|]. intros [_ Hu]. assert (si_status i mod 128 = 127)%Z as Hm by (by destruct Hu as [->| ->]).
    rewrite Hm in Eb. by apply orb_true_iff in Eb as [Eb%bool_decide_eq_true|[_ Eb]%bool_decide_eq_true].
  - apply orb_false_iff in Eb as [E0%bool_decide_eq_false E1%bool_decide_eq_false].
    assert (si_status i mod 128 = 127)%Z as Hm by lia. acc_steps.
    destruct (HK _ _ _ _ H E) as [(H1 & _ & H2)|[_ H1]]; [|rewrite Z.mod_small in Hm by lia; lia].
    apply Hagain; [done| |done]. split; [done|]. pose proof (Z.div_mod (si_status i) 128 ltac:(lia)). lia.
Qed.

(** The reports of a trace. *)
Definition waits (t : list (event posix)) : list siginfo :=
  omap (λ e, match e with ECall (Waitid _) a => if (ret a.1 =? -1)%Z then None else Some a.2 | _ => None end) t.

Lemma waits_app t1 t2 : waits (t1 ++ t2) = waits t1 ++ waits t2.
Proof. apply omap_app. Qed.
Lemma waits_says l : waits (says l) = [].
Proof. induction l as [|s l IH]; [done|]. exact IH. Qed.

(** How the parent ends. *)
Definition finished (r : outcome unit) (t : list (event posix)) : Prop :=
  match r with
  | Returned _ => False
  | Halted h =>
      (h = Exited 0 ∧ ∃ i, waits t = [i] ∧ outs t = report strsignal i ∧ ¬ undecided i) ∨
      (h = Exited 1 ∧ perror_last t ∧ ((waits t = [] ∧ outs t = []) ∨ ∃ i, waits t = [i] ∧ outs t = report strsignal i ∧ undecided i))
  | Gone => True
  end.

Lemma wait_child_ok fuel t w : one_child → waits t = [] → outs t = [] →
  wpa K t (wait_child strsignal (2 + fuel)) w (λ r _ t', finished r t').
Proof.
  intros HK Hw Ho. cbn [Nat.add].
  assert (∀ r i, ret r = (-1)%Z → waits [ECall (Waitid WAIT_OPTIONS) (r, i)] = []) as H1 by (intros r i E; cbn; by rewrite E).
  assert (∀ r i, ret r ≠ (-1)%Z → waits [ECall (Waitid WAIT_OPTIONS) (r, i)] = [i]) as H2.
  { intros r i E. cbn. by rewrite (proj2 (Z.eqb_neq _ _) E). }
  apply round_ok; [done|..|done].
  - intros r i w' E. right. split_and!; [done|apply perror_last_snoc|left]. by rewrite !waits_app, !outs_app, Hw, Ho, H1.
  - intros r i w' E Hu. left. split; [done|]. exists i.
    by rewrite !waits_app, !outs_app, Hw, Ho, H2, waits_says, outs_says, app_nil_r.
  - intros r i w' E Hu Hlast. unfold wait_child. cbn [loop]. apply wpa_bind. acc_call; [|done].
    destruct a as [r2 i2]. pose proof (Hlast _ _ _ H) as E2. rewrite (proj2 (Z.eqb_eq _ _) E2). acc_steps.
    right. split_and!; [done|apply perror_last_snoc|right; exists i].
    rewrite !waits_app, !outs_app, Hw, Ho, H2, H1, waits_says, outs_says by done. cbn. by rewrite !app_nil_r.
Qed.

End runs.

(** C25: child_status.c, on any kernel that reports one child as [waitid]
    documents.  The parent always ends, after one report (two calls if the exit
    code is 127 or 255): with status 0 if there was a report whose low seven bits
    are not all ones, with status 1 and a message of [perror] otherwise.  What it
    prints is [report]: the cause is right, but an exit code is taken for the
    signal with that number, and a stopped child for a killed one.  The child
    exits with the number it is given, or waits for signals for ever. *)
Theorem child_status_correct {W} (K : kernel posix W) (strsignal : Z → string) (fuel : nat) (w : W) (argv0 : string) (arg : option string) :
  one_child K → arg ≠ Some "--help" →
  wp K (child_status_main strsignal (2 + fuel) (argv0 :: option_list arg)) w (λ r _ t,
    match t with
    | ECall Fork f :: t' =>
        if decide (ret f = -1)%Z then r = Halted (Exited 1) ∧ perror_last t
        else if decide (ret f = 0)%Z then
          match arg with
          | None => r = Gone ∨ r = Halted Cut
          | Some a => r = Gone ∨ (∃ z, int_arg (Some a) 0 z ∧ r = Halted (Exited z)) ∨
                      ((∀ z, ¬ int_arg (Some a) 0 z) ∧ r = Halted (Exited 1))
          end
        else finished strsignal r t'
    | _ => r = Gone
    end) ∧
  (∀ i, (1 <= si_status i <= 126)%Z → si_code i = CLD_EXITED →
     report strsignal i = take 2 (report strsignal i) ++ ["Child terminated by calling _exit" +:+ nl] ++
       take 1 (drop 3 (report strsignal i)) ++
       ["child is killed by signal " +:+ zstr (si_status i) +:+ " (" +:+ strsignal (si_status i) +:+ ")"; nl]).
Proof.
  intros HK Harg. split.
  - assert ((match argv0 :: option_list arg with _ :: a :: _ => streq a "--help" | _ => false end) = false) as E.
    { destruct arg as [a|]; cbn; [|done]. destruct (streq a "--help") eqn:E; [apply streq_true in E; congruence|done]. }
    unfold child_status_main. rewrite E. clear E. unfold sys. cbn [bind]. apply wp_sys; [|done]. intros f w' _.
    destruct (ret f =? -1)%Z eqn:E1; [|destruct (ret f =? 0)%Z eqn:E2]; zbool.
    + prog_steps. rewrite decide_True by done. split; [done|]. by exists "fork", (errno f).
    + eapply wp_mono with (Q := λ r _ _, match arg with
          | None => r = Gone ∨ r = Halted Cut
          | Some a => r = Gone ∨ (∃ z, int_arg (Some a) 0 z ∧ r = Halted (Exited z)) ∨
                      ((∀ z, ¬ int_arg (Some a) 0 z) ∧ r = Halted (Exited 1)) end).
      2:{ intros r w2 t H. by rewrite decide_False, decide_True. }
      destruct arg as [a'|]; unfold status_child, option_list; cbv beta iota delta [option_rect]; (prog_call; [|by left]); prog_steps.
      * destruct (getInt_or_diagnoses (S := posix) (Some a') 0 (Some "exit-status")) as [(z & Hz & ->)|[Hn Hd]].
        -- cbn [bind]. prog_steps. right; left. by exists z.
        -- apply (wp_diagnoses K); [exact Hd|]. intros t. right; right. by split.
      * apply wpa_wp. apply (wpa_loop K (λ _ _ _, True)); [|by right|done].
        intros [] w2 t2 _. acc_call; [by acc_steps|by left].
    + eapply wp_mono; [apply wpa_wp, (wait_child_ok K strsignal fuel []); done|].
      intros r w2 t H. by rewrite !decide_False.
  - intros i Hs Hc. unfold report, code_text, status_text. rewrite Hc, Z.mod_small by lia. cbn [Z.eqb CLD_EXITED Pos.eqb].
    by rewrite !decide_False by lia.
Qed.

(** A child that ends with status 5. *)
Definition exits_with_5 : kernel posix bool := λ c b,
  match c as c return reaction (posix_ans c) bool with
  | Fork => Answer (Rc 7 0) b
  | Waitid _ => if b then Answer (Rc (-1) 10, Siginfo 0 0 0) b else Answer (Rc 0 0, Siginfo 7 5 CLD_EXITED) true
  | _ => NoReturn b
  end.

Lemma child_status_correct_witness :
  wp exits_with_5 (child_status_main (λ _, "Trace/breakpoint trap") 2 ["child_status"]) false (λ r _ t,
    r = Halted (Exited 0) ∧ finished (λ _, "Trace/breakpoint trap") r (tail t) ∧
    "child is killed by signal 5 (Trace/breakpoint trap)" ∈ outs t).
Proof.
  assert (one_child exits_with_5) as HK.
  { intros w r i w' H Hr. destruct w; cbn in H; injection H as <- <- <-; [by destruct Hr|]. left.
    split; [reflexivity|]. split; [cbn; lia|]. intros r2 i2 w2 H2. cbn in H2. by injection H2 as <- _ _. }
  destruct (child_status_correct exits_with_5 (λ _, "Trace/breakpoint trap") 0 false "child_status" None HK ltac:(discriminate)) as [H0 _].
  cbn [Nat.add] in H0.
  assert (∃ t, run exits_with_5 (child_status_main (λ _, "Trace/breakpoint trap") 2 ["child_status"]) false = (Halted (Exited 0), true, ECall Fork (Rc 7 0) :: t) ∧
    "child is killed by signal 5 (Trace/breakpoint trap)" ∈ outs (S := posix) t) as (t & E & Ht).
  { eexists. split; [vm_compute; reflexivity|]. cbn. do 4 right. left. }
  pose proof (wp_run _ _ _ _ _ _ _ H0 E) as H. unfold wp. rewrite E. clear E H0.
  split_and!; [reflexivity|exact H|exact Ht].
Defined.
