(* ===== verification/Execlp.v ===== *)
(** * execlp from execve

    execlp_from_execve.c (CH27): [my_execlp] copies the environment, collects
    the variable arguments in a growing array and tries the directories of PATH.
    How many bytes a block of the allocator really has is the allocator's matter
    ([usable]): the code writes one element more than it asked for.  The theorem at
    the end also covers nice.c (NiceProg). *)
From Stdlib Require Import ZArith Lia Ascii String.
From stdpp Require Import base gmap strings list.
From S2P Require Import Prelude Prog CString Posix.
From S2P Require NiceProg.
Local Open Scope prog_scope.

Section program.
Context (usable : Z → Z).

(** [envp[i] = strdup(environ[i])]; a copy that fails leaves a null pointer. *)
Definition copy_environ (environ : list string) : prog posix (list (option string)) :=
  for_each environ (λ e (envp : list (option string)),
    m <- sys (Malloc (Z.of_nat (String.length e) + 1));;
    Ret (envp ++ [if (ret m =? 0)%Z then None else Some e])) [].

(** The strings of an array up to its first null pointer. *)
Fixpoint vector (l : list (option string)) : list string :=
  match l with Some s :: l' => s :: vector l' | _ => [] end.

(** [argv], [argvCap] and the arguments [va_arg] has not given yet; the result
    is null when [realloc] fails. *)
Definition collect_step (s : list (option string) * Z * list (option string)) :
    prog posix (list (option string) * Z * list (option string) + option (list (option string))) :=
  let '(argv, argvCap, va) := s in
  match last argv with
  | Some (Some _) =>
      let argc := Z.of_nat (length argv) in
      cap <- (if (argvCap <? argc + 1)%Z then
                m <- sys (Malloc ((argvCap + 5) * 8));;
                if (ret m =? 0)%Z then perror "realloc" (errno m) ;;; Ret None else Ret (Some (argvCap + 5)%Z)
              else Ret (Some argvCap));;
      match cap with
      | None => Ret (inr None)
      | Some cap =>
          match va with
          | [] => undef "va_arg past the last argument"
          | x :: va' => if (argc <? cap)%Z then Ret (inl (argv ++ [x], cap, va')) else undef "argv past its block"
          end
      end
  | _ => Ret (inr (Some argv))
  end.

(** One token of PATH: the result is null when the loop is left early.  The
    block has room for the token and the file; the slash needs one byte more. *)
Definition try_token (file : string) (argv envp : list string) (rest : bytes) : prog posix (bytes + bool) :=
  match strtok ":" rest with
  | (None, _) => Ret (inr true)
  | (Some token, rest') =>
      let size := Z.of_nat (length token + String.length file + 1) in
      m <- sys (Malloc size);;
      if (ret m =? 0)%Z then perror "malloc" (errno m) ;;; Ret (inr false) else
      let pathname := token ++ (if Ascii.eqb (List.last token NUL) "/" then [] else ["/"%char]) ++ to_bytes file in
      if (usable size <? Z.of_nat (length pathname) + 1)%Z then undef "pathname past its block" else
      sys (ExecveEnv (of_bytes pathname) argv envp) ;;;
      Ret (inl rest')
  end.

Definition search_path (file : string) (argv envp : list string) : prog posix Z :=
  path <- sys (Getenv "PATH");;
  let PATH := match path with None | Some EmptyString => "/usr/bin" | Some p => p end in
  m <- sys (Malloc (Z.of_nat (String.length PATH) + 1));;
  if (ret m =? 0)%Z then undef "strtok of a null pointer" else
  match strtok ":" (to_bytes PATH) with
  | (None, _) => undef "free of an uninitialised pointer"
  | _ =>
      ok <- loop (S (String.length PATH)) (try_token file argv envp) (to_bytes PATH);;
      Ret (if ok : bool then 0 else -1)%Z
  end.

Definition my_execlp (environ : list string) (file : string) (arg : option string) (va : list (option string)) : prog posix Z :=
  match environ with
  | [] => undef "environ past its end"
  | _ =>
      let envSize := Z.of_nat (length environ) in
      e <- sys (Malloc (envSize * 8));;
      if (ret e =? 0)%Z then perror "calloc" (errno e) ;;; Ret (-1)%Z else
      envp <- copy_environ environ;;
      if (usable (envSize * 8) <? (envSize + 1) * 8)%Z then undef "envp past its block" else
      a <- sys (Malloc (10 * 8));;
      if (ret a =? 0)%Z then perror "calloc" (errno a) ;;; Ret (-1)%Z else
      argv <- loop (S (S (length va))) collect_step ([arg], 10%Z, va);;
      match argv with
      | None => Ret (-1)%Z
      | Some argv =>
          if existsb (λ c, Ascii.eqb c "/") (to_bytes file) then
            sys (ExecveEnv file (vector argv) (vector envp)) ;;; Ret 0%Z
          else search_path file (vector argv) (vector envp)
      end
  end.

(** [main] gives no null pointer after the arguments. *)
Definition execlp_main (environ : list string) : prog posix Z := my_execlp environ "vim" (Some "-p2") [] ;;; Ret 0%Z.
End program.

(** ** The directories of PATH *)

Fixpoint split (d : ascii) (s : bytes) : list bytes :=
  match s with
  | [] => [[]]
  | c :: s' => if Ascii.eqb c d then [] :: split d s'
               else match split d s' with h :: t => (c :: h) :: t | [] => [[c]] end
  end.
Definition pieces (s : bytes) : list bytes := filter (λ x, x ≠ []) (split ":" s).

Lemma split_break d s : split d s = let '(h, r) := break_at d s in h :: match r with Some r => split d r | None => [] end.
Proof.
  induction s as [|c s IH]; [done|]. cbn [split break_at]. destruct (Ascii.eqb c d); [done|].
  rewrite IH. by destruct (break_at d s).
Qed.

Lemma pieces_skip s : pieces (skip_delim ":" s) = pieces s.
Proof.
  induction s as [|c s IH]; [done|]. unfold pieces. cbn [skip_delim]. destruct (Ascii.eqb c ":") eqn:E; [|done].
  cbn [split]. rewrite E. exact IH.
Qed.

Lemma skip_delim_head d s c r : skip_delim d s = c :: r → c ≠ d.
Proof.
  induction s as [|x s IH]; [done|]. cbn. destruct (Ascii.eqb_spec x d) as [->|]; [done|]. by intros [= <- <-].
Qed.

Lemma strtok_pieces s : match strtok ":" s with
  | (None, _) => pieces s = []
  | (Some tok, r) => pieces s = tok :: pieces r ∧ tok ≠ [] ∧ length r < length s
  end.
Proof.
  unfold strtok. rewrite <- (pieces_skip s).
  assert (length (skip_delim ":" s) ≤ length s) as Hl.
  { induction s as [|x s IH]; [done|]. cbn. destruct (Ascii.eqb x ":"); cbn; lia. }
  destruct (skip_delim ":" s) as [|c r] eqn:E; [done|]. apply skip_delim_head in E.
  unfold pieces at 1. rewrite split_break. cbn [break_at] in *. destruct (Ascii.eqb_spec c ":") as [|_]; [done|].
  assert (∀ s, length (default [] (break_at ":" s).2) ≤ length s) as Hb.
  { intros u. induction u as [|x u IH]; [done|]. cbn. destruct (Ascii.eqb x ":"); cbn; [lia|].
    destruct (break_at ":" u) as [h t]; cbn in *; lia. }
  specialize (Hb r). destruct (break_at ":" r) as [h t]. cbn in Hl, Hb.
  rewrite filter_cons_True by done. split_and!; [|done|destruct t; cbn in *; lia].
  f_equal. by destruct t.
Qed.

(** ** Correctness *)

Definition attempt (e : event posix) : option (string * list string * list string) :=
  match e with ECall (ExecveEnv p a v) _ | EGone (ExecveEnv p a v) => Some (p, a, v) | _ => None end.
(** The programs a trace tried to execute, with arguments and environment. *)
Definition tried (t : list (event posix)) := omap attempt t.
Definition path_answer (e : event posix) : option (option string) :=
  match e with ECall (Getenv _) p => Some p | _ => None end.
(** The value of PATH the trace saw. *)
Definition path_of (t : list (event posix)) : string :=
  match omap path_answer t with Some p :: _ => if streq p "" then "/usr/bin" else p | _ => "/usr/bin" end.

Definition full (file : string) (dir : bytes) : string :=
  of_bytes (dir ++ (if Ascii.eqb (List.last dir NUL) "/" then [] else ["/"%char]) ++ to_bytes file).
Definition has_slash (file : string) : bool := existsb (λ c, Ascii.eqb c "/") (to_bytes file).
Definition candidates (file path : string) : list string :=
  if has_slash file then [file] else full file <$> pieces (to_bytes path).

(** The allocator gives the bytes the code forgot to ask for. *)
Definition roomy (usable : Z → Z) (environ : list string) (file path : string) : Prop :=
  ((Z.of_nat (length environ) + 1) * 8 <= usable (Z.of_nat (length environ) * 8))%Z ∧
  ∀ d, d ∈ pieces (to_bytes path) →
    (Z.of_nat (String.length (full file d)) + 1 <= usable (Z.of_nat (length d + String.length file + 1)))%Z.

Definition refused_block (t : list (event posix)) : Prop :=
  ∃ n a, last t = Some (ECall (S := posix) (Malloc n) a) ∧ ret a = 0%Z.

Lemma vector_prefix l environ : Forall2 (λ o e, o = None ∨ o = Some e) l environ → vector l `prefix_of` environ.
Proof.
  induction 1 as [|o e l environ [->| ->] _ IH]; cbn; [done|apply prefix_nil|]. by apply prefix_cons.
Qed.
Lemma vector_full l : vector ((Some <$> l) ++ [None]) = l.
Proof. induction l as [|s l IH]; [done|]. cbn. by f_equal. Qed.

Lemma length_of_bytes b : String.length (of_bytes b) = length b.
Proof. induction b as [|c b IH]; [done|]. cbn. by f_equal. Qed.

Section runs.
Context {W : Type} (K : kernel posix W) (usable : Z → Z) (environ : list string) (file : string).

(** No attempt and no look at PATH so far. *)
Definition before (t : list (event posix)) : Prop := tried t = [] ∧ omap path_answer t = [].

Lemma before_event t e : before t → attempt e = None → path_answer e = None → before (t ++ [e]).
Proof. intros [H1 H2] Ha Hp. unfold before, tried in *. rewrite !omap_app, H1, H2. cbn. by rewrite Ha, Hp. Qed.

Lemma copy_environ_ok env t w : before t →
  wpa K t (copy_environ env) w (λ r _ t', before t' ∧ match r with
    | Returned l => vector l `prefix_of` env ∧ length l = length env
    | Halted _ => False | Gone => True end).
Proof.
  intros Ht. unfold copy_environ.
  apply (wpa_for_each K (λ xs l _ t, before t ∧ ∃ ys, env = ys ++ xs ∧ Forall2 (λ o e, o = None ∨ o = Some e) l ys)).
  - intros x xs l w1 t1 (H1 & ys & E & H2). acc_call; [|split; [by apply before_event|done]]. acc_steps.
    split; [by apply before_event|]. exists (ys ++ [x]). split; [by rewrite <- app_assoc|].
    apply Forall2_app; [done|]. apply Forall2_cons. split; [destruct (_ =? _)%Z; auto|by apply Forall2_nil].
  - intros l w1 t1 (H1 & ys & E & H2). rewrite app_nil_r in E. subst ys. split; [done|].
    split; [by apply vector_prefix|by eapply Forall2_length].
  - split; [done|]. by exists [].
Qed.

Lemma collect_ok a0 args rest t w : before t →
  wpa K t (loop (S (S (length ((Some <$> args) ++ None :: rest)))) collect_step ([Some a0], 10%Z, (Some <$> args) ++ None :: rest)) w
    (λ r _ t', before t' ∧ match r with
      | Returned (Some argv) => vector argv = a0 :: args
      | Returned None => perror_last t'
      | Halted _ => False | Gone => True end).
Proof.
  intros Ht. refine (wpa_loop_total K (λ s _ t, before t ∧ (Z.of_nat (length s.1.1) <= s.1.2)%Z ∧
    ((∃ pre post, s.1.1 = Some <$> (a0 :: pre) ∧ s.2 = (Some <$> post) ++ None :: rest ∧ pre ++ post = args) ∨
     s.1.1 = (Some <$> (a0 :: args)) ++ [None])) (λ s, length s.2) _ _ _ _ _ _ _ _ _).
  - intros [[argv cap] va] w1 t1 (H1 & Hcap & Hs). cbn [fst snd] in *. unfold collect_step. destruct Hs as [(pre & post & -> & -> & Hpp)| ->].
    2:{ rewrite last_snoc. acc_steps. split; [done|]. apply (vector_full (a0 :: args)). }
    assert (∃ x, last (Some <$> (a0 :: pre)) = Some (Some x)) as [x ->].
    { rewrite fmap_last. destruct (last (a0 :: pre)) eqn:E; [by eexists|]. by apply last_None in E. }
    set (argv := Some <$> (a0 :: pre)) in *. cbv zeta.
    apply wpa_bind. apply (wpa_mono K) with (Q := λ r _ t', before t' ∧ match r with
      | Returned (Some c) => (Z.of_nat (length argv) < c)%Z | Returned None => perror_last t' | Halted _ => False | Gone => True end).
    { destruct (cap <? Z.of_nat (length argv) + 1)%Z eqn:E; zbool; [|acc_steps; split; [done|lia]].
      acc_call; [|split; [by apply before_event|done]]. destruct (ret a =? 0)%Z; acc_steps.
      - split; [by do 2 (apply before_event; [|done..])|apply perror_last_snoc].
      - split; [by apply before_event|lia]. }
    intros [[c|]|h|] w2 t2 [H2 Hc]; [|by acc_steps|done..].
    destruct ((Some <$> post) ++ None :: rest) as [|y va'] eqn:E; [by destruct post|].
    rewrite (proj2 (Z.ltb_lt _ _) Hc). acc_steps. cbn [fst snd]. rewrite length_app. cbn [length]. split_and!; [done|lia| |lia].
    destruct post as [|z post]; cbn in E; injection E as <- <-.
    + right. rewrite app_nil_r in Hpp. by subst args.
    + left. exists (pre ++ [z]), post. rewrite <- app_assoc. split_and!; [|done|done].
      unfold argv. by rewrite !fmap_cons, fmap_app.
  - split_and!; [done|cbn; lia|]. left. by exists [], args.
  - cbn [snd]. lia.
Qed.

Definition sound (a : list string) (path : string) (r : outcome Z) (t : list (event posix)) : Prop :=
  (∃ envp, envp `prefix_of` environ ∧ ∃ ps, tried t = (λ p, (p, a, envp)) <$> ps ∧ ps `prefix_of` candidates file path ∧
    (r = Returned 0%Z → ps = candidates file path)) ∧
  match r with
  | Returned z => z = 0%Z ∨ (z = (-1)%Z ∧ perror_last t)
  | Halted (Undef _) => ¬ roomy usable environ file path ∨ pieces (to_bytes path) = [] ∨ refused_block t
  | Halted _ => False
  | Gone => True
  end.

Lemma sound_before a r t : before t → r ≠ Returned 0%Z →
  match r with
  | Returned z => z = 0%Z ∨ (z = (-1)%Z ∧ perror_last t)
  | Halted (Undef _) => ¬ roomy usable environ file (path_of t) ∨ pieces (to_bytes (path_of t)) = [] ∨ refused_block t
  | Halted _ => False
  | Gone => True
  end → sound a (path_of t) r t.
Proof.
  intros [H1 H2] Hr H. split; [|done]. exists []. split; [apply prefix_nil|]. exists []. split_and!; [done|apply prefix_nil|done].
Qed.

(** The attempts made: the first directories [ds] of PATH. *)
Definition searched (path : option string) (a v : list string) (ds : list bytes) (t : list (event posix)) : Prop :=
  tried t = (λ d, (full file d, a, v)) <$> ds ∧ omap path_answer t = [path].

Lemma searched_event path a v ds t e :
  searched path a v ds t → attempt e = None → path_answer e = None → searched path a v ds (t ++ [e]).
Proof.
  intros [H1 H2] Ha Hp. unfold searched, tried in *. rewrite !omap_app, H1, H2. cbn. by rewrite Ha, Hp, !app_nil_r.
Qed.

Lemma searched_attempt path a v ds d t e :
  searched path a v ds t → attempt e = Some (full file d, a, v) → path_answer e = None → searched path a v (ds ++ [d]) (t ++ [e]).
Proof.
  intros [H1 H2] Ha Hp. unfold searched, tried in *. rewrite !omap_app, H1, H2. cbn. by rewrite Ha, Hp, fmap_app.
Qed.

Definition tight (dirs : list bytes) : Prop := ∃ d, d ∈ dirs ∧
  ¬ (Z.of_nat (String.length (full file d)) + 1 <= usable (Z.of_nat (length d + String.length file + 1)))%Z.

Lemma try_token_ok dirs path a v ds rest t w : searched path a v ds t → ds ++ pieces rest = dirs →
  wpa K t (try_token usable file a v rest) w (λ r _ t', ∃ ds', searched path a v ds' t' ∧ match r with
    | Returned (inl rest') => ds' ++ pieces rest' = dirs ∧ length rest' < length rest
    | Returned (inr ok) => if ok then ds' = dirs else ds' `prefix_of` dirs ∧ perror_last t'
    | Halted (Undef _) => ds' `prefix_of` dirs ∧ tight dirs
    | Halted _ => False
    | Gone => ds' `prefix_of` dirs
    end).
Proof.
  intros Ht Hds. unfold try_token. pose proof (strtok_pieces rest) as Hs.
  destruct (strtok ":" rest) as [[tok|] rest']; [|acc_steps; exists ds; split; [done|]; by rewrite Hs, app_nil_r in Hds].
  destruct Hs as (Hs & Hne & Hlen). rewrite Hs in Hds.
  assert (ds `prefix_of` dirs) as Hpre by (rewrite <- Hds; by apply prefix_app_r).
  assert ((ds ++ [tok]) ++ pieces rest' = dirs) as Hds' by (by rewrite <- app_assoc).
  acc_call; [|exists ds; split; [by apply searched_event|done]].
  destruct (ret a0 =? 0)%Z.
  { acc_steps. exists ds. split_and!; [by do 2 (apply searched_event; [|done..])|done|apply perror_last_snoc]. }
  set (t1 := t ++ [_]). assert (searched path a v ds t1) as Ht1 by by apply searched_event.
  cbv zeta. destruct (_ <? _)%Z eqn:E; zbool.
  { acc_steps. exists ds. split_and!; [done|done|]. exists tok. split; [rewrite <- Hds; set_solver|].
    unfold full. rewrite length_of_bytes. lia. }
  acc_call.
  - acc_steps. exists (ds ++ [tok]). split_and!; [by apply searched_attempt|done|done].
  - exists (ds ++ [tok]). split; [by apply searched_attempt|]. rewrite <- Hds'. by apply prefix_app_r.
Qed.

Lemma search_path_ok a v t w : has_slash file = false → v `prefix_of` environ → before t →
  wpa K t (search_path usable file a v) w (λ r _ t', sound a (path_of t') r t').
Proof.
  intros Hsl Hv [Hb1 Hb2]. unfold search_path. acc_call; [|by apply sound_before; [apply before_event|..]].
  rename a0 into path. set (P := path_of (t ++ [ECall (S := posix) (Getenv "PATH") path])).
  assert (∀ u, omap path_answer u = [path] → path_of u = P) as HP.
  { intros u Hu. unfold P, path_of. rewrite Hu, omap_app, Hb2. done. }
  assert (match path with None | Some EmptyString => "/usr/bin" | Some p => p end = P) as ->.
  { unfold P, path_of. rewrite omap_app, Hb2. cbn. destruct path as [[|c p]|]; [done| |done].
    destruct (streq (String c p) "") eqn:E; [by apply streq_true in E|done]. }
  assert (searched path a v [] (t ++ [ECall (S := posix) (Getenv "PATH") path])) as H0.
  { unfold searched, tried in *. by rewrite !omap_app, Hb1, Hb2. }
  assert (∀ r u ds, searched path a v ds u → ds `prefix_of` pieces (to_bytes P) →
    (r = Returned 0%Z → ds = pieces (to_bytes P)) → match r with
      | Returned z => z = 0%Z ∨ (z = (-1)%Z ∧ perror_last u)
      | Halted (Undef _) => ¬ roomy usable environ file P ∨ pieces (to_bytes P) = [] ∨ refused_block u
      | Halted _ => False
      | Gone => True end → sound a (path_of u) r u) as Hend.
  { intros r u ds [Hu1 Hu2] Hds Hr Hm. rewrite (HP u Hu2). split; [|done]. exists v. split; [done|]. exists (full file <$> ds).
    unfold candidates. rewrite Hsl. split_and!; [rewrite Hu1, <- list_fmap_compose; done| |by intros ->%Hr].
    destruct Hds as [k ->]. rewrite fmap_app. by apply prefix_app_r. }
  acc_call; [|by eapply Hend; [by apply searched_event|apply prefix_nil|..]].
  destruct (ret a0 =? 0)%Z eqn:E; zbool.
  { acc_steps. eapply Hend; [by apply searched_event|apply prefix_nil|done|]. right; right. exists (Z.of_nat (String.length P) + 1)%Z, a0. by rewrite last_snoc. }
  pose proof (strtok_pieces (to_bytes P)) as Hs. destruct (strtok ":" (to_bytes P)) as [[tok|] rest'].
  2:{ acc_steps. eapply Hend; [by apply searched_event|apply prefix_nil|done|by right; left]. }
  apply wpa_bind. refine (wpa_loop_total K (λ rest _ u, ∃ ds, searched path a v ds u ∧ ds ++ pieces rest = pieces (to_bytes P))
    length _ _ _ _ _ _ _ _ _).
  - intros rest w2 u (ds & Hu & Hds). eapply wpa_mono; [by eapply try_token_ok|].
    intros [[rest2|ok]|[]|] w3 u3 (ds' & Hu' & H'); [by destruct H' as [? ?]; split; [exists ds'|]| |done..| |done|].
    + acc_steps. destruct ok; [subst ds'|destruct H' as [H' Hpl]].
      * eapply Hend; [done..| |]; [done|by left].
      * eapply Hend; [done|done|done|by right].
    + destruct H' as [H' (d & Hd & Ht)]. eapply Hend; [done|done|done|]. left. intros [_ Hr]. by apply Ht, Hr.
    + by eapply Hend.
  - exists []. split; [by apply searched_event|done].
  - assert (∀ s : string, length (to_bytes s) = String.length s) as ->; [|lia].
    intros s. induction s as [|c s IH]; [done|]. cbn. by f_equal.
Qed.

(** The part up to the arguments, for any variable arguments: what comes after
    the environment's copy runs only if the copy fits. *)
Lemma my_execlp_starts arg va t w (Q : outcome Z → W → list (event posix) → Prop) : before t →
  (∀ why u, before u → environ = [] ∨ (usable (Z.of_nat (length environ) * 8) < (Z.of_nat (length environ) + 1) * 8)%Z →
     ∀ w', Q (Halted (Undef why)) w' u) →
  (∀ u w', before u → perror_last u → Q (Returned (-1)%Z) w' u) →
  (∀ u w', before u → Q Gone w' u) →
  (∀ u w' envp, before u → environ ≠ [] → vector envp `prefix_of` environ →
     ((Z.of_nat (length environ) + 1) * 8 <= usable (Z.of_nat (length environ) * 8))%Z →
     wpa K u (argv <- loop (S (S (length va))) collect_step ([arg], 10%Z, va);;
              match argv with
              | None => Ret (-1)%Z
              | Some argv =>
                  if has_slash file then
                    sys (ExecveEnv file (vector argv) (vector envp)) ;;; Ret 0%Z
                  else search_path usable file (vector argv) (vector envp)
              end) w' Q) →
  wpa K t (my_execlp usable environ file arg va) w Q.
Proof.
  intros Ht Hundef Hfail Hgone Hrest. unfold my_execlp. destruct environ as [|e0 en] eqn:Een.
  { acc_steps. apply Hundef; [done|by left]. }
  rewrite <- Een in *. assert (environ ≠ []) as Hne by (by rewrite Een). clear Een e0 en.
  acc_call; [|apply Hgone; by apply before_event]. destruct (ret a =? 0)%Z.
  { acc_steps. apply Hfail; [by do 2 (apply before_event; [|done..])|apply perror_last_snoc]. }
  apply wpa_bind. eapply wpa_mono; [apply copy_environ_ok; by apply before_event|].
  intros [envp|h|] w1 u [Hu He]; [destruct He as [He _]|done|by apply Hgone].
  destruct (_ <? _)%Z eqn:E; zbool; [acc_steps; apply Hundef; [done|by right]|].
  acc_call; [|apply Hgone; by apply before_event]. destruct (ret a0 =? 0)%Z.
  { acc_steps. apply Hfail; [by do 2 (apply before_event; [|done..])|apply perror_last_snoc]. }
  apply Hrest; [by apply before_event|done..].
Qed.

End runs.

(** execlp_from_execve.c, on any kernel and any allocator.  [my_execlp], with
    a null pointer after its arguments, tries the file itself if its name has a
    slash and otherwise the non-empty elements of PATH in order, with all the
    arguments and the environment (or its beginning, when a copy failed), until a
    call does not return; it returns 0 after all of them and -1 with a message
    when memory ran out.  Undefined behaviour is reached only if the allocator
    gave no more than asked for, PATH has no elements or its copy failed; and if
    the allocator gives what the environment's array was asked for, nothing is
    ever tried.  The program's own call has no null pointer: it tries nothing. *)
Lemma execlp_ok {W} (K : kernel posix W) (usable : Z → Z) (environ : list string) (file a0 : string)
    (args : list string) (rest : list (option string)) (w : W) :
  environ ≠ [] →
  wp K (my_execlp usable environ file (Some a0) ((Some <$> args) ++ None :: rest)) w (λ r _ t,
    sound usable environ file (a0 :: args) (path_of t) r t ∧
    (usable (Z.of_nat (length environ) * 8) = Z.of_nat (length environ) * 8 → tried t = [])%Z) ∧
  wp K (execlp_main usable environ) w (λ _ _ t, tried t = []).
Proof.
  intros Hne. split; apply wpa_wp.
  - assert (∀ r u, before u → r ≠ Returned 0%Z → match r with
      | Returned z => z = 0%Z ∨ (z = (-1)%Z ∧ perror_last u)
      | Halted (Undef _) => ¬ roomy usable environ file (path_of u) ∨ pieces (to_bytes (path_of u)) = [] ∨ refused_block u
      | Halted _ => False
      | Gone => True end → sound usable environ file (a0 :: args) (path_of u) r u ∧
      (usable (Z.of_nat (length environ) * 8) = Z.of_nat (length environ) * 8 → tried u = [])%Z) as Hbefore.
    { intros r u Hu Hr H. split; [by apply sound_before|]. intros _. apply Hu. }
    apply my_execlp_starts; [done|..].
    + intros why u Hu [E|E] w'; [done|]. apply Hbefore; [done..|]. left. intros [Hr _]. lia.
    + intros u w' Hu Hp. apply Hbefore; [done..|by right].
    + intros u w' Hu. by apply Hbefore.
    + intros u w' envp Hu _ Hv Hroom. apply wpa_bind. eapply wpa_mono; [by apply collect_ok|].
      intros [[argv|]|h|] w1 u1 [Hu1 H1]; [|acc_steps; apply Hbefore; [done..|by right]|done|by apply Hbefore].
      rewrite H1. assert (∀ P : Prop, (usable (Z.of_nat (length environ) * 8) = Z.of_nat (length environ) * 8 → P)%Z) as Hlate by lia.
      destruct (has_slash file) eqn:Hsl.
      * acc_call.
        -- acc_steps. split; [|apply Hlate]. split; [|by left]. exists (vector envp). split; [done|]. exists [file].
           unfold candidates. rewrite Hsl. destruct Hu1 as [Hu1 _]. unfold tried in *. by rewrite omap_app, Hu1.
        -- split; [|apply Hlate]. split; [|done]. exists (vector envp). split; [done|]. exists [file].
           unfold candidates. rewrite Hsl. destruct Hu1 as [Hu1 _]. unfold tried in *. by rewrite omap_app, Hu1.
      * eapply wpa_mono; [by apply search_path_ok|]. intros r w2 u2 H2. split; [done|apply Hlate].
  - unfold execlp_main. apply wpa_bind. apply my_execlp_starts; [done|..].
    + intros why u Hu _ w'. apply Hu.
    + intros u w' Hu _. acc_steps. apply Hu.
    + intros u w' Hu. apply Hu.
    + intros u w' envp Hu _ _ _. apply wpa_bind. cbn [length]. cbn [loop]. apply wpa_bind. unfold collect_step. cbn [last].
      change (10 <? Z.of_nat (length [Some "-p2"]) + 1)%Z with false. cbv iota zeta. cbn [bind]. acc_steps. apply Hu.
Qed.


(** An allocator that rounds up to 16 bytes and always adds 8, and a machine
    with the file in the second directory only. *)
Definition lookup_bin : kernel posix unit := λ c w,
  match c as c return reaction (posix_ans c) unit with
  | Malloc _ => Answer (Rc 4096 0) w
  | Getenv _ => Answer (Some "/usr/bin::/bin/:/sbin") w
  | ExecveEnv p _ _ => if streq p "/bin/vim" then NoReturn w else Answer (Rc (-1) ENOENT) w
  | _ => NoReturn w
  end.

