(* ===== verification/UnixSockets.v ===== *)
(** * Programs over UNIX domain sockets

    CH57: us_xfr_cl.c copies its standard input to a stream socket, us_xfr_sv.c
    copies what its clients send to its standard output; dgram_cl.c sends its
    arguments as datagrams, dgram_sv.c answers each datagram in upper case. *)
From Stdlib Require Import ZArith Lia Ascii String.
From stdpp Require Import base gmap strings list.
From S2P Require Import Prelude Prog CString Posix.
Local Open Scope prog_scope.

Definition AF_UNIX : Z := 1.
Definition SOCK_STREAM : Z := 1.
Definition SOCK_DGRAM : Z := 2.
(** The size of [sun_path]. *)
Definition SUN_PATH : nat := 108.

(** [strncpy(dest, src, n)] into [SUN_PATH] zeroed bytes. *)
Definition sun_path (src : bytes) (n : nat) : string :=
  let s := take n (cstr src) in of_bytes (s ++ repeat NUL (SUN_PATH - length s)).

(** The loop [while ((numRead = read(src, ...)) > 0)] that writes what it reads;
    a partial write ends the program with the message [o]. *)
Definition pump (fuel : nat) (size src dst : Z) (o : Z → output) : prog posix rc :=
  loop fuel (λ _,
    '(r, buf) <- sys (Read src size);;
    if (0 <? ret r)%Z then
      w <- sys (Write dst (take (Z.to_nat (ret r)) buf));;
      if negb (ret w =? ret r)%Z then put (o (errno w)) ;;; exit EXIT_FAILURE else Ret (inl tt)
    else Ret (inr r)) tt.

(** ** The stream client and server *)

(** ["\0/tmp/us_xfr"]. *)
Definition XFR_SOCK_PATH : bytes := NUL :: to_bytes "/tmp/us_xfr".
Definition XFR_BUF_SIZE : Z := 100.
Definition BACKLOG : Z := 5.

Definition xfr_client_main (fuel : nat) : prog posix unit :=
  s <- sys (Socket AF_UNIX SOCK_STREAM 0);;
  if (ret s =? -1)%Z then perror "socket" (errno s) ;;; exit EXIT_FAILURE else
  c <- sys (Connect (ret s) (sun_path XFR_SOCK_PATH (SUN_PATH - 1)));;
  if (ret c =? -1)%Z then perror "connect" (errno c) ;;; exit EXIT_FAILURE else
  numRead <- pump fuel XFR_BUF_SIZE STDIN_FILENO (ret s) (Perror "partial/failed write");;
  if (ret numRead =? -1)%Z then perror "read" (errno numRead) ;;; exit EXIT_FAILURE
  else exit EXIT_SUCCESS.

Definition serve_client (fuel : nat) (sfd : Z) : prog posix (unit + unit) :=
  c <- sys (Accept sfd);;
  if (ret c =? -1)%Z then perror "accept" (errno c) ;;; exit EXIT_FAILURE else
  numRead <- pump fuel XFR_BUF_SIZE (ret c) STDOUT_FILENO (λ _, Err "partial/failed write");;
  if (ret numRead =? -1)%Z then perror "read" (errno numRead) ;;; exit EXIT_FAILURE else
  x <- sys (Close (ret c));;
  if (ret x =? -1)%Z then perror "close" (errno x) ;;; exit EXIT_FAILURE else Ret (inl tt).

Definition xfr_server_main (strerror : Z → string) (fuel : nat) : prog posix unit :=
  s <- sys (Socket AF_UNIX SOCK_STREAM 0);;
  if (ret s =? -1)%Z then perror "socket" (errno s) ;;; exit EXIT_FAILURE else
  let path := of_bytes (cstr XFR_SOCK_PATH) in
  if (SUN_PATH - 1 <? length (cstr XFR_SOCK_PATH))%nat then
    eprintf ("Server socket path too long: " +:+ path) ;;; exit EXIT_FAILURE else
  r <- sys (Remove path);;
  if (ret r =? -1)%Z && negb (errno r =? ENOENT)%Z then
    eprintf ("remove-" +:+ path +:+ ": " +:+ strerror (errno r)) ;;; exit EXIT_FAILURE else
  b <- sys (Bind (ret s) (sun_path XFR_SOCK_PATH (SUN_PATH - 1)));;
  if (ret b =? -1)%Z then perror "bind" (errno b) ;;; exit EXIT_FAILURE else
  l <- sys (Listen (ret s) BACKLOG);;
  if (ret l =? -1)%Z then perror "listen" (errno l) ;;; exit EXIT_FAILURE else
  loop fuel (λ _, serve_client fuel (ret s)) tt.

(** ** The datagram client and server *)

Definition DGRAM_SOCK_PATH : bytes := to_bytes "/tmp/ud_ucase".
Definition DGRAM_BUF_SIZE : Z := 10.

Definition toupper (c : ascii) : ascii :=
  if (97 <=? code c)%Z && (code c <=? 122)%Z then chr (code c - 32) else c.

(** [snprintf] into the zeroed [sun_path]. *)
Definition client_path (pid : Z) : bytes := take (SUN_PATH - 1) (to_bytes "/tmp/ud_ucase_cl." ++ zdec pid).

Definition send_one (sfd : Z) (arg : string) (j : Z) : prog posix Z :=
  s <- sys (Sendto sfd (to_bytes arg) (sun_path DGRAM_SOCK_PATH (SUN_PATH - 1)));;
  if negb (ret s =? Z.of_nat (String.length arg))%Z then perror "sendto" (errno s) ;;; exit EXIT_FAILURE else
  '(r, (resp, _)) <- sys (Recvfrom sfd DGRAM_BUF_SIZE);;
  if (ret r =? -1)%Z then perror "recvfrom" (errno r) ;;; exit EXIT_FAILURE else
  printf ("Response " +:+ zstr j +:+ ": " +:+ of_bytes (cstr (take (Z.to_nat (ret r)) resp)) +:+ nl) ;;;
  Ret (j + 1)%Z.

Definition dgram_client_main (argv : list string) : prog posix unit :=
  if match argv with _ :: a :: _ => streq a "--help" | _ => true end then
    eprintf ("Usage " +:+ argv_0 argv +:+ " msg... " +:+ nl) ;;; exit EXIT_FAILURE
  else
  s <- sys (Socket AF_UNIX SOCK_DGRAM 0);;
  if (ret s =? -1)%Z then perror "socket" (errno s) ;;; exit EXIT_FAILURE else
  pid <- sys Getpid;;
  let claddr := client_path (ret pid) in
  b <- sys (Bind (ret s) (sun_path claddr (SUN_PATH - 1)));;
  if (ret b =? -1)%Z then perror "bind" (errno b) ;;; exit EXIT_FAILURE else
  for_each (tail argv) (send_one (ret s)) 1%Z ;;;
  sys (Remove (of_bytes claddr)) ;;;
  exit EXIT_SUCCESS.

Definition serve_datagram (sfd : Z) : prog posix (unit + unit) :=
  sys (Sleep 10) ;;;
  '(r, (buf, claddr)) <- sys (Recvfrom sfd DGRAM_BUF_SIZE);;
  if (ret r =? -1)%Z then perror "recvfrom" (errno r) ;;; exit EXIT_FAILURE else
  printf ("Server received " +:+ zstr (ret r) +:+ " bytes from " +:+ of_bytes (cstr (to_bytes claddr)) +:+ nl) ;;;
  s <- sys (Sendto sfd (toupper <$> take (Z.to_nat (ret r)) buf) claddr);;
  if negb (ret s =? ret r)%Z then perror "sendto" (errno s) ;;; exit EXIT_FAILURE else Ret (inl tt).

Definition dgram_server_main (fuel : nat) : prog posix unit :=
  s <- sys (Socket AF_UNIX SOCK_DGRAM 0);;
  if (ret s =? -1)%Z then perror "socket" (errno s) ;;; exit EXIT_FAILURE else
  let path := of_bytes DGRAM_SOCK_PATH in
  if (SUN_PATH - 1 <? length DGRAM_SOCK_PATH)%nat then
    eprintf ("Server socket path too long: " +:+ path) ;;; exit EXIT_FAILURE else
  r <- sys (Remove path);;
  if (ret r =? -1)%Z && negb (errno r =? ENOENT)%Z then perror "remove" (errno r) ;;; exit EXIT_FAILURE else
  b <- sys (Bind (ret s) (sun_path DGRAM_SOCK_PATH (SUN_PATH - 1)));;
  if (ret b =? -1)%Z then perror "bind" (errno b) ;;; exit EXIT_FAILURE else
  loop fuel (λ _, serve_datagram (ret s)) tt.

(** ** Correctness *)

(** The last thing that happened is a message on stderr. *)
Definition complains (t : list (event posix)) : Prop :=
  ∃ o, last t = Some (EOut o) ∧ match o with Perror _ _ | Err _ => True | _ => False end.

Lemma complains_perror t s e : complains (t ++ [EOut (Perror s e)]).
Proof. eexists. by rewrite last_snoc. Qed.
Lemma complains_err t s : complains (t ++ [EOut (Err s)]).
Proof. eexists. by rewrite last_snoc. Qed.
#[local] Hint Resolve complains_perror complains_err : core.

Definition is_accept (e : event posix) : Prop := match e with ECall (Accept _) _ | EGone (Accept _) => True | _ => False end.

(** Everything read has been written to [dst]. *)
Definition level (dst : Z) (t : list (event posix)) : Prop := sent dst t = gets t.
Definition behind (dst : Z) (t : list (event posix)) : Prop := sent dst t `prefix_of` gets t.

Lemma level_behind dst t : level dst t → behind dst t.
Proof. intros H. unfold behind. by rewrite H. Qed.
Lemma level_event dst t e : level dst t → sent dst [e] = [] → gets [e] = [] → level dst (t ++ [e]).
Proof. intros H H1 H2. unfold level in *. by rewrite sent_app, gets_app, H1, H2, !app_nil_r. Qed.

Section stream.
Context {W : Type} (K : kernel posix W) (fuel : nat).

Lemma pump_ok size src dst o t w : level dst t → before_each is_accept (level STDOUT_FILENO) t →
  (∀ e, match o e with Perror _ _ | Err _ => True | _ => False end) →
  wpa K t (pump fuel size src dst o) w (λ r _ t', before_each is_accept (level STDOUT_FILENO) t' ∧ match r with
    | Returned n => level dst t' ∧ (ret n <= 0)%Z
    | Halted h => (h = Cut ∧ level dst t') ∨ (h = Exited 1 ∧ behind dst t' ∧ complains t')
    | Gone => behind dst t'
    end).
Proof.
  intros H0 Hb0 Ho. unfold pump. apply (wpa_loop K (λ _ _ t, before_each is_accept (level STDOUT_FILENO) t ∧ level dst t)); [| |done].
  2:{ intros _ w1 t1 [Hb1 H1]. split; [done|by left]. }
  intros [] w1 t1 [Hb1 H1]. acc_call; [|split; [by apply before_each_snoc|apply level_behind; by apply level_event]]. destruct a as [r buf].
  destruct (0 <? ret r)%Z eqn:E; zbool.
  - set (d := take (Z.to_nat (ret r)) buf). set (t2 := t1 ++ [_]). assert (before_each is_accept (level STDOUT_FILENO) t2) as Hb2 by by apply before_each_snoc.
    assert (sent dst t2 = gets t1 ∧ gets t2 = gets t1 ++ d) as [Hs Hg].
    { unfold t2, level in *. by rewrite sent_app, gets_app, H1; cbn; rewrite !app_nil_r. }
    assert (∀ e, gets [e] = [] → sent dst [e] `prefix_of` d → behind dst (t2 ++ [e])) as Hb.
    { intros e He Hp. unfold behind. rewrite sent_app, gets_app, Hs, Hg, He, app_nil_r. by apply prefix_app. }
    acc_call; [|split; [by apply before_each_snoc|apply Hb; [done|apply prefix_nil]]].
    assert (sent dst [ECall (S := posix) (Write dst d) a] = take (Z.to_nat (ret a)) d) as Hw by (cbn; by rewrite Z.eqb_refl, app_nil_r).
    destruct (ret a =? ret r)%Z eqn:E2; cbn [negb]; zbool; acc_steps; (split; [by repeat (apply before_each_snoc; [|done])|]).
    + unfold level. rewrite sent_app, gets_app, Hs, Hg, Hw, E2, app_nil_r. f_equal. unfold d. by rewrite take_take, Nat.min_id.
    + right. split; [done|]. split; [|eexists; rewrite last_snoc; split; [done|apply Ho]].
      unfold behind. rewrite sent_app, gets_app, (app_nil_r (sent dst (t2 ++ _))), (app_nil_r (gets (t2 ++ _))). apply Hb; [done|]. rewrite Hw. apply prefix_take.
  - acc_steps. split; [by apply before_each_snoc|]. split; [|done]. unfold level in *. rewrite sent_app, gets_app, H1. cbn. replace (Z.to_nat (ret r)) with 0 by lia.
    by rewrite take_0, !app_nil_r.
Qed.

(** What is known of a server's trace at every moment. *)
Definition relaying (t : list (event posix)) : Prop := before_each is_accept (level STDOUT_FILENO) t ∧ level STDOUT_FILENO t.

Lemma relaying_event t e : relaying t → sent STDOUT_FILENO [e] = [] → gets [e] = [] → relaying (t ++ [e]).
Proof. intros [H1 H2] Hs Hg. split; [by apply before_each_snoc|by apply level_event]. Qed.

Definition relay_post {A} (r : outcome A) (t : list (event posix)) : Prop :=
  before_each is_accept (level STDOUT_FILENO) t ∧ behind STDOUT_FILENO t ∧ match r with
  | Returned _ => False
  | Halted h => (h = Cut ∧ level STDOUT_FILENO t) ∨ (h = Exited 1 ∧ complains t)
  | Gone => True
  end.

Lemma relay_gone {A} t e : relaying t → sent STDOUT_FILENO [e] = [] → gets [e] = [] → relay_post (Gone : outcome A) (t ++ [e]).
Proof. intros H Hs Hg. destruct (relaying_event t e H Hs Hg) as [H1 H2]. split_and!; [done|by apply level_behind|done]. Qed.

Lemma relay_fails {A} t o : relaying t → match o with Perror _ _ | Err _ => True | _ => False end →
  relay_post (Halted (Exited 1) : outcome A) (t ++ [EOut o]).
Proof.
  intros H Ho. destruct (relaying_event t (EOut o) H eq_refl eq_refl) as [H1 H2]. split_and!; [done|by apply level_behind|].
  right. split; [done|]. exists o. by rewrite last_snoc.
Qed.

Lemma serve_client_ok sfd t w : relaying t →
  wpa K t (serve_client fuel sfd) w (λ r _ t', match r with
    | Returned (inl _) => relaying t'
    | Returned (inr _) => False
    | Halted h => relay_post (Halted h : outcome unit) t'
    | Gone => relay_post (Gone : outcome unit) t'
    end).
Proof.
  intros H0. unfold serve_client. acc_call; [|by apply relay_gone]. set (t1 := t ++ [_]).
  assert (relaying t1) as H1 by by apply relaying_event. destruct (ret a =? -1)%Z; [acc_steps; by apply relay_fails|].
  apply wpa_bind. eapply wpa_mono; [apply pump_ok; [apply H1|apply H1|done]|].
  intros [n|h|] w2 t2 [Hb H2].
  - destruct H2 as [H2 _]. assert (relaying t2) as H2' by done.
    destruct (ret n =? -1)%Z; [acc_steps; by apply relay_fails|].
    acc_call; [|by apply relay_gone]. assert (relaying (t2 ++ [ECall (S := posix) (Close (ret a)) a0])) by by apply relaying_event.
    destruct (ret a0 =? -1)%Z; acc_steps; [by apply relay_fails|done].
  - split; [done|]. destruct H2 as [[-> H2]|(-> & H2 & Hc)]; (split; [|by auto]); [by apply level_behind|done].
  - by split_and!.
Qed.

Lemma xfr_server_ok strerror w : wpa K [] (xfr_server_main strerror fuel) w (λ r _ t, relay_post r t).
Proof.
  assert (relaying []) as H0 by (split; [apply before_each_nil|done]).
  unfold xfr_server_main. acc_call; [|by apply (relay_gone [])].
  destruct (ret a =? -1)%Z; [acc_steps; apply relay_fails; [by apply relaying_event|done]|].
  cbv zeta. destruct (_ <? _)%nat; [acc_steps; apply relay_fails; [by apply relaying_event|done]|].
  acc_call; [|apply relay_gone; [by apply relaying_event|done..]].
  destruct (_ && _); [acc_steps; apply relay_fails; [by repeat (apply relaying_event; [|done..])|done]|].
  acc_call; [|apply relay_gone; [by repeat (apply relaying_event; [|done..])|done..]].
  destruct (ret a1 =? -1)%Z; [acc_steps; apply relay_fails; [by repeat (apply relaying_event; [|done..])|done]|].
  acc_call; [|apply relay_gone; [by repeat (apply relaying_event; [|done..])|done..]].
  destruct (ret a2 =? -1)%Z; [acc_steps; apply relay_fails; [by repeat (apply relaying_event; [|done..])|done]|].
  apply (wpa_loop K (λ _ _ t, relaying t)).
  - intros [] w1 u1 Hu1. eapply wpa_mono; [by apply serve_client_ok|]. by intros [[[]|[]]|h|] w2 u2 Hu2.
  - intros [] w1 u1 [Hu1 Hu2]. split_and!; [done|by apply level_behind|by left].
  - by repeat (apply relaying_event; [|done..]).
Qed.
End stream.

Lemma xfr_client_ok {W} (K : kernel posix W) fuel w : wpa K [] (xfr_client_main fuel) w (λ r _ t,
  ∃ sfd, behind sfd t ∧ match r with
  | Returned _ => False
  | Halted h => (h = Cut ∨ h = Exited 0) ∧ level sfd t ∨ (h = Exited 1 ∧ complains t)
  | Gone => True
  end).
Proof.
  unfold xfr_client_main. acc_call; [|exists 0%Z; split; [by apply level_behind|done]]. set (t1 := [] ++ [_]).
  assert (level (ret a) t1 ∧ before_each is_accept (level STDOUT_FILENO) t1) as [H1 Hb1].
  { split; [done|]. by apply before_each_snoc; [apply before_each_nil|]. }
  assert (∀ u o, level (ret a) u → match o with Perror _ _ | Err _ => True | _ => False end →
    ∃ sfd, behind sfd (u ++ [EOut o]) ∧ ((Exited 1 = Cut ∨ Exited 1 = Exited 0) ∧ level sfd (u ++ [EOut o]) ∨ (Exited 1 = Exited 1 ∧ complains (u ++ [EOut o])))) as Hfail.
  { intros u o Hu Ho. exists (ret a). split; [apply level_behind; by apply level_event|]. right. split; [done|].
    exists o. by rewrite last_snoc. }
  destruct (ret a =? -1)%Z; [acc_steps; by apply Hfail|].
  acc_call; [|exists (ret a); split; [apply level_behind; by apply level_event|done]]. set (t2 := t1 ++ [_]).
  assert (level (ret a) t2) as H2 by by apply level_event.
  assert (before_each is_accept (level STDOUT_FILENO) t2) as Hb2 by by apply before_each_snoc.
  destruct (ret a0 =? -1)%Z; [acc_steps; by apply Hfail|]. apply wpa_bind. eapply wpa_mono; [by apply pump_ok|].
  intros [n|h|] w2 u [_ Hu].
  - destruct Hu as [Hu _]. destruct (ret n =? -1)%Z; acc_steps; [by apply Hfail|].
    exists (ret a). split; [by apply level_behind|]. left. auto.
  - exists (ret a). destruct Hu as [[-> Hu]|(-> & Hu & Hc)]; (split; [|by auto]); [by apply level_behind|done].
  - by exists (ret a).
Qed.

(** *** Datagrams *)

(** What is due to the datagrams received: their bytes in upper case, to their
    senders. *)
Definition due_by (e : event posix) : list (bytes * string) :=
  match e with
  | ECall (Recvfrom _ _) a => if (ret a.1 =? -1)%Z then [] else [(toupper <$> take (Z.to_nat (ret a.1)) a.2.1, a.2.2)]
  | _ => []
  end.
Definition due (t : list (event posix)) : list (bytes * string) := t ≫= due_by.

Lemma dgram_server_ok {W} (K : kernel posix W) fuel w : wpa K [] (dgram_server_main fuel) w (λ r _ t,
  replies t = due t ∧ match r with
  | Returned _ => False
  | Halted h => h = Cut ∨ (h = Exited 1 ∧ complains t)
  | Gone => True
  end).
Proof.
  assert (∀ u e, replies u = due u → replies [e] = due_by e → replies (u ++ [e]) = due (u ++ [e])) as Hs.
  { intros u e Hu He. unfold due in *. rewrite replies_app, bind_app, Hu, He. cbn. by rewrite app_nil_r. }
  unfold dgram_server_main. acc_call; [|done].
  destruct (ret a =? -1)%Z; [acc_steps; split; [done|right; auto]|].
  cbv zeta. destruct (_ <? _)%nat; [acc_steps; split; [done|by eauto]|].
  acc_call; [|done]. destruct (_ && _); [acc_steps; split; [done|by eauto]|].
  acc_call; [|done]. destruct (ret a1 =? -1)%Z; [acc_steps; split; [done|by eauto]|].
  apply (wpa_loop K (λ _ _ t, replies t = due t)); [|by auto|done].
  intros [] w1 u Hu. unfold serve_datagram. acc_call; [|split; [by apply Hs|done]].
  acc_call; [|split; [by do 2 (apply Hs; [|done])|done]]. destruct a3 as [r [buf claddr]].
  set (u1 := u ++ [_]). assert (replies u1 = due u1) as Hu1 by by apply Hs.
  destruct (ret r =? -1)%Z eqn:E.
  { acc_steps. split; [|by eauto]. apply Hs; [|done]. apply Hs; [done|]. cbn. by rewrite E. }
  assert (∀ e1 e2, replies [e1] = [] → due_by e1 = [] → replies [e2] = [(toupper <$> take (Z.to_nat (ret r)) buf, claddr)] → due_by e2 = [] →
    replies (((u1 ++ [ECall (S := posix) (Recvfrom (ret a) DGRAM_BUF_SIZE) (r, (buf, claddr))]) ++ [e1]) ++ [e2]) =
    due (((u1 ++ [ECall (S := posix) (Recvfrom (ret a) DGRAM_BUF_SIZE) (r, (buf, claddr))]) ++ [e1]) ++ [e2])) as Hpair.
  { intros e1 e2 R1 D1 R2 D2. unfold due in *. rewrite !replies_app, !bind_app, Hu1, R1, R2. cbn. by rewrite E, D1, D2, !app_nil_r. }
  acc_call; [|split; [by apply Hpair|done]].
  destruct (negb _); acc_steps; [|by apply Hpair]. split; [|by eauto]. apply Hs; [|done]. by apply Hpair.
Qed.

(** The line printed for the [i]-th answer, and the answers of a trace. *)
Definition response_line (i : nat) (data : bytes) : string :=
  "Response " +:+ zstr (Z.of_nat i + 1) +:+ ": " +:+ of_bytes (cstr data) +:+ nl.
Definition answer_of (e : event posix) : list bytes :=
  match e with
  | ECall (Recvfrom _ _) a => if (ret a.1 =? -1)%Z then [] else [take (Z.to_nat (ret a.1)) a.2.1]
  | _ => []
  end.
Definition answers (t : list (event posix)) : list bytes := t ≫= answer_of.
Definition server_address : string := sun_path DGRAM_SOCK_PATH (SUN_PATH - 1).
Definition is_remove (e : event posix) : Prop := match e with ECall (Remove _) _ | EGone (Remove _) => True | _ => False end.

(** The requests sent so far are the first arguments. *)
Definition asking (args : list string) (t : list (event posix)) : Prop :=
  replies t `prefix_of` (λ a, (to_bytes a, server_address)) <$> args ∧
  outs t = imap response_line (answers t) ∧ Forall (λ e, ¬ is_remove e) t.

Lemma imap_snoc {A B} (f : nat → A → B) l x : imap f (l ++ [x]) = imap f l ++ [f (length l) x].
Proof. rewrite imap_app. cbn. by rewrite Nat.add_0_r. Qed.

Lemma asking_event args t e : asking args t → replies [e] = [] → outs [e] = [] → answer_of e = [] → ¬ is_remove e → asking args (t ++ [e]).
Proof.
  intros (H1 & H2 & H3) Hr Ho Ha Hn. unfold asking, answers in *. rewrite replies_app, outs_app, bind_app, Hr, Ho.
  cbn. rewrite Ha, !app_nil_r. split_and!; [done|done|]. by apply Forall_app_2; [|apply Forall_singleton].
Qed.

Ltac next_event := apply asking_event; [|done|done|try done|by intros []].

Definition request_to (a : string) : bytes * string := (to_bytes a, server_address).

Lemma asking_requests args t : asking args t → replies t `prefix_of` request_to <$> args.
Proof. intros [H _]. exact H. Qed.

Lemma send_one_ok {W} (K : kernel posix W) sfd args x xs done_ t w :
  args = done_ ++ x :: xs → asking args t → replies t = request_to <$> done_ → length (answers t) = length done_ →
  wpa K t (send_one sfd x (Z.of_nat (length done_) + 1)) w (λ r _ t', asking args t' ∧ match r with
    | Returned j => replies t' = request_to <$> (done_ ++ [x]) ∧ length (answers t') = length (done_ ++ [x]) ∧
        j = (Z.of_nat (length (done_ ++ [x])) + 1)%Z
    | Halted h => h = Exited 1 ∧ complains t'
    | Gone => True
    end).
Proof.
  intros -> Ht Hr Ha. unfold send_one. set (u e := t ++ [e]).
  assert (∀ e, replies [e] = [request_to x] → outs [e] = [] → answer_of e = [] → ¬ is_remove e →
    asking (done_ ++ x :: xs) (t ++ [e]) ∧ replies (t ++ [e]) = request_to <$> (done_ ++ [x]) ∧ answers (t ++ [e]) = answers t) as Hsend.
  { intros e He Ho Ha' Hn. destruct Ht as (H1 & H2 & H3). unfold asking, answers in *.
    rewrite replies_app, outs_app, bind_app, He, Ho, Hr. cbn. rewrite Ha', !app_nil_r. split_and!; [|done| |by rewrite fmap_app|done].
    - change (λ a, (to_bytes a, server_address)) with request_to. rewrite fmap_app. apply prefix_app. cbn.
      apply prefix_cons, prefix_nil.
    - by apply Forall_app_2; [|apply Forall_singleton]. }
  clear u. acc_call; [|split; [apply Hsend; [done..|by intros []]|done]].
  destruct (Hsend (ECall (S := posix) (Sendto sfd (to_bytes x) server_address) a)) as (Hs & Hr1 & Ha1); [done..|by intros []|].
  change (sun_path DGRAM_SOCK_PATH (SUN_PATH - 1)) with server_address. set (t1 := t ++ [_]) in *.
  destruct (negb _); [acc_steps; split; [by next_event|by auto]|].
  acc_call; [|split; [by next_event|done]]. destruct a0 as [r [resp from]].
  destruct (ret r =? -1)%Z eqn:E.
  { acc_steps. split; [|by auto]. next_event. apply asking_event; [done..| |by intros []]. cbn. by rewrite E. }
  acc_steps. set (d := take (Z.to_nat (ret r)) resp). rewrite <- app_assoc. cbn [app].
  assert (answers (t1 ++ [ECall (S := posix) (Recvfrom sfd DGRAM_BUF_SIZE) (r, (resp, from));
    EOut (Out ("Response " +:+ zstr (Z.of_nat (length done_) + 1) +:+ ": " +:+ of_bytes (cstr d) +:+ nl))]) = answers t1 ++ [d]) as Han.
  { unfold answers. rewrite bind_app. cbn. by rewrite E. }
  rewrite Han, replies_app, Hr1. cbn [replies reply]. rewrite app_nil_r, !length_app, Ha1, Ha. cbn [length].
  split; [|split_and!; [done|done|lia]]. destruct Hs as (H1 & H2 & H3). unfold asking.
  rewrite Han, imap_snoc, replies_app, outs_app, H2, Ha1, Ha. cbn [replies reply outs]. rewrite app_nil_r. split_and!; [done|done|].
  apply Forall_app_2; [done|]. repeat (apply Forall_cons; split; [by intros []|]). by apply Forall_nil.
Qed.

Lemma dgram_client_ok {W} (K : kernel posix W) argv0 args w : args ≠ [] → head args ≠ Some "--help" →
  wpa K [] (dgram_client_main (argv0 :: args)) w (λ r _ t, match r with
  | Returned _ => False
  | Halted h => (h = Exited 0 ∧ ∃ t0 pid x, t = t0 ++ [ECall (S := posix) (Remove (of_bytes (client_path pid))) x] ∧
                   asking args t0 ∧ replies t0 = request_to <$> args ∧ length (answers t0) = length args) ∨
                (h = Exited 1 ∧ complains t ∧ asking args t)
  | Gone => True
  end).
Proof.
  intros Hne Hh. assert (asking args []) as H0 by (split_and!; [apply prefix_nil|done|by apply Forall_nil]).
  unfold dgram_client_main.
  assert ((match argv0 :: args with _ :: a :: _ => streq a "--help" | _ => true end) = false) as ->.
  { destruct args as [|a args]; [done|]. destruct (streq a "--help") eqn:E; [apply streq_true in E; by subst|done]. }
  assert (∀ u s e, asking args u → (Exited 1 = Exited 0 ∧ ∃ t0 pid x, u ++ [EOut (Perror s e)] = t0 ++ [ECall (S := posix) (Remove (of_bytes (client_path pid))) x] ∧
                   asking args t0 ∧ replies t0 = request_to <$> args ∧ length (answers t0) = length args) ∨
                (Exited 1 = Exited 1 ∧ complains (u ++ [EOut (Perror s e)]) ∧ asking args (u ++ [EOut (Perror s e)]))) as Hfail.
  { intros u s e Hu. right. split_and!; [done|by auto|]. by next_event. }
  acc_call; [|done]. destruct (ret a =? -1)%Z; [acc_steps; apply Hfail; by next_event|].
  acc_call; [|done]. cbv zeta. acc_call; [|done].
  set (u := (([] ++ [_]) ++ [_]) ++ [_]). assert (asking args u ∧ replies u = [] ∧ answers u = []) as (Hu & Hur & Hua).
  { split_and!; [|done|done]. by do 3 next_event. }
  destruct (ret a1 =? -1)%Z; [acc_steps; by apply Hfail|]. apply wpa_bind. cbn [tail].
  apply (wpa_for_each K (λ xs j _ t, asking args t ∧ ∃ ds, args = ds ++ xs ∧ replies t = request_to <$> ds ∧
    length (answers t) = length ds ∧ j = (Z.of_nat (length ds) + 1)%Z)).
  - intros x xs j w1 t1 (Hq & ds & E & Hr & Ha & ->). eapply wpa_mono; [by eapply send_one_ok|].
    intros [j|h|] w2 t2 [Hq2 Hj]; [|right; by destruct Hj as [-> Hj]|done]. destruct Hj as (Hj1 & Hj2 & Hj3).
    split; [done|]. exists (ds ++ [x]). split_and!; [by rewrite <- app_assoc|done..].
  - intros j w1 t1 (Hq & ds & E & Hr & Ha & _). rewrite app_nil_r in E. subst ds. acc_call; [|done]. acc_steps.
    left. split; [done|]. by exists t1, (ret a0), a2.
  - split; [done|]. exists []. by rewrite Hur, Hua.
Qed.


(** A machine whose datagrams are answered by the server of this directory, and
    whose standard input has two lines. *)
Record net := Net { net_in : list bytes; net_pending : option bytes }.
Definition netkernel : kernel posix net := λ c n,
  match c as c return reaction (posix_ans c) net with
  | Socket _ _ _ => Answer (Rc 3 0) n
  | Connect _ _ => Answer (Rc 0 0) n
  | Bind _ _ => Answer (Rc 0 0) n
  | Getpid => Answer (Rc 77 0) n
  | Read _ _ => match net_in n with
                | b :: bs => Answer (Rc (Z.of_nat (length b)) 0, b) (Net bs None)
                | [] => Answer (Rc 0 0, []) n
                end
  | Write _ b => Answer (Rc (Z.of_nat (length b)) 0) n
  | Sendto _ b _ => Answer (Rc (Z.of_nat (length b)) 0) (Net (net_in n) (Some (toupper <$> take 10 b)))
  | Recvfrom _ _ => match net_pending n with
                    | Some b => Answer (Rc (Z.of_nat (length b)) 0, (b, server_address)) (Net (net_in n) None)
                    | None => NoReturn n
                    end
  | Remove _ => Answer (Rc 0 0) n
  | _ => NoReturn n
  end.

