(* ===== verification/MqSeqnum.v ===== *)
(** * The sequence-number service over message queues

    mq_seqnum_server.c and mq_seqnum_client.c (CH52): the FIFO service of CH44
    rewritten for POSIX message queues.  [mq_send] returns 0 where [write]
    returned the number of bytes; the programs still compare with the size. *)
From Stdlib Require Import ZArith Lia Ascii String.
From stdpp Require Import base gmap strings list.
From S2P Require Import Prelude Prog CString Posix ErrorFunctions GetNum SeqServers.
Local Open Scope prog_scope.

Definition SERVER_MQ : string := "/mq-seqnum_sv".
Definition CLIENT_MQ_NAME_LEN : nat := 38.
Definition client_mq (pid : Z) : string :=
  of_bytes (snprintf CLIENT_MQ_NAME_LEN (to_bytes ("/mq-seqnum_cl." +:+ zstr pid))).

(** One round of the server: [req] holds the bytes of the last request. *)
Definition mq_serve (serverMQd : Z) (s : bytes * Z) : prog posix (bytes * Z + unit) :=
  let '(req, seqNum) := s in
  '(numRead, m) <- sys (MqReceive serverMQd SIZEOF_REQUEST);;
  if (ret numRead =? -1)%Z then perror "mq_receive" (errno numRead) ;;; exit EXIT_FAILURE else
  let req := buf_store (take (Z.to_nat (ret numRead)) m) req in
  let clientMQ := client_mq (req_pid (decode_request req)) in
  c <- sys (MqOpen clientMQ O_WRONLY);;
  if (ret c =? -1)%Z then perror "mq_open" (errno c) ;;; Ret (inl (req, seqNum)) else
  w <- sys (MqSend (ret c) (le32 seqNum));;
  when (negb (ret w =? SIZEOF_RESPONSE)%Z) (eprintf ("Error writing to MQ " +:+ clientMQ +:+ " " +:+ nl)) ;;;
  sys (MqClose (ret c)) ;;;
  let next := (seqNum + seqLen (decode_request req))%Z in
  if decide (in_int next) then Ret (inl (req, next)) else undef "signed overflow".

Definition mq_server_main (fuel : nat) (garbage : bytes) : prog posix unit :=
  sys (Umask 0) ;;;
  q <- sys (MqOpen SERVER_MQ (Z.lor O_RDWR O_CREAT));;
  if (ret q =? -1)%Z then perror "mq_open" (errno q) ;;; exit EXIT_FAILURE else
  loop fuel (mq_serve (ret q)) (garbage, 0%Z) ;;;
  sys (MqUnlink SERVER_MQ) ;;; Ret tt.

(** The handler of the client's [atexit]. *)
Definition removeMQ (clientMQ : string) : prog posix unit := sys (MqUnlink clientMQ) ;;; Ret tt.

(** The client's exchange with the server. *)
Definition mq_exchange (clientMQd pid len : Z) : prog posix unit :=
  s <- sys (MqOpen SERVER_MQ O_WRONLY);;
  if (ret s =? -1)%Z then perror "mq_open" (errno s) ;;; exit EXIT_FAILURE else
  w <- sys (MqSend (ret s) (encode_request (Request pid len)));;
  if negb (ret w =? SIZEOF_REQUEST)%Z then perror "mq_send" (errno w) ;;; exit EXIT_FAILURE else
  '(r, resp) <- sys (MqReceive clientMQd SIZEOF_RESPONSE);;
  if negb (ret r =? SIZEOF_RESPONSE)%Z then perror "mq_receive" (errno r) ;;; exit EXIT_FAILURE else
  printf (zstr (of_le32 resp) +:+ nl) ;;;
  exit EXIT_SUCCESS.

(** The client after [atexit]. *)
Definition mq_request (argv : list string) (clientMQd : Z) : prog posix unit :=
  pid <- sys Getpid;;
  len <- (match argv with
          | _ :: a :: _ => getInt (Some a) GN_GT_0 (Some "seq-len"%string)
          | _ => Ret 1%Z
          end);;
  mq_exchange clientMQd (ret pid) len.

Definition mq_client_main (argv : list string) : prog posix unit :=
  if match argv with _ :: a :: _ => streq a "--help" | _ => false end then
    eprintf (argv_0 argv +:+ " [seq-len]" +:+ nl) ;;; exit EXIT_FAILURE
  else
  sys (Umask 0) ;;;
  pid <- sys Getpid;;
  let clientMQ := client_mq (ret pid) in
  c <- sys (MqOpen clientMQ (Z.lor (Z.lor O_CREAT O_EXCL) O_RDWR));;
  if (ret c =? -1)%Z then perror "mq_open" (errno c) ;;; exit EXIT_FAILURE else
  a <- sys Atexit;;
  if negb (ret a =? 0)%Z then perror "atexit" (errno a) ;;; exit EXIT_FAILURE else
  with_atexit (removeMQ clientMQ) (mq_request argv (ret c)).

(** ** What a trace says of the service *)

(** The request's bytes, the lengths granted, the responses sent, the sends that
    returned and the errors reported for them. *)
Record mq_log := MqLog { l_req : bytes; l_lens : list Z; l_sent : list bytes; l_ok : nat; l_errors : nat }.

Definition mq_event (l : mq_log) (e : event posix) : mq_log :=
  match e with
  | ECall (MqReceive _ _) a =>
      if (ret a.1 =? -1)%Z then l
      else MqLog (buf_store (take (Z.to_nat (ret a.1)) a.2) (l_req l)) (l_lens l) (l_sent l) (l_ok l) (l_errors l)
  | ECall (MqOpen _ flags) a =>
      if (ret a =? -1)%Z || negb (flags =? O_WRONLY)%Z then l
      else MqLog (l_req l) (l_lens l ++ [seqLen (decode_request (l_req l))]) (l_sent l) (l_ok l) (l_errors l)
  | ECall (MqSend _ b) _ => MqLog (l_req l) (l_lens l) (l_sent l ++ [b]) (S (l_ok l)) (l_errors l)
  | EGone (MqSend _ b) => MqLog (l_req l) (l_lens l) (l_sent l ++ [b]) (l_ok l) (l_errors l)
  | EOut (Err _) => MqLog (l_req l) (l_lens l) (l_sent l) (l_ok l) (S (l_errors l))
  | _ => l
  end.
Definition mq_log_of (garbage : bytes) (t : list (event posix)) : mq_log := fold_left mq_event t (MqLog garbage [] [] 0 0).

Lemma mq_log_snoc g t e : mq_log_of g (t ++ [e]) = mq_event (mq_log_of g t) e.
Proof. unfold mq_log_of. by rewrite fold_left_app. Qed.

(** The responses are the starts of consecutive ranges of the lengths granted. *)
Definition mq_answered (l : mq_log) : Prop := l_sent l = le32 <$> starts 0 (l_lens l).

(** What <mqueue.h> documents of [mq_send]. *)
Definition mq_send_returns {W} (K : kernel posix W) : Prop :=
  ∀ mq b w a w', K (MqSend mq b) w = Answer a w' → ret a = 0%Z ∨ ret a = (-1)%Z.

Ltac never_a_size HK :=
  apply Z.eqb_neq; match goal with H : _ (MqSend _ _) _ = Answer _ _ |- _ => destruct (HK _ _ _ _ _ H) as [->| ->] end; done.

Section server.
Context {W : Type} (K : kernel posix W) (garbage : bytes) (HK : mq_send_returns K).
Local Abbreviation L t := (mq_log_of garbage t).

Definition mq_inv (s : bytes * Z) (t : list (event posix)) : Prop :=
  mq_answered (L t) ∧ s = (l_req (L t), sum (l_lens (L t))) ∧ l_errors (L t) = l_ok (L t).

Definition mq_post (r : outcome unit) (t : list (event posix)) : Prop :=
  mq_answered (L t) ∧ l_errors (L t) = l_ok (L t) ∧
  match r with
  | Returned _ => False
  | Halted h => h = Cut ∨ (h = Exited 1 ∧ perror_last t) ∨ ((∃ why, h = Undef why) ∧ ¬ in_int (sum (l_lens (L t))))
  | Gone => True
  end.

(** Events the log does not see. *)
Lemma inv_other s t e : mq_inv s t → (∀ l, mq_event l e = l) → mq_inv s (t ++ [e]).
Proof. intros H He. unfold mq_inv. by rewrite mq_log_snoc, He. Qed.

Lemma inv_gone s t e : mq_inv s t → (∀ l, mq_event l e = l) → mq_post Gone (t ++ [e]).
Proof. intros H He. destruct (inv_other s t e H He) as (H1 & _ & H2). by split_and!. Qed.

Lemma mq_serve_ok q s t w : mq_inv s t →
  wpa K t (mq_serve q s) w (λ r _ t', match r with
    | Returned (inl s') => mq_inv s' t'
    | Returned (inr _) => False
    | Halted h => mq_post (Halted h) t'
    | Gone => mq_post Gone t'
    end).
Proof.
  intros H0. destruct s as [req seqNum]. unfold mq_serve. acc_call; [|by eapply inv_gone].
  destruct a as [n m]. destruct (ret n =? -1)%Z eqn:En.
  { acc_steps. destruct H0 as (H1 & _ & H2). unfold mq_post. rewrite !mq_log_snoc. cbn. rewrite En.
    split_and!; [done|done|]. right; left. split; [done|apply perror_last_snoc]. }
  set (t1 := t ++ [_]). cbv zeta. destruct H0 as (H1 & [= -> ->] & H2).
  set (req := buf_store (take (Z.to_nat (ret n)) m) (l_req (L t))).
  assert (mq_inv (req, sum (l_lens (L t))) t1) as Ht1.
  { unfold mq_inv, t1. rewrite mq_log_snoc. cbn. rewrite En. by split_and!. }
  assert (L t1 = MqLog req (l_lens (L t)) (l_sent (L t)) (l_ok (L t)) (l_errors (L t))) as HL1.
  { unfold t1. rewrite mq_log_snoc. cbn. by rewrite En. }
  acc_call; [|by eapply inv_gone]. destruct (ret a =? -1)%Z eqn:Ea.
  { acc_steps. apply inv_other; [|done]. apply inv_other; [done|]. intros l. cbn. by rewrite Ea. }
  set (t2 := t1 ++ [_]). set (len := seqLen (decode_request req)).
  assert (L t2 = MqLog req (l_lens (L t) ++ [len]) (l_sent (L t)) (l_ok (L t)) (l_errors (L t))) as HL2.
  { unfold t2. rewrite mq_log_snoc, HL1. cbn. by rewrite Ea. }
  assert (l_sent (L t) ++ [le32 (sum (l_lens (L t)))] = le32 <$> starts 0 (l_lens (L t) ++ [len])) as Hsent.
  { rewrite starts_snoc, fmap_app, H1. done. }
  acc_call; [|unfold mq_post, mq_answered; rewrite mq_log_snoc, HL2; by split_and!].
  assert ((ret a0 =? SIZEOF_RESPONSE)%Z = false) as -> by never_a_size HK.
  cbn [negb]. unfold when. acc_steps. set (t3 := (t2 ++ [_]) ++ [_]).
  assert (L t3 = MqLog req (l_lens (L t) ++ [len]) (l_sent (L t) ++ [le32 (sum (l_lens (L t)))]) (S (l_ok (L t))) (S (l_errors (L t)))) as HL3.
  { unfold t3. rewrite !mq_log_snoc, HL2. done. }
  assert (mq_inv (req, sum (l_lens (L t) ++ [len])) t3) as Ht3.
  { unfold mq_inv, mq_answered. rewrite HL3. cbn. split_and!; [done|done|by rewrite H2]. }
  rewrite sum_snoc in Ht3. acc_call; [|by eapply inv_gone]. set (t4 := t3 ++ [_]).
  assert (mq_inv (req, sum (l_lens (L t)) + len)%Z t4) as Ht4 by by apply inv_other.
  destruct (decide _) as [Hi|Hi]; acc_steps; [done|].
  destruct Ht4 as (H5 & [= _ H6] & H7). split_and!; [done|done|]. right; right. split; [by eexists|]. by rewrite <- H6.
Qed.

Lemma mq_server_ok fuel w : wpa K [] (mq_server_main fuel garbage) w (λ r _ t, mq_post r t).
Proof.
  assert (mq_inv (garbage, 0%Z) []) as H0 by by split_and!.
  unfold mq_server_main. acc_call; [|by eapply inv_gone]. acc_call; [|eapply inv_gone; [by apply inv_other|done]].
  set (t := ([] ++ [_]) ++ [_]). assert (mq_inv (garbage, 0%Z) t) as Ht.
  { do 2 (apply inv_other; [|intros l; cbn; by rewrite ?orb_true_r]). done. }
  destruct (ret a0 =? -1)%Z.
  { acc_steps. destruct (inv_other _ _ (EOut (Perror "mq_open" (errno a0))) Ht ltac:(done)) as (Hu1 & _ & Hu2).
    split_and!; [done|done|]. right; left. split; [done|apply perror_last_snoc]. }
  apply wpa_bind. apply (wpa_loop K (λ s _ t, mq_inv s t)); [| |done].
  - intros s w1 u Hu. eapply wpa_mono; [by apply mq_serve_ok|]. by intros [[s'|[]]|h|] w2 u2 Hu2.
  - intros s w1 u (Hu1 & _ & Hu2). split_and!; [done|done|by left].
Qed.
End server.

(** ** The client *)

Definition receives (e : event posix) : Prop := match e with ECall (MqReceive _ _) _ | EGone (MqReceive _ _) => True | _ => False end.
Definition requests_sent (t : list (event posix)) : list bytes :=
  omap (λ e, match e with ECall (MqSend _ b) _ | EGone (MqSend _ b) => Some b | _ => None end) t.

Definition quiet (t : list (event posix)) : Prop := Forall (λ e, ¬ receives e) t ∧ requests_sent t = [].

Lemma quiet_cons e t : ¬ receives e → requests_sent [e] = [] → quiet t → quiet (e :: t).
Proof.
  intros H1 H2 [H3 H4]. split; [by apply Forall_cons|]. change (e :: t) with ([e] ++ t). unfold requests_sent in *.
  by rewrite omap_app, H2, H4.
Qed.
Lemma quiet_nil : quiet [].
Proof. by split; [apply Forall_nil|]. Qed.
Ltac quiet := repeat (apply quiet_cons; [by intros []|done|]); first [done|apply quiet_nil].

Lemma wp_diagnosed {W A B} (K : kernel posix W) (f : A → prog posix B) p w : diagnoses p →
  wp K (bind f p) w (λ r _ t, r = Halted (Exited 1) ∧ quiet t).
Proof.
  induction 1 as [|s k Hk IH]; cbn [bind]; [by apply wp_stop; split; [|apply quiet_nil]|].
  apply wp_put. eapply wp_mono; [exact IH|]. intros r w' t [-> H]. split; [done|]. by quiet.
Qed.

Definition wanted (argv : list string) (len : Z) : Prop :=
  match argv with _ :: a :: _ => int_arg (Some a) GN_GT_0 len | _ => len = 1%Z end.

(** At most the one request is sent, and no answer is ever read. *)
Definition unanswered (argv : list string) (r : outcome unit) (t : list (event posix)) : Prop :=
  Forall (λ e, ¬ receives e) t ∧
  (requests_sent t = [] ∨ ∃ pid len, requests_sent t = [encode_request (Request pid len)] ∧ wanted argv len) ∧
  match r with Returned _ => False | Halted h => h = Exited 1 | Gone => True end.

Lemma unanswered_quiet argv r t : quiet t → match r with Returned _ => False | Halted h => h = Exited 1 | Gone => True end →
  unanswered argv r t.
Proof. intros [H1 H2] H. by split_and!; [|left|]. Qed.

Lemma unanswered_cons argv r e t : ¬ receives e → requests_sent [e] = [] → unanswered argv r t → unanswered argv r (e :: t).
Proof.
  intros H1 H2 (H3 & H4 & H5). split_and!; [by apply Forall_cons| |done]. change (e :: t) with ([e] ++ t). unfold requests_sent in *.
  by rewrite omap_app, H2.
Qed.

Lemma mq_exchange_ok {W} (K : kernel posix W) argv q pid len w : mq_send_returns K → wanted argv len →
  wp K (mq_exchange q pid len) w (λ r _ t, unanswered argv r t).
Proof.
  intros HK Hlen. unfold mq_exchange. prog_call; [|by apply unanswered_quiet; [quiet|]].
  destruct (ret a =? -1)%Z; [prog_steps; by apply unanswered_quiet; [quiet|]|].
  assert (∀ r e l, (e = ECall (S := posix) (MqOpen SERVER_MQ O_WRONLY) a) → Forall (λ e, ¬ receives e) l →
    requests_sent l = [encode_request (Request pid len)] → match r with Returned _ => False | Halted h => h = Exited 1 | Gone => True end →
    unanswered argv r (e :: l)) as Hend.
  { intros r e l -> H1 H2 Hr. apply unanswered_cons; [by intros []|done|]. split_and!; [done|right; by exists pid, len|done]. }
  prog_call; [|apply Hend; [done|apply Forall_singleton; by intros []|done..]].
  assert ((ret a0 =? SIZEOF_REQUEST)%Z = false) as -> by never_a_size HK.
  cbn [negb]. prog_steps. apply Hend; [done| |done..]. repeat (apply Forall_cons; split; [by intros []|]). by apply Forall_nil.
Qed.

Lemma mq_request_ok {W} (K : kernel posix W) argv q w : mq_send_returns K →
  wp K (mq_request argv q) w (λ r _ t, unanswered argv r t).
Proof.
  intros HK. unfold mq_request. prog_call; [|by apply unanswered_quiet; [quiet|]].
  assert (∀ r t, unanswered argv r t → unanswered argv r (ECall (S := posix) Getpid a :: t)) as Hc.
  { intros r t. apply unanswered_cons; [by intros []|done]. }
  assert (wanted argv 1 → wp K (bind (λ len, mq_exchange q (ret a) len) (Ret 1%Z)) w' (λ r _ t, unanswered argv r (ECall (S := posix) Getpid a :: t))) as H1.
  { intros H1. cbn [bind]. eapply wp_mono; [by apply (mq_exchange_ok K argv)|]. intros r w2 t. apply Hc. }
  destruct argv as [|n [|x args]]; [by apply H1..|]. clear H1.
  destruct (getInt_or_diagnoses (S := posix) (Some x) GN_GT_0 (Some "seq-len")) as [(z & Hz & ->)|[_ Hd]].
  - cbn [bind]. eapply wp_mono; [by apply (mq_exchange_ok K (n :: x :: args))|]. intros r w2 t. apply Hc.
  - eapply wp_mono; [by apply wp_diagnosed|]. intros r w2 t [-> Ht]. apply Hc. by apply unanswered_quiet.
Qed.

(** [atexit] has registered the handler. *)
Definition has_handler (t : list (event posix)) : Prop :=
  Exists (λ e, match e with ECall Atexit a => ret a = 0%Z | _ => False end) t.

(** The message-queue service, on any kernel whose [mq_send] returns 0 or -1.
    The server answers the requests it can with the starts of consecutive ranges
    and stops only when receiving fails or the number overflows; but it reports
    an error for every answer, sent or not.  The client sends its request and
    then always ends with status 1, before it has read an answer, and removes its
    queue. *)
Lemma mq_seqnum_ok {W} (K : kernel posix W) (fuel : nat) (garbage : bytes) (argv : list string) (w : W) :
  mq_send_returns K →
  wp K (mq_server_main fuel garbage) w (λ r _ t, let l := mq_log_of garbage t in
    l_sent l = le32 <$> starts 0 (l_lens l) ∧ l_errors l = l_ok l ∧
    match r with
    | Returned _ => False
    | Halted h => h = Cut ∨ (h = Exited 1 ∧ perror_last t) ∨ ((∃ why, h = Undef why) ∧ ¬ in_int (sum (l_lens l)))
    | Gone => True
    end) ∧
  wp K (mq_client_main argv) w (λ r _ t, unanswered argv r t ∧
    (r = Halted (Exited 1) → has_handler t → ∃ t0 pid a, t = t0 ++ [ECall (S := posix) (MqUnlink (client_mq pid)) a])).
Proof.
  intros HK. split; [apply wpa_wp, mq_server_ok, HK|]. unfold mq_client_main.
  destruct (match argv with _ :: a :: _ => streq a "--help" | _ => false end).
  { prog_steps. split; [by apply unanswered_quiet; [quiet|]|]. intros _ Hin. by (repeat (apply Exists_cons in Hin as [?|Hin]; [done|]); apply Exists_nil in Hin). }
  assert (∀ (l : list (event posix)), Forall (λ e, match e with ECall Atexit a => ret a ≠ 0%Z | _ => True end) l → ¬ has_handler l) as Hno.
  { intros l Hl Hx. unfold has_handler in Hx. rewrite Exists_exists in Hx. rewrite Forall_forall in Hl.
    destruct Hx as (e & He & Hp). specialize (Hl e He). destruct e as [|[]|]; done. }
  assert (∀ r l, quiet l → match r with Returned _ => False | Halted h => h = Exited 1 | Gone => True end →
    Forall (λ e, match e with ECall Atexit a => ret a ≠ 0%Z | _ => True end) l → unanswered argv r l ∧
    (r = Halted (Exited 1) → has_handler l → ∃ t0 pid a, l = t0 ++ [ECall (S := posix) (MqUnlink (client_mq pid)) a])) as Hq.
  { intros r l Hl Hr Hf. split; [by apply unanswered_quiet|]. intros _ Hx. by apply (Hno l) in Hx. }
  prog_call; [|apply Hq; [quiet|done|by repeat (apply Forall_cons; split)]].
  prog_call; [|apply Hq; [quiet|done|by repeat (apply Forall_cons; split)]].
  prog_call; [|apply Hq; [quiet|done|by repeat (apply Forall_cons; split)]].
  destruct (ret a1 =? -1)%Z; [prog_steps; apply Hq; [quiet|done|by repeat (apply Forall_cons; split)]|].
  prog_call; [|apply Hq; [quiet|done|by repeat (apply Forall_cons; split)]].
  destruct (ret a2 =? 0)%Z eqn:Ea; cbn [negb]; zbool; [|prog_steps; apply Hq; [quiet|done|by repeat (apply Forall_cons; split)]].
  apply wp_with_atexit. eapply wp_mono; [by apply mq_request_ok|]. intros r w5 t Hr.
  assert (∀ t, unanswered argv r t → unanswered argv r (ECall (S := posix) (Umask 0) a :: ECall (S := posix) Getpid a0 ::
    ECall (S := posix) (MqOpen (client_mq (ret a0)) (Z.lor (Z.lor O_CREAT O_EXCL) O_RDWR)) a1 :: ECall (S := posix) Atexit a2 :: t)) as Hc.
  { intros u Hu. by repeat (apply unanswered_cons; [by intros []|done|]). }
  destruct r as [[]|h|]; [by destruct Hr as (_ & _ & [])| |by split; [apply Hc|]].
  assert (h = Exited 1) as -> by (by destruct Hr as (_ & _ & Hr)).
  unfold removeMQ. prog_call.
  - prog_steps. split.
    + apply Hc. destruct Hr as (H5 & H6 & _). split_and!; [|unfold requests_sent; rewrite omap_app, app_nil_r; exact H6|done].
      apply Forall_app. split; [done|]. apply Forall_singleton. by intros [].
    + intros _ _. by exists (ECall (S := posix) (Umask 0) a :: ECall (S := posix) Getpid a0 ::
        ECall (S := posix) (MqOpen (client_mq (ret a0)) (Z.lor (Z.lor O_CREAT O_EXCL) O_RDWR)) a1 :: ECall (S := posix) Atexit a2 :: t), (ret a0), a3.
  - split; [|done]. destruct Hr as (H5 & H6 & _).
    repeat (apply unanswered_cons; [by intros []|done|]). split_and!; [|unfold requests_sent; rewrite omap_app, app_nil_r; exact H6|done].
    apply Forall_app. split; [done|]. apply Forall_singleton. by intros [].
Qed.

(** Two requests wait for the server, whose sends all succeed. *)
Definition mq_kernel : kernel posix (list bytes) := λ c q,
  match c as c return reaction (posix_ans c) (list bytes) with
  | Umask _ => Answer (Rc 0 0) q
  | MqOpen _ _ => Answer (Rc 4 0) q
  | MqReceive _ _ => match q with m :: q' => Answer (Rc 8 0, m) q' | [] => NoReturn q end
  | MqSend _ _ => Answer (Rc 0 0) q
  | MqClose _ => Answer (Rc 0 0) q
  | MqUnlink _ => Answer (Rc 0 0) q
  | Getpid => Answer (Rc 77 0) q
  | Atexit => Answer (Rc 0 0) q
  | _ => NoReturn q
  end.
