(* ===== verification/SignalTools.v ===== *)
(** * Signal sets and a signal counter

    signal_functions.c and signal_to_sigaction.c (CH20).  The handler of the
    counter runs where the environment says so ([deliveries]). *)
From Stdlib Require Import ZArith Lia Ascii String.
From stdpp Require Import base gmap strings list.
From S2P Require Import Prelude Prog CString Posix.
Local Open Scope prog_scope.

(** [for (sig = 1; sig < NSIG; sig++)]. *)
Definition signals : list Z := Z.of_nat <$> seq 1 64.
(** A [sigset_t] is the set of its bits; signal [n] is bit [n - 1]. *)
Definition sigismember (set sig : Z) : bool := Z.testbit set (sig - 1).
Definition sigfillset : Z := Z.ones 64.
Definition sigemptyset : Z := 0.

Section program.
Context (strsignal : Z → string).

(** [out] writes to the stream. *)
Definition printSigset (out : string → output) (prefix : string) (sigset : Z) : prog posix unit :=
  cnt <- for_each signals (λ sig cnt,
    if sigismember sigset sig
    then put (out (prefix +:+ zstr sig +:+ " (" +:+ strsignal sig +:+ ")" +:+ nl)) ;;; Ret (cnt + 1)%Z
    else Ret cnt) 0%Z;;
  when (cnt =? 0)%Z (put (out (prefix +:+ "<empty signal set>" +:+ nl))).

Definition printSigMask (out : string → output) (msg : option string) : prog posix Z :=
  (match msg with Some m => put (out m) | None => Ret tt end) ;;;
  '(r, currMask) <- sys (Sigprocmask SIG_BLOCK sigemptyset);;
  if (ret r =? -1)%Z then Ret (-1)%Z else
  printSigset out (tab +:+ tab) currMask ;;;
  Ret 0%Z.

Definition printPendingSigs (out : string → output) (msg : option string) : prog posix Z :=
  (match msg with Some m => put (out m) | None => Ret tt end) ;;;
  '(r, pendingSigs) <- sys Sigpending;;
  if (ret r =? -1)%Z then Ret (-1)%Z else
  printSigset out (tab +:+ tab) pendingSigs ;;;
  Ret 0%Z.

(** [sigCnt] and [gotSigint]. *)
Record counters := Counters { sigCnt : Z → Z; gotSigint : bool }.

Definition handler (sig : Z) (s : counters) : counters :=
  if (sig =? SIGINT)%Z then Counters (sigCnt s) true
  else Counters (λ n, if (n =? sig)%Z then sigCnt s n + 1 else sigCnt s n)%Z (gotSigint s).

(** The signals handled at a point of the program. *)
Definition deliveries (point : nat) (s : counters) : prog posix counters :=
  for_each signals (λ sig s,
    d <- sys (Deliver sig point);;
    Ret (if (ret d =? 0)%Z then s else handler sig s)) s.

(** Blocking all signals while the process sleeps. *)
Definition block_and_sleep (name arg : string) : prog posix unit :=
  let numSecs := atoi (to_bytes arg) in
  '(r, _) <- sys (Sigprocmask SIG_SETMASK sigfillset);;
  if (ret r =? -1)%Z then perror "sigprocmask" (errno r) ;;; exit EXIT_FAILURE else
  printf (name +:+ ": sleeping for " +:+ zstr numSecs +:+ " seconds" +:+ nl) ;;;
  sys (Sleep (to_uint numSecs)) ;;;
  '(p, pendingMask) <- sys Sigpending;;
  if (ret p =? -1)%Z then perror "sigpending" (errno p) ;;; exit EXIT_FAILURE else
  printf (name +:+ ": pending signals are: " +:+ nl) ;;;
  printSigset Out (tab +:+ tab) pendingMask ;;;
  '(u, _) <- sys (Sigprocmask SIG_SETMASK sigemptyset);;
  if (ret u =? -1)%Z then perror "sigprocmask" (errno u) ;;; exit EXIT_FAILURE else Ret tt.

Definition counter_main (fuel : nat) (sa_flags : Z) (argv : list string) : prog posix unit :=
  pid <- sys Getpid;;
  printf (argv_0 argv +:+ ": PID is " +:+ zstr (ret pid) +:+ nl) ;;;
  s <- for_each signals (λ n s,
    a <- sys (Sigaction n (Sigact (Handler "handler") 0 sa_flags));;
    if (ret a =? -1)%Z then perror "sigaction" (errno a) ;;; exit EXIT_FAILURE else
    deliveries 0 s) (Counters (λ _, 0%Z) false);;
  match argv with _ :: a :: _ => block_and_sleep (argv_0 argv) a | _ => Ret tt end ;;;
  s <- loop fuel (λ s, if gotSigint s then Ret (inr s) else s <- deliveries 1 s;; Ret (inl s)) s;;
  for_each signals (λ n _,
    when (negb (sigCnt s n =? 0)%Z)
      (printf (argv_0 argv +:+ ": signal " +:+ zstr n +:+ " caught " +:+ zstr (sigCnt s n) +:+ " time" +:+
        (if (sigCnt s n =? 1)%Z then "" else "s") +:+ nl))) tt ;;;
  exit EXIT_SUCCESS.

End program.

(** ** Correctness *)

Definition sigset_lines (strsignal : Z → string) (prefix : string) (sigset : Z) : list string :=
  match filter (λ n, sigismember sigset n = true) signals with
  | [] => [prefix +:+ "<empty signal set>" +:+ nl]
  | ns => (λ n, prefix +:+ zstr n +:+ " (" +:+ strsignal n +:+ ")" +:+ nl) <$> ns
  end.

Lemma signals_spec n : n ∈ signals ↔ (1 <= n <= 64)%Z.
Proof.
  unfold signals. rewrite list_elem_of_fmap. split.
  - intros (m & -> & H). apply list_elem_of_In, in_seq in H. lia.
  - intros H. exists (Z.to_nat n). split; [lia|]. apply list_elem_of_In, in_seq. lia.
Qed.

(** The times a signal was handled in a trace. *)
Definition caught_by (n : Z) (e : event posix) : nat :=
  match e with ECall (Deliver sig _) a => if (sig =? n)%Z && negb (ret a =? 0)%Z then 1 else 0 | _ => 0 end.
Definition caught (n : Z) (t : list (event posix)) : nat := sum_list (caught_by n <$> t).

Lemma caught_app n t1 t2 : caught n (t1 ++ t2) = caught n t1 + caught n t2.
Proof. unfold caught. rewrite fmap_app. apply sum_list_with_app. Qed.

#[local] Opaque signals.

Section runs.
Context {W : Type} (K : kernel posix W) (strsignal : Z → string).

Definition puts (out : string → output) (l : list string) : list (event posix) := (λ s, EOut (out s)) <$> l.

Lemma printSigset_ok out prefix set t w (Q : outcome unit → W → list (event posix) → Prop) :
  Q (Returned tt) w (t ++ puts out (sigset_lines strsignal prefix set)) →
  wpa K t (printSigset strsignal out prefix set) w Q.
Proof.
  set (line := λ n, prefix +:+ zstr n +:+ " (" +:+ strsignal n +:+ ")" +:+ nl).
  set (mem := λ n, sigismember set n = true). intros HQ. unfold printSigset. apply wpa_bind.
  apply (wpa_for_each K (λ xs cnt w' u, w' = w ∧ u ++ puts out (line <$> filter mem xs) = t ++ puts out (line <$> filter mem signals) ∧
    (cnt + Z.of_nat (length (filter mem xs)) = Z.of_nat (length (filter mem signals)))%Z)).
  - intros x xs cnt w1 u (-> & H1 & H2). destruct (sigismember set x) eqn:E.
    + rewrite filter_cons_True in H1, H2 by done. acc_steps. split_and!; [done| |cbn in H2; lia]. rewrite <- H1, <- app_assoc. done.
    + rewrite filter_cons_False in H1, H2 by (unfold mem; congruence). acc_steps. by split_and!.
  - intros cnt w1 u (-> & H1 & H2). cbn in H1, H2. rewrite app_nil_r in H1. subst u. unfold sigset_lines in HQ. fold mem in HQ.
    destruct (filter mem signals) as [|n ns] eqn:E.
    + cbn in H2. replace cnt with 0%Z by lia. cbn [when Z.eqb]. unfold when. cbn. acc_steps. cbn in HQ. by rewrite app_nil_r.
    + assert ((cnt =? 0)%Z = false) as -> by (apply Z.eqb_neq; cbn in H2; lia). unfold when. acc_steps. exact HQ.
  - by split_and!.
Qed.

(** The counters hold what the trace shows. *)
Definition tracks (s : counters) (t : list (event posix)) : Prop :=
  (∀ n, n ≠ SIGINT → sigCnt s n = Z.of_nat (caught n t)) ∧ (gotSigint s = true ↔ 0 < caught SIGINT t) ∧ sigCnt s SIGINT = 0%Z.

Lemma tracks_event s t e : tracks s t → (∀ n, caught_by n e = 0) → tracks s (t ++ [e]).
Proof.
  intros (H1 & H2 & H3) He. assert (∀ n, caught n (t ++ [e]) = caught n t) as Hc.
  { intros n. rewrite caught_app. unfold caught at 2. cbn. rewrite He. cbn. lia. }
  split_and!; [intros n Hn| |done]; rewrite Hc; auto.
Qed.

Lemma tracks_puts s t out l : tracks s t → tracks s (t ++ puts out l).
Proof.
  revert t. induction l as [|x l IH]; intros t H; [by rewrite app_nil_r|].
  change (puts out (x :: l)) with ([EOut (out x)] ++ puts out l : list (event posix)). rewrite app_assoc. by apply IH, tracks_event.
Qed.

Lemma deliveries_ok p s t w : tracks s t →
  wpa K t (deliveries p s) w (λ r _ t', outs t' = outs t ∧ match r with
    | Returned s' => tracks s' t' | Halted _ => False | Gone => True end).
Proof.
  intros H0. unfold deliveries. apply (wpa_for_each K (λ _ s _ t', outs t' = outs t ∧ tracks s t')); [|done|done].
  intros sig xs s1 w1 t1 [Ho H1]. acc_call; [|split; [by rewrite outs_app, Ho, app_nil_r|done]]. acc_steps.
  split; [by rewrite outs_app, Ho, app_nil_r|]. destruct (ret a =? 0)%Z eqn:E.
  - apply tracks_event; [done|]. intros n. cbn. by rewrite E, andb_false_r.
  - assert (∀ n, caught n (t1 ++ [ECall (S := posix) (Deliver sig p) a]) = caught n t1 + if (sig =? n)%Z then 1 else 0) as Hc.
    { intros n. rewrite caught_app. unfold caught at 2. cbn. rewrite E, andb_true_r. destruct (sig =? n)%Z; cbn; lia. }
    destruct H1 as (H1 & H2 & H3). unfold handler, tracks. split_and!.
    + intros n Hn. rewrite Hc. destruct (sig =? SIGINT)%Z eqn:Es; zbool; cbn [sigCnt].
      * rewrite H1 by done. destruct (sig =? n)%Z eqn:En; zbool; [congruence|lia].
      * rewrite (Z.eqb_sym n sig), H1 by done. destruct (sig =? n)%Z; lia.
    + rewrite Hc. destruct (sig =? SIGINT)%Z eqn:Es; cbn [gotSigint]; [split; [lia|done]|]. rewrite H2. lia.
    + destruct (sig =? SIGINT)%Z eqn:Es; cbn [sigCnt]; [done|]. by rewrite Z.eqb_sym, Es.
Qed.

(** The lines printed at the end. *)
Definition count_lines (name : string) (t : list (event posix)) : list string :=
  (λ n, name +:+ ": signal " +:+ zstr n +:+ " caught " +:+ zstr (Z.of_nat (caught n t)) +:+ " time" +:+
     (if (Z.of_nat (caught n t) =? 1)%Z then "" else "s") +:+ nl) <$> filter (λ n, caught n t ≠ 0 ∧ n ≠ SIGINT) signals.

Definition sleeps_ok (r : outcome unit) (s : counters) (t : list (event posix)) : Prop :=
  match r with Returned _ => tracks s t | Halted h => h = Exited 1 ∧ perror_last t | Gone => True end.

Lemma block_and_sleep_ok name arg s t w : tracks s t →
  wpa K t (block_and_sleep strsignal name arg) w (λ r _ t', sleeps_ok r s t').
Proof.
  intros H0. unfold block_and_sleep. cbv zeta. acc_call; [|done]. destruct a as [r m].
  destruct (ret r =? -1)%Z; [acc_steps; split; [done|apply perror_last_snoc]|].
  acc_steps. acc_call; [|done]. acc_call; [|done]. destruct a0 as [p pm].
  destruct (ret p =? -1)%Z; [acc_steps; split; [done|apply perror_last_snoc]|].
  acc_steps. apply wpa_bind, printSigset_ok. acc_call; [|done]. destruct a0 as [u m2].
  destruct (ret u =? -1)%Z; acc_steps; [split; [done|apply perror_last_snoc]|].
  apply tracks_event; [|done]. apply tracks_puts. by repeat (apply tracks_event; [|done]).
Qed.

Lemma print_counts_ok name s t w (Q : outcome unit → W → list (event posix) → Prop) : tracks s t →
  Q (Returned tt) w (t ++ says (count_lines name t)) →
  wpa K t (for_each signals (λ n _,
    when (negb (sigCnt s n =? 0)%Z)
      (printf (name +:+ ": signal " +:+ zstr n +:+ " caught " +:+ zstr (sigCnt s n) +:+ " time" +:+
        (if (sigCnt s n =? 1)%Z then "" else "s") +:+ nl))) tt) w Q.
Proof.
  intros (H1 & _ & H3) HQ. unfold count_lines in HQ. set (line := λ n, _) in HQ. set (sel := λ n, caught n t ≠ 0 ∧ n ≠ SIGINT) in HQ.
  apply (wpa_for_each K (λ xs _ w' u, w' = w ∧ u ++ says (line <$> filter sel xs) = t ++ says (line <$> filter sel signals))).
  - intros n xs [] w1 u (-> & Hu). unfold when. destruct (decide (sel n)) as [Hs|Hs].
    + rewrite filter_cons_True in Hu by done. destruct Hs as [Hn Hi].
      assert ((sigCnt s n =? 0)%Z = false) as E by (apply Z.eqb_neq; rewrite H1 by done; lia). rewrite E. cbn [negb]. acc_steps.
      split; [done|]. rewrite <- Hu, <- app_assoc. rewrite H1 by done. done.
    + rewrite filter_cons_False in Hu by done.
      assert (sigCnt s n = 0%Z) as E.
      { destruct (decide (n = SIGINT)) as [->|Hi]; [done|]. rewrite H1 by done.
        destruct (decide (caught n t = 0)) as [->|Hc]; [done|]. by destruct Hs. }
      rewrite E. cbn [Z.eqb negb]. by acc_steps.
  - intros [] w1 u (-> & Hu). cbn in Hu. rewrite app_nil_r in Hu. by subst u.
  - by split.
Qed.

Lemma count_lines_ext name t t' : (∀ n, caught n t = caught n t') → count_lines name t = count_lines name t'.
Proof.
  intros H. unfold count_lines.
  assert (filter (λ n, caught n t ≠ 0 ∧ n ≠ SIGINT) signals = filter (λ n, caught n t' ≠ 0 ∧ n ≠ SIGINT) signals) as ->.
  { apply list_filter_iff. intros n. by rewrite H. }
  apply list_fmap_ext. intros i n _. by rewrite H.
Qed.

Lemma caught_says n l : caught n (says l) = 0.
Proof. induction l as [|s l IH]; [done|]. exact IH. Qed.

Definition counter_post (name : string) (r : outcome unit) (t : list (event posix)) : Prop :=
  match r with
  | Returned _ => False
  | Halted h => h = Cut ∨ (h = Exited 1 ∧ perror_last t) ∨
      (h = Exited 0 ∧ 0 < caught SIGINT t ∧ ∃ before, outs t = before ++ count_lines name t)
  | Gone => True
  end.

Lemma counter_main_ok fuel flags argv w : wpa K [] (counter_main strsignal fuel flags argv) w (λ r _ t, counter_post (argv_0 argv) r t).
Proof.
  unfold counter_main. acc_call; [|done]. acc_steps. apply wpa_bind.
  apply (wpa_for_each K (λ _ s _ t, tracks s t)).
  { intros n xs s w1 t1 H1. acc_call; [|done]. destruct (ret a0 =? -1)%Z; [acc_steps; right; left; split; [done|apply perror_last_snoc]|].
    eapply wpa_mono; [apply deliveries_ok; by apply tracks_event|]. intros [s'|h|] w2 t2 [_ H2]; done. }
  2:{ split_and!; [done| |done]. split; [done|]. cbn. lia. }
  intros s w1 t1 H1. apply wpa_bind. apply (wpa_mono K) with (Q := λ r _ t', sleeps_ok r s t').
  { destruct argv as [|n [|x argv]]; [by acc_steps..|]. by apply block_and_sleep_ok. }
  intros [[]|h|] w2 t2 H2; [|by right; left|done]. apply wpa_bind.
  apply (wpa_loop K (λ s _ t, tracks s t)); [| |exact H2].
  - intros s1 w3 t3 H3. destruct (gotSigint s1) eqn:Eg.
    + acc_steps. apply wpa_bind. apply print_counts_ok; [done|]. acc_steps. right; right. split; [done|].
      assert (∀ n, caught n (t3 ++ says (count_lines (argv_0 argv) t3)) = caught n t3) as Hc by (intros n; rewrite caught_app, caught_says; lia).
      split; [rewrite Hc; by apply H3|]. exists (outs t3). rewrite outs_app, outs_says. f_equal. symmetry. by apply count_lines_ext.
    + apply wpa_bind. eapply wpa_mono; [by apply deliveries_ok|]. intros [s'|h|] w4 t4 [_ H4]; [by acc_steps|done..].
  - intros s1 w3 t3 _. by left.
Qed.

(** Events of the program up to its first failure. *)
Definition installing (e : event posix) : Prop :=
  match e with
  | EOut _ | ECall Getpid _ | EGone Getpid | ECall (Deliver _ _) _ | EGone (Deliver _ _) => True
  | ECall (Sigaction n _) _ | EGone (Sigaction n _) => (1 <= n <= SIGKILL)%Z
  | _ => False
  end.

Lemma installing_snoc t e : Forall installing t → installing e → Forall installing (t ++ [e]).
Proof. intros H1 H2. by apply Forall_app_2; [|apply Forall_singleton]. Qed.

Lemma deliveries_installing p s t w : Forall installing t →
  wpa K t (deliveries p s) w (λ r _ t', Forall installing t' ∧ match r with Halted _ => False | _ => True end).
Proof.
  intros H0. unfold deliveries. apply (wpa_for_each K (λ _ _ _ t', Forall installing t')); [|done|done].
  intros sig xs s1 w1 t1 H1. acc_call; [|split; [by apply installing_snoc|done]]. acc_steps. by apply installing_snoc.
Qed.

(** [SIGKILL] cannot be handled. *)
Definition kill_refused : Prop :=
  ∀ act w a w', K (Sigaction SIGKILL act) w = Answer a w' → ret a = (-1)%Z.

Lemma counter_main_fails fuel flags argv w : kill_refused → wpa K [] (counter_main strsignal fuel flags argv) w (λ r _ t,
  Forall installing t ∧ match r with Returned _ => False | Halted h => h = Exited 1 ∧ perror_last t | Gone => True end).
Proof.
  intros HK. unfold counter_main. acc_call; [|split; [by repeat constructor|done]]. acc_steps. apply wpa_bind.
  apply (wpa_for_each K (λ xs _ _ t, (∃ k, k <= 8 ∧ xs = drop k signals) ∧ Forall installing t)).
  - intros n xs s w1 t1 [(k & Hk & E) H1].
    assert (n = Z.of_nat (S k) ∧ xs = drop (S k) signals) as [-> ->].
    { assert (signals !! k = Some (Z.of_nat (S k))) as Hl.
      { change signals with (Z.of_nat <$> seq 1 64). rewrite list_lookup_fmap, lookup_seq_lt by lia. done. }
      apply drop_S in Hl. rewrite <- E in Hl. by injection Hl as -> ->. }
    assert (installing (ECall (S := posix) (Sigaction (Z.of_nat (S k)) (Sigact (Handler "handler") 0 flags)) (Rc 0 0))) as Hi.
    { cbn. unfold SIGKILL. lia. }
    acc_call; [|split; [by apply installing_snoc|done]]. destruct (ret a0 =? -1)%Z eqn:E1.
    { acc_steps. split; [by do 2 (apply installing_snoc; [|done])|]. split; [done|apply perror_last_snoc]. }
    eapply wpa_mono; [apply deliveries_installing; by apply installing_snoc|].
    intros [s'|h|] w2 t2 [H2 H3]; [|done|done]. split; [|done]. exists (S k). split; [|done].
    destruct (decide (k = 8)) as [->|]; [|lia]. zbool. exfalso. apply E1. by eapply HK.
  - intros s w1 t1 [(k & Hk & E) H1]. apply (f_equal length) in E. rewrite length_drop in E.
    change (length signals) with 64 in E. cbn in E. lia.
  - split; [exists 0; split; [lia|by rewrite drop_0]|by repeat constructor].
Qed.
End runs.

(** C28: signal_functions.c and signal_to_sigaction.c, on any kernel.
    [printSigset] prints one line per member of the set, in order, or that it is
    empty; [printSigMask] and [printPendingSigs] return -1 exactly when their
    call fails, after nothing but the message.  The counter, if it comes to its
    end, has caught SIGINT, and prints for every other signal caught how often
    its handler ran.  But where SIGKILL cannot be handled, as everywhere, it
    never gets that far: the ninth [sigaction] fails and ends it, before it
    blocks a signal or sleeps. *)
Theorem signal_tools_correct {W} (K : kernel posix W) (strsignal : Z → string) (fuel : nat) (sa_flags : Z)
    (out : string → output) (prefix : string) (msg : option string) (set : Z) (argv : list string) (w : W) :
  kill_refused K →
  wp K (printSigset strsignal out prefix set) w (λ r _ t,
    r = Returned tt ∧ t = puts out (sigset_lines strsignal prefix set)) ∧
  wp K (printSigMask strsignal out msg) w (λ r _ t, ∃ t0, t0 = puts out (option_list msg) ∧ match r with
    | Returned z => ∃ a, (z = (-1)%Z ∧ ret a.1 = (-1)%Z ∧ t = t0 ++ [ECall (S := posix) (Sigprocmask SIG_BLOCK 0) a]) ∨
        (z = 0%Z ∧ ret a.1 ≠ (-1)%Z ∧ t = (t0 ++ [ECall (S := posix) (Sigprocmask SIG_BLOCK 0) a]) ++ puts out (sigset_lines strsignal (tab +:+ tab) a.2))
    | Halted _ => False
    | Gone => True end) ∧
  wp K (printPendingSigs strsignal out msg) w (λ r _ t, ∃ t0, t0 = puts out (option_list msg) ∧ match r with
    | Returned z => ∃ a, (z = (-1)%Z ∧ ret a.1 = (-1)%Z ∧ t = t0 ++ [ECall (S := posix) Sigpending a]) ∨
        (z = 0%Z ∧ ret a.1 ≠ (-1)%Z ∧ t = (t0 ++ [ECall (S := posix) Sigpending a]) ++ puts out (sigset_lines strsignal (tab +:+ tab) a.2))
    | Halted _ => False
    | Gone => True end) ∧
  (∀ K' : kernel posix W, wp K' (counter_main strsignal fuel sa_flags argv) w (λ r _ t, match r with
    | Returned _ => False
    | Halted h => h = Cut ∨ (h = Exited 1 ∧ perror_last t) ∨
        (h = Exited 0 ∧ 0 < caught SIGINT t ∧ ∃ before, outs t = before ++ count_lines (argv_0 argv) t)
    | Gone => True end)) ∧
  wp K (counter_main strsignal fuel sa_flags argv) w (λ r _ t, Forall installing t ∧
    match r with Returned _ => False | Halted h => h = Exited 1 ∧ perror_last t | Gone => True end).
Proof.
  intros HK. split_and!.
  - apply wpa_wp, printSigset_ok. done.
  - apply wpa_wp. unfold printSigMask. apply wpa_bind. apply (wpa_mono K) with (Q := λ r w' t, r = Returned tt ∧ t = puts out (option_list msg)).
    { destruct msg; by acc_steps. }
    intros r w1 t [-> ->]. acc_call; [|by eexists]. destruct a as [r m]. destruct (ret r =? -1)%Z eqn:E; zbool; acc_steps.
    + eexists. split; [done|]. exists (r, m). by left.
    + apply wpa_bind, printSigset_ok. acc_steps. eexists. split; [done|]. exists (r, m). by right.
  - apply wpa_wp. unfold printPendingSigs. apply wpa_bind. apply (wpa_mono K) with (Q := λ r w' t, r = Returned tt ∧ t = puts out (option_list msg)).
    { destruct msg; by acc_steps. }
    intros r w1 t [-> ->]. acc_call; [|by eexists]. destruct a as [r m]. destruct (ret r =? -1)%Z eqn:E; zbool; acc_steps.
    + eexists. split; [done|]. exists (r, m). by left.
    + apply wpa_bind, printSigset_ok. acc_steps. eexists. split; [done|]. exists (r, m). by right.
  - intros K'. apply wpa_wp, counter_main_ok.
  - by apply wpa_wp, counter_main_fails.
Qed.

(** A machine where only SIGKILL and SIGSTOP are refused. *)
Definition unix_signals : kernel posix unit := λ c w,
  match c as c return reaction (posix_ans c) unit with
  | Getpid => Answer (Rc 77 0) w
  | Sigaction n _ => Answer (Rc (if (n =? 9)%Z || (n =? 19)%Z then -1 else 0) 22) w
  | Deliver _ _ => Answer (Rc 0 0) w
  | Sigprocmask _ _ => Answer (Rc 0 0, 5%Z) w
  | _ => NoReturn w
  end.

Lemma signal_tools_correct_witness :
  kill_refused unix_signals ∧
  wp unix_signals (counter_main (λ _, "") 3 0 ["counter"]) tt (λ r _ t, r = Halted (Exited 1) ∧ Forall installing t) ∧
  wp unix_signals (printSigset (λ n, if (n =? 1)%Z then "Hangup" else "Quit") Out tab 5) tt (λ r _ t,
    outs t = [tab +:+ "1 (Hangup)" +:+ nl; tab +:+ "3 (Quit)" +:+ nl]).
Proof.
  assert (kill_refused unix_signals) as HK by (intros act w a w' [= <- <-]; reflexivity).
  destruct (signal_tools_correct unix_signals (λ n, if (n =? 1)%Z then "Hangup" else "Quit") 3 0 Out tab None 5 ["counter"] tt HK) as (H1 & _).
  destruct (signal_tools_correct unix_signals (λ _, "") 3 0 Out tab None 5 ["counter"] tt HK) as (_ & _ & _ & _ & H2).
  split; [exact HK|]. split.
  - assert ((run unix_signals (counter_main (λ _, "") 3 0 ["counter"]) tt).1.1 = Halted (Exited 1)) as E1 by (vm_compute; reflexivity).
    apply wp_intro. intros r w' t E. rewrite E in E1. pose proof (wp_run _ _ _ _ _ _ _ H2 E) as [H _]. clear E H1 H2. split; [exact E1|exact H].
  - eapply wp_mono; [exact H1|]. intros r w' t [_ ->]. vm_compute. reflexivity.
Defined.
