(* ===== verification/ChildWait.v ===== *)
(** * Parent and child that signal each other

    child_wait_parent.c (CH24): parent and child synchronise with two signals.
    After [fork] the two sides are two threads of control of a machine whose
    state is what is pending for each process; the program up to [fork] is a
    program like the others. *)
From Stdlib Require Import ZArith Lia Ascii String.
From stdpp Require Import base gmap strings list relations well_founded.
From S2P Require Import Prelude Prog CString Posix Conc.
Local Open Scope prog_scope.

Definition SYNC_CSIG : Z := SIGUSR1.
Definition SYNC_PSIG : Z := SIGUSR2.
(** The two signals as a set. *)
Definition blockMask : Z := 2560.

Definition sync_handler (sig : Z) : prog posix unit :=
  printf "From handler: " ;;;
  if (sig =? SYNC_CSIG)%Z then printf ("Child send signal to parent" +:+ nl)
  else if (sig =? SYNC_PSIG)%Z then printf ("Parent send signal to child" +:+ nl) else Ret tt.

(** [sigsuspend] with the empty mask: the handlers of the signals it let in run
    before it returns. *)
Definition sigsuspend : prog posix rc :=
  a <- sys (Sigsuspend 0);;
  for_each [SYNC_CSIG; SYNC_PSIG] (λ sig _,
    d <- sys (Deliver sig 0);; when (negb (ret d =? 0)%Z) (sync_handler sig)) tt ;;;
  Ret a.

Definition child_side (origMask : Z) : prog posix unit :=
  printf ("Child started - doing some work" +:+ nl) ;;;
  sys (Sleep 2) ;;;
  printf ("Child about to signal parent" +:+ nl) ;;;
  p <- sys Getppid;;
  k <- sys (Kill (ret p) SYNC_CSIG);;
  if (ret k =? -1)%Z then perror "kill" (errno k) ;;; exit EXIT_FAILURE else
  printf ("child about to wait for signal" +:+ nl) ;;;
  s <- sigsuspend;;
  if (ret s =? -1)%Z && negb (errno s =? EINTR)%Z then perror "sigsuspend" (errno s) ;;; exit EXIT_FAILURE else
  printf ("child got signal" +:+ nl) ;;;
  '(m, _) <- sys (Sigprocmask SIG_SETMASK origMask);;
  if (ret m =? -1)%Z then perror "sigprocmask" (errno m) ;;; exit EXIT_FAILURE else
  quick_exit EXIT_SUCCESS.

Definition parent_side (origMask : Z) : prog posix unit :=
  printf ("Parent about to wait for signal" +:+ nl) ;;;
  s <- sigsuspend;;
  if (ret s =? -1)%Z && negb (errno s =? EINTR)%Z then perror "sigsuspend" (errno s) ;;; exit EXIT_FAILURE else
  printf ("Parent got signal" +:+ nl) ;;;
  '(m, _) <- sys (Sigprocmask SIG_SETMASK origMask);;
  if (ret m =? -1)%Z then perror "sigprocmask" (errno m) ;;; exit EXIT_FAILURE else
  printf ("Parent doing some work" +:+ nl) ;;;
  sys (Sleep 2) ;;;
  printf ("Parent about to signal parent" +:+ nl) ;;;
  p <- sys Getppid;;
  k <- sys (Kill (ret p) SYNC_PSIG);;
  if (ret k =? -1)%Z then perror "kill" (errno k) ;;; exit EXIT_FAILURE else
  exit EXIT_SUCCESS.

Definition sync_main : prog posix unit :=
  '(b, origMask) <- sys (Sigprocmask SIG_BLOCK blockMask);;
  if (ret b =? -1)%Z then perror "sigprocmask" (errno b) ;;; exit EXIT_FAILURE else
  let sa := Sigact (Handler "handler") 0 SA_RESTART in
  a1 <- sys (Sigaction SYNC_CSIG sa);;
  if (ret a1 =? -1)%Z then perror "sigaction" (errno a1) ;;; exit EXIT_FAILURE else
  a2 <- sys (Sigaction SYNC_PSIG sa);;
  if (ret a2 =? -1)%Z then perror "sigaction" (errno a2) ;;; exit EXIT_FAILURE else
  f <- sys Fork;;
  if (ret f =? -1)%Z then perror "fork" (errno f) ;;; exit EXIT_FAILURE
  else if (ret f =? 0)%Z then child_side origMask else parent_side origMask.

(** ** Two processes *)

(** The signals pending for the parent and the child, those sent elsewhere, the
    handlers [sigsuspend] has still to run in each, and whether the child has
    sent its signal and the parent has been woken. *)
Record kin := Kin { pend_p : list Z; pend_c : list Z; elsewhere : list Z; run_p : list Z; run_c : list Z; sent_c : bool; woken : bool }.

Section machine.
Context (parent child grandparent : Z).

Definition kin_kill (pid sig : Z) (s : kin) : kin :=
  if decide (pid = parent) then Kin (pend_p s ++ [sig]) (pend_c s) (elsewhere s) (run_p s) (run_c s) true (woken s)
  else if decide (pid = child) then Kin (pend_p s) (pend_c s ++ [sig]) (elsewhere s) (run_p s) (run_c s) (sent_c s) (woken s)
  else Kin (pend_p s) (pend_c s) (elsewhere s ++ [sig]) (run_p s) (run_c s) (sent_c s) (woken s).

(** Process 0 is the parent, process 1 the child.  Both signals are blocked but
    in [sigsuspend], which waits until one is pending. *)
Definition kin_step (i : nat) (c : posix_op) (s : kin) : mresult (posix_ans c) kin :=
  match c as c return mresult (posix_ans c) kin with
  | Sleep _ => MOk (Rc 0 0) s
  | Getppid => MOk (Rc (if decide (i = 0) then grandparent else parent) 0) s
  | Kill pid sig => MOk (Rc 0 0) (kin_kill pid sig s)
  | Sigsuspend _ =>
      if decide (i = 0) then
        match pend_p s with [] => MBlocked | l => MOk (Rc (-1) EINTR) (Kin [] (pend_c s) (elsewhere s) l (run_c s) (sent_c s) true) end
      else match pend_c s with [] => MBlocked | l => MOk (Rc (-1) EINTR) (Kin (pend_p s) [] (elsewhere s) (run_p s) l (sent_c s) (woken s)) end
  | Deliver sig _ => MOk (Rc (if decide (sig ∈ if decide (i = 0) then run_p s else run_c s) then 1 else 0) 0) s
  | Sigprocmask _ m => MOk (Rc 0 0, 0%Z) s
  | _ => MFault
  end.

Definition kin_machine : machine posix kin := Machine posix kin kin_step (λ _ _ s, s).

Definition kin0 : kin := Kin [] [] [] [] [] false false.

(** ** Correctness *)

Record kin_inv (s : kin) : Prop := {
  k_child : pend_c s = [];
  k_sent : sent_c s = true → pend_p s ≠ [] ∨ woken s = true;
  k_unsent : sent_c s = false → pend_p s = [] ∧ woken s = false }.

Definition kin_rely (i : nat) (s s' : kin) : Prop :=
  match i with
  | 0 => woken s' = woken s ∧ elsewhere s' = elsewhere s
  | 1 => sent_c s' = sent_c s
  | _ => True
  end.

#[global] Instance kin_rely_preorder i : PreOrder (kin_rely i).
Proof.
  split; [by destruct i as [|[|i]]|]. intros a b c. destruct i as [|[|i]]; cbn; [|congruence|done].
  by intros [-> ->] [-> ->].
Qed.

Definition kin_waits (i : nat) (s : kin) : Prop :=
  if decide (i = 0) then pend_p s = [] ∧ woken s = false else sent_c s = true.

Abbreviation kin_rg := (rg kin_machine kin_inv kin_rely kin_waits).

Definition kin_post (i : nat) (r : outcome unit) (s : kin) : Prop :=
  if decide (i = 0) then r = Halted (Exited 0) ∧ elsewhere s = [SYNC_PSIG] ∧ woken s = true else False.

Lemma guar_same i s : kin_inv s → guar kin_inv kin_rely i s s.
Proof. intros H. split; [done|]. intros j _. reflexivity. Qed.

(** A step that leaves the state as it is. *)
Lemma rg_put {B} i o (k : prog posix B) Q s :
  (∀ s', kin_rely i s s' → kin_rg i k Q s') → kin_rg i (Put o k) Q s.
Proof. intros H s' Hr HI. split; [by apply guar_same|]. by apply H. Qed.

Lemma rg_same {B} i c a (k : posix_ans c → prog posix B) Q s :
  (∀ s', kin_step i c s' = MOk a s') → (∀ s', kin_rely i s s' → kin_rg i (k a) Q s') → kin_rg i (Sys c k) Q s.
Proof.
  intros Hc H s' Hr HI. change (mstep kin_machine i c s') with (kin_step i c s'). rewrite Hc.
  split; [by apply guar_same|]. by apply H.
Qed.

Context (Hpc : parent ≠ child) (Hgp : grandparent ≠ parent) (Hgc : grandparent ≠ child).

(** What the parent keeps while the child moves. *)
Definition alone (wk : bool) (s : kin) : Prop := woken s = wk ∧ elsewhere s = [].

Lemma alone_rely wk s s' : alone wk s → kin_rely 0 s s' → alone wk s'.
Proof. intros [H1 H2] (H3 & H4). by split; [rewrite H3|rewrite H4]. Qed.

(** Programs whose calls leave the state as it is. *)
Definition keeps (c : posix_op) : Prop :=
  match c with Deliver _ _ | Sleep _ | Getppid | Sigprocmask _ _ => True | _ => False end.
Fixpoint still {B} (p : prog posix B) : Prop :=
  match p with
  | Ret _ => True
  | Stop _ => False
  | Put _ k => still k
  | Sys c k => keeps c ∧ ∀ a, still (k a)
  end.

Lemma keeps_step i c s : keeps c → ∃ a, kin_step i c s = MOk a s.
Proof. destruct c; try done; intros _; by eexists. Qed.

Lemma still_ok {B} i (p : prog posix B) (P : kin → Prop) s : still p →
  (∀ s s', P s → kin_rely i s s' → P s') → P s →
  kin_rg i p (λ r s', (∃ a, r = Returned a) ∧ P s') s.
Proof.
  intros Hp HP. revert s. induction p as [a|h|o k IH|c k IH]; intros s Hs; cbn in Hp |- *; [|done|..].
  - intros s' Hr _. split; [by exists a|by eapply HP].
  - intros s' Hr HI. split; [by apply guar_same|]. apply IH; [done|by eapply HP].
  - intros s' Hr HI. destruct Hp as [Hc Hk]. destruct (keeps_step i c s' Hc) as [a E].
    change (mstep kin_machine i c s') with (kin_step i c s'). rewrite E. split; [by apply guar_same|]. apply IH; [apply Hk|by eapply HP].
Qed.

Lemma handlers_still : still (for_each [SYNC_CSIG; SYNC_PSIG] (λ sig _,
    d <- sys (Deliver sig 0);; when (negb (ret d =? 0)%Z) (sync_handler sig)) tt).
Proof.
  cbn [for_each]. unfold sys. cbn [bind]. split; [done|]. intros a. cbn [bind].
  destruct (ret a =? 0)%Z; cbn; (split; [done|]; intros b; destruct (ret b =? 0)%Z; done).
Qed.

Lemma parent_suspends s : alone false s →
  kin_rg 0 sigsuspend (λ r s', r = Returned (Rc (-1) EINTR) ∧ alone true s') s.
Proof.
  intros Ha. unfold sigsuspend, sys at 1. cbn [bind]. intros s1 Hr HI.
  pose proof (alone_rely _ _ _ Ha Hr) as [Hw He]. change (mstep kin_machine 0 (Sigsuspend 0) s1) with (kin_step 0 (Sigsuspend 0) s1).
  cbn [kin_step]. rewrite decide_True by done. destruct (pend_p s1) as [|x l] eqn:Ep; [by split|].
  set (s2 := Kin [] (pend_c s1) (elsewhere s1) (x :: l) (run_c s1) (sent_c s1) true).
  assert (kin_inv s2) as HI2.
  { destruct HI as [H1 H2 H3]. constructor; cbn; [done|by right|]. intros Hs. destruct (H3 Hs) as [H4 _]. by rewrite Ep in H4. }
  split; [split; [done|]; by intros [|[|j]] Hj|].
  assert (alone true s2) as H2 by by split. clearbody s2. cbn [bind]. apply rg_bind; [exact kin_rely_preorder|].
  eapply rg_mono; [apply (still_ok 0 _ (alone true)); [apply handlers_still|apply alone_rely|done]|].
  intros r s3 _ [[u ->] H3]. intros s4 H4 _. split; [done|by eapply alone_rely].
Qed.

Lemma parent_ok m s : alone false s → kin_rg 0 (parent_side m) (kin_post 0) s.
Proof.
  intros Ha. unfold parent_side, printf, put. cbn [bind]. apply rg_put. intros s1 H1.
  pose proof (alone_rely _ _ _ Ha H1) as Ha1. apply rg_bind; [exact kin_rely_preorder|].
  eapply rg_mono; [by apply parent_suspends|]. intros r s2 _ [-> Ha2]. cbn [ret errno].
  change ((-1 =? -1)%Z && negb (EINTR =? EINTR)%Z) with false. cbv iota. unfold sys. cbn [bind].
  apply rg_put. intros s3 H3. pose proof (alone_rely _ _ _ Ha2 H3) as Ha3.
  eapply rg_same; [done|]. intros s4 H4. pose proof (alone_rely _ _ _ Ha3 H4) as Ha4. cbn [bind ret]. change (0 =? -1)%Z with false. cbv iota.
  apply rg_put. intros s5 H5. pose proof (alone_rely _ _ _ Ha4 H5) as Ha5.
  eapply rg_same; [done|]. intros s6 H6. pose proof (alone_rely _ _ _ Ha5 H6) as Ha6. cbn [bind].
  apply rg_put. intros s7 H7. pose proof (alone_rely _ _ _ Ha6 H7) as Ha7.
  eapply rg_same; [done|]. intros s8 H8. pose proof (alone_rely _ _ _ Ha7 H8) as Ha8. cbn [bind ret].
  rewrite decide_True by done. intros s9 H9 HI. destruct (alone_rely _ _ _ Ha8 H9) as [Hw He].
  change (mstep kin_machine 0 (Kill grandparent SYNC_PSIG) s9) with (kin_step 0 (Kill grandparent SYNC_PSIG) s9).
  cbn [kin_step]. unfold kin_kill. rewrite !decide_False by done. cbn [bind ret]. change (0 =? -1)%Z with false. cbv iota.
  destruct HI as [K1 K2 K3]. split.
  - split; [by constructor|]. by intros [|[|j]] Hj.
  - intros s10 (E1 & E2) _. unfold kin_post. rewrite decide_True by done. cbn in E1, E2.
    split_and!; [done|by rewrite E2, He|by rewrite E1].
Qed.

Lemma child_ok m s : sent_c s = false → kin_rg 1 (child_side m) (kin_post 1) s.
Proof.
  intros Hs. assert (∀ s s', sent_c s = false → kin_rely 1 s s' → sent_c s' = false) as Hst by (intros ?? H1 H2; unfold kin_rely in H2; cbn in H2; congruence).
  unfold child_side, printf, put, sys. cbn [bind]. apply rg_put. intros s1 H1. pose proof (Hst _ _ Hs H1) as Hs1.
  eapply rg_same; [done|]. intros s2 H2. pose proof (Hst _ _ Hs1 H2) as Hs2. cbn [bind].
  apply rg_put. intros s3 H3. pose proof (Hst _ _ Hs2 H3) as Hs3.
  eapply rg_same; [done|]. intros s4 H4. pose proof (Hst _ _ Hs3 H4) as Hs4. cbn [bind ret].
  rewrite decide_False by done. intros s5 H5 HI. pose proof (Hst _ _ Hs4 H5) as Hs5.
  change (mstep kin_machine 1 (Kill parent SYNC_CSIG) s5) with (kin_step 1 (Kill parent SYNC_CSIG) s5).
  cbn [kin_step]. unfold kin_kill. rewrite decide_True by done. destruct HI as [K1 K2 K3]. split.
  { split; [constructor; cbn; [done| |done]|].
    - intros _. left. by destruct (pend_p s5).
    - by intros [|[|j]] Hj. }
  cbn [bind ret]. change (0 =? -1)%Z with false. cbv iota. apply rg_put. intros s6 H6.
  assert (sent_c s6 = true) as Hs6 by (unfold kin_rely in H6; cbn in H6; congruence).
  unfold sigsuspend, sys. cbn [bind]. intros s7 H7 HI.
  change (mstep kin_machine 1 (Sigsuspend 0) s7) with (kin_step 1 (Sigsuspend 0) s7). cbn [kin_step].
  rewrite decide_False, (k_child _ HI) by done. unfold kin_waits. rewrite decide_False by done.
  unfold kin_rely in H7; cbn in H7; congruence.
Qed.
End machine.

Lemma sigsuspend_forkless : forkless sigsuspend.
Proof.
  unfold sigsuspend, sys. cbn [bind for_each]. split; [done|]. intros r. split; [done|]. intros a. cbn [bind].
  destruct (ret a =? 0)%Z; cbn; (split; [done|]; intros b; by destruct (ret b =? 0)%Z).
Qed.

Lemma sides_forkless m : forkless (child_side m) ∧ forkless (parent_side m).
Proof.
  split.
  - unfold child_side, printf, put, sys. cbn [bind]. split; [done|]. intros _. cbn [bind]. split; [done|]. intros p. cbn [bind].
    split; [done|]. intros k. cbn [bind]. destruct (ret k =? -1)%Z; [done|]. cbn [bind].
    apply forkless_bind; [apply sigsuspend_forkless|]. intros s. destruct (_ && _); [done|]. split; [done|]. intros [r o]. cbn [bind].
    by destruct (ret r =? -1)%Z.
  - unfold parent_side, printf, put, sys. cbn [bind]. apply forkless_bind; [apply sigsuspend_forkless|]. intros s.
    destruct (_ && _); [done|]. split; [done|]. intros [r o]. cbn [bind]. destruct (ret r =? -1)%Z; [done|]. split; [done|]. intros _.
    cbn [bind]. split; [done|]. intros p. cbn [bind]. split; [done|]. intros k. cbn [bind]. by destruct (ret k =? -1)%Z.
Qed.

(** Both signals are blocked and handled. *)
Definition prepared (t : list (event posix)) : Prop :=
  ∃ b o a1 a2 f1 f2, t = [ECall (S := posix) (Sigprocmask SIG_BLOCK blockMask) (b, o);
    ECall (S := posix) (Sigaction SYNC_CSIG (Sigact (Handler "handler") 0 f1)) a1;
    ECall (S := posix) (Sigaction SYNC_PSIG (Sigact (Handler "handler") 0 f2)) a2] ∧
  ret b ≠ (-1)%Z ∧ ret a1 ≠ (-1)%Z ∧ ret a2 ≠ (-1)%Z.

Lemma sync_main_prepared {W} (K : kernel posix W) w : wpa K [] sync_main w (λ _ _ t, before_each is_fork prepared t).
Proof.
  assert (∀ t e, before_each is_fork prepared t → ¬ is_fork e → before_each is_fork prepared (t ++ [e])) as Hs by (intros; by apply before_each_snoc).
  pose proof (before_each_nil is_fork prepared) as H0. unfold sync_main.
  acc_call; [|apply Hs; [done|by intros []]]. destruct a as [b o].
  assert (before_each is_fork prepared ([] ++ [ECall (S := posix) (Sigprocmask SIG_BLOCK blockMask) (b, o)])) as H1 by (apply Hs; [done|by intros []]).
  destruct (ret b =? -1)%Z eqn:E1; zbool; [acc_steps; apply Hs; [done|by intros []]|]. cbv zeta.
  acc_call; [|apply Hs; [done|by intros []]].
  match goal with |- wpa _ ?t _ _ _ => assert (before_each is_fork prepared t) as H3 by (apply Hs; [done|by intros []]) end.
  destruct (ret a =? -1)%Z eqn:E2; zbool; [acc_steps; apply Hs; [done|by intros []]|].
  acc_call; [|apply Hs; [done|by intros []]].
  match goal with |- wpa _ ?t _ _ _ => assert (before_each is_fork prepared t) as H5 by (apply Hs; [done|by intros []]) end.
  destruct (ret a0 =? -1)%Z eqn:E3; zbool; [acc_steps; apply Hs; [done|by intros []]|].
  assert (∀ e, before_each is_fork prepared ((([] ++ [ECall (S := posix) (Sigprocmask SIG_BLOCK blockMask) (b, o)]) ++
    [ECall (S := posix) (Sigaction SYNC_CSIG (Sigact (Handler "handler") 0 SA_RESTART)) a]) ++
    [ECall (S := posix) (Sigaction SYNC_PSIG (Sigact (Handler "handler") 0 SA_RESTART)) a0] ++ [e])) as Hf.
  { intros e. rewrite app_assoc. apply before_each_snoc; [done|]. intros _. by exists b, o, a, a0, SA_RESTART, SA_RESTART. }
  setoid_rewrite app_assoc in Hf.
  acc_call; [|apply Hf]. destruct (ret a1 =? -1)%Z; [acc_steps; apply Hs; [apply Hf|by intros []]|].
  destruct (sides_forkless o) as [Hc Hp].
  destruct (ret a1 =? 0)%Z; apply forkless_ok; [done|apply Hf|done|apply Hf].
Qed.

(** C29: child_wait_parent.c.  The program forks only after both signals are
    blocked and have their handler, so no signal is lost: in every interleaving
    of parent and child the parent is woken by the child and ends with status 0.
    But it sends its own signal to its parent, not to the child: every execution
    is finite, and it can only end with the child waiting for ever. *)
Theorem child_wait_correct {W} (K : kernel posix W) (w : W) (parent child grandparent origMask : Z) :
  parent ≠ child → grandparent ≠ parent → grandparent ≠ child →
  let M := kin_machine parent child grandparent in
  wp K sync_main w (λ _ _ t, before_each is_fork prepared t) ∧
  ∀ c, rtc (cstep M) (kin0, [parent_side origMask; child_side origMask]) c →
  (∀ i, ¬ faulty M i c) ∧
  (∀ p, c.2 !! 1 = Some p → Conc.finished p = false) ∧
  (∀ h, c.2 !! 0 = Some (Stop h) → h = Exited 0 ∧ woken c.1 = true ∧ elsewhere c.1 = [SYNC_PSIG]) ∧
  ((∃ c', cstep M c c') ∨
   (c.2 !! 0 = Some (Stop (Exited 0)) ∧ (∃ m k, c.2 !! 1 = Some (Sys (Sigsuspend m) k)) ∧ pend_c c.1 = [])) ∧
  Acc (flip (cstep M)) c.
Proof.
  intros Hpc Hgp Hgc M. split; [apply wpa_wp, sync_main_prepared|]. intros c Hs.
  assert (good M kin_inv kin_rely kin_waits kin_post 2 (kin0, [parent_side origMask; child_side origMask])) as H0.
  { split; [by constructor|]. split; [done|]. intros [|[|i]] p [= <-]; [by apply parent_ok|by apply child_ok]. }
  destruct (rg_sound _ _ _ _ _ _ _ _ H0 Hs) as (Hgood & Hfault & Hret & Hstop).
  destruct Hgood as (HI & Hlen & Hg).
  assert (∀ p, c.2 !! 1 = Some p → Conc.finished p = false) as Hchild.
  { intros [a|h|o k|op k] Hp; [by destruct (Hret 1 a Hp)|by destruct (Hstop 1 h Hp)|done|done]. }
  split_and!; [done|done| | |apply cstep_terminates].
  { intros h Hh. by destruct (Hstop 0 h Hh) as ([= ->] & ? & ?). }
  destruct (lookup_lt_is_Some_2 c.2 0 ltac:(lia)) as [p0 Hp0], (lookup_lt_is_Some_2 c.2 1 ltac:(lia)) as [p1 Hp1].
  assert (∀ i p, c.2 !! i = Some p → Conc.finished p = false → (∃ c', cstep M c c') ∨
    (∃ op k, p = Sys op k ∧ mstep M i op c.1 = MBlocked ∧ kin_waits i c.1)) as Hmove.
  { intros i p Hp Hf. destruct p as [a|h|o k|op k]; [done|done| |].
    - left. eexists. exists i. unfold sched_step. by rewrite Hp.
    - pose proof (Hg i _ Hp c.1 ltac:(reflexivity) HI) as Hr. fold M in Hr. destruct (mstep M i op c.1) as [a s| |] eqn:E; [| |done].
      + left. eexists. exists i. unfold sched_step. by rewrite Hp, E.
      + right. by exists op, k. }
  destruct (Hmove 1 p1 Hp1 (Hchild p1 Hp1)) as [?|(op & k & -> & E & Hw)]; [by left|].
  destruct (Conc.finished p0) eqn:Ef.
  - right. assert (∃ m, op = Sigsuspend m) as [m ->].
    { destruct op; try done. by eexists. }
    split_and!; [|by eexists _, _|apply HI].
    destruct p0 as [a|h|o k0|op0 k0]; [by destruct (Hret 0 a Hp0) as ([=] & _)|by destruct (Hstop 0 h Hp0) as ([= ->] & _)|done|done].
  - destruct (Hmove 0 p0 Hp0 Ef) as [?|(op0 & k0 & -> & E0 & Hw0)]; [by left|]. exfalso.
    unfold kin_waits in Hw, Hw0. cbn in Hw, Hw0. destruct Hw0 as [H1 H2].
    destruct (k_sent _ HI Hw) as [H3|H3]; congruence.
Qed.

Lemma child_wait_correct_witness :
  let M := kin_machine 100 101 1 in
  let c := schedule M (repeat 1 20 ++ repeat 0 20) (kin0, [parent_side 0; child_side 0]) in
  Conc.finished <$> c.2 = [true; false] ∧ elsewhere c.1 = [SYNC_PSIG] ∧ (∀ i, ¬ faulty M i c) ∧
  (∀ h, c.2 !! 0 = Some (Stop h) → h = Exited 0).
Proof.
  intros M c.
  destruct (child_wait_correct (λ _ n, NoReturn n) 0%Z 100 101 1 0 ltac:(discriminate) ltac:(discriminate) ltac:(discriminate)) as [_ H].
  specialize (H c (schedule_steps M _ _)). destruct H as (H1 & _ & H3 & _).
  split_and!; [vm_compute; reflexivity|vm_compute; reflexivity|exact H1|]. intros h Hh. apply (H3 h Hh).
Defined.
