(* ===== verification/Environ.v ===== *)
(** * setenv and unsetenv from putenv

    environ.c (CH06): [my_setenv] and [my_unsetenv] build the string
    ["name=value"] in a block of [malloc], pass it to [putenv] and free it.
    [putenv] does not copy: the environment is the array of pointers [environ]
    into the heap, and a block that is freed is no longer in the heap. *)
From Stdlib Require Import ZArith Lia Ascii String.
From stdpp Require Import base gmap strings list fin_maps.
From S2P Require Import Prelude Prog CString Posix.
Local Open Scope prog_scope.

(** ** Memory and the calls of libc *)

(** A block of [malloc], with the C string it holds. *)
Record block := Block { b_size : nat; b_text : bytes }.

(** The live blocks, the pointers of [environ], the next address, and how many
    calls that can run out of memory were made. *)
Record env := Env { heap : gmap nat block; environ : list nat; fresh : nat; tick : nat }.

Definition equals : ascii := "="%char.

(** The value after [name=] when [s] starts so. *)
Fixpoint after_name (name s : bytes) : option bytes :=
  match name, s with
  | [], c :: s' => if Ascii.eqb c equals then Some s' else None
  | a :: name', c :: s' => if Ascii.eqb a c then after_name name' s' else None
  | _, [] => None
  end.

(** The first entry for [name]: its index and value.  The outer [None]: an
    entry before it points to a block that is freed. *)
Fixpoint find_entry (h : gmap nat block) (l : list nat) (name : bytes) (i : nat) :
    option (option (nat * bytes)) :=
  match l with
  | [] => Some None
  | p :: l' =>
      match h !! p with
      | None => None
      | Some b => match after_name name (b_text b) with
                  | Some v => Some (Some (i, v))
                  | None => find_entry h l' name (S i)
                  end
      end
  end.

Definition found_in (e : env) (name : bytes) := find_entry (heap e) (environ e) name 0.

(** The pointers of [environ] once [p] is the entry for [name]. *)
Definition place (l : list nat) (f : option (nat * bytes)) (p : nat) : list nat :=
  match f with Some (i, _) => <[i := p]> l | None => l ++ [p] end.

Inductive env_op :=
| EnvMalloc (size : nat) | Load (p : nat) | Store (p : nat) (s : bytes)
| GetenvCall (name : bytes) | PutenvCall (p : nat) | FreeCall (p : nat).

(** [None] of [Load], [Store], [GetenvCall], [PutenvCall] and [FreeCall]: the
    call is undefined behaviour.  [EnvMalloc] gives [None] for NULL. *)
Definition env_ans (c : env_op) : Type :=
  match c with
  | EnvMalloc _ => option nat
  | Load _ => option bytes
  | Store _ _ | FreeCall _ => option unit
  | GetenvCall _ => option (option bytes)
  | PutenvCall _ => option Z
  end.
Canonical Structure env_sig : sig := Sig env_op env_ans.

Section libc.
(** Which calls run out of memory. *)
Context (fails : nat → bool).

(** [putenv] takes the string of [p], which has an equals sign, as the entry
    for what precedes the sign; [getenv] finds nothing for the empty name. *)
Definition libc : kernel env_sig env := λ c e,
  match c with
  | EnvMalloc n =>
      if fails (tick e) then Answer (None : env_ans (EnvMalloc n)) (Env (heap e) (environ e) (fresh e) (S (tick e)))
      else Answer (Some (fresh e) : env_ans (EnvMalloc n))
             (Env (<[fresh e := Block n []]> (heap e)) (environ e) (S (fresh e)) (S (tick e)))
  | Load p => Answer (b_text <$> heap e !! p : env_ans (Load p)) e
  | Store p s =>
      match heap e !! p with
      | Some b => if decide (length s < b_size b)
                  then Answer (Some tt : env_ans (Store p s))
                         (Env (<[p := Block (b_size b) s]> (heap e)) (environ e) (fresh e) (tick e))
                  else Answer (None : env_ans (Store p s)) e
      | None => Answer (None : env_ans (Store p s)) e
      end
  | GetenvCall name =>
      Answer (match name with [] => Some None | _ => fmap (fmap (M := option) snd) (found_in e name) end
              : env_ans (GetenvCall name)) e
  | PutenvCall p =>
      match heap e !! p with
      | None => Answer (None : env_ans (PutenvCall p)) e
      | Some b =>
          match found_in e (fst (break_at equals (b_text b))) with
          | None => Answer (None : env_ans (PutenvCall p)) e
          | Some f =>
              if fails (tick e)
              then Answer (Some (-1)%Z : env_ans (PutenvCall p)) (Env (heap e) (environ e) (fresh e) (S (tick e)))
              else Answer (Some 0%Z : env_ans (PutenvCall p))
                     (Env (heap e) (place (environ e) f p) (fresh e) (S (tick e)))
          end
      end
  | FreeCall p =>
      match heap e !! p with
      | None => Answer (None : env_ans (FreeCall p)) e
      | Some _ => Answer (Some tt : env_ans (FreeCall p)) (Env (delete p (heap e)) (environ e) (fresh e) (tick e))
      end
  end.
End libc.

(** A call that is undefined behaviour ends the program. *)
Definition defined {A} (why : string) (p : prog env_sig (option A)) : prog env_sig A :=
  r <- p;; match r with Some a => Ret a | None => undef why end.

Definition malloc (size : nat) : prog env_sig (option nat) := sys (EnvMalloc size).
Definition strcpy (p : nat) (s : bytes) : prog env_sig unit := defined "strcpy" (sys (Store p s)).
Definition strcat (p : nat) (s : bytes) : prog env_sig unit :=
  b <- defined "strcat" (sys (Load p));; defined "strcat" (sys (Store p (b ++ s))).
Definition getenv (name : bytes) : prog env_sig (option bytes) := defined "getenv" (sys (GetenvCall name)).
Definition putenv (p : nat) : prog env_sig Z := defined "putenv" (sys (PutenvCall p)).
Definition free (p : nat) : prog env_sig unit := defined "free" (sys (FreeCall p)).

(** ** environ.c *)

(** The result and, when the function sets it, [errno]. *)
Definition my_setenv (name value : option bytes) (overwrite : bool) : prog env_sig (Z * option Z) :=
  match name with
  | None => Ret (-1, Some EINVAL)%Z
  | Some name =>
      match value with
      | None => undef "strlen(NULL)"
      | Some value =>
          pair_ <- malloc (length name + length value + 2);;
          match pair_ with
          | None => Ret (-1, Some ENOMEM)%Z
          | Some pair_ =>
              strcpy pair_ name ;;; strcat pair_ [equals] ;;; strcat pair_ value ;;;
              set <- (if overwrite then Ret true
                      else v <- getenv name;; Ret (match v with Some _ => true | None => false end));;
              r <- (if set : bool then
                      s <- putenv pair_;;
                      if negb (s =? 0)%Z then free pair_ ;;; Ret (Some (-1, None)%Z) else Ret None
                    else Ret None);;
              match r with
              | Some r => Ret r
              | None => free pair_ ;;; Ret (0, None)%Z
              end
          end
      end
  end.

Definition my_unsetenv (name : option bytes) : prog env_sig (Z * option Z) :=
  match name with
  | None => undef "strlen(NULL)"
  | Some name =>
      res <- malloc (length name + 2);;
      match res with
      | None => Ret (-1, Some ENOMEM)%Z
      | Some res =>
          strcpy res name ;;; strcat res [equals] ;;;
          s <- putenv res;;
          if negb (s =? 0)%Z then free res ;;; Ret (-1, None)%Z else
          free res ;;; Ret (0, None)%Z
      end
  end.

Definition MY_VARIABLE : bytes := to_bytes "MY_VARIABLE".
Definition NON_EXISTENT_VARIABLE : bytes := to_bytes "NON_EXISTENT_VARIABLE".

Definition report (what : string) (r : Z * option Z) : prog env_sig unit :=
  printf (what +:+ ": " +:+ (if (r.1 =? 0)%Z then "Success" else "Failure") +:+ nl).

Definition environ_main : prog env_sig Z :=
  r <- my_setenv (Some MY_VARIABLE) (Some (to_bytes "my_value")) true;;
  report "Setting MY_VARIABLE to my_value" r ;;;
  r <- my_setenv (Some MY_VARIABLE) (Some (to_bytes "new_value")) false;;
  report "Setting MY_VARIABLE to new_value" r ;;;
  r <- my_unsetenv (Some MY_VARIABLE);;
  report "Unsetting MY_VARIABLE" r ;;;
  r <- my_unsetenv (Some NON_EXISTENT_VARIABLE);;
  report "Unsetting NON_EXISTENT_VARIABLE" r ;;;
  env_var <- getenv MY_VARIABLE;;
  match env_var with
  | Some v => printf ("MY_VARIABLE is set to: " +:+ of_bytes v +:+ nl)
  | None => printf ("MY_VARIABLE is not set." +:+ nl)
  end ;;;
  Ret 0%Z.

(** ** Correctness *)

(** The environment is well formed: its pointers are live, and new blocks are
    at new addresses. *)
Record env_ok (e : env) : Prop := EnvOk {
  ok_live : ∀ p, p ∈ environ e → is_Some (heap e !! p);
  ok_fresh : ∀ p, is_Some (heap e !! p) → p < fresh e }.

(** The environment of [e'] is the one of [e], with the same strings. *)
Definition unchanged (e e' : env) : Prop := heap e' = heap e ∧ environ e' = environ e ∧ fresh e <= fresh e'.

(** [environ] got a pointer to a freed block as its entry for [name]: reading
    up to this entry is undefined behaviour. *)
Definition dangles (e : env) (name : bytes) (e' : env) : Prop :=
  heap e' = heap e ∧ fresh e' = S (fresh e) ∧ heap e' !! fresh e = None ∧ found_in e' name = None ∧
  ∃ f, found_in e name = Some f ∧ environ e' = place (environ e) f (fresh e).

Lemma unchanged_ok e e' : env_ok e → unchanged e e' → env_ok e'.
Proof. intros [Hl Hf] (Hh & He & Hn). split; rewrite Hh; [by rewrite He|]. intros p Hp. specialize (Hf p Hp). lia. Qed.

Lemma dangles_not_ok e name e' : dangles e name e' → ¬ env_ok e'.
Proof.
  intros (_ & _ & _ & Hn & _) [Hl _].
  assert (Hd : ∀ l i, find_entry (heap e') l name i = None → ∃ q, q ∈ l ∧ heap e' !! q = None).
  { intros l. induction l as [|q l IH]; intros i E; cbn in E; [done|].
    destruct (heap e' !! q) as [b|] eqn:Eq.
    - destruct (after_name name (b_text b)); [done|]. destruct (IH _ E) as (q' & ? & ?). exists q'. split; [by right|done].
    - exists q. split; [by left|done]. }
  destruct (Hd _ _ Hn) as (q & Hq & Eq). apply Hl in Hq. rewrite Eq in Hq. by destruct Hq.
Qed.

Lemma find_live h l name i : (∀ p, p ∈ l → is_Some (h !! p)) → ∃ f, find_entry h l name i = Some f.
Proof.
  revert i. induction l as [|p l IH]; intros i Hl; cbn; [eauto|].
  destruct (Hl p) as [b ->]; [by left|]. destruct (after_name name (b_text b)); [eauto|].
  apply IH. intros q Hq. apply Hl. by right.
Qed.

(** A freed block at the place of the entry stops the search. *)
Lemma find_place h l name i f p :
  find_entry h l name i = Some f → h !! p = None →
  find_entry h (match f with Some (j, _) => <[j - i := p]> l | None => l ++ [p] end) name i = None ∧
  (∀ j v, f = Some (j, v) → i <= j).
Proof.
  revert i. induction l as [|q l IH]; intros i E Hp; cbn in E.
  { simplify_eq. cbn. by rewrite Hp. }
  destruct (h !! q) as [b|] eqn:Eq; [|done].
  destruct (after_name name (b_text b)) as [v|] eqn:Ea; simplify_eq.
  - rewrite Nat.sub_diag. cbn. rewrite Hp. split; [done|]. intros j v' [= -> ->]. lia.
  - destruct (IH (S i) E Hp) as [IH1 IH2]. destruct f as [[j v]|].
    + specialize (IH2 j v eq_refl). replace (j - i) with (S (j - S i)) by lia. cbn. rewrite Eq, Ea.
      split; [done|]. intros ? ? [= -> ->]. lia.
    + cbn. rewrite Eq, Ea. split; [done|]. intros ? ? [=].
Qed.

(** The block just filled does not change what the search finds. *)
Lemma find_more h l name i p b :
  (∀ q, q ∈ l → q ≠ p) → find_entry (<[p := b]> h) l name i = find_entry h l name i.
Proof.
  revert i. induction l as [|q l IH]; intros i Hl; cbn; [done|].
  rewrite lookup_insert_ne by (apply not_eq_sym, Hl; by left). destruct (h !! q); [|done].
  destruct (after_name _ _); [done|]. apply IH. intros q' Hq. apply Hl. by right.
Qed.

Lemma break_at_name name rest : equals ∉ name → fst (break_at equals (name ++ equals :: rest)) = name.
Proof.
  induction name as [|c name IH]; intros Hn; cbn; [done|]. apply not_elem_of_cons in Hn as [Hc Hn].
  destruct (Ascii.eqb_spec c equals); [congruence|]. specialize (IH Hn).
  destruct (break_at equals (name ++ equals :: rest)). cbn in *. by f_equal.
Qed.

(** Is there an entry for [name]? *)
Definition named (e : env) (name : bytes) : bool :=
  match name with
  | [] => false
  | _ => match found_in e name with Some (Some _) => true | _ => false end
  end.

Lemma outs_call t c a : outs (t ++ [ECall (S := env_sig) c a]) = outs t.
Proof. rewrite outs_app. apply app_nil_r. Qed.

Section calls.
Context (fails : nat → bool).

(** What a call that is to make an entry for [name] ([set]), or not, gives. *)
Definition entry_post (set : bool) (e : env) (name : bytes) (r : Z * option Z) (e' : env) : Prop :=
  if fails (tick e) then r = (-1, Some ENOMEM)%Z ∧ unchanged e e'
  else if set then
    if fails (S (tick e)) then r = (-1, None)%Z ∧ unchanged e e' else r = (0, None)%Z ∧ dangles e name e'
  else r = (0, None)%Z ∧ unchanged e e'.

(** [e] with the fresh block [s], of [n] bytes. *)
Definition filled (e : env) (n : nat) (s : bytes) : env :=
  Env (<[fresh e := Block n s]> (heap e)) (environ e) (S (fresh e)) (S (tick e)).

Lemma wpa_malloc {A} t e n (k : option nat → prog env_sig A) Q :
  (∀ t', outs t' = outs t →
     if fails (tick e) then ∀ e', unchanged e e' → wpa (libc fails) t' (k None) e' Q
     else wpa (libc fails) t' (k (Some (fresh e))) (filled e n []) Q) →
  wpa (libc fails) t (x <- malloc n;; k x) e Q.
Proof.
  intros H. apply wpa_sys; cbn [libc]; [|by intros w'; destruct (fails (tick e))].
  intros a w' E. destruct (fails (tick e)) eqn:F; simplify_eq; apply H; by rewrite ?outs_call.
Qed.

Lemma wpa_store t e n s s' why (Q : outcome unit → env → list (event env_sig) → Prop) :
  length s' < n →
  (∀ t', outs t' = outs t → Q (Returned tt) (filled e n s') t') →
  wpa (libc fails) t (defined why (sys (Store (fresh e) s'))) (filled e n s) Q.
Proof.
  intros Hn H. apply wpa_bind, wpa_sys; cbn [libc filled heap]; rewrite lookup_insert_eq; cbn [b_size];
    rewrite decide_True by done; [|done].
  intros a w' E. simplify_eq. apply wpa_ret, wpa_ret. unfold filled in H. cbn. rewrite insert_insert_eq. apply H.
  by rewrite outs_call.
Qed.

Lemma wpa_strcpy {A} t e n s s' (k : prog env_sig A) Q :
  length s' < n →
  (∀ t', outs t' = outs t → wpa (libc fails) t' k (filled e n s') Q) →
  wpa (libc fails) t (strcpy (fresh e) s' ;;; k) (filled e n s) Q.
Proof. intros Hn H. by apply wpa_bind, wpa_store. Qed.

Lemma wpa_strcat {A} t e n s s' (k : prog env_sig A) Q :
  length (s ++ s') < n →
  (∀ t', outs t' = outs t → wpa (libc fails) t' k (filled e n (s ++ s')) Q) →
  wpa (libc fails) t (strcat (fresh e) s' ;;; k) (filled e n s) Q.
Proof.
  intros Hn H. apply wpa_bind, wpa_bind, wpa_bind, wpa_sys; cbn [libc filled heap]; rewrite ?lookup_insert_eq; [|done].
  intros a w' E. simplify_eq. apply wpa_ret, wpa_ret, wpa_store; [done|].
  intros t' Ht. apply H. by rewrite Ht, outs_call.
Qed.

Lemma wpa_getenv {A} t e n s name (k : option bytes → prog env_sig A) Q :
  env_ok e →
  (∀ t' v, outs t' = outs t → match v with Some _ => true | None => false end = named e name →
     wpa (libc fails) t' (k v) (filled e n s) Q) →
  wpa (libc fails) t (v <- getenv name;; k v) (filled e n s) Q.
Proof.
  intros Hok H. apply wpa_bind, wpa_bind, wpa_sys; [|done]. intros a w' E. cbn [libc] in E.
  assert (Hf : found_in (filled e n s) name = found_in e name).
  { apply find_more. intros q Hq ->. apply (ok_live e Hok), (ok_fresh e Hok) in Hq. lia. }
  rewrite Hf in E. destruct (find_live (heap e) (environ e) name 0 (ok_live e Hok)) as [f Ef].
  destruct name as [|c name]; [|unfold found_in in E; rewrite Ef in E]; simplify_eq; do 2 apply wpa_ret; apply H;
    try (by rewrite outs_call); [done|].
  cbn [named]. unfold found_in. rewrite Ef. by destruct f as [[??]|].
Qed.

Lemma wpa_putenv {A} t e n name rest (k : Z → prog env_sig A) Q :
  env_ok e → equals ∉ name →
  (∀ t' f, outs t' = outs t → found_in e name = Some f →
     if fails (S (tick e))
     then wpa (libc fails) t' (k (-1)%Z) (Env (heap (filled e n (name ++ equals :: rest))) (environ e) (S (fresh e)) (S (S (tick e)))) Q
     else wpa (libc fails) t' (k 0%Z)
            (Env (heap (filled e n (name ++ equals :: rest))) (place (environ e) f (fresh e)) (S (fresh e)) (S (S (tick e)))) Q) →
  wpa (libc fails) t (s <- putenv (fresh e);; k s) (filled e n (name ++ equals :: rest)) Q.
Proof.
  intros Hok Hn H. destruct (find_live (heap e) (environ e) name 0 (ok_live e Hok)) as [f Ef].
  assert (Hf : found_in (filled e n (name ++ equals :: rest)) name = Some f).
  { rewrite <- Ef. apply find_more. intros q Hq ->. apply (ok_live e Hok), (ok_fresh e Hok) in Hq. lia. }
  apply wpa_bind, wpa_bind, wpa_sys; cbn [libc]; cbn [filled heap environ tick];
    rewrite lookup_insert_eq; cbn [b_text]; rewrite break_at_name by done; rewrite Hf; [|by destruct (fails _)].
  intros a w' E. specialize (H (t ++ [ECall (PutenvCall (fresh e)) a]) f).
  rewrite outs_call in H. specialize (H eq_refl Ef).
  destruct (fails (S (tick e))); simplify_eq; by do 2 apply wpa_ret.
Qed.

(** [free] of the block: the heap is the one before the block. *)
Lemma wpa_free {A} t e n s l m (k : prog env_sig A) Q :
  env_ok e →
  (∀ t', outs t' = outs t → wpa (libc fails) t' k (Env (heap e) l (S (fresh e)) m) Q) →
  wpa (libc fails) t (free (fresh e) ;;; k) (Env (heap (filled e n s)) l (S (fresh e)) m) Q.
Proof.
  intros Hok H. apply wpa_bind, wpa_bind, wpa_sys; cbn [libc]; cbn [filled heap]; rewrite lookup_insert_eq; [|done].
  intros a w' E. simplify_eq. do 2 apply wpa_ret. cbn [environ fresh tick].
  rewrite delete_insert_eq, delete_id; [apply H; by rewrite outs_call|].
  destruct (heap e !! fresh e) eqn:Ep; [|done]. assert (fresh e < fresh e); [|lia]. by apply (ok_fresh e Hok).
Qed.

Lemma unchanged_filled e m : unchanged e (Env (heap e) (environ e) (S (fresh e)) m).
Proof. split_and!; cbn; [done..|lia]. Qed.
Hint Resolve unchanged_filled : core.

Lemma dangles_placed e name f m :
  env_ok e → found_in e name = Some f →
  dangles e name (Env (heap e) (place (environ e) f (fresh e)) (S (fresh e)) m).
Proof.
  intros Hok Ef. assert (Hp : heap e !! fresh e = None).
  { destruct (heap e !! fresh e) eqn:Ep; [|done]. assert (fresh e < fresh e); [|lia]. by apply (ok_fresh e Hok). }
  split_and!; cbn; [done..| |by eauto].
  destruct (find_place _ _ _ _ _ _ Ef Hp) as [H _]. unfold found_in. cbn.
  destruct f as [[j v]|]; [by rewrite Nat.sub_0_r in H|exact H].
Qed.

(** [putenv] of the filled block, and the two ways on which it is freed. *)
Lemma wpa_publish {A} t e n name rest (k : Z * option Z → prog env_sig A) Q :
  env_ok e → equals ∉ name → fails (tick e) = false →
  (∀ t' r e', outs t' = outs t → entry_post true e name r e' → wpa (libc fails) t' (k r) e' Q) →
  wpa (libc fails) t
    (s <- putenv (fresh e);;
     if negb (s =? 0)%Z then free (fresh e) ;;; k (-1, None)%Z else free (fresh e) ;;; k (0, None)%Z)
    (filled e n (name ++ equals :: rest)) Q.
Proof.
  intros Hok Hn F H. apply wpa_putenv; [done..|]. intros t1 f H1 Ef.
  unfold entry_post in H. rewrite F in H. destruct (fails (S (tick e))) eqn:F2; apply wpa_free; try done;
    intros t2 H2; apply H; [congruence|by auto|congruence|]. split; [done|]. by apply dangles_placed.
Qed.

Lemma my_unsetenv_ok t e name :
  env_ok e → equals ∉ name →
  wpa (libc fails) t (my_unsetenv (Some name)) e (λ r e' t',
    ∃ x, r = Returned x ∧ outs t' = outs t ∧ entry_post true e name x e').
Proof.
  intros Hok Hn. apply wpa_malloc. intros t1 H1. unfold entry_post. destruct (fails (tick e)) eqn:F.
  { intros e' He. apply wpa_ret. by eauto. }
  apply wpa_strcpy; [lia|]. intros t2 H2. apply wpa_strcat; [rewrite length_app; cbn; lia|]. intros t3 H3.
  apply (wpa_publish _ _ _ _ _ Ret); [done..|]. intros t4 r e' H4 Hp. apply wpa_ret.
  unfold entry_post in Hp. rewrite F in Hp. eexists. split_and!; [done|congruence|done].
Qed.

(** The end of [my_setenv], once it is known whether the entry is made. *)
Lemma wpa_settle t e n name rest (set : bool) Q :
  env_ok e → equals ∉ name → fails (tick e) = false →
  (∀ t' r e', outs t' = outs t → entry_post set e name r e' → Q (Returned r) e' t') →
  wpa (libc fails) t
    (r <- (if set then
             s <- putenv (fresh e);;
             if negb (s =? 0)%Z then free (fresh e) ;;; Ret (Some (-1, None)%Z) else Ret None
           else Ret None);;
     match r with
     | Some r => Ret r
     | None => free (fresh e) ;;; Ret (0, None)%Z
     end) (filled e n (name ++ equals :: rest)) Q.
Proof.
  intros Hok Hn F H. unfold entry_post in H. rewrite F in H. apply wpa_bind. destruct set.
  - apply wpa_putenv; [done..|]. intros t1 f H1 Ef. destruct (fails (S (tick e))).
    + apply wpa_free; [done|]. intros t2 H2. do 2 apply wpa_ret. apply H; [congruence|by auto].
    + apply wpa_ret, wpa_free; [done|]. intros t2 H2. apply wpa_ret.
      apply H; [congruence|]. split; [done|]. by apply dangles_placed.
  - apply wpa_ret, wpa_free; [done|]. intros t2 H2. apply wpa_ret. apply H; [done|by auto].
Qed.

Lemma my_setenv_ok t e name value overwrite :
  env_ok e → equals ∉ name →
  wpa (libc fails) t (my_setenv (Some name) (Some value) overwrite) e (λ r e' t',
    ∃ x, r = Returned x ∧ outs t' = outs t ∧ entry_post (overwrite || named e name) e name x e').
Proof.
  intros Hok Hn. apply wpa_malloc. intros t1 H1. destruct (fails (tick e)) eqn:F.
  { intros e' He. apply wpa_ret. eexists. unfold entry_post. by rewrite F. }
  apply wpa_strcpy; [lia|]. intros t2 H2. apply wpa_strcat; [rewrite length_app; cbn; lia|]. intros t3 H3.
  apply wpa_strcat; [rewrite !length_app; cbn; lia|]. intros t4 H4. rewrite <- app_assoc. cbn [app].
  apply wpa_bind. destruct overwrite.
  - apply wpa_ret, (wpa_settle _ _ _ _ _ true); [done..|]. intros t5 r e' H5 Hp. eexists. split_and!; [done|congruence|done].
  - apply wpa_getenv; [done|]. intros t5 v H5 Hv. apply wpa_ret. rewrite Hv. apply wpa_settle; [done..|].
    intros t6 r e' H6 Hp. eexists. split_and!; [done|congruence|done].
Qed.

Lemma S_not_placed e f i : env_ok e → S (fresh e) ∈ place (environ e) f i → i <= fresh e → False.
Proof.
  intros Hok H Hi. assert (Ho : S (fresh e) ∈ environ e ∨ S (fresh e) = i).
  { destruct f as [[j v]|]; cbn in H.
    - apply list_elem_of_lookup in H as [m Hm]. apply list_lookup_insert_Some in Hm as [(? & ? & ?)|[_ Hm]]; [auto|].
      left. by eapply list_elem_of_lookup_2.
    - apply elem_of_app in H as [H|H]; [by left|]. right. by apply list_elem_of_singleton in H. }
  destruct Ho as [Ho|Ho]; [|lia]. apply (ok_live e Hok), (ok_fresh e Hok) in Ho. lia.
Qed.

(** The call of [main] that follows: it reads the environment for [name]. *)
Lemma my_setenv_dangling t e name e' value :
  env_ok e → name ≠ [] → dangles e name e' → fails (tick e') = false →
  wpa (libc fails) t (my_setenv (Some name) (Some value) false) e' (λ r _ t',
    r = Halted (Undef "getenv") ∧ outs t' = outs t).
Proof.
  intros Hok Hne (Hh & Hfr & Hp & Hd & f & Ef & He) F. apply wpa_malloc. intros t1 H1. rewrite F.
  apply wpa_strcpy; [lia|]. intros t2 H2. apply wpa_strcat; [rewrite length_app; cbn; lia|]. intros t3 H3.
  apply wpa_strcat; [rewrite !length_app; cbn; lia|]. intros t4 H4.
  apply wpa_bind, wpa_bind, wpa_bind, wpa_sys; [|done]. intros a w E. cbn [libc] in E.
  assert (Hf : ∀ n s, found_in (filled e' n s) name = None).
  { intros n s. rewrite <- Hd. apply find_more. intros q Hq ->. cbn in Hq. rewrite He, Hfr in Hq.
    by apply (S_not_placed _ _ _ Hok Hq). }
  rewrite Hf in E. destruct name; [done|]. simplify_eq. apply wpa_ret, wpa_stop. split; [done|]. rewrite outs_call. congruence.
Qed.

Lemma entry_post_ok set e name r e' :
  env_ok e → entry_post set e name r e' → (env_ok e' ↔ (r.1 = 0%Z → set = false)).
Proof.
  intros Hok H. unfold entry_post in H. destruct (fails (tick e)), set; [| | destruct (fails (S (tick e)))|];
    destruct H as [-> H]; cbn; try (split; [done|by intros _; eapply unchanged_ok]).
  split; [|by intros Hn; specialize (Hn eq_refl)]. intros Hok'. by apply dangles_not_ok in H.
Qed.

Definition line (what how : string) : string := what +:+ ": " +:+ how +:+ nl.

Lemma my_variable_name : equals ∉ MY_VARIABLE.
Proof. by apply (bool_decide_unpack _). Qed.
Lemma non_existent_name : equals ∉ NON_EXISTENT_VARIABLE.
Proof. by apply (bool_decide_unpack _). Qed.

Lemma main_memory t e :
  (∀ n, fails n = false) → env_ok e →
  wpa (libc fails) t environ_main e (λ r _ t',
    r = Halted (Undef "getenv") ∧ outs t' = outs t ++ [line "Setting MY_VARIABLE to my_value" "Success"]).
Proof.
  intros F Hok. apply wpa_bind. eapply wpa_mono; [by apply my_setenv_ok, my_variable_name|].
  intros r e1 t1 (x & -> & H1 & Hp). unfold entry_post in Hp. rewrite !F in Hp. destruct Hp as [-> Hp].
  apply wpa_put, wpa_bind. eapply wpa_mono; [by eapply (my_setenv_dangling _ e)|].
  intros r e2 t2 [-> H2]. split; [done|]. by rewrite H2, outs_app, H1.
Qed.

Lemma main_no_memory t e :
  (∀ n, fails n = true) → env_ok e →
  wpa (libc fails) t environ_main e (λ r _ t', r = Returned 0%Z ∧ outs t' = outs t ++
    [line "Setting MY_VARIABLE to my_value" "Failure"; line "Setting MY_VARIABLE to new_value" "Failure";
     line "Unsetting MY_VARIABLE" "Failure"; line "Unsetting NON_EXISTENT_VARIABLE" "Failure";
     match found_in e MY_VARIABLE with
     | Some (Some (_, v)) => "MY_VARIABLE is set to: " +:+ of_bytes v +:+ nl
     | _ => "MY_VARIABLE is not set." +:+ nl
     end]).
Proof.
  intros F Hok.
  assert (U : ∀ set e name r e', entry_post set e name r e' → r = (-1, Some ENOMEM)%Z ∧ unchanged e e').
  { intros set ? name r e' Hp. unfold entry_post in Hp. by rewrite F in Hp. }
  apply wpa_bind. eapply wpa_mono; [by apply my_setenv_ok, my_variable_name|].
  intros r e1 t1 (x & -> & H1 & Hp). apply U in Hp as [-> E1]. pose proof (unchanged_ok _ _ Hok E1) as Hok1.
  apply wpa_put, wpa_bind. eapply wpa_mono; [by apply my_setenv_ok, my_variable_name|].
  intros r e2 t2 (x & -> & H2 & Hp). apply U in Hp as [-> E2]. pose proof (unchanged_ok _ _ Hok1 E2) as Hok2.
  apply wpa_put, wpa_bind. eapply wpa_mono; [by apply my_unsetenv_ok, my_variable_name|].
  intros r e3 t3 (x & -> & H3 & Hp). apply U in Hp as [-> E3]. pose proof (unchanged_ok _ _ Hok2 E3) as Hok3.
  apply wpa_put, wpa_bind. eapply wpa_mono; [by apply my_unsetenv_ok, non_existent_name|].
  intros r e4 t4 (x & -> & H4 & Hp). apply U in Hp as [-> E4]. pose proof (unchanged_ok _ _ Hok3 E4) as Hok4.
  assert (Hf : found_in e4 MY_VARIABLE = found_in e MY_VARIABLE).
  { unfold found_in. destruct E1 as (? & ? & _), E2 as (? & ? & _), E3 as (? & ? & _), E4 as (? & ? & _). by congruence. }
  destruct (find_live (heap e) (environ e) MY_VARIABLE 0 (ok_live e Hok)) as [f Ef].
  assert (Hg : libc fails (GetenvCall MY_VARIABLE) e4 = Answer (Some (snd <$> f) : env_ans (GetenvCall MY_VARIABLE)) e4).
  { transitivity (Answer (fmap (fmap (M := option) snd) (found_in e4 MY_VARIABLE) : env_ans (GetenvCall MY_VARIABLE)) e4); [done|].
    rewrite Hf. unfold found_in. by rewrite Ef. }
  unfold found_in. rewrite Ef.
  apply wpa_put, wpa_bind, wpa_bind, wpa_sys; rewrite Hg; [|done]. intros a w E. simplify_eq. do 2 apply wpa_ret.
  destruct f as [[j v]|]; apply wpa_put, wpa_ret; (split; [done|]); rewrite !outs_app, H4, !outs_app, H3, !outs_app,
    H2, !outs_app, H1, <- !app_assoc; done.
Qed.
End calls.

(** C30: from a well-formed environment (every pointer of [environ] is live)
    and for any failures of memory, [my_setenv] and [my_unsetenv] return, are
    free of undefined behaviour and write nothing past their block.  They fail,
    leaving the environment as it is, exactly when [malloc] or [putenv] does
    ([entry_post]).  The environment they leave is well formed unless they
    made an entry: then [environ] has a pointer to the block they freed, and to
    look for the name is undefined behaviour.  So [my_setenv] without
    [overwrite] does nothing for a name that has no value, breaks the
    environment for one that has, and [my_unsetenv] removes nothing.  [main]
    reaches undefined behaviour after its first line when there is memory, and
    reports four failures and the old value when there is none. *)
Theorem environ_correct (fails : nat → bool) (e : env) (name value : bytes) (overwrite : bool) :
  env_ok e → equals ∉ name →
  wp (libc fails) (my_setenv (Some name) (Some value) overwrite) e (λ r e' t, ∃ x,
    r = Returned x ∧ outs t = [] ∧ entry_post fails (overwrite || named e name) e name x e' ∧
    (env_ok e' ↔ (x.1 = 0%Z → overwrite || named e name = false))) ∧
  wp (libc fails) (my_unsetenv (Some name)) e (λ r e' t, ∃ x,
    r = Returned x ∧ outs t = [] ∧ entry_post fails true e name x e' ∧ (env_ok e' ↔ x.1 ≠ 0%Z)) ∧
  ((∀ n, fails n = false) → wp (libc fails) environ_main e (λ r _ t,
    r = Halted (Undef "getenv") ∧ outs t = [line "Setting MY_VARIABLE to my_value" "Success"])) ∧
  ((∀ n, fails n = true) → wp (libc fails) environ_main e (λ r _ t, r = Returned 0%Z ∧ outs t =
    [line "Setting MY_VARIABLE to my_value" "Failure"; line "Setting MY_VARIABLE to new_value" "Failure";
     line "Unsetting MY_VARIABLE" "Failure"; line "Unsetting NON_EXISTENT_VARIABLE" "Failure";
     match found_in e MY_VARIABLE with
     | Some (Some (_, v)) => "MY_VARIABLE is set to: " +:+ of_bytes v +:+ nl
     | _ => "MY_VARIABLE is not set." +:+ nl
     end])).
Proof.
  intros Hok Hn. split_and!.
  - apply wpa_wp. eapply wpa_mono; [by apply my_setenv_ok|]. intros r e' t (x & -> & Ht & Hp). exists x.
    split_and!; [done..|]. by eapply entry_post_ok.
  - apply wpa_wp. eapply wpa_mono; [by apply my_unsetenv_ok|]. intros r e' t (x & -> & Ht & Hp). exists x.
    split_and!; [done..|]. rewrite (entry_post_ok _ _ _ _ _ _ Hok Hp). split; [by intros H E; specialize (H E)|done].
  - intros F. apply wpa_wp. by apply main_memory.
  - intros F. apply wpa_wp. by apply main_no_memory.
Qed.

Definition home : env := Env {[0 := Block 7 (to_bytes "HOME=/")]} [0] 1 0.

Lemma environ_correct_witness :
  env_ok home ∧ (equals ∉ to_bytes "HOME") ∧ named home (to_bytes "HOME") = true ∧
  (∃ x t e', run (libc (λ _, false)) (my_setenv (Some (to_bytes "HOME")) (Some []) false) home = (Returned x, e', t) ∧
     x = (0, None)%Z ∧ ¬ env_ok e') ∧
  (∃ e' t, run (libc (λ _, false)) environ_main home = (Halted (Undef "getenv"), e', t)) ∧
  (∃ e' t, run (libc (λ _, true)) environ_main home = (Returned 0%Z, e', t)).
Proof.
  assert (Hok : env_ok home).
  { split; cbn; intros p Hp; [apply list_elem_of_singleton in Hp as ->; by eexists|].
    destruct (decide (p = 0)) as [->|Hne]; [lia|]. destruct Hp as [b Hb]. by rewrite lookup_singleton_ne in Hb. }
  assert (Hn : equals ∉ to_bytes "HOME") by by apply (bool_decide_unpack _).
  assert (Hh : named home (to_bytes "HOME") = true) by by vm_compute.
  destruct (environ_correct (λ _, false) home (to_bytes "HOME") [] false Hok Hn) as (H1 & _ & H3 & _).
  destruct (environ_correct (λ _, true) home (to_bytes "HOME") [] false Hok Hn) as (_ & _ & _ & H4).
  split_and!; [done..| | |].
  - unfold wp in H1. destruct (run _ _ home) as [[r e'] t] eqn:E. destruct H1 as (x & -> & _ & Hp & Hi).
    exists x, t, e'. unfold entry_post in Hp. rewrite Hh in Hp, Hi. cbn in Hp. destruct Hp as [-> _].
    split_and!; [done..|]. rewrite Hi. by intros H; specialize (H eq_refl).
  - specialize (H3 (λ _, eq_refl)). unfold wp in H3. destruct (run _ environ_main home) as [[r e'] t].
    destruct H3 as [-> _]. by eauto.
  - specialize (H4 (λ _, eq_refl)). unfold wp in H4. destruct (run _ environ_main home) as [[r e'] t].
    destruct H4 as [-> _]. by eauto.
Defined.
