(* ===== verification/DList.v ===== *)
(** * Doubly linked lists in a heap

    A heap of links: what the two pointers of each node are, [prev] first.
    [dl m l] says that the nodes [l], in this order, are a doubly linked list
    that ends in null pointers on both sides.  The lemmas give the list after
    the pointer updates of an append, a push at the front and a removal. *)
From Stdlib Require Import Lia.
From stdpp Require Import base gmap list fin_maps.

Abbreviation link := (option nat * option nat)%type.
Abbreviation links := (gmap nat link).

(** The first node of [l], or what follows it; the last one, or what precedes. *)
Definition first (l : list nat) (post : option nat) : option nat :=
  match l with [] => post | p :: _ => Some p end.
Definition final (l : list nat) (pre : option nat) : option nat :=
  match last l with Some p => Some p | None => pre end.

Fixpoint seg (m : links) (pre : option nat) (l : list nat) (post : option nat) : Prop :=
  match l with
  | [] => True
  | p :: l' => m !! p = Some (pre, first l' post) ∧ seg m (Some p) l' post
  end.

Definition dl (m : links) (l : list nat) : Prop := seg m None l None ∧ NoDup l.

(** The updates: the [next] or the [prev] pointer of a node, if there is one. *)
Definition with_next (o v : option nat) (m : links) : links :=
  match o with Some q => alter (λ x, (x.1, v)) q m | None => m end.
Definition with_prev (o v : option nat) (m : links) : links :=
  match o with Some q => alter (λ x, (v, x.2)) q m | None => m end.

Lemma first_app l1 l2 post : first (l1 ++ l2) post = first l1 (first l2 post).
Proof. by destruct l1. Qed.
Lemma final_cons p l pre : final (p :: l) pre = final l (Some p).
Proof. unfold final. rewrite last_cons. by destruct (last l). Qed.
Lemma final_app l1 l2 pre : final (l1 ++ l2) pre = final l2 (final l1 pre).
Proof. unfold final. rewrite last_app. by destruct (last l2). Qed.
Lemma first_None l : first l None = hd_error l.
Proof. by destruct l. Qed.
Lemma final_None l : final l None = last l.
Proof. unfold final. by destruct (last l). Qed.

Lemma seg_app m pre l1 l2 post :
  seg m pre (l1 ++ l2) post ↔ seg m pre l1 (first l2 post) ∧ seg m (final l1 pre) l2 post.
Proof.
  revert pre. induction l1 as [|p l1 IH]; intros pre; cbn; [tauto|].
  rewrite IH, first_app, final_cons. tauto.
Qed.

Lemma seg_frame m m' pre l post : (∀ p, p ∈ l → m' !! p = m !! p) → seg m pre l post → seg m' pre l post.
Proof.
  revert pre. induction l as [|p l IH]; intros pre Hm; cbn; [done|]. intros [H1 H2]. split.
  - by rewrite Hm by left.
  - apply IH; [|done]. intros q Hq. apply Hm. by right.
Qed.

Lemma seg_live m pre l post p : seg m pre l post → p ∈ l → is_Some (m !! p).
Proof.
  revert pre. induction l as [|q l IH]; intros pre; cbn; [by intros _ ?%not_elem_of_nil|].
  intros [H1 H2] [->|Hp]%elem_of_cons; [by rewrite H1|by eapply IH].
Qed.

Lemma with_next_other o v m p : o ≠ Some p → with_next o v m !! p = m !! p.
Proof. intros H. destruct o as [q|]; cbn; [|done]. apply lookup_alter_ne. congruence. Qed.
Lemma with_prev_other o v m p : o ≠ Some p → with_prev o v m !! p = m !! p.
Proof. intros H. destruct o as [q|]; cbn; [|done]. apply lookup_alter_ne. congruence. Qed.

(** The pointer out of a segment, at each of its ends. *)
Lemma seg_set_next m pre l post v :
  NoDup l → seg m pre l post → seg (with_next (final l None) v m) pre l v.
Proof.
  destruct l as [|x l' _] using rev_ind; [done|]. intros Hnd [H1 [H2 _]]%seg_app.
  rewrite final_app. cbn. apply NoDup_app in Hnd as (_ & Hx & _). apply seg_app. split.
  - eapply seg_frame; [|exact H1]. intros p Hp. apply lookup_alter_ne. intros ->.
    by apply (Hx p Hp), list_elem_of_singleton.
  - cbn. by rewrite lookup_alter_eq, H2.
Qed.

Lemma seg_set_prev m pre l post v :
  NoDup l → seg m pre l post → seg (with_prev (first l None) v m) v l post.
Proof.
  destruct l as [|x l]; [done|]. intros [Hx Hnd]%NoDup_cons [H1 H2]. cbn. split.
  - by rewrite lookup_alter_eq, H1.
  - eapply seg_frame; [|exact H2]. intros p Hp. apply lookup_alter_ne. congruence.
Qed.

Lemma final_elem l p : final l None = Some p → p ∈ l.
Proof. rewrite final_None. intros H. apply last_Some in H as [l' ->]. apply elem_of_app. right. by left. Qed.
Lemma first_elem l p : first l None = Some p → p ∈ l.
Proof. destruct l; cbn; [done|]. intros [= ->]. by left. Qed.

Lemma dl_nil m : dl m [].
Proof. split; [done|constructor]. Qed.

Lemma dl_live m l p : dl m l → p ∈ l → is_Some (m !! p).
Proof. intros [H _]. by apply seg_live with (1 := H). Qed.

Lemma dl_frame m m' l : (∀ p, p ∈ l → m' !! p = m !! p) → dl m l → dl m' l.
Proof. intros Hm [H1 H2]. split; [by eapply seg_frame|done]. Qed.

(** Append of [p]: its pointers, then the [next] of the last node. *)
Lemma dl_append m l p x :
  dl m l → p ∉ l → m !! p = Some x →
  dl (with_next (final l None) (Some p) (with_prev (Some p) (final l None) (with_next (Some p) None m))) (l ++ [p]).
Proof.
  intros [H Hnd] Hp Hx. split; [|apply NoDup_app; split_and!; [done| |apply NoDup_singleton]].
  - set (m1 := with_prev _ _ _). assert (Hm1 : ∀ q, q ≠ p → m1 !! q = m !! q).
    { intros q Hq. subst m1. by rewrite with_prev_other, with_next_other by congruence. }
    apply seg_app. cbn. split.
    + eapply seg_set_next; [done|]. eapply seg_frame; [|exact H]. intros q Hq. apply Hm1. by intros ->.
    + rewrite with_next_other by (by intros ?%final_elem). subst m1. cbn.
      by rewrite lookup_alter_eq, lookup_alter_eq, Hx.
  - intros q Hq ->%list_elem_of_singleton. done.
Qed.

(** Push of [p] at the front: its pointers, then the [prev] of the first node. *)
Lemma dl_push m l p x :
  dl m l → p ∉ l → m !! p = Some x →
  dl (with_prev (first l None) (Some p) (with_next (Some p) (first l None) (with_prev (Some p) None m))) (p :: l).
Proof.
  intros [H Hnd] Hp Hx. split; [|by apply NoDup_cons]. set (m1 := with_next _ _ _).
  assert (Hm1 : ∀ q, q ≠ p → m1 !! q = m !! q).
  { intros q Hq. subst m1. by rewrite with_next_other, with_prev_other by congruence. }
  cbn. split.
  - rewrite with_prev_other by (by intros ?%first_elem). subst m1. cbn.
    by rewrite lookup_alter_eq, lookup_alter_eq, Hx.
  - eapply seg_set_prev; [done|]. eapply seg_frame; [|exact H]. intros q Hq. apply Hm1. by intros ->.
Qed.

(** Removal of [p]: its neighbours are linked to each other. *)
Lemma dl_delete m l1 p l2 :
  dl m (l1 ++ p :: l2) →
  dl (with_prev (first l2 None) (final l1 None) (with_next (final l1 None) (first l2 None) m)) (l1 ++ l2).
Proof.
  intros [H Hnd]. apply seg_app in H as [H1 [_ H2]].
  apply NoDup_app in Hnd as (Hn1 & Hd & [Hp Hn2]%NoDup_cons).
  assert (Hdis : ∀ q, q ∈ l1 → q ∈ l2 → False).
  { intros q Hq1 Hq2. apply (Hd q Hq1). by right. }
  split; [|apply NoDup_app; split_and!; [done| |done]; intros q Hq1 Hq2; by eapply Hdis].
  apply seg_app. split.
  - eapply seg_frame; [|by eapply seg_set_next]. intros q Hq.
    apply with_prev_other. intros ?%first_elem. by eapply Hdis.
  - eapply seg_set_prev; [done|]. eapply seg_frame; [|exact H2]. intros q Hq.
    apply with_next_other. intros ?%final_elem. by eapply Hdis.
Qed.

(** The pointers of a node of the list. *)
Lemma dl_at m l1 p l2 : dl m (l1 ++ p :: l2) → m !! p = Some (final l1 None, first l2 None).
Proof. intros [[_ [H _]]%seg_app _]. done. Qed.
