(* ===== verification/Uthash.v ===== *)
(** * The hash table of uthash.h (CH59/Exercise_59-4): data and operations

    The key-value server keeps its table with the macros of uthash.h.  This
    file translates the macros it uses, and what they call.  An element is a
    structure of the user's with a hash handle in it; its address is a number,
    and it stands for the address of its handle as well ([ELMT_FROM_HH] and
    [HH_FROM_ELMT] add a constant).  Elements are in two doubly linked lists:
    the list of the application ([prev], [next]), in order of insertion, and
    the chain of their bucket ([hh_prev], [hh_next]).  There is one table at a
    time: every [hh.tbl] points to it. *)
From Stdlib Require Import ZArith Lia Ascii String.
From stdpp Require Import base gmap strings list.
From S2P Require Import Prelude Prog CString.

Declare Scope uthash_scope.
Delimit Scope uthash_scope with ut.

(** ** Data *)

Abbreviation ptr := (option nat).

Record UT_hash_handle := Handle {
  prev : ptr; next : ptr; hh_prev : ptr; hh_next : ptr;
  key : bytes; keylen : Z; hashv : Z }.

Record UT_hash_bucket := Bucket { hh_head : ptr; count : Z; expand_mult : Z }.

Record UT_hash_table := Table {
  buckets : list UT_hash_bucket;
  num_buckets : Z; log2_num_buckets : Z; num_items : Z;
  tail : ptr;
  ideal_chain_maxlen : Z; nonideal_items : Z; ineff_expands : Z; noexpand : Z }.

Definition HASH_INITIAL_NUM_BUCKETS : Z := 32.
Definition HASH_INITIAL_NUM_BUCKETS_LOG2 : Z := 5.
Definition HASH_BKT_CAPACITY_THRESH : Z := 10.
Definition SIZEOF_TABLE : Z := 64.
Definition SIZEOF_BUCKET : Z := 16.

Section operations.
(** The user's data of an element, and which blocks [malloc] refuses (by the
    number of the call and the size). *)
Context {V : Type} (refuses : nat → Z → bool).

Record element := Element { el_data : V; hh : UT_hash_handle }.

(** The elements, the table [hh.tbl] points to, the head of the list (the
    user's variable), and how many blocks were asked for. *)
Record store := Store { mem : gmap nat element; tbl : option UT_hash_table; head : ptr; asked : nat }.

(** [Fatal]: [exit(-1)], out of memory.  [Bad]: a pointer that is null, or to
    no element, or an index out of the buckets; or the fuel is used up. *)
Inductive result (A : Type) := Ok (a : A) (s : store) | Fatal | Bad.
Arguments Ok {A} a s.
Arguments Fatal {A}.
Arguments Bad {A}.

Definition M (A : Type) : Type := store → result A.
Definition pure {A} (a : A) : M A := λ s, Ok a s.
Definition bad {A} : M A := λ _, Bad.
Definition bindM {A B} (f : A → M B) (p : M A) : M B := λ s,
  match p s with Ok a s' => f a s' | Fatal => Fatal | Bad => Bad end.

Notation "x <- p ;; q" := (bindM (λ x, q) p)
  (at level 20, p at level 99, q at level 200, only parsing) : uthash_scope.
Notation "p ;;; q" := (bindM (λ _, q) p)
  (at level 100, q at level 200, right associativity, only parsing) : uthash_scope.
Local Open Scope uthash_scope.

(** Reading and writing memory. *)
Definition get_head : M ptr := λ s, Ok (head s) s.
Definition set_head (p : ptr) : M unit := λ s, Ok tt (Store (mem s) (tbl s) p (asked s)).
Definition get_hh (p : nat) : M UT_hash_handle := λ s,
  match mem s !! p with Some e => Ok (hh e) s | None => Bad end.
Definition set_hh (p : nat) (f : UT_hash_handle → UT_hash_handle) : M unit := λ s,
  match mem s !! p with
  | Some e => Ok tt (Store (<[p := Element (el_data e) (f (hh e))]> (mem s)) (tbl s) (head s) (asked s))
  | None => Bad
  end.
Definition get_tbl : M UT_hash_table := λ s, match tbl s with Some t => Ok t s | None => Bad end.
Definition set_tbl (f : UT_hash_table → UT_hash_table) : M unit := λ s,
  match tbl s with Some t => Ok tt (Store (mem s) (Some (f t)) (head s) (asked s)) | None => Bad end.
Definition free_tbl : M unit := λ s, Ok tt (Store (mem s) None (head s) (asked s)).
Definition get_bucket (l : list UT_hash_bucket) (i : Z) : M UT_hash_bucket := λ s,
  match l !! Z.to_nat i with Some b => Ok b s | None => Bad end.
(** A block, or [HASH_RECORD_OOM]: the process ends. *)
Definition uthash_malloc (size : Z) : M unit := λ s,
  if refuses (asked s) size then Fatal else Ok tt (Store (mem s) (tbl s) (head s) (S (asked s))).

Definition set_prev (v : ptr) (h : UT_hash_handle) : UT_hash_handle :=
  Handle v (next h) (hh_prev h) (hh_next h) (key h) (keylen h) (hashv h).
Definition set_next (v : ptr) (h : UT_hash_handle) : UT_hash_handle :=
  Handle (prev h) v (hh_prev h) (hh_next h) (key h) (keylen h) (hashv h).
Definition set_hh_prev (v : ptr) (h : UT_hash_handle) : UT_hash_handle :=
  Handle (prev h) (next h) v (hh_next h) (key h) (keylen h) (hashv h).
Definition set_hh_next (v : ptr) (h : UT_hash_handle) : UT_hash_handle :=
  Handle (prev h) (next h) (hh_prev h) v (key h) (keylen h) (hashv h).
Definition set_buckets (l : list UT_hash_bucket) (t : UT_hash_table) : UT_hash_table :=
  Table l (num_buckets t) (log2_num_buckets t) (num_items t) (tail t)
    (ideal_chain_maxlen t) (nonideal_items t) (ineff_expands t) (noexpand t).
Definition set_num_items (n : Z) (t : UT_hash_table) : UT_hash_table :=
  Table (buckets t) (num_buckets t) (log2_num_buckets t) n (tail t)
    (ideal_chain_maxlen t) (nonideal_items t) (ineff_expands t) (noexpand t).
Definition set_tail (p : ptr) (t : UT_hash_table) : UT_hash_table :=
  Table (buckets t) (num_buckets t) (log2_num_buckets t) (num_items t) p
    (ideal_chain_maxlen t) (nonideal_items t) (ineff_expands t) (noexpand t).
Definition set_ideal (ideal nonideal : Z) (t : UT_hash_table) : UT_hash_table :=
  Table (buckets t) (num_buckets t) (log2_num_buckets t) (num_items t) (tail t)
    ideal nonideal (ineff_expands t) (noexpand t).

(** ** The hash function [HASH_JEN], on unsigned integers of 32 bits *)

Definition JEN_MIX (abc : Z * Z * Z) : Z * Z * Z :=
  let sub a b := to_uint (a - b) in
  let xr a n := Z.lxor a (Z.shiftr n.1 n.2) in
  let xl a n := Z.lxor a (to_uint (Z.shiftl n.1 n.2)) in
  let '(a, b, c) := abc in
  let a := xr (sub (sub a b) c) (c, 13)%Z in
  let b := xl (sub (sub b c) a) (a, 8)%Z in
  let c := xr (sub (sub c a) b) (b, 13)%Z in
  let a := xr (sub (sub a b) c) (c, 12)%Z in
  let b := xl (sub (sub b c) a) (a, 16)%Z in
  let c := xr (sub (sub c a) b) (b, 5)%Z in
  let a := xr (sub (sub a b) c) (c, 3)%Z in
  let b := xl (sub (sub b c) a) (a, 10)%Z in
  let c := xr (sub (sub c a) b) (b, 15)%Z in
  (a, b, c).

(** The bytes of [l], at most four, as an unsigned integer, the first lowest. *)
Definition word (l : bytes) : Z := foldr (λ c w, code c + Z.shiftl w 8)%Z 0%Z l.

(** The loop on blocks of twelve bytes, and the bytes that remain. *)
Fixpoint jen_blocks (key : bytes) (i j hashv : Z) : (Z * Z * Z) * bytes :=
  match key with
  | k0 :: k1 :: k2 :: k3 :: k4 :: k5 :: k6 :: k7 :: k8 :: k9 :: k10 :: k11 :: rest =>
      let '(i, j, hashv) :=
        JEN_MIX (to_uint (i + word [k0; k1; k2; k3]), to_uint (j + word [k4; k5; k6; k7]),
                 to_uint (hashv + word [k8; k9; k10; k11])) in
      jen_blocks rest i j hashv
  | _ => ((i, j, hashv), key)
  end.

(** The cases of the [switch] add each remaining byte at its place. *)
Definition HASH_JEN (key : bytes) : Z :=
  let '((i, j, hashv), rest) := jen_blocks key 2654435769 2654435769 4276993775 in
  let hashv := to_uint (hashv + to_uint (Z.of_nat (length key))) in
  let hashv := to_uint (hashv + Z.shiftl (word (drop 8 rest)) 8) in
  let j := to_uint (j + word (take 4 (drop 4 rest))) in
  let i := to_uint (i + word (take 4 rest)) in
  (JEN_MIX (i, j, hashv)).2.

Definition HASH_TO_BKT (hashv num_bkts : Z) : Z := Z.land hashv (to_uint (num_bkts - 1)).

(** [memcmp(a, b, n) == 0] *)
Definition memeq (a b : bytes) (n : Z) : bool := bool_decide (take (Z.to_nat n) a = take (Z.to_nat n) b).

(** ** Finding *)

(** Walks along a list of elements are bounded by their number. *)
Definition walk_fuel : M nat := λ s, Ok (S (size (mem s))) s.

Fixpoint find_from (fuel : nat) (out : ptr) (keyptr : bytes) (keylen_in hashval : Z) : M ptr :=
  match out with
  | None => pure None
  | Some p =>
      match fuel with
      | O => bad
      | S fuel =>
          h <- get_hh p;;
          if (hashv h =? hashval)%Z && (keylen h =? keylen_in)%Z && memeq (key h) keyptr keylen_in
          then pure out
          else find_from fuel (hh_next h) keyptr keylen_in hashval
      end
  end.

Definition HASH_FIND_IN_BKT (b : UT_hash_bucket) (keyptr : bytes) (keylen_in hashval : Z) : M ptr :=
  n <- walk_fuel;; find_from n (hh_head b) keyptr keylen_in hashval.

Definition HASH_FIND_BYHASHVALUE (keyptr : bytes) (keylen hashval : Z) : M ptr :=
  hd <- get_head;;
  match hd with
  | None => pure None
  | Some _ =>
      t <- get_tbl;;
      b <- get_bucket (buckets t) (HASH_TO_BKT hashval (num_buckets t));;
      HASH_FIND_IN_BKT b keyptr keylen hashval
  end.

Definition HASH_FIND (keyptr : bytes) (keylen : Z) : M ptr :=
  hd <- get_head;;
  match hd with
  | None => pure None
  | Some _ => HASH_FIND_BYHASHVALUE keyptr keylen (HASH_JEN (take (Z.to_nat keylen) keyptr))
  end.

Definition HASH_FIND_STR (findstr : bytes) : M ptr := HASH_FIND findstr (to_uint (Z.of_nat (length findstr))).

(** ** Adding *)

Definition HASH_MAKE_TABLE (add : nat) : M unit :=
  uthash_malloc SIZEOF_TABLE ;;;
  uthash_malloc (HASH_INITIAL_NUM_BUCKETS * SIZEOF_BUCKET) ;;;
  (λ s, Ok tt (Store (mem s)
    (Some (Table (replicate (Z.to_nat HASH_INITIAL_NUM_BUCKETS) (Bucket None 0 0))
             HASH_INITIAL_NUM_BUCKETS HASH_INITIAL_NUM_BUCKETS_LOG2 0 (Some add) 0 0 0 0)) (head s) (asked s))).

(** A pointer that is dereferenced. *)
Definition deref (p : ptr) : M nat := match p with Some p => pure p | None => bad end.

Definition HASH_APPEND_LIST (add : nat) : M unit :=
  set_hh add (set_next None) ;;;
  t <- get_tbl;;
  set_hh add (set_prev (tail t)) ;;;
  q <- deref (tail t);;
  set_hh q (set_next (Some add)) ;;;
  set_tbl (set_tail (Some add)).

(** The element [p] goes to the front of the chain whose head is [hd]. *)
Definition push_front (p : nat) (hd : ptr) : M unit :=
  set_hh p (set_hh_prev None) ;;;
  set_hh p (set_hh_next hd) ;;;
  match hd with
  | Some q => set_hh q (set_hh_prev (Some p))
  | None => pure tt
  end.

(** The body of the inner loop, for the element [thh] of an old chain. *)
Definition expand_one (thh : nat) (h : UT_hash_handle) (new : list UT_hash_bucket) : M (list UT_hash_bucket) :=
  t <- get_tbl;;
  let bkt := HASH_TO_BKT (hashv h) (to_uint (num_buckets t * 2)) in
  b <- get_bucket new bkt;;
  let cnt := to_uint (count b + 1) in
  mult <- (if (ideal_chain_maxlen t <? cnt)%Z then
             set_tbl (set_ideal (ideal_chain_maxlen t) (to_uint (nonideal_items t + 1))) ;;;
             pure (if (to_uint (expand_mult b * ideal_chain_maxlen t) <? cnt)%Z
                   then to_uint (expand_mult b + 1) else expand_mult b)
           else pure (expand_mult b));;
  push_front thh (hh_head b) ;;;
  pure (<[Z.to_nat bkt := Bucket (Some thh) cnt mult]> new).

Fixpoint expand_chain (fuel : nat) (thh : ptr) (new : list UT_hash_bucket) : M (list UT_hash_bucket) :=
  match thh with
  | None => pure new
  | Some p =>
      match fuel with
      | O => bad
      | S fuel =>
          h <- get_hh p;;
          let nxt := hh_next h in
          new <- expand_one p h new;;
          expand_chain fuel nxt new
      end
  end.

(** The loop over the old buckets [old]. *)
Fixpoint expand_loop (old new : list UT_hash_bucket) : M (list UT_hash_bucket) :=
  match old with
  | [] => pure new
  | b :: old' => n <- walk_fuel;; new <- expand_chain n (hh_head b) new;; expand_loop old' new
  end.

Definition HASH_EXPAND_BUCKETS : M unit :=
  t <- get_tbl;;
  uthash_malloc (SIZEOF_BUCKET * num_buckets t * 2) ;;;
  let ideal := to_uint (Z.shiftr (num_items t) (log2_num_buckets t + 1) +
    (if (Z.land (num_items t) (to_uint (to_uint (num_buckets t * 2) - 1)) =? 0)%Z then 0 else 1)) in
  set_tbl (set_ideal ideal 0) ;;;
  new <- expand_loop (buckets t) (replicate (Z.to_nat (num_buckets t * 2)) (Bucket None 0 0));;
  set_tbl (λ t,
    let ineff := if (Z.shiftr (num_items t) 1 <? nonideal_items t)%Z then to_uint (ineff_expands t + 1) else 0%Z in
    Table new (to_uint (num_buckets t * 2)) (to_uint (log2_num_buckets t + 1)) (num_items t) (tail t)
      (ideal_chain_maxlen t) (nonideal_items t) ineff (if (1 <? ineff)%Z then 1 else noexpand t)).

Definition HASH_ADD_TO_BKT (bkt : Z) (addhh : nat) : M unit :=
  t <- get_tbl;;
  b <- get_bucket (buckets t) bkt;;
  let cnt := to_uint (count b + 1) in
  push_front addhh (hh_head b) ;;;
  set_tbl (set_buckets (<[Z.to_nat bkt := Bucket (Some addhh) cnt (expand_mult b)]> (buckets t))) ;;;
  if (to_uint (to_uint (expand_mult b + 1) * HASH_BKT_CAPACITY_THRESH) <=? cnt)%Z && (noexpand t =? 0)%Z
  then HASH_EXPAND_BUCKETS else pure tt.

Definition HASH_ADD_TO_TABLE (hashval : Z) (add : nat) : M unit :=
  set_tbl (λ t, set_num_items (to_uint (num_items t + 1)) t) ;;;
  t <- get_tbl;;
  HASH_ADD_TO_BKT (HASH_TO_BKT hashval (num_buckets t)) add.

Definition HASH_ADD_KEYPTR_BYHASHVALUE (keyptr : bytes) (keylen_in hashval : Z) (add : nat) : M unit :=
  set_hh add (λ h, Handle (prev h) (next h) (hh_prev h) (hh_next h) keyptr (to_uint keylen_in) hashval) ;;;
  hd <- get_head;;
  (match hd with
   | None =>
       set_hh add (set_next None) ;;; set_hh add (set_prev None) ;;;
       HASH_MAKE_TABLE add ;;; set_head (Some add)
   | Some _ => HASH_APPEND_LIST add
   end) ;;;
  HASH_ADD_TO_TABLE hashval add.

Definition HASH_ADD_KEYPTR (keyptr : bytes) (keylen_in : Z) (add : nat) : M unit :=
  HASH_ADD_KEYPTR_BYHASHVALUE keyptr keylen_in (HASH_JEN (take (Z.to_nat keylen_in) keyptr)) add.

(** [str] is the string in the field of [add]. *)
Definition HASH_ADD_STR (str : bytes) (add : nat) : M unit :=
  HASH_ADD_KEYPTR str (to_uint (Z.of_nat (length str))) add.

(** ** Deleting *)

Definition HASH_DEL_IN_BKT (bkt : Z) (delhh : nat) : M unit :=
  t <- get_tbl;;
  b <- get_bucket (buckets t) bkt;;
  h <- get_hh delhh;;
  set_tbl (set_buckets (<[Z.to_nat bkt :=
    Bucket (if bool_decide (hh_head b = Some delhh) then hh_next h else hh_head b)
      (to_uint (count b - 1)) (expand_mult b)]> (buckets t))) ;;;
  (match hh_prev h with Some q => set_hh q (set_hh_next (hh_next h)) | None => pure tt end) ;;;
  match hh_next h with Some q => set_hh q (set_hh_prev (hh_prev h)) | None => pure tt end.

Definition HASH_DELETE_HH (delptrhh : nat) : M unit :=
  h <- get_hh delptrhh;;
  match prev h, next h with
  | None, None => get_tbl ;;; free_tbl ;;; set_head None
  | _, _ =>
      t <- get_tbl;;
      (if bool_decide (Some delptrhh = tail t) then set_tbl (set_tail (prev h)) else pure tt) ;;;
      (match prev h with
       | Some q => set_hh q (set_next (next h))
       | None => set_head (next h)
       end) ;;;
      (match next h with Some q => set_hh q (set_prev (prev h)) | None => pure tt end) ;;;
      t <- get_tbl;;
      HASH_DEL_IN_BKT (HASH_TO_BKT (hashv h) (num_buckets t)) delptrhh ;;;
      set_tbl (λ t, set_num_items (to_uint (num_items t - 1)) t)
  end.

Definition HASH_DEL (delptr : nat) : M unit := HASH_DELETE_HH delptr.

(** [HASH_ITER]: [tmp] is read before [body] runs, which may delete [el]. *)
Fixpoint iter_from (fuel : nat) (el : ptr) (body : nat → M unit) : M unit :=
  match el with
  | None => pure tt
  | Some p =>
      match fuel with
      | O => bad
      | S fuel => h <- get_hh p;; body p ;;; iter_from fuel (next h) body
      end
  end.

Definition HASH_ITER (body : nat → M unit) : M unit :=
  n <- walk_fuel;; hd <- get_head;; iter_from n hd body.

Definition HASH_CNT : M Z :=
  hd <- get_head;;
  match hd with None => pure 0%Z | Some _ => t <- get_tbl;; pure (num_items t) end.

Definition HASH_CLEAR : M unit :=
  hd <- get_head;;
  match hd with None => pure tt | Some _ => get_tbl ;;; free_tbl ;;; set_head None end.

(** ** What the server does with an element *)

(** [malloc] of an element, its fields and its key, then [HASH_ADD_STR]; the
    handle of a new block holds anything ([junk]). *)
Definition new_element (p : nat) (data : V) (junk : UT_hash_handle) : M unit := λ s,
  match mem s !! p with
  | Some _ => Bad
  | None => Ok tt (Store (<[p := Element data junk]> (mem s)) (tbl s) (head s) (asked s))
  end.
Definition insert_str (str : bytes) (data : V) (p : nat) (junk : UT_hash_handle) : M unit :=
  new_element p data junk ;;; HASH_ADD_STR str p.

(** [HASH_DEL], then [free]. *)
Definition free_element (p : nat) : M unit := λ s,
  match mem s !! p with
  | Some _ => Ok tt (Store (delete p (mem s)) (tbl s) (head s) (asked s))
  | None => Bad
  end.
Definition remove (p : nat) : M unit := HASH_DEL p ;;; free_element p.

Definition cleanup : M unit := HASH_ITER remove.

(** Reading and writing the data through the pointer that was found. *)
Definition get_data (p : nat) : M V := λ s, match mem s !! p with Some e => Ok (el_data e) s | None => Bad end.
Definition set_data (p : nat) (d : V) : M unit := λ s,
  match mem s !! p with
  | Some e => Ok tt (Store (<[p := Element d (hh e)]> (mem s)) (tbl s) (head s) (asked s))
  | None => Bad
  end.

(** ** The integrity check of a debug build

    [HASH_FSCK]: [true] when it reports nothing.  A chain, then the list of the
    application, is followed and its back pointers and length are compared. *)

Fixpoint fsck_chain (fuel : nat) (thh prv : ptr) (bkt_count : Z) : M (option Z) :=
  match thh with
  | None => pure (Some bkt_count)
  | Some p =>
      match fuel with
      | O => bad
      | S fuel =>
          h <- get_hh p;;
          if bool_decide (prv = hh_prev h)
          then fsck_chain fuel (hh_next h) (Some p) (to_uint (bkt_count + 1)) else pure None
      end
  end.

Fixpoint fsck_buckets (l : list UT_hash_bucket) (cnt : Z) : M (option Z) :=
  match l with
  | [] => pure (Some cnt)
  | b :: l' =>
      n <- walk_fuel;;
      c <- fsck_chain n (hh_head b) None 0;;
      match c with
      | Some c => if (count b =? c)%Z then fsck_buckets l' (to_uint (cnt + c)) else pure None
      | None => pure None
      end
  end.

Fixpoint fsck_list (fuel : nat) (thh prv : ptr) (cnt : Z) : M (option Z) :=
  match thh with
  | None => pure (Some cnt)
  | Some p =>
      match fuel with
      | O => bad
      | S fuel =>
          h <- get_hh p;;
          if bool_decide (prv = prev h)
          then fsck_list fuel (next h) (Some p) (to_uint (cnt + 1)) else pure None
      end
  end.

Definition HASH_FSCK : M bool :=
  hd <- get_head;;
  match hd with
  | None => pure true
  | Some _ =>
      t <- get_tbl;;
      c <- fsck_buckets (take (Z.to_nat (num_buckets t)) (buckets t)) 0;;
      match c with
      | Some c => if (c =? num_items t)%Z then
          n <- walk_fuel;;
          c <- fsck_list n hd None 0;;
          pure (match c with Some c => c =? num_items t | None => false end)%Z
          else pure false
      | None => pure false
      end
  end.

End operations.

Notation "x <- p ;; q" := (bindM (λ x, q) p)
  (at level 20, p at level 99, q at level 200, only parsing) : uthash_scope.
Notation "p ;;; q" := (bindM (λ _, q) p)
  (at level 100, q at level 200, right associativity, only parsing) : uthash_scope.
