(* ===== verification/UthashInv.v ===== *)
(** * The hash table of uthash.h: its invariant and what its operations do

    The heap of elements is seen through three views: the links of the
    application's list ([app_view]), those of the chains ([bkt_view]), and what
    the operations leave as it is ([infos]).  [wf] is the invariant; [repr]
    relates a table to the sequence of its entries, in order of insertion. *)
From Stdlib Require Import ZArith Lia Ascii String.
From stdpp Require Import base gmap strings list fin_maps.
From S2P Require Import Prelude Prog CString DList Uthash.

Section proofs.
Context {V : Type} (refuses : nat → Z → bool).
Abbreviation store := (@store V).
Abbreviation element := (@element V).
Abbreviation M := (@M V).

(** ** The logic of the operations *)

(** [F] is what a refusal of memory is a proof of. *)
Context (F : Prop) (HF : ∀ n z, (z < 2 ^ 36)%Z → refuses n z = true → F).

(** Total correctness, but for memory. *)
Definition wpm {A} (p : M A) (s : store) (Q : A → store → Prop) : Prop :=
  match p s with Ok _ a s' => Q a s' | Fatal _ => F | Bad _ => False end.

Lemma wpm_pure {A} (a : A) s (Q : A → store → Prop) : Q a s → wpm (pure a) s Q.
Proof. done. Qed.
Lemma wpm_bind {A B} (p : M A) (f : A → M B) s Q :
  wpm p s (λ a s', wpm (f a) s' Q) → wpm (bindM f p) s Q.
Proof. unfold wpm, bindM. by destruct (p s). Qed.
Lemma wpm_mono {A} (p : M A) s (Q R : A → store → Prop) :
  wpm p s Q → (∀ a s', Q a s' → R a s') → wpm p s R.
Proof. unfold wpm. destruct (p s); auto. Qed.

Lemma wpm_seq {A B C} (p : M A) (q : M B) (k : M C) s Q :
  wpm (bindM (λ _, q) p) s (λ _ s', wpm k s' Q) → wpm (bindM (λ _, bindM (λ _, k) q) p) s Q.
Proof. unfold wpm, bindM. destruct (p s) as [a s'| |]; [|done..]. by destruct (q s'). Qed.

Definition with_mem (s : store) (m : gmap nat element) : store := Store m (tbl s) (head s) (asked s).
Definition with_tbl (s : store) (t : option UT_hash_table) : store := Store (mem s) t (head s) (asked s).
Definition with_head (s : store) (p : ptr) : store := Store (mem s) (tbl s) p (asked s).
Definition hset (p : nat) (f : UT_hash_handle → UT_hash_handle) (m : gmap nat element) : gmap nat element :=
  alter (λ e, Element (el_data e) (f (hh e))) p m.

Lemma wpm_get_hh p e s Q : mem s !! p = Some e → Q (hh e) s → wpm (get_hh p) s Q.
Proof. unfold wpm, get_hh. by intros ->. Qed.
Lemma wpm_set_hh p f s Q : is_Some (mem s !! p) → Q tt (with_mem s (hset p f (mem s))) → wpm (set_hh p f) s Q.
Proof.
  unfold wpm, set_hh. intros [e He]. rewrite He. unfold with_mem, hset.
  replace (alter _ p (mem s)) with (<[p := Element (el_data e) (f (hh e))]> (mem s)); [done|].
  apply map_eq. intros q. destruct (decide (q = p)) as [->|Hq].
  - by rewrite lookup_insert_eq, lookup_alter_eq, He.
  - by rewrite lookup_insert_ne, lookup_alter_ne by done.
Qed.
Lemma wpm_get_tbl t s Q : tbl s = Some t → Q t s → wpm get_tbl s Q.
Proof. unfold wpm, get_tbl. by intros ->. Qed.
Lemma wpm_set_tbl f t s Q : tbl s = Some t → Q tt (with_tbl s (Some (f t))) → wpm (set_tbl f) s Q.
Proof. unfold wpm, set_tbl, with_tbl. by intros ->. Qed.
Lemma wpm_get_head s Q : Q (head s) s → wpm get_head s Q.
Proof. done. Qed.
Lemma wpm_set_head p s Q : Q tt (with_head s p) → wpm (set_head p) s Q.
Proof. done. Qed.
Lemma wpm_get_bucket l i b s Q : l !! Z.to_nat i = Some b → Q b s → wpm (get_bucket l i) s Q.
Proof. unfold wpm, get_bucket. by intros ->. Qed.
Lemma wpm_malloc z s Q : (z < 2 ^ 36)%Z → Q tt (Store (mem s) (tbl s) (head s) (S (asked s))) → wpm (uthash_malloc refuses z) s Q.
Proof. intros Hz. unfold wpm, uthash_malloc. destruct (refuses (asked s) z) eqn:E; [|done]. intros _. by eapply HF. Qed.

(** ** Views of the heap *)

Definition app_view (m : gmap nat element) : links := (λ e, (prev (hh e), next (hh e))) <$> m.
Definition bkt_view (m : gmap nat element) : links := (λ e, (hh_prev (hh e), hh_next (hh e))) <$> m.

(** The data, the key, its length and its hash value. *)
Record info := Info { i_data : V; i_key : bytes; i_len : Z; i_hash : Z }.
Definition info_of (e : element) : info := Info (el_data e) (key (hh e)) (keylen (hh e)) (hashv (hh e)).
Definition infos (m : gmap nat element) : gmap nat info := info_of <$> m.

Ltac by_node p m :=
  apply map_eq; intros q; unfold app_view, bkt_view, hset, with_next, with_prev;
  destruct (decide (q = p)) as [->|Hq];
  [rewrite ?lookup_fmap, ?lookup_alter_eq, ?lookup_fmap; by destruct (m !! p)
  |by rewrite ?lookup_fmap, ?lookup_alter_ne, ?lookup_fmap by done].

Lemma app_set_next p v m : app_view (hset p (set_next v) m) = with_next (Some p) v (app_view m).
Proof. by_node p m. Qed.
Lemma app_set_prev p v m : app_view (hset p (set_prev v) m) = with_prev (Some p) v (app_view m).
Proof. by_node p m. Qed.
Lemma app_set_hh_next p v m : app_view (hset p (set_hh_next v) m) = app_view m.
Proof. by_node p m. Qed.
Lemma app_set_hh_prev p v m : app_view (hset p (set_hh_prev v) m) = app_view m.
Proof. by_node p m. Qed.
Lemma bkt_set_next p v m : bkt_view (hset p (set_next v) m) = bkt_view m.
Proof. by_node p m. Qed.
Lemma bkt_set_prev p v m : bkt_view (hset p (set_prev v) m) = bkt_view m.
Proof. by_node p m. Qed.
Lemma bkt_set_hh_next p v m : bkt_view (hset p (set_hh_next v) m) = with_next (Some p) v (bkt_view m).
Proof. by_node p m. Qed.
Lemma bkt_set_hh_prev p v m : bkt_view (hset p (set_hh_prev v) m) = with_prev (Some p) v (bkt_view m).
Proof. by_node p m. Qed.
Lemma infos_links p f m :
  (∀ h, key (f h) = key h ∧ keylen (f h) = keylen h ∧ hashv (f h) = hashv h) → infos (hset p f m) = infos m.
Proof.
  intros Hf. apply map_eq. intros q. unfold infos, hset. rewrite !lookup_fmap. destruct (decide (q = p)) as [->|Hq].
  - rewrite lookup_alter_eq. destruct (m !! p) as [e|]; [|done]. cbn. unfold info_of. cbn. f_equal.
    destruct (Hf (hh e)) as (-> & -> & ->). done.
  - by rewrite lookup_alter_ne.
Qed.
Lemma infos_set_next p v m : infos (hset p (set_next v) m) = infos m.
Proof. by apply infos_links. Qed.
Lemma infos_set_prev p v m : infos (hset p (set_prev v) m) = infos m.
Proof. by apply infos_links. Qed.
Lemma infos_set_hh_next p v m : infos (hset p (set_hh_next v) m) = infos m.
Proof. by apply infos_links. Qed.
Lemma infos_set_hh_prev p v m : infos (hset p (set_hh_prev v) m) = infos m.
Proof. by apply infos_links. Qed.

Lemma live_views_app m p : is_Some (app_view m !! p) ↔ is_Some (m !! p).
Proof. unfold app_view. by rewrite lookup_fmap, fmap_is_Some. Qed.
Lemma live_bkt m p : is_Some (bkt_view m !! p) ↔ is_Some (m !! p).
Proof. unfold bkt_view. by rewrite lookup_fmap, fmap_is_Some. Qed.
Lemma live_info m p : is_Some (infos m !! p) ↔ is_Some (m !! p).
Proof. unfold infos. by rewrite lookup_fmap, fmap_is_Some. Qed.
Lemma live_hset p f m q : is_Some (hset p f m !! q) ↔ is_Some (m !! q).
Proof.
  unfold hset. destruct (decide (q = p)) as [->|Hq]; [|by rewrite lookup_alter_ne].
  by rewrite lookup_alter_eq, fmap_is_Some.
Qed.

(** ** The invariant *)

(** The bucket of a hash value among [2 ^ lb]. *)
Definition bkt_of (lb hash : Z) : nat := Z.to_nat (hash mod 2 ^ lb).

(** The chain [c] of the bucket [b], the [j]-th of [2 ^ lb]. *)
Record chain_ok (m : gmap nat element) (lb : Z) (j : nat) (b : UT_hash_bucket) (c : list nat) : Prop := ChainOk {
  c_dl : dl (bkt_view m) c;
  c_head : hh_head b = first c None;
  c_count : count b = Z.of_nat (length c);
  c_place : ∀ p i, p ∈ c → infos m !! p = Some i → bkt_of lb (i_hash i) = j }.

Definition chains_ok (m : gmap nat element) (lb : Z) (bs : list UT_hash_bucket) (chains : list (list nat)) : Prop :=
  length chains = length bs ∧
  ∀ j b c, bs !! j = Some b → chains !! j = Some c → chain_ok m lb j b c.

(** The table of the elements [items]. *)
Record tbl_ok (m : gmap nat element) (t : UT_hash_table) (items : list nat) : Prop := TblOk {
  t_log : (0 <= log2_num_buckets t <= 31)%Z;
  t_num : num_buckets t = (2 ^ log2_num_buckets t)%Z;
  t_len : Z.of_nat (length (buckets t)) = (2 ^ log2_num_buckets t)%Z;
  t_chains : ∃ chains, concat chains ≡ₚ items ∧ chains_ok m (log2_num_buckets t) (buckets t) chains }.

Definition entry_ok (i : info) : Prop :=
  (i_len i = Z.of_nat (length (i_key i)) ∧ i_len i < 2 ^ 32 ∧ i_hash i = HASH_JEN (i_key i))%Z.

Record wf (s : store) (items : list nat) : Prop := Wf {
  w_app : dl (app_view (mem s)) items;
  w_head : head s = first items None;
  w_bound : (Z.of_nat (length items) < 2 ^ 32)%Z;
  w_entry : ∀ p, p ∈ items → ∃ i, infos (mem s) !! p = Some i ∧ entry_ok i;
  w_unique : ∀ p q i i', p ∈ items → q ∈ items → infos (mem s) !! p = Some i → infos (mem s) !! q = Some i' →
    i_key i = i_key i' → p = q;
  w_tbl : match tbl s with
    | None => items = []
    | Some t => items ≠ [] ∧ num_items t = Z.of_nat (length items) ∧ tail t = final items None ∧
        tbl_ok (mem s) t items
    end }.

(** ** Generic facts *)

Lemma length_live (m : gmap nat element) l :
  NoDup l → (∀ p, p ∈ l → is_Some (m !! p)) → length l ≤ size m.
Proof.
  intros Hnd Hl. rewrite <- size_dom, <- (size_list_to_set (C := gset nat) l Hnd).
  apply subseteq_size. intros p Hp%elem_of_list_to_set. by apply elem_of_dom, Hl.
Qed.

Lemma HASH_TO_BKT_ok h lb : (0 <= lb <= 31)%Z → HASH_TO_BKT h (2 ^ lb) = (h mod 2 ^ lb)%Z.
Proof.
  intros Hlb. pose proof (Z.pow_le_mono_r 2 lb 31 ltac:(lia) ltac:(lia)). pose proof (Z.pow_pos_nonneg 2 lb ltac:(lia) ltac:(lia)).
  unfold HASH_TO_BKT, to_uint. rewrite (Z.mod_small (2 ^ lb - 1)) by lia.
  replace (2 ^ lb - 1)%Z with (Z.ones lb) by (rewrite Z.ones_equiv; lia). by rewrite Z.land_ones by lia.
Qed.

Lemma bkt_of_lt lb h : (0 <= lb)%Z → (Z.of_nat (bkt_of lb h) < 2 ^ lb)%Z.
Proof. intros Hlb. unfold bkt_of. pose proof (Z.mod_pos_bound h (2 ^ lb) ltac:(lia)). lia. Qed.

(** The chain of the bucket of a hash value. *)
Lemma chain_at m lb bs chains h :
  (0 <= lb <= 31)%Z → Z.of_nat (length bs) = (2 ^ lb)%Z → chains_ok m lb bs chains →
  ∃ b c, bs !! Z.to_nat (HASH_TO_BKT h (2 ^ lb)) = Some b ∧ chains !! bkt_of lb h = Some c ∧
    chain_ok m lb (bkt_of lb h) b c.
Proof.
  intros Hlb Hl [Hlc Hc]. pose proof (bkt_of_lt lb h ltac:(lia)). rewrite HASH_TO_BKT_ok by done.
  fold (bkt_of lb h). destruct (bs !! bkt_of lb h) as [b|] eqn:Eb; [|apply lookup_ge_None in Eb; lia].
  destruct (chains !! bkt_of lb h) as [c|] eqn:Ec; [|apply lookup_ge_None in Ec; lia].
  exists b, c. split_and!; [done..|]. by apply Hc.
Qed.

Lemma in_chains (chains : list (list nat)) items p :
  concat chains ≡ₚ items → p ∈ items ↔ ∃ j c, chains !! j = Some c ∧ p ∈ c.
Proof.
  intros <-. rewrite list_elem_of_In, in_concat. split.
  - intros (c & Hc & Hp). apply list_elem_of_In, list_elem_of_lookup in Hc as [j Hj].
    exists j, c. by rewrite list_elem_of_In.
  - intros (j & c & Hj & Hp). exists c. rewrite <- !list_elem_of_In. split; [by eapply list_elem_of_lookup_2|done].
Qed.

(** ** Finding *)

Definition key_at (m : gmap nat element) (p : nat) (k : bytes) : Prop := ∃ i, infos m !! p = Some i ∧ i_key i = k.

Lemma find_in_chain_ok s k pre c fuel :
  seg (bkt_view (mem s)) pre c None → length c < fuel →
  (∀ p, p ∈ c → ∃ i, infos (mem s) !! p = Some i ∧ entry_ok i) → (Z.of_nat (length k) < 2 ^ 32)%Z →
  wpm (find_from fuel (first c None) k (Z.of_nat (length k)) (HASH_JEN k)) s (λ r s', s' = s ∧
    match r with
    | Some p => p ∈ c ∧ key_at (mem s) p k
    | None => ∀ p, p ∈ c → ¬ key_at (mem s) p k
    end).
Proof.
  intros Hs Hf He Hk. revert pre fuel Hs Hf. induction c as [|p c IH]; intros pre fuel Hs Hf; cbn [first].
  { destruct fuel; apply wpm_pure; (split; [done|]); by intros ? ?%not_elem_of_nil. }
  destruct fuel as [|fuel]; [cbn in Hf; lia|]. destruct Hs as [Hp Hs].
  destruct (He p) as (i & Hi & Hl & Hlt & Hh); [by left|].
  unfold infos in Hi. rewrite lookup_fmap in Hi. destruct (mem s !! p) as [e|] eqn:Ep; [|done].
  cbn in Hi. simplify_eq. unfold bkt_view in Hp. rewrite lookup_fmap, Ep in Hp. cbn in Hp. simplify_eq.
  cbn [find_from]. apply wpm_bind. eapply wpm_get_hh; [exact Ep|]. cbn in Hl, Hlt, Hh.
  destruct (_ && _) eqn:Eq.
  - apply wpm_pure. split; [done|]. split; [by left|]. apply andb_prop in Eq as [[_ E2]%andb_prop E3].
    apply Z.eqb_eq in E2. apply bool_decide_eq_true in E3. rewrite E2 in Hl. apply Nat2Z.inj in Hl.
    rewrite !take_ge in E3 by lia. eexists. unfold infos. by rewrite lookup_fmap, Ep.
  - assert (Hne : ¬ key_at (mem s) p k).
    { intros (i & Hi & Hik). unfold infos in Hi. rewrite lookup_fmap, Ep in Hi. cbn in Hi. simplify_eq. cbn in *.
      rewrite Hh, Hl, !Z.eqb_refl in Eq. cbn in Eq. by apply bool_decide_eq_false in Eq. }
    match goal with H : _ = first c None |- _ => rewrite H end.
    eapply wpm_mono; [eapply IH; [|exact Hs|cbn in Hf; lia]|].
    + intros q Hq. apply He. by right.
    + intros [q|] s' [-> H]; (split; [done|]); [destruct H; split; [by right|done]|].
      intros q [->|Hq]%elem_of_cons; [done|by apply H].
Qed.

Lemma chain_length m lb j b c : chain_ok m lb j b c → length c ≤ size m.
Proof. intros [Hd _ _ _]. apply length_live; [apply Hd|]. intros p Hp. apply live_bkt. by apply (dl_live _ c). Qed.

Lemma to_uint_small z : (0 <= z < 2 ^ 32)%Z → to_uint z = z.
Proof. apply Z.mod_small. Qed.

Lemma find_ok s items k :
  wf s items → (Z.of_nat (length k) < 2 ^ 32)%Z →
  wpm (HASH_FIND_STR k) s (λ r s', s' = s ∧
    match r with
    | Some p => p ∈ items ∧ key_at (mem s) p k
    | None => ∀ p, p ∈ items → ¬ key_at (mem s) p k
    end).
Proof.
  intros Hwf Hk. unfold HASH_FIND_STR, HASH_FIND, HASH_FIND_BYHASHVALUE.
  rewrite to_uint_small by lia. rewrite take_ge by lia.
  pose proof (w_head _ _ Hwf) as Hh. pose proof (w_tbl _ _ Hwf) as Ht.
  apply wpm_bind, wpm_get_head. rewrite Hh. destruct items as [|p0 items]; cbn [first].
  { apply wpm_pure. split; [done|]. by intros ? ?%not_elem_of_nil. }
  apply wpm_bind, wpm_get_head. rewrite Hh. cbn [first].
  destruct (tbl s) as [t|] eqn:Et; [|done]. destruct Ht as (_ & _ & _ & [Hlog Hnum Hlen (chains & Hperm & Hc)]).
  apply wpm_bind. eapply wpm_get_tbl; [done|]. rewrite Hnum.
  destruct (chain_at _ _ _ _ (HASH_JEN k) Hlog Hlen Hc) as (b & c & Hb & Hcj & Hok).
  apply wpm_bind. eapply wpm_get_bucket; [done|]. apply wpm_bind. change (wpm walk_fuel s ?Q) with (Q (S (size (mem s))) s).
  cbv beta. rewrite (c_head _ _ _ _ _ Hok).
  eapply wpm_mono; [eapply find_in_chain_ok; [apply Hok|pose proof (chain_length _ _ _ _ _ Hok); lia| |done]|].
  - intros p Hp. apply (w_entry _ _ Hwf), (in_chains _ _ _ Hperm). eauto.
  - intros [p|] s' [-> H]; (split; [done|]).
    + destruct H as [Hp Hkp]. split; [|done]. apply (in_chains _ _ _ Hperm). eauto.
    + intros p Hp (i & Hi & Hik). destruct (w_entry _ _ Hwf p Hp) as (i' & Hi' & _ & _ & Hhash). simplify_eq.
      apply (in_chains _ _ _ Hperm) in Hp as (j & c' & Hc' & Hp).
      assert (j = bkt_of (log2_num_buckets t) (HASH_JEN (i_key i))) as ->.
      { rewrite <- Hhash. destruct Hc as [Hl Hc]. destruct (buckets t !! j) as [b'|] eqn:Eb.
        - symmetry. by apply (c_place _ _ _ _ _ (Hc j b' c' Eb Hc') p).
        - apply lookup_ge_None in Eb. apply lookup_lt_Some in Hc'. lia. }
      simplify_eq. apply (H p Hp). by exists i.
Qed.

(** ** The pointer updates of the operations *)

Lemma push_front_ok s p c :
  is_Some (mem s !! p) → p ∉ c → dl (bkt_view (mem s)) c →
  wpm (push_front p (first c None)) s (λ _ s', s' = with_mem s (mem s') ∧
    dl (bkt_view (mem s')) (p :: c) ∧ app_view (mem s') = app_view (mem s) ∧ infos (mem s') = infos (mem s) ∧
    ∀ q, q ∉ p :: c → bkt_view (mem s') !! q = bkt_view (mem s) !! q).
Proof.
  intros Hp Hpc Hc. assert (exists x, bkt_view (mem s) !! p = Some x) as [x Hx] by by apply live_bkt.
  pose proof (dl_push _ _ _ _ Hc Hpc Hx) as Hpush.
  apply wpm_bind, wpm_set_hh; [done|]. apply wpm_bind, wpm_set_hh; [by apply live_hset|]. cbn [mem with_mem].
  assert (Hend : ∀ m', bkt_view m' = with_prev (first c None) (Some p) (with_next (Some p) (first c None)
      (with_prev (Some p) None (bkt_view (mem s)))) → ∀ q, q ∉ p :: c → bkt_view m' !! q = bkt_view (mem s) !! q).
  { intros m' -> q [Hq1 Hq2]%not_elem_of_cons. rewrite with_prev_other by (intros ?%first_elem; done).
    by rewrite with_next_other, with_prev_other by congruence. }
  destruct (first c None) as [q|] eqn:Ef.
  - assert (Hq : is_Some (mem s !! q)) by (apply live_bkt, (dl_live _ c); [done|by apply first_elem]).
    apply wpm_set_hh; [by do 2 apply live_hset|]. cbn [mem with_mem].
    assert (Hb : bkt_view (hset q (set_hh_prev (Some p)) (hset p (set_hh_next (Some q)) (hset p (set_hh_prev None) (mem s))))
      = with_prev (Some q) (Some p) (with_next (Some p) (Some q) (with_prev (Some p) None (bkt_view (mem s))))).
    { by rewrite bkt_set_hh_prev, bkt_set_hh_next, bkt_set_hh_prev. }
    split_and!; [done|by rewrite Hb| | |by apply Hend].
    + by rewrite app_set_hh_prev, app_set_hh_next, app_set_hh_prev.
    + by rewrite infos_set_hh_prev, infos_set_hh_next, infos_set_hh_prev.
  - apply wpm_pure. cbn [mem with_mem].
    assert (Hb : bkt_view (hset p (set_hh_next None) (hset p (set_hh_prev None) (mem s)))
      = with_next (Some p) None (with_prev (Some p) None (bkt_view (mem s)))).
    { by rewrite bkt_set_hh_next, bkt_set_hh_prev. }
    split_and!; [done|by rewrite Hb| | |by apply Hend].
    + by rewrite app_set_hh_next, app_set_hh_prev.
    + by rewrite infos_set_hh_next, infos_set_hh_prev.
Qed.

(** ** One chain changes *)

Lemma concat_insert (cs : list (list nat)) j c c' :
  cs !! j = Some c → concat (<[j := c']> cs) ++ c ≡ₚ concat cs ++ c'.
Proof.
  intros Hj. rewrite <- (take_drop_middle _ _ _ Hj) at 2. rewrite insert_take_drop by (by eapply lookup_lt_Some).
  rewrite !concat_app. cbn. rewrite <- !app_assoc. apply Permutation_app_head.
  rewrite (Permutation_app_comm c'), (Permutation_app_comm c), <- !app_assoc. f_equiv. apply Permutation_app_comm.
Qed.

Lemma chain_frame m m' lb j b c :
  chain_ok m lb j b c → (∀ p, p ∈ c → infos m' !! p = infos m !! p) →
  (∀ p, p ∈ c → bkt_view m' !! p = bkt_view m !! p) → chain_ok m' lb j b c.
Proof.
  intros [Hd Hh Hc Hp] Hi Hf. split; [by eapply dl_frame|done|done|]. intros p i Hpc. rewrite Hi by done. by apply Hp.
Qed.

(** The chains are apart. *)
Lemma chains_apart m lb bs cs j j' c c' p :
  chains_ok m lb bs cs → cs !! j = Some c → cs !! j' = Some c' → p ∈ c → p ∈ c' → j = j'.
Proof.
  intros [Hl Hc] Hj Hj' Hp Hp'.
  assert (Hb : ∀ i x, cs !! i = Some x → ∃ b, bs !! i = Some b).
  { intros i x Hx. apply lookup_lt_is_Some. apply lookup_lt_Some in Hx. lia. }
  destruct (Hb _ _ Hj) as [b Hbj], (Hb _ _ Hj') as [b' Hbj'].
  pose proof (Hc _ _ _ Hbj Hj) as H1. pose proof (Hc _ _ _ Hbj' Hj') as H2.
  assert (is_Some (infos m !! p)) as [i Hi].
  { apply live_info, live_bkt. apply (dl_live _ c); [apply H1|done]. }
  by rewrite <- (c_place _ _ _ _ _ H1 p i Hp Hi), <- (c_place _ _ _ _ _ H2 p i Hp' Hi).
Qed.

Lemma chains_change m m' lb bs cs j b' c c' :
  chains_ok m lb bs cs → cs !! j = Some c → chain_ok m' lb j b' c' → infos m' = infos m →
  (∀ q, (∃ j' c2, j' ≠ j ∧ cs !! j' = Some c2 ∧ q ∈ c2) → bkt_view m' !! q = bkt_view m !! q) →
  chains_ok m' lb (<[j := b']> bs) (<[j := c']> cs).
Proof.
  intros [Hl Hc] Hj Hok Hi Hf. split; [by rewrite !length_insert|]. intros i b x.
  destruct (decide (i = j)) as [->|Hij].
  - intros Hb Hx. apply list_lookup_insert_Some in Hb as [(_ & <- & _)|[? _]]; [|done].
    apply list_lookup_insert_Some in Hx as [(_ & <- & _)|[? _]]; [|done]. done.
  - rewrite !list_lookup_insert_ne by done. intros Hb Hx. eapply chain_frame; [by apply Hc|by rewrite Hi|].
    intros p Hp. apply Hf. eauto.
Qed.

(** A node is pushed to the chain of its bucket. *)
Lemma chain_push m m' lb bs cs p i b c mult :
  chains_ok m lb bs cs → infos m !! p = Some i → p ∉ concat cs →
  bs !! bkt_of lb (i_hash i) = Some b → cs !! bkt_of lb (i_hash i) = Some c →
  (Z.of_nat (length (concat cs)) + 1 < 2 ^ 32)%Z →
  dl (bkt_view m') (p :: c) → infos m' = infos m →
  (∀ q, q ∉ p :: c → bkt_view m' !! q = bkt_view m !! q) →
  chains_ok m' lb (<[bkt_of lb (i_hash i) := Bucket (Some p) (to_uint (count b + 1)) mult]> bs)
    (<[bkt_of lb (i_hash i) := p :: c]> cs) ∧
  concat (<[bkt_of lb (i_hash i) := p :: c]> cs) ≡ₚ p :: concat cs.
Proof.
  intros Hcs Hi Hp Hb Hc Hlen Hdl Hinf Hf. set (j := bkt_of lb (i_hash i)) in *.
  assert (Hin : ∀ q j' c2, cs !! j' = Some c2 → q ∈ c2 → q ∈ concat cs).
  { intros q j' c2 H1 H2. apply (in_chains cs (concat cs)); eauto. }
  assert (Hlc : length c <= length (concat cs)).
  { rewrite <- (take_drop_middle _ _ _ Hc), concat_app. cbn. rewrite !length_app. lia. }
  pose proof (proj2 Hcs _ _ _ Hb Hc) as Hok. split.
  - eapply chains_change; [done..| |done|].
    + split; [done|done| |].
      * cbn. rewrite (c_count _ _ _ _ _ Hok), to_uint_small by lia. lia.
      * intros q i' [->|Hq]%elem_of_cons; rewrite Hinf; intros Hq'; [by simplify_eq|]. by apply (c_place _ _ _ _ _ Hok q).
    + intros q (j' & c2 & Hne & Hj' & Hq). apply Hf. intros [->|Hq']%elem_of_cons; [by eapply Hp, Hin|].
      apply Hne. by eapply chains_apart.
  - pose proof (concat_insert cs j c (p :: c) Hc) as H. apply (Permutation_app_inv_r c). rewrite H. cbn.
    rewrite <- Permutation_middle. done.
Qed.

(** ** Expansion *)

(** During an expansion only the links of the chains change, and the counts of
    the table that are about the expansion. *)
Record expanding (s : store) (t : UT_hash_table) (s' : store) (t' : UT_hash_table) : Prop := Expanding {
  x_tbl : tbl s' = Some t';
  x_head : head s' = head s;
  x_app : app_view (mem s') = app_view (mem s);
  x_infos : infos (mem s') = infos (mem s);
  x_buckets : buckets t' = buckets t;
  x_num : num_buckets t' = num_buckets t;
  x_log : log2_num_buckets t' = log2_num_buckets t;
  x_items : num_items t' = num_items t;
  x_tail : tail t' = tail t }.

Lemma expanding_trans s0 t0 s1 t1 s2 t2 : expanding s0 t0 s1 t1 → expanding s1 t1 s2 t2 → expanding s0 t0 s2 t2.
Proof. intros [? ? ? ? ? ? ? ? ?] [? ? ? ? ? ? ? ? ?]. split; congruence. Qed.

Lemma expanding_refl s t : tbl s = Some t → expanding s t s t.
Proof. by split. Qed.

Lemma pow_double lb : (0 <= lb <= 30)%Z → to_uint (2 ^ lb * 2) = (2 ^ (lb + 1))%Z.
Proof.
  intros Hlb. rewrite Z.pow_add_r by lia. pose proof (Z.pow_le_mono_r 2 lb 30 ltac:(lia) ltac:(lia)). change (2 ^ 1)%Z with 2%Z.
  pose proof (Z.pow_pos_nonneg 2 lb ltac:(lia) ltac:(lia)). apply to_uint_small. lia.
Qed.

Lemma expand_one_ok s t lb p e new cs :
  tbl s = Some t → (0 <= lb <= 30)%Z → num_buckets t = (2 ^ lb)%Z → mem s !! p = Some e →
  Z.of_nat (length new) = (2 ^ (lb + 1))%Z → chains_ok (mem s) (lb + 1) new cs → p ∉ concat cs →
  (Z.of_nat (length (concat cs)) + 1 < 2 ^ 32)%Z →
  wpm (expand_one p (hh e) new) s (λ new' s', ∃ t' cs', expanding s t s' t' ∧ length new' = length new ∧
    chains_ok (mem s') (lb + 1) new' cs' ∧ concat cs' ≡ₚ p :: concat cs ∧
    ∀ q, q ∉ p :: concat cs → bkt_view (mem s') !! q = bkt_view (mem s) !! q).
Proof.
  intros Ht Hlb Hnum Hp Hlen Hcs Hpc Hsz. unfold expand_one.
  apply wpm_bind. eapply wpm_get_tbl; [done|]. rewrite Hnum, pow_double by done.
  destruct (chain_at _ (lb + 1) _ _ (hashv (hh e)) ltac:(lia) Hlen Hcs) as (b & c & Hb & Hc & Hok).
  apply wpm_bind. eapply wpm_get_bucket; [exact Hb|].
  assert (Hi : infos (mem s) !! p = Some (info_of e)) by (unfold infos; by rewrite lookup_fmap, Hp).
  rewrite HASH_TO_BKT_ok in Hb |- * by lia. fold (bkt_of (lb + 1) (hashv (hh e))) in Hb |- *.
  apply wpm_bind. eapply (wpm_mono _ _ (λ mult s1, ∃ t1, s1 = with_tbl s (Some t1) ∧ expanding s t s1 t1)).
  { destruct (_ <? _)%Z; [|apply wpm_pure; exists t; split; [|by apply expanding_refl]; destruct s; cbn in *; by subst].
    apply wpm_bind. eapply wpm_set_tbl; [done|]. apply wpm_pure. eexists. split; [done|]. by split. }
  intros mult s1 (t1 & Hs1 & Hx1). assert (Hmem : mem s1 = mem s) by by rewrite Hs1.
  assert (Hpc' : p ∉ c).
  { intros ?. apply Hpc, (in_chains cs (concat cs)); [done|]. eauto. }
  apply wpm_bind. rewrite (c_head _ _ _ _ _ Hok).
  eapply wpm_mono; [apply push_front_ok; rewrite ?Hmem; [by rewrite Hp|done|apply Hok]|].
  rewrite Hmem. intros _ s2 (Hs2 & Hdl & Happ & Hinf & Hf). apply wpm_pure.
  destruct (chain_push (mem s) (mem s2) (lb + 1) new cs p (info_of e) b c mult) as [H1 H2]; try done.
  exists t1. eexists. split_and!; [|by rewrite length_insert|exact H1|exact H2|].
  - eapply expanding_trans; [exact Hx1|]. split; [rewrite Hs2; apply Hx1|by rewrite Hs2|by rewrite Happ, Hmem|by rewrite Hinf, Hmem|done..].
  - intros q Hq. apply Hf. intros Hq'. apply Hq. apply elem_of_cons in Hq' as [->|Hq']; [by left|right].
    apply (in_chains cs (concat cs)); eauto.
Qed.

Lemma expand_chain_ok s t lb pre rest new cs fuel :
  tbl s = Some t → (0 <= lb <= 30)%Z → num_buckets t = (2 ^ lb)%Z →
  seg (bkt_view (mem s)) pre rest None → NoDup (rest ++ concat cs) → length rest < fuel →
  Z.of_nat (length new) = (2 ^ (lb + 1))%Z → chains_ok (mem s) (lb + 1) new cs →
  (Z.of_nat (length (rest ++ concat cs)) < 2 ^ 32)%Z →
  wpm (expand_chain fuel (first rest None) new) s (λ new' s', ∃ t' cs', expanding s t s' t' ∧ length new' = length new ∧
    chains_ok (mem s') (lb + 1) new' cs' ∧ concat cs' ≡ₚ rest ++ concat cs ∧
    ∀ q, q ∉ rest ++ concat cs → bkt_view (mem s') !! q = bkt_view (mem s) !! q).
Proof.
  intros Ht Hlb Hnum. revert s t pre new cs fuel Ht Hnum.
  induction rest as [|p rest IH]; intros s t pre new cs fuel Ht Hnum Hs Hnd Hf Hlen Hcs Hsz; cbn [first].
  { destruct fuel; apply wpm_pure; exists t, cs; (split; [by apply expanding_refl|done]). }
  destruct fuel as [|fuel]; [cbn in Hf; lia|]. cbn [expand_chain]. destruct Hs as [Hp Hs].
  apply NoDup_cons in Hnd as [Hpn Hnd]. apply not_elem_of_app in Hpn as [Hpr Hpc].
  assert (exists e, mem s !! p = Some e) as [e He] by (apply live_bkt; by rewrite Hp).
  assert (hh_next (hh e) = first rest None) as Hnx.
  { unfold bkt_view in Hp. rewrite lookup_fmap, He in Hp. cbn in Hp. by simplify_eq. }
  apply wpm_bind. eapply wpm_get_hh; [done|]. cbv zeta. rewrite Hnx. apply wpm_bind.
  eapply wpm_mono; [eapply expand_one_ok; try done; cbn in Hsz; rewrite length_app in Hsz; lia|].
  intros new1 s1 (t1 & cs1 & Hx & Hl1 & Hcs1 & Hp1 & Hf1).
  assert (Hp2 : rest ++ concat cs1 ≡ₚ p :: rest ++ concat cs) by (rewrite Hp1; symmetry; apply Permutation_middle).
  eapply wpm_mono; [apply (IH s1 t1 (Some p) new1 cs1); try done|].
  - apply Hx.
  - by rewrite (x_num _ _ _ _ Hx).
  - eapply seg_frame; [|exact Hs]. intros q Hq. apply Hf1. intros [->|Hq']%elem_of_cons; [done|].
    apply NoDup_app in Hnd as (_ & Hd & _). by apply (Hd q).
  - rewrite Hp2. apply NoDup_cons. by rewrite not_elem_of_app.
  - cbn in Hf. lia.
  - by rewrite Hl1.
  - by rewrite Hp2.
  - intros new2 s2 (t2 & cs2 & Hx2 & Hl2 & Hcs2 & Hp3 & Hf2). exists t2, cs2.
    split_and!; [by eapply expanding_trans|congruence|done|by rewrite Hp3, Hp2|].
    intros q Hq. rewrite Hf2 by (by rewrite Hp2). apply Hf1. intros [->|?]%elem_of_cons; apply Hq; [by left|].
    right. apply elem_of_app. by right.
Qed.

Definition old_chain (m : gmap nat element) (b : UT_hash_bucket) (c : list nat) : Prop :=
  hh_head b = first c None ∧ dl (bkt_view m) c.

Lemma expand_loop_ok s t lb old ocs new cs :
  tbl s = Some t → (0 <= lb <= 30)%Z → num_buckets t = (2 ^ lb)%Z →
  Forall2 (old_chain (mem s)) old ocs → NoDup (concat ocs ++ concat cs) →
  Z.of_nat (length new) = (2 ^ (lb + 1))%Z → chains_ok (mem s) (lb + 1) new cs →
  (Z.of_nat (length (concat ocs ++ concat cs)) < 2 ^ 32)%Z →
  wpm (expand_loop old new) s (λ new' s', ∃ t' cs', expanding s t s' t' ∧ length new' = length new ∧
    chains_ok (mem s') (lb + 1) new' cs' ∧ concat cs' ≡ₚ concat ocs ++ concat cs).
Proof.
  intros Ht Hlb Hnum Hold. revert ocs s t new cs Ht Hnum Hold.
  induction old as [|b old IH]; intros ocs s t new cs Ht Hnum Hold Hnd Hlen Hcs Hsz.
  { apply Forall2_nil_inv_l in Hold as ->. apply wpm_pure. exists t, cs. split_and!; [by apply expanding_refl|done..]. }
  apply Forall2_cons_inv_l in Hold as (c & ocs' & [Hh Hdl] & Hold & ->). cbn [concat] in *.
  rewrite <- app_assoc in Hnd, Hsz. cbn [expand_loop]. apply wpm_bind.
  change (wpm walk_fuel s ?Q) with (Q (S (size (mem s))) s). cbv beta. rewrite Hh.
  pose proof Hnd as (_ & Hcd & Hnd2)%NoDup_app. apply wpm_bind.
  assert (Hp0 : c ++ concat ocs' ++ concat cs ≡ₚ concat ocs' ++ (c ++ concat cs)).
  { rewrite !app_assoc. f_equiv. apply Permutation_app_comm. }
  eapply wpm_mono; [eapply (expand_chain_ok s t lb None c new cs); try done|].
  - apply Hdl.
  - rewrite Hp0 in Hnd. by apply NoDup_app in Hnd as (_ & _ & ?).
  - assert (length c <= size (mem s)); [|lia]. apply length_live; [apply Hdl|].
    intros p Hp. apply live_bkt. by apply (dl_live _ c).
  - rewrite !length_app in *. lia.
  - intros new1 s1 (t1 & cs1 & Hx & Hl1 & Hcs1 & Hp1 & Hf1).
    assert (Hp2 : concat ocs' ++ concat cs1 ≡ₚ c ++ concat ocs' ++ concat cs) by by rewrite Hp1, Hp0.
    eapply wpm_mono; [apply (IH ocs' s1 t1 new1 cs1); try done|].
    + apply Hx.
    + by rewrite (x_num _ _ _ _ Hx).
    + rewrite Hp0 in Hnd. apply NoDup_app in Hnd as (_ & Hd & _).
      clear -Hold Hf1 Hd. induction Hold as [|b c' old' ocs'' [H1 H2] Hold IH]; constructor.
      * split; [done|]. eapply dl_frame; [|done]. intros p Hp. apply Hf1, Hd. apply elem_of_app. by left.
      * apply IH. intros p Hp. apply Hd. apply elem_of_app. by right.
    + by rewrite Hp2.
    + by rewrite Hl1.
    + by rewrite Hp2.
    + intros new2 s2 (t2 & cs2 & Hx2 & Hl2 & Hcs2 & Hp3). exists t2, cs2.
      split_and!; [by eapply expanding_trans|congruence|done|]. rewrite <- app_assoc. by rewrite Hp3, Hp2.
Qed.

(** A block of 2^36 bytes, for 2^32 buckets, is never to be had. *)
Context (Hbig : ∀ n z, (2 ^ 36 <= z)%Z → refuses n z = true).

Lemma concat_replicate_nil n : concat (replicate n (@nil nat)) = [].
Proof. by induction n. Qed.

Lemma empty_chains_ok m lb n : chains_ok m lb (replicate n (Bucket None 0 0)) (replicate n []).
Proof.
  split; [by rewrite !length_replicate|]. intros j b c [-> _]%lookup_replicate [-> _]%lookup_replicate.
  split; [apply dl_nil|done..|]. by intros ? ? ?%not_elem_of_nil.
Qed.

Lemma expand_ok s t items :
  tbl s = Some t → tbl_ok (mem s) t items → NoDup items → (Z.of_nat (length items) < 2 ^ 32)%Z →
  (log2_num_buckets t = 31%Z → F) →
  wpm (HASH_EXPAND_BUCKETS refuses) s (λ _ s', ∃ t', tbl s' = Some t' ∧ head s' = head s ∧
    app_view (mem s') = app_view (mem s) ∧ infos (mem s') = infos (mem s) ∧
    num_items t' = num_items t ∧ tail t' = tail t ∧ tbl_ok (mem s') t' items).
Proof.
  intros Ht [Hlog Hnum Hlen (cs & Hperm & Hcs)] Hnd Hsz Hfull. set (lb := log2_num_buckets t) in *.
  apply wpm_bind. eapply wpm_get_tbl; [done|]. apply wpm_bind.
  destruct (decide (lb = 31)%Z) as [E|Hne].
  { unfold wpm, uthash_malloc. rewrite Hnum, E, Hbig; [by apply Hfull|done]. }
  apply wpm_malloc.
  { pose proof (Z.pow_le_mono_r 2 lb 30 ltac:(lia) ltac:(lia)). unfold SIZEOF_BUCKET. lia. } set (s0 := Store _ _ _ _). apply wpm_bind. eapply wpm_set_tbl; [exact Ht|].
  set (t1 := set_ideal _ _ t). set (s1 := with_tbl s0 (Some t1)). apply wpm_bind.
  eapply wpm_mono; [apply (expand_loop_ok s1 t1 lb (buckets t) cs _ (replicate (Z.to_nat (num_buckets t * 2)) []));
    try done; try lia|].
  - destruct Hcs as [Hl Hc]. apply Forall2_same_length_lookup_2; [done|].
    intros j b c Hb Hc'. destruct (Hc j b c Hb Hc') as [? ? _ _]. done.
  - by rewrite concat_replicate_nil, app_nil_r, Hperm.
  - rewrite length_replicate, Hnum, Z.pow_add_r by lia. pose proof (Z.pow_pos_nonneg 2 lb). lia.
  - apply empty_chains_ok.
  - by rewrite concat_replicate_nil, app_nil_r, Hperm.
  - intros new s2 (t2 & cs2 & Hx & Hl & Hcs2 & Hp2). rewrite concat_replicate_nil, app_nil_r in Hp2.
    eapply wpm_set_tbl; [apply Hx|]. eexists. split; [done|]. cbn [head with_tbl mem].
    split_and!; [by rewrite (x_head _ _ _ _ Hx)|by rewrite (x_app _ _ _ _ Hx)|by rewrite (x_infos _ _ _ _ Hx)
      |by cbn; rewrite (x_items _ _ _ _ Hx)|by cbn; rewrite (x_tail _ _ _ _ Hx)|].
    assert (Hlb1 : to_uint (log2_num_buckets t2 + 1) = (lb + 1)%Z).
    { rewrite (x_log _ _ _ _ Hx). apply to_uint_small. cbn. fold lb. lia. }
    split; cbn [log2_num_buckets num_buckets buckets]; rewrite Hlb1.
    + lia.
    + rewrite (x_num _ _ _ _ Hx). cbn. rewrite Hnum. apply pow_double. lia.
    + rewrite Hl, length_replicate, Hnum, Z.pow_add_r by lia. pose proof (Z.pow_pos_nonneg 2 lb). lia.
    + exists cs2. split; [by rewrite Hp2|done].
Qed.

(** ** Adding *)

Lemma tbl_ok_frame m m' t t' items items' :
  tbl_ok m t items → items ≡ₚ items' →
  buckets t' = buckets t → num_buckets t' = num_buckets t → log2_num_buckets t' = log2_num_buckets t →
  (∀ p, p ∈ items → infos m' !! p = infos m !! p) → (∀ p, p ∈ items → bkt_view m' !! p = bkt_view m !! p) →
  tbl_ok m' t' items'.
Proof.
  intros [Hlog Hnum Hlen (cs & Hperm & Hl & Hc)] Hp Hb Hn Hlg Hi Hv. split; rewrite ?Hb, ?Hn, ?Hlg; [done..|].
  exists cs. split; [by rewrite Hperm|]. split; [done|]. intros j b c Hbj Hcj.
  eapply chain_frame; [by apply Hc| |]; intros p Hpc; [apply Hi|apply Hv]; apply (in_chains _ _ _ Hperm); eauto.
Qed.

Lemma add_to_bkt_ok s t items p i :
  tbl s = Some t → tbl_ok (mem s) t items → NoDup (p :: items) → infos (mem s) !! p = Some i →
  (Z.of_nat (length items) + 1 < 2 ^ 32)%Z → (log2_num_buckets t = 31%Z → F) →
  wpm (HASH_ADD_TO_BKT refuses (HASH_TO_BKT (i_hash i) (num_buckets t)) p) s (λ _ s', ∃ t', tbl s' = Some t' ∧
    head s' = head s ∧ app_view (mem s') = app_view (mem s) ∧ infos (mem s') = infos (mem s) ∧
    num_items t' = num_items t ∧ tail t' = tail t ∧ tbl_ok (mem s') t' (p :: items)).
Proof.
  intros Ht [Hlog Hnum Hlen (cs & Hperm & Hcs)] Hnd Hi Hsz Hfull. pose proof Hnd as [Hp Hnd']%NoDup_cons.
  destruct (chain_at _ _ _ _ (i_hash i) Hlog Hlen Hcs) as (b & c & Hb & Hc & Hok).
  apply wpm_bind. eapply wpm_get_tbl; [done|]. apply wpm_bind. rewrite Hnum.
  eapply wpm_get_bucket; [done|]. cbv zeta. rewrite (c_head _ _ _ _ _ Hok).
  assert (Hpc : p ∉ concat cs) by by rewrite Hperm.
  apply wpm_bind. eapply wpm_mono; [apply push_front_ok; [by apply live_info; rewrite Hi| |apply Hok]|].
  { intros ?. apply Hp, (in_chains _ _ _ Hperm). eauto. }
  intros _ s1 (Hs1 & Hdl & Happ & Hinf & Hf). assert (Ht1 : tbl s1 = Some t) by by rewrite Hs1.
  rewrite HASH_TO_BKT_ok in Hb |- * by lia. fold (bkt_of (log2_num_buckets t) (i_hash i)) in Hb |- *.
  apply wpm_bind. eapply wpm_set_tbl; [done|]. set (t2 := set_buckets _ t). set (s2 := with_tbl s1 (Some t2)).
  destruct (chain_push (mem s) (mem s1) _ _ _ p i b c (expand_mult b) Hcs Hi Hpc Hb Hc) as [H1 H2]; try done.
  { by rewrite Hperm. }
  assert (H3 : tbl_ok (mem s2) t2 (p :: items)).
  { split; cbn; [done|done|by rewrite length_insert|]. eexists. split; [|exact H1]. by rewrite H2, Hperm. }
  assert (Hh2 : head s2 = head s) by (cbn; by rewrite Hs1).
  destruct (_ && _).
  - eapply wpm_mono; [apply (expand_ok s2 t2 (p :: items)); [done..|cbn; lia|done]|].
    intros _ s3 (t3 & ? & ? & Ha3 & Hi3 & ? & ? & ?). exists t3. split_and!; [done|congruence| | |done..].
    + by rewrite Ha3.
    + by rewrite Hi3.
  - apply wpm_pure. exists t2. by split_and!.
Qed.

Lemma wf_nodup s items : wf s items → NoDup items.
Proof. intros Hwf. apply (w_app _ _ Hwf). Qed.

(** The handle of [p] gets its key: only what the operations leave changes. *)
Definition keyed (k : bytes) (i : info) : info := Info (i_data i) k (Z.of_nat (length k)) (HASH_JEN k).

Lemma set_key_views p m k n v (f := λ h, Handle (prev h) (next h) (hh_prev h) (hh_next h) k n v) :
  app_view (hset p f m) = app_view m ∧ bkt_view (hset p f m) = bkt_view m ∧
  infos (hset p f m) = alter (λ i, Info (i_data i) k n v) p (infos m).
Proof.
  split_and!; [by_node p m..|]. apply map_eq. intros q. unfold infos, hset. rewrite lookup_fmap.
  destruct (decide (q = p)) as [->|Hq].
  - rewrite !lookup_alter_eq, lookup_fmap. by destruct (m !! p).
  - by rewrite !lookup_alter_ne, lookup_fmap.
Qed.

(** The list [items'] of the application with [p] in it, and a table for [items]:
    the common end of the ways of adding. *)
Definition listed_in (s : store) (items items' : list nat) (s2 : store) : Prop :=
  dl (app_view (mem s2)) items' ∧ head s2 = first items' None ∧ infos (mem s2) = infos (mem s) ∧
  ∃ t2, tbl s2 = Some t2 ∧ (log2_num_buckets t2 = 31%Z → F) ∧ num_items t2 = Z.of_nat (length items) ∧
    tail t2 = final items' None ∧ tbl_ok (mem s2) t2 items.
Definition listed (s : store) (items : list nat) (p : nat) (s2 : store) : Prop := listed_in s items (items ++ [p]) s2.

Lemma make_table_ok s p :
  is_Some (mem s !! p) →
  wpm (set_hh p (set_next None) ;;; set_hh p (set_prev None) ;;; HASH_MAKE_TABLE refuses p ;;; set_head (Some p))%ut s
    (λ _ s2, listed s [] p s2).
Proof.
  intros Hp. apply wpm_bind, wpm_set_hh; [done|]. apply wpm_bind, wpm_set_hh; [by apply live_hset|].
  cbn [mem with_mem]. apply wpm_bind. do 2 (apply wpm_bind, wpm_malloc; [done|]). cbn [mem tbl head with_mem asked].
  assert (exists x, app_view (mem s) !! p = Some x) as [x Hx] by by apply live_views_app.
  match goal with |- wpm _ ?s0 _ => set (s1 := s0) end. unfold wpm at 1.
  apply wpm_set_head. split_and!; cbn.
  - rewrite app_set_prev, app_set_next. apply (dl_append _ [] p x); [apply dl_nil|by apply not_elem_of_nil|done].
  - done.
  - by rewrite infos_set_prev, infos_set_next.
  - eexists. split_and!; [done..|]. split; cbn; [unfold HASH_INITIAL_NUM_BUCKETS_LOG2; lia|done|done|].
    exists (replicate 32 []). split; [done|]. apply (empty_chains_ok _ _ 32).
Qed.

Lemma append_list_ok s items t p :
  is_Some (mem s !! p) → dl (app_view (mem s)) items → p ∉ items → items ≠ [] → head s = first items None →
  tbl s = Some t → num_items t = Z.of_nat (length items) → tail t = final items None → tbl_ok (mem s) t items →
  (log2_num_buckets t = 31%Z → F) →
  wpm (HASH_APPEND_LIST p) s (λ _ s2, listed s items p s2).
Proof.
  intros Hp Hdl Hpi Hne Hh Ht Hn Htail Hok Hfull.
  assert (exists x, app_view (mem s) !! p = Some x) as [x Hx] by by apply live_views_app.
  destruct (final items None) as [q|] eqn:Eq; [|rewrite final_None in Eq; by apply last_None in Eq].
  assert (Hq : q ∈ items) by by apply final_elem.
  apply wpm_bind, wpm_set_hh; [done|]. apply wpm_bind. eapply wpm_get_tbl; [done|].
  apply wpm_bind, wpm_set_hh; [by apply live_hset|]. rewrite Htail. apply wpm_bind, wpm_pure. apply wpm_bind, wpm_set_hh.
  { do 2 apply live_hset. apply live_views_app. by apply (dl_live _ items). }
  eapply wpm_set_tbl; [done|]. split_and!; cbn [mem with_mem with_tbl head tbl].
  - rewrite app_set_next, app_set_prev, app_set_next. rewrite <- Eq. by apply (dl_append _ items p x).
  - rewrite Hh. by destruct items.
  - by rewrite infos_set_next, infos_set_prev, infos_set_next.
  - eexists. split_and!; [done|exact Hfull|exact Hn|by rewrite final_app|]. eapply tbl_ok_frame; [done..| |]; intros r _.
    + by rewrite infos_set_next, infos_set_prev, infos_set_next.
    + by rewrite bkt_set_next, bkt_set_prev, bkt_set_next.
Qed.

(** What the ways of adding have in common. *)
Record addable (s : store) (items : list nat) (p : nat) (k : bytes) : Prop := Addable {
  a_wf : wf s items;
  a_live : is_Some (mem s !! p);
  a_new : p ∉ items;
  a_key : ∀ q, q ∈ items → ¬ key_at (mem s) q k;
  a_len : (Z.of_nat (length k) < 2 ^ 32)%Z;
  a_size : (Z.of_nat (length items) + 1 < 2 ^ 32)%Z;
  a_full : ∀ t, tbl s = Some t → log2_num_buckets t = 31%Z → F }.

Lemma add_to_table_ok s s1 s2 items items' p k : addable s items p k →
  infos (mem s1) = alter (keyed k) p (infos (mem s)) → listed_in s1 items items' s2 → items' ≡ₚ p :: items →
  wpm (HASH_ADD_TO_TABLE refuses (HASH_JEN k) p) s2 (λ _ s', wf s' items' ∧ infos (mem s') = alter (keyed k) p (infos (mem s))).
Proof.
  intros [Hwf Hp Hpi Hk Hkl Hsz Hfull] Hi (Hdl & Hh & Hi2 & t2 & Ht2 & Hf2 & Hn2 & Htl2 & Hok2) Hperm.
  apply wpm_bind. eapply wpm_set_tbl; [done|]. apply wpm_bind. eapply wpm_get_tbl; [done|].
  set (t3 := set_num_items _ t2). set (s3 := with_tbl s2 (Some t3)).
  assert (exists i0, infos (mem s) !! p = Some i0) as [i0 Hi0] by by apply live_info.
  assert (Hip : infos (mem s3) !! p = Some (keyed k i0)) by (change (mem s3) with (mem s2); rewrite Hi2, Hi, lookup_alter_eq, Hi0; done).
  change (HASH_JEN k) with (i_hash (keyed k i0)).
  assert (Hnd : NoDup (p :: items)) by (apply NoDup_cons; split; [done|by eapply wf_nodup]).
  eapply wpm_mono; [apply (add_to_bkt_ok s3 t3 items p); [done| |done..]|].
  { by eapply tbl_ok_frame. }
  intros _ s4 (t4 & Ht4 & Hh4 & Ha4 & Hi4 & Hn4 & Htl4 & Hok4).
  assert (Hinf : infos (mem s4) = alter (keyed k) p (infos (mem s))) by (rewrite Hi4; change (mem s3) with (mem s2); by rewrite Hi2, Hi).
  split; [|exact Hinf].
  assert (Hother : ∀ q, q ∈ items → infos (mem s4) !! q = infos (mem s) !! q).
  { intros q Hq. rewrite Hinf. apply lookup_alter_ne. by intros ->. }
  assert (Hself : infos (mem s4) !! p = Some (keyed k i0)) by (rewrite Hinf, lookup_alter_eq, Hi0; done).
  split.
  - by rewrite Ha4.
  - by rewrite Hh4.
  - rewrite (Permutation_length Hperm). cbn. lia.
  - intros q. rewrite Hperm. intros [->|Hq]%elem_of_cons; [|rewrite Hother by done; by apply Hwf].
    eexists. split; [exact Hself|]. by split_and!.
  - intros q r i i'. rewrite Hperm. intros Hq Hr Eq Er Ek.
    apply elem_of_cons in Hq as [->|Hq], Hr as [->|Hr].
    + done.
    + rewrite Hother in Er by done. rewrite Hself in Eq. simplify_eq. destruct (Hk r Hr). by exists i'.
    + rewrite Hother in Eq by done. rewrite Hself in Er. simplify_eq. destruct (Hk q Hq). by exists i.
    + rewrite Hother in Eq, Er by done. by eapply (w_unique _ _ Hwf).
  - rewrite Ht4. split_and!.
    + intros ->. by apply Permutation_nil_cons in Hperm.
    + rewrite Hn4. cbn. rewrite Hn2, to_uint_small by lia. rewrite (Permutation_length Hperm). cbn. lia.
    + by rewrite Htl4.
    + eapply tbl_ok_frame; [exact Hok4|by rewrite Hperm|done..].
Qed.

(** The handle with its key, and its place in the list still to be found. *)
Lemma set_key_ok s items p k : addable s items p k →
  let s1 := with_mem s (hset p (λ h, Handle (prev h) (next h) (hh_prev h) (hh_next h) k (Z.of_nat (length k)) (HASH_JEN k)) (mem s)) in
  is_Some (mem s1 !! p) ∧ app_view (mem s1) = app_view (mem s) ∧ infos (mem s1) = alter (keyed k) p (infos (mem s)) ∧
  ∀ t, tbl s = Some t → tbl_ok (mem s) t items → tbl_ok (mem s1) t items.
Proof.
  intros Hadd s1. destruct (set_key_views p (mem s) k (Z.of_nat (length k)) (HASH_JEN k)) as (Ha & Hb & Hi).
  split_and!; [apply live_hset, Hadd|done|exact Hi|]. intros t Ht Hok. eapply tbl_ok_frame; [done..| |]; intros r Hr; cbn [mem with_mem s1].
  - rewrite Hi. apply lookup_alter_ne. intros ->. by apply (a_new _ _ _ _ Hadd).
  - by rewrite Hb.
Qed.

(** [HASH_ADD_STR] of a live element with a new key. *)
Lemma uthash_add_ok s items p k : addable s items p k →
  wpm (HASH_ADD_STR refuses k p) s (λ _ s', wf s' (items ++ [p]) ∧
    infos (mem s') = alter (keyed k) p (infos (mem s))).
Proof.
  intros Hadd. pose proof Hadd as [Hwf Hp Hpi Hk Hkl Hsz Hfull]. unfold HASH_ADD_STR, HASH_ADD_KEYPTR, HASH_ADD_KEYPTR_BYHASHVALUE.
  rewrite (to_uint_small (Z.of_nat (length k))), (to_uint_small (Z.of_nat (length k))), take_ge by lia.
  apply wpm_bind, wpm_set_hh; [done|]. destruct (set_key_ok _ _ _ _ Hadd) as (Hp1 & Ha & Hi & Hok1). set (s1 := with_mem s _) in *.
  apply wpm_bind, wpm_get_head. apply wpm_bind. eapply (wpm_mono _ _ (λ _ s2, listed s1 items p s2)).
  { change (head s1) with (head s). rewrite (w_head _ _ Hwf). pose proof (w_tbl _ _ Hwf) as Ht.
    destruct items as [|q items]; cbn [first]; [by apply make_table_ok|].
    destruct (tbl s) as [t|] eqn:Et; [|done]. destruct Ht as (_ & Hn & Htl & Hok).
    eapply append_list_ok; [done|rewrite Ha; apply Hwf|done|done|apply Hwf|exact Et|done|done| |by apply Hfull]. by apply Hok1. }
  intros _ s2 Hl. eapply add_to_table_ok; [done..|]. by rewrite Permutation_app_comm.
Qed.

(** ** Deleting *)

(** The two neighbours of a removed node are linked, in the views of the chains
    and of the application's list. *)
Lemma unlink_bkt_ok s (o1 o2 : ptr) :
  (∀ q, o1 = Some q → is_Some (mem s !! q)) → (∀ q, o2 = Some q → is_Some (mem s !! q)) →
  wpm ((match o1 with Some q => set_hh q (set_hh_next o2) | None => pure tt end) ;;;
       match o2 with Some q => set_hh q (set_hh_prev o1) | None => pure tt end)%ut s
    (λ _ s', s' = with_mem s (mem s') ∧ app_view (mem s') = app_view (mem s) ∧ infos (mem s') = infos (mem s) ∧
      bkt_view (mem s') = with_prev o2 o1 (with_next o1 o2 (bkt_view (mem s)))).
Proof.
  intros H1 H2. apply wpm_bind. eapply (wpm_mono _ _ (λ _ s', s' = with_mem s (mem s') ∧ app_view (mem s') = app_view (mem s) ∧
    infos (mem s') = infos (mem s) ∧ bkt_view (mem s') = with_next o1 o2 (bkt_view (mem s)) ∧
    ∀ q, is_Some (mem s !! q) → is_Some (mem s' !! q))).
  { destruct o1 as [q|]; [|apply wpm_pure; by destruct s]. apply wpm_set_hh; [by apply H1|]. cbn [mem with_mem].
    split_and!; [done|apply app_set_hh_next|apply infos_set_hh_next|apply bkt_set_hh_next|]. intros r Hr. by apply live_hset. }
  intros _ s1 (Hs1 & Ha & Hi & Hb & Hl). destruct o2 as [q|]; [|apply wpm_pure; by split_and!].
  apply wpm_set_hh; [by apply Hl, H2|]. cbn [mem with_mem]. split_and!.
  - by rewrite Hs1.
  - by rewrite app_set_hh_prev.
  - by rewrite infos_set_hh_prev.
  - by rewrite bkt_set_hh_prev, Hb.
Qed.

Lemma unlink_app_ok s (o1 o2 : ptr) :
  (∀ q, o1 = Some q → is_Some (mem s !! q)) → (∀ q, o2 = Some q → is_Some (mem s !! q)) →
  wpm ((match o1 with Some q => set_hh q (set_next o2) | None => set_head o2 end) ;;;
       match o2 with Some q => set_hh q (set_prev o1) | None => pure tt end)%ut s
    (λ _ s', tbl s' = tbl s ∧ head s' = match o1 with Some _ => head s | None => o2 end ∧
      bkt_view (mem s') = bkt_view (mem s) ∧ infos (mem s') = infos (mem s) ∧
      app_view (mem s') = with_prev o2 o1 (with_next o1 o2 (app_view (mem s)))).
Proof.
  intros H1 H2. apply wpm_bind. eapply (wpm_mono _ _ (λ _ s', tbl s' = tbl s ∧
    head s' = match o1 with Some _ => head s | None => o2 end ∧ bkt_view (mem s') = bkt_view (mem s) ∧
    infos (mem s') = infos (mem s) ∧ app_view (mem s') = with_next o1 o2 (app_view (mem s)) ∧
    ∀ q, is_Some (mem s !! q) → is_Some (mem s' !! q))).
  { destruct o1 as [q|]; [|by apply wpm_set_head]. apply wpm_set_hh; [by apply H1|]. cbn [mem with_mem tbl head].
    split_and!; [done|done|apply bkt_set_next|apply infos_set_next|apply app_set_next|]. intros r Hr. by apply live_hset. }
  intros _ s1 (Ht & Hh & Hb & Hi & Ha & Hl). destruct o2 as [q|]; [|apply wpm_pure; by split_and!].
  apply wpm_set_hh; [by apply Hl, H2|]. cbn [mem with_mem tbl head]. split_and!; [done|done| | |].
  - by rewrite bkt_set_prev.
  - by rewrite infos_set_prev.
  - by rewrite app_set_prev, Ha.
Qed.

Lemma handle_at m l1 p l2 : dl (app_view m) (l1 ++ p :: l2) →
  ∃ e, m !! p = Some e ∧ prev (hh e) = final l1 None ∧ next (hh e) = first l2 None.
Proof.
  intros Hp%dl_at. unfold app_view in Hp. rewrite lookup_fmap in Hp. destruct (m !! p) as [e|]; [|done].
  cbn in Hp. simplify_eq. by exists e.
Qed.

Lemma del_in_bkt_ok s t items items' p i :
  tbl s = Some t → tbl_ok (mem s) t items → items ≡ₚ p :: items' → NoDup items → infos (mem s) !! p = Some i →
  (Z.of_nat (length items) < 2 ^ 32)%Z →
  wpm (HASH_DEL_IN_BKT (HASH_TO_BKT (i_hash i) (num_buckets t)) p) s (λ _ s', ∃ t', tbl s' = Some t' ∧
    head s' = head s ∧ app_view (mem s') = app_view (mem s) ∧ infos (mem s') = infos (mem s) ∧
    num_items t' = num_items t ∧ tail t' = tail t ∧ tbl_ok (mem s') t' items').
Proof.
  intros Ht [Hlog Hnum Hlen (cs & Hperm & Hcs)] Hit Hnd Hi Hsz.
  assert (Hp : p ∈ items) by (rewrite Hit; by left).
  destruct (chain_at _ _ _ _ (i_hash i) Hlog Hlen Hcs) as (b & c & Hb & Hc & Hok).
  assert (Hpc : p ∈ c).
  { apply (in_chains _ _ _ Hperm) in Hp as (j & c' & Hj & Hp').
    assert (is_Some (buckets t !! j)) as [b' Hb'].
    { apply lookup_lt_is_Some. apply lookup_lt_Some in Hj. destruct Hcs. lia. }
    rewrite (c_place _ _ _ _ _ (proj2 Hcs j b' c' Hb' Hj) p i Hp' Hi) in Hc. by simplify_eq. }
  apply list_elem_of_split in Hpc as (c1 & c2 & ->). pose proof (c_dl _ _ _ _ _ Hok) as Hdl.
  assert (exists e, mem s !! p = Some e ∧ hh_prev (hh e) = final c1 None ∧ hh_next (hh e) = first c2 None) as (e & He & Hpv & Hnx).
  { pose proof (dl_at _ _ _ _ Hdl) as Hat. unfold bkt_view in Hat. rewrite lookup_fmap in Hat.
    destruct (mem s !! p) as [e|]; [|done]. cbn in Hat. simplify_eq. by exists e. }
  apply wpm_bind. eapply wpm_get_tbl; [done|]. apply wpm_bind. rewrite Hnum. eapply wpm_get_bucket; [done|].
  apply wpm_bind. eapply wpm_get_hh; [done|]. rewrite Hpv, Hnx.
  rewrite HASH_TO_BKT_ok in Hb |- * by lia. fold (bkt_of (log2_num_buckets t) (i_hash i)) in Hb |- *.
  apply wpm_bind. eapply wpm_set_tbl; [done|]. set (t2 := set_buckets _ t). set (s2 := with_tbl s (Some t2)).
  assert (Hlive : ∀ q, q ∈ c1 ++ p :: c2 → is_Some (mem s2 !! q)).
  { intros q Hq. by apply live_bkt, (dl_live _ (c1 ++ p :: c2)). }
  eapply wpm_mono; [apply unlink_bkt_ok; intros q Hq; apply Hlive|].
  { apply elem_of_app. left. by apply final_elem. }
  { apply elem_of_app. do 2 right. by apply first_elem. }
  intros _ s3 (Hs3 & Ha3 & Hi3 & Hb3). exists t2. rewrite Hs3. cbn [tbl head with_mem with_tbl s2 mem].
  split_and!; [done..|]. split; cbn; [done|done|by rewrite length_insert|].
  exists (<[bkt_of (log2_num_buckets t) (i_hash i) := c1 ++ c2]> cs). split.
  { pose proof (concat_insert cs _ _ (c1 ++ c2) Hc) as H.
    apply (Permutation_app_inv_r [p]). rewrite (Permutation_app_comm items'). cbn. rewrite <- Hit, <- Hperm.
    apply (Permutation_app_inv_r (c1 ++ c2)). rewrite <- H, <- !app_assoc. apply Permutation_app_head.
    rewrite <- Permutation_middle. cbn. done. }
  pose proof Hdl as [_ (Hn1 & Hd & [Hpc2 Hn2]%NoDup_cons)%NoDup_app].
  eapply chains_change; [exact Hcs|exact Hc| |done|].
  - split.
    + rewrite Hb3. by apply dl_delete with p.
    + cbn. rewrite (c_head _ _ _ _ _ Hok). destruct c1 as [|q c1]; cbn [app first].
      * by rewrite bool_decide_true.
      * rewrite bool_decide_false; [done|]. intros [= ->]. apply (Hd p); by left.
    + cbn. rewrite (c_count _ _ _ _ _ Hok), to_uint_small; rewrite !length_app; cbn; [lia|].
      assert (length (c1 ++ p :: c2) <= length items); [|rewrite length_app in *; cbn in *; lia].
      rewrite <- Hperm, <- (take_drop_middle _ _ _ Hc), concat_app. cbn. rewrite !length_app. lia.
    + intros q i' Hq. rewrite Hi3. apply (c_place _ _ _ _ _ Hok).
      apply elem_of_app in Hq as [Hq|Hq]; apply elem_of_app; [by left|by do 2 right].
  - intros q (j' & c' & Hne & Hj' & Hq).
    assert (Hap : ∀ r, r ∈ c1 ++ p :: c2 → r ≠ q).
    { intros r Hr ->. apply Hne. by eapply (chains_apart _ _ _ _ j' _ c' _ q Hcs). }
    rewrite Hb3. rewrite with_prev_other, with_next_other; [done| |].
    + intros ?%final_elem. apply (Hap q); [|done]. apply elem_of_app. by left.
    + intros ?%first_elem. apply (Hap q); [|done]. apply elem_of_app. by do 2 right.
Qed.

(** [HASH_DELETE_HH] when [p] is not the only element. *)
Lemma delete_linked_ok s l1 p l2 t e :
  wf s (l1 ++ p :: l2) → tbl s = Some t → l1 ++ l2 ≠ [] → mem s !! p = Some e →
  wpm (t <- get_tbl;;
      (if bool_decide (Some p = tail t) then set_tbl (set_tail (final l1 None)) else pure tt) ;;;
      (match final l1 None with
       | Some q => set_hh q (set_next (first l2 None))
       | None => set_head (first l2 None)
       end) ;;;
      (match first l2 None with Some q => set_hh q (set_prev (final l1 None)) | None => pure tt end) ;;;
      t <- get_tbl;;
      HASH_DEL_IN_BKT (HASH_TO_BKT (hashv (hh e)) (num_buckets t)) p ;;;
      set_tbl (λ t, set_num_items (to_uint (num_items t - 1)) t))%ut s
    (λ _ s', wf s' (l1 ++ l2) ∧ infos (mem s') = infos (mem s)).
Proof.
  intros Hwf Ht Hne He. pose proof (w_tbl _ _ Hwf) as Htb. rewrite Ht in Htb. destruct Htb as (_ & Hn & Htl & Hok).
  pose proof (w_app _ _ Hwf) as Hdl. pose proof (wf_nodup _ _ Hwf) as Hnd.
  pose proof Hnd as (Hn1 & Hd & [Hp2 Hn2]%NoDup_cons)%NoDup_app. pose proof (w_bound _ _ Hwf) as Hsz.
  rewrite length_app in Hsz, Hn. cbn in Hsz, Hn.
  apply wpm_bind. eapply wpm_get_tbl; [done|]. apply wpm_bind.
  eapply (wpm_mono _ _ (λ _ s1, ∃ t1, s1 = with_tbl s (Some t1) ∧ tail t1 = final (l1 ++ l2) None ∧
    num_items t1 = num_items t ∧ tbl_ok (mem s) t1 (l1 ++ p :: l2))).
  { rewrite Htl, !final_app, final_cons. destruct l2 as [|q l2 _] using rev_ind; cbn [app].
    - rewrite bool_decide_true by done. eapply wpm_set_tbl; [done|]. eexists. split_and!; [done..|]. by eapply tbl_ok_frame.
    - rewrite final_app. change (final [q] ?x) with (Some q). rewrite bool_decide_false.
      + apply wpm_pure. exists t. split_and!; [by destruct s; cbn in *; subst| |done..].
        rewrite Htl, !final_app, final_cons, final_app. done.
      + intros [= ->]. apply Hp2, elem_of_app. right. by left. }
  intros _ s1 (t1 & -> & Htl1 & Hn1' & Hok1). set (s1 := with_tbl s (Some t1)).
  assert (Hlive : ∀ q, q ∈ l1 ++ p :: l2 → is_Some (mem s1 !! q)) by (intros q Hq; by apply live_views_app, (dl_live _ _ _ Hdl)).
  assert (H1 : ∀ q, final l1 None = Some q → is_Some (mem s1 !! q)).
  { intros q Hq. apply Hlive, elem_of_app. left. by apply final_elem. }
  assert (H2 : ∀ q, first l2 None = Some q → is_Some (mem s1 !! q)).
  { intros q Hq. apply Hlive, elem_of_app. do 2 right. by apply first_elem. }
  apply wpm_seq. eapply wpm_mono; [by apply unlink_app_ok|].
  intros _ s2 (Ht2 & Hh2 & Hb2 & Hi2 & Ha2). cbn [tbl s1 with_tbl mem head] in Ht2, Hh2, Hb2, Hi2, Ha2.
  apply wpm_bind. eapply wpm_get_tbl; [done|]. apply wpm_bind.
  assert (Hie : infos (mem s) !! p = Some (info_of e)) by (unfold infos; by rewrite lookup_fmap, He).
  change (hashv (hh e)) with (i_hash (info_of e)).
  eapply wpm_mono; [apply (del_in_bkt_ok s2 t1 (l1 ++ p :: l2) (l1 ++ l2) p (info_of e)); try done|].
  { eapply tbl_ok_frame; [done..| |]; intros q _; [by rewrite Hi2|by rewrite Hb2]. }
  { symmetry. apply Permutation_middle. }
  { by rewrite Hi2. }
  { rewrite length_app. cbn. lia. }
  intros _ s3 (t3 & Ht3 & Hh3 & Ha3 & Hi3 & Hn3 & Htl3 & Hok3). eapply wpm_set_tbl; [done|].
  assert (Hinf : infos (mem s3) = infos (mem s)) by by rewrite Hi3.
  assert (Hin : ∀ q, q ∈ l1 ++ l2 → q ∈ l1 ++ p :: l2).
  { intros q [Hq|Hq]%elem_of_app; apply elem_of_app; [by left|by do 2 right]. }
  split; [|exact Hinf]. split; cbn [mem with_tbl head tbl].
  - rewrite Ha3, Ha2. by apply dl_delete with p.
  - rewrite Hh3, Hh2. rewrite (w_head _ _ Hwf). destruct l1 as [|q l1]; [done|]. rewrite final_cons.
    unfold final. by destruct (last l1).
  - rewrite length_app. lia.
  - intros q Hq. rewrite Hinf. apply (w_entry _ _ Hwf). by apply Hin.
  - intros q r i i' Hq Hr. rewrite Hinf. apply (w_unique _ _ Hwf); by apply Hin.
  - split_and!; [done| | |].
    + cbn. rewrite Hn3, Hn1', Hn, to_uint_small by lia. rewrite length_app. lia.
    + cbn. by rewrite Htl3.
    + by eapply tbl_ok_frame.
Qed.

Lemma delete_ok s l1 p l2 :
  wf s (l1 ++ p :: l2) →
  wpm (HASH_DEL p) s (λ _ s', wf s' (l1 ++ l2) ∧ infos (mem s') = infos (mem s)).
Proof.
  intros Hwf. destruct (handle_at _ _ _ _ (w_app _ _ Hwf)) as (e & He & Hpv & Hnx).
  pose proof (w_tbl _ _ Hwf) as Htb. destruct (tbl s) as [t|] eqn:Ht; [|by destruct l1].
  apply wpm_bind. eapply wpm_get_hh; [done|]. rewrite Hpv, Hnx.
  destruct (decide (l1 ++ l2 = [])) as [[-> ->]%app_nil|Hne].
  - cbn. apply wpm_bind. eapply wpm_get_tbl; [done|]. unfold wpm, bindM, free_tbl, set_head. cbn.
    split; [|done]. split; cbn; [apply dl_nil|done|lia|by intros ? ?%not_elem_of_nil|by intros ? ? ? ? ?%not_elem_of_nil|done].
  - pose proof (delete_linked_ok s l1 p l2 t e Hwf Ht Hne He) as Hdel.
    destruct (final l1 None) as [q1|] eqn:E1, (first l2 None) as [q2|] eqn:E2; try exact Hdel.
    destruct l2; [|done]. rewrite final_None in E1. apply last_None in E1 as ->. done.
Qed.

(** ** The integrity check *)

Lemma fsck_chain_ok s pre c fuel n :
  seg (bkt_view (mem s)) pre c None → length c < fuel → (0 <= n)%Z → (n + Z.of_nat (length c) < 2 ^ 32)%Z →
  wpm (fsck_chain fuel (first c None) pre n) s (λ r s', s' = s ∧ r = Some (n + Z.of_nat (length c))%Z).
Proof.
  revert pre fuel n. induction c as [|p c IH]; intros pre fuel n Hs Hf Hn Hb; cbn [first].
  { destruct fuel; apply wpm_pure; cbn; split; [done|f_equal; lia|done|f_equal; lia]. }
  destruct fuel as [|fuel]; [cbn in Hf; lia|]. destruct Hs as [Hp Hs]. cbn [fsck_chain].
  unfold bkt_view in Hp. rewrite lookup_fmap in Hp. destruct (mem s !! p) as [e|] eqn:Ep; [|done]. cbn in Hp, Hf, Hb.
  apply wpm_bind. eapply wpm_get_hh; [done|]. assert (hh_prev (hh e) = pre ∧ hh_next (hh e) = first c None) as [-> ->].
  { by simplify_eq. }
  rewrite bool_decide_true, to_uint_small by (done || lia).
  eapply wpm_mono; [apply IH; [done|lia..]|]. intros r s' [-> ->]. split; [done|]. cbn. f_equal. lia.
Qed.

Lemma fsck_list_ok s pre c fuel n :
  seg (app_view (mem s)) pre c None → length c < fuel → (0 <= n)%Z → (n + Z.of_nat (length c) < 2 ^ 32)%Z →
  wpm (fsck_list fuel (first c None) pre n) s (λ r s', s' = s ∧ r = Some (n + Z.of_nat (length c))%Z).
Proof.
  revert pre fuel n. induction c as [|p c IH]; intros pre fuel n Hs Hf Hn Hb; cbn [first].
  { destruct fuel; apply wpm_pure; cbn; split; [done|f_equal; lia|done|f_equal; lia]. }
  destruct fuel as [|fuel]; [cbn in Hf; lia|]. destruct Hs as [Hp Hs]. cbn [fsck_list].
  unfold app_view in Hp. rewrite lookup_fmap in Hp. destruct (mem s !! p) as [e|] eqn:Ep; [|done]. cbn in Hp, Hf, Hb.
  apply wpm_bind. eapply wpm_get_hh; [done|]. assert (prev (hh e) = pre ∧ next (hh e) = first c None) as [-> ->].
  { by simplify_eq. }
  rewrite bool_decide_true, to_uint_small by (done || lia).
  eapply wpm_mono; [apply IH; [done|lia..]|]. intros r s' [-> ->]. split; [done|]. cbn. f_equal. lia.
Qed.

Definition chain_shape (m : gmap nat element) (b : UT_hash_bucket) (c : list nat) : Prop :=
  hh_head b = first c None ∧ count b = Z.of_nat (length c) ∧ dl (bkt_view m) c.

Lemma fsck_buckets_ok s bs cs n :
  Forall2 (chain_shape (mem s)) bs cs → (0 <= n)%Z → (n + Z.of_nat (length (concat cs)) < 2 ^ 32)%Z →
  wpm (fsck_buckets bs n) s (λ r s', s' = s ∧ r = Some (n + Z.of_nat (length (concat cs)))%Z).
Proof.
  intros Hf. revert n. induction Hf as [|b c bs cs (Hh & Hc & Hd) _ IH]; intros n Hn Hb; cbn [concat] in *.
  { apply wpm_pure. split; [done|]. cbn. f_equal. lia. }
  rewrite length_app in *. cbn [fsck_buckets]. apply wpm_bind.
  change (wpm walk_fuel s ?Q) with (Q (S (size (mem s))) s). cbv beta. apply wpm_bind. rewrite Hh.
  assert (length c <= size (mem s)).
  { apply length_live; [apply Hd|]. intros p Hp. apply live_bkt. by apply (dl_live _ c). }
  eapply wpm_mono; [apply fsck_chain_ok; [apply Hd|lia..]|]. intros r s' [-> ->].
  rewrite Hc. rewrite (proj2 (Z.eqb_eq _ _)) by lia. rewrite to_uint_small by lia.
  eapply wpm_mono; [apply IH; lia|]. intros r s' [-> ->]. split; [done|]. f_equal. lia.
Qed.

Lemma fsck_ok s items : wf s items → wpm HASH_FSCK s (λ r s', s' = s ∧ r = true).
Proof.
  intros Hwf. pose proof (w_tbl _ _ Hwf) as Htb. pose proof (w_bound _ _ Hwf) as Hsz.
  apply wpm_bind, wpm_get_head. rewrite (w_head _ _ Hwf). destruct items as [|p items]; [by apply wpm_pure|].
  cbn [first]. destruct (tbl s) as [t|] eqn:Ht; [|done].
  destruct Htb as (_ & Hn & _ & [Hlog Hnum Hlen (cs & Hperm & Hcs)]).
  apply wpm_bind. eapply wpm_get_tbl; [done|]. apply wpm_bind. rewrite take_ge by lia.
  assert (Hl : length (concat cs) = length (p :: items)) by by rewrite Hperm.
  eapply wpm_mono; [apply (fsck_buckets_ok s (buckets t) cs 0); [|lia|rewrite Hl; lia]|].
  { destruct Hcs as [Hl' Hc]. apply Forall2_same_length_lookup_2; [done|].
    intros j b c Hb Hc'. by destruct (Hc j b c Hb Hc') as [? ? ? _]. }
  intros r s' [-> ->]. rewrite Hl, Hn, Z.add_0_l, Z.eqb_refl. apply wpm_bind.
  change (wpm walk_fuel s ?Q) with (Q (S (size (mem s))) s). cbv beta. apply wpm_bind.
  pose proof (w_app _ _ Hwf) as Hdl. assert (length (p :: items) <= size (mem s)).
  { apply length_live; [apply Hdl|]. intros q Hq. apply live_views_app. by apply (dl_live _ _ _ Hdl). }
  eapply wpm_mono; [apply (fsck_list_ok s None (p :: items)); [apply Hdl|lia..]|].
  intros r s' [-> ->]. apply wpm_pure. split; [done|]. by rewrite Z.add_0_l, Z.eqb_refl.
Qed.

(** ** Counting, clearing, and the elements outside of the table *)

Lemma cnt_ok s items : wf s items → wpm HASH_CNT s (λ r s', s' = s ∧ r = Z.of_nat (length items)).
Proof.
  intros Hwf. pose proof (w_tbl _ _ Hwf) as Htb. apply wpm_bind, wpm_get_head. rewrite (w_head _ _ Hwf).
  destruct items as [|p items]; [by apply wpm_pure|]. cbn [first]. destruct (tbl s) as [t|] eqn:Ht; [|done].
  apply wpm_bind. eapply wpm_get_tbl; [done|]. apply wpm_pure. split; [done|apply Htb].
Qed.

Lemma wf_empty s : tbl s = None → head s = None → wf s [].
Proof.
  intros Ht Hh. split; [apply dl_nil|done|done|by intros ? ?%not_elem_of_nil|by intros ? ? ? ? ?%not_elem_of_nil|by rewrite Ht].
Qed.

Lemma clear_ok s items : wf s items → wpm HASH_CLEAR s (λ _ s', wf s' [] ∧ mem s' = mem s).
Proof.
  intros Hwf. pose proof (w_tbl _ _ Hwf) as Htb. apply wpm_bind, wpm_get_head. rewrite (w_head _ _ Hwf).
  destruct items as [|p items]; [by apply wpm_pure|]. cbn [first]. destruct (tbl s) as [t|] eqn:Ht; [|done].
  apply wpm_bind. eapply wpm_get_tbl; [done|]. unfold wpm, bindM, free_tbl, set_head. cbn. split; [by apply wf_empty|done].
Qed.

(** The heap may change outside of the table, and the data within. *)
Lemma wf_frame s s' items :
  wf s items → tbl s' = tbl s → head s' = head s →
  (∀ p, p ∈ items → app_view (mem s') !! p = app_view (mem s) !! p) →
  (∀ p, p ∈ items → bkt_view (mem s') !! p = bkt_view (mem s) !! p) →
  (∀ p i, p ∈ items → infos (mem s) !! p = Some i → ∃ d, infos (mem s') !! p = Some (Info d (i_key i) (i_len i) (i_hash i))) →
  wf s' items.
Proof.
  intros Hwf Ht Hh Ha Hb Hi.
  assert (Hinv : ∀ p i', p ∈ items → infos (mem s') !! p = Some i' →
    ∃ i, infos (mem s) !! p = Some i ∧ i_key i' = i_key i ∧ i_hash i' = i_hash i).
  { intros p i' Hp Hi'. destruct (w_entry _ _ Hwf p Hp) as (i & Hpi & _). destruct (Hi p i Hp Hpi) as [d Hd].
    simplify_eq. by exists i. }
  split; [by eapply dl_frame, Hwf|by rewrite Hh; apply Hwf|apply Hwf| | |].
  - intros p Hp. destruct (w_entry _ _ Hwf p Hp) as (i & Hpi & Hok). destruct (Hi p i Hp Hpi) as [d Hd]. by eexists.
  - intros p q i i' Hp Hq Hpi Hqi Hk. destruct (Hinv p i Hp Hpi) as (j & Hj & Ej & _), (Hinv q i' Hq Hqi) as (j' & Hj' & Ej' & _).
    eapply (w_unique _ _ Hwf); [done..|congruence].
  - rewrite Ht. pose proof (w_tbl _ _ Hwf) as Htb. destruct (tbl s) as [t|]; [|done].
    destruct Htb as (Hne & Hn & Htl & [Hlog Hnum Hlen (cs & Hperm & Hl & Hc)]). split_and!; [done..|].
    split; [done..|]. exists cs. split; [done|]. split; [done|]. intros j b c Hbj Hcj.
    destruct (Hc j b c Hbj Hcj) as [Hd Hhd Hcnt Hpl].
    assert (Hin : ∀ p, p ∈ c → p ∈ items) by (intros p Hp; apply (in_chains _ _ _ Hperm); eauto).
    split; [eapply dl_frame; [|done]; auto|done|done|]. intros p i' Hp Hi'.
    destruct (Hinv p i' (Hin p Hp) Hi') as (i & Hpi & _ & ->). by apply Hpl with p.
Qed.

(** ** The sequence of entries *)

(** The table holds the entries [l], in order of insertion: the address, the
    key and the data of each. *)
Definition repr (s : store) (l : list (nat * (bytes * V))) : Prop :=
  wf s l.*1 ∧
  ∀ p k d, (p, (k, d)) ∈ l → ∃ i, infos (mem s) !! p = Some i ∧ i_key i = k ∧ i_data i = d.

(** The heap outside of the elements [l]. *)
Definition same_outside (l : list nat) (s s' : store) : Prop :=
  ∀ p, p ∉ l → infos (mem s') !! p = infos (mem s) !! p.

Lemma repr_key s l p k : repr s l → p ∈ l.*1 → key_at (mem s) p k ↔ ∃ d, (p, (k, d)) ∈ l.
Proof.
  intros [Hwf Hr] Hp. split.
  - intros (i & Hi & <-). apply list_elem_of_fmap in Hp as ([p' [k d]] & -> & Hin). cbn in Hi.
    destruct (Hr _ _ _ Hin) as (i' & Hi' & <- & <-). simplify_eq. eauto.
  - intros [d Hin]. destruct (Hr _ _ _ Hin) as (i & Hi & <- & _). by exists i.
Qed.

Lemma in_addrs (l : list (nat * (bytes * V))) p x : (p, x) ∈ l → p ∈ l.*1.
Proof. intros H. apply list_elem_of_fmap. by exists (p, x). Qed.

Lemma find_repr s l k :
  repr s l → (Z.of_nat (length k) < 2 ^ 32)%Z →
  wpm (HASH_FIND_STR k) s (λ r s', s' = s ∧ ∀ p, r = Some p ↔ ∃ d, (p, (k, d)) ∈ l).
Proof.
  intros Hr Hk. pose proof Hr as [Hwf _]. eapply wpm_mono; [by apply find_ok|]. intros r s' [-> H]. split; [done|]. intros p.
  destruct r as [q|].
  - destruct H as [Hq Hkq]. split.
    + intros [= ->]. by apply (repr_key _ _ _ _ Hr Hq).
    + intros [d Hd]. f_equal. destruct Hkq as (i & Hi & Hik). destruct (proj2 Hr _ _ _ Hd) as (i' & Hi' & Hik' & _).
      eapply (w_unique _ _ Hwf); [done|by eapply in_addrs|done..|congruence].
  - split; [done|]. intros [d Hd]. destruct (H p); [by eapply in_addrs|].
    apply (repr_key _ _ _ _ Hr); [by eapply in_addrs|eauto].
Qed.

Lemma new_element_views m p d j :
  (∀ q, q ≠ p → app_view (<[p := Element d j]> m) !! q = app_view m !! q) ∧
  (∀ q, q ≠ p → bkt_view (<[p := Element d j]> m) !! q = bkt_view m !! q) ∧
  infos (<[p := Element d j]> m) = <[p := info_of (Element d j)]> (infos m).
Proof.
  unfold app_view, bkt_view, infos. rewrite !fmap_insert.
  split_and!; [intros q Hq; by rewrite lookup_insert_ne by done..|done].
Qed.

(** A new block is outside of the table. *)
Lemma new_element_ok s l p d junk (s1 := Store (<[p := Element d junk]> (mem s)) (tbl s) (head s) (asked s)) :
  repr s l → mem s !! p = None →
  repr s1 l ∧ p ∉ l.*1 ∧ infos (mem s1) = <[p := info_of (Element d junk)]> (infos (mem s)).
Proof.
  intros [Hwf Hr] Hp. destruct (new_element_views (mem s) p d junk) as (Ha & Hb & Hi).
  assert (Hpl : p ∉ l.*1).
  { intros Hpl. destruct (w_entry _ _ Hwf p Hpl) as (i & Hip & _). unfold infos in Hip. by rewrite lookup_fmap, Hp in Hip. }
  assert (Hinf : ∀ q, q ≠ p → infos (mem s1) !! q = infos (mem s) !! q).
  { intros q Hq. change (mem s1) with (<[p := Element d junk]> (mem s)). rewrite Hi. by rewrite lookup_insert_ne. }
  split; [split|by split].
  - eapply wf_frame; [done|done|done| | |]; intros q; [intros Hq; apply Ha; by intros ->|intros Hq; apply Hb; by intros ->|].
    intros i Hq Hqi. exists (i_data i). rewrite Hinf by (by intros ->). rewrite Hqi. by destruct i.
  - intros q k d' Hin. rewrite Hinf; [by apply Hr|]. intros ->. by apply Hpl, (in_addrs l p (k, d')).
Qed.

Lemma uthash_insert_ok s l p k d junk :
  repr s l → mem s !! p = None → (∀ q d', (q, (k, d')) ∉ l) →
  (Z.of_nat (length k) < 2 ^ 32)%Z → (Z.of_nat (length l) + 1 < 2 ^ 32)%Z →
  (∀ t, tbl s = Some t → log2_num_buckets t = 31%Z → F) →
  wpm (insert_str refuses k d p junk) s (λ _ s', repr s' (l ++ [(p, (k, d))]) ∧ same_outside [p] s s').
Proof.
  intros Hr0 Hp Hk Hkl Hsz Hfull. apply wpm_bind. unfold wpm at 1, new_element. rewrite Hp.
  destruct (new_element_ok s l p d junk Hr0 Hp) as ([Hwf1 Hr] & Hpl & Hi). set (s1 := Store _ _ _ _) in *.
  eapply wpm_mono; [apply (uthash_add_ok s1 l.*1 p k); split; [done|by apply live_info; rewrite Hi, lookup_insert_eq|done| |done|by rewrite length_fmap|done]|].
  { intros q Hq (i & Hqi & Hik). apply list_elem_of_fmap in Hq as ([q' [k' d']] & -> & Hin). cbn [fst] in Hqi.
    destruct (Hr _ _ _ Hin) as (i' & Hi' & Hk' & _). simplify_eq. by apply (Hk q' d'). }
  intros _ s2 [Hwf2 Hi2]. split; [split|].
  - by rewrite fmap_app.
  - intros q k' d' [Hin|[= -> -> ->]%list_elem_of_singleton]%elem_of_app.
    + assert (q ≠ p) as Hqp by (intros ->; by apply Hpl, (in_addrs l p (k', d'))).
      rewrite Hi2, lookup_alter_ne by done. by apply Hr.
    + rewrite Hi2, lookup_alter_eq, Hi, lookup_insert_eq. eexists. by split_and!.
  - intros q Hq. rewrite Hi2. assert (q ≠ p) by (intros ->; apply Hq; by left). by rewrite lookup_alter_ne, Hi, lookup_insert_ne.
Qed.

Lemma repr_at s l1 p k d l2 : repr s (l1 ++ (p, (k, d)) :: l2) → p ∉ (l1 ++ l2).*1.
Proof.
  intros [Hwf%wf_nodup _]. rewrite fmap_app, fmap_cons in Hwf. rewrite fmap_app, not_elem_of_app.
  apply NoDup_app in Hwf as (_ & Hd & [Hp _]%NoDup_cons). split; [|done]. intros H1. apply (Hd p H1). by left.
Qed.

Lemma remove_ok s l1 p k d l2 :
  repr s (l1 ++ (p, (k, d)) :: l2) →
  wpm (remove p) s (λ _ s', repr s' (l1 ++ l2) ∧ mem s' !! p = None ∧ same_outside [p] s s').
Proof.
  intros Hr. pose proof (repr_at _ _ _ _ _ _ Hr) as Hp. destruct Hr as [Hwf Hr]. rewrite fmap_app, fmap_cons in Hwf.
  apply wpm_bind. eapply wpm_mono; [by apply delete_ok|]. intros _ s1 [Hwf1 Hi1]. rewrite <- fmap_app in Hwf1.
  assert (is_Some (mem s1 !! p)) as [e He].
  { apply live_info. rewrite Hi1. destruct (Hr p k d) as (i & Hi & _); [|by exists i]. apply elem_of_app. right. by left. }
  unfold wpm, free_element. rewrite He. set (s2 := Store _ _ _ _).
  assert (Hinf : ∀ q, q ≠ p → infos (mem s2) !! q = infos (mem s) !! q).
  { intros q Hq. rewrite <- Hi1. unfold infos. cbn. by rewrite !lookup_fmap, lookup_delete_ne. }
  assert (Hne : ∀ q, q ∈ (l1 ++ l2).*1 → q ≠ p) by (intros q Hq ->; done).
  split; [split|split].
  - eapply wf_frame; [done|done|done| | |]; intros q.
    + intros Hq%Hne. unfold app_view. cbn. by rewrite !lookup_fmap, lookup_delete_ne.
    + intros Hq%Hne. unfold bkt_view. cbn. by rewrite !lookup_fmap, lookup_delete_ne.
    + intros i Hq%Hne Hqi. exists (i_data i). rewrite Hinf by done. rewrite <- Hi1, Hqi. by destruct i.
  - intros q k' d' Hin. rewrite Hinf by (by eapply Hne, in_addrs). apply Hr.
    apply elem_of_app in Hin as [?|?]; apply elem_of_app; [by left|by do 2 right].
  - cbn. by rewrite lookup_delete_eq.
  - intros q Hq. apply Hinf. intros ->. apply Hq. by left.
Qed.

Lemma set_data_ok s l1 p k d l2 d' :
  repr s (l1 ++ (p, (k, d)) :: l2) →
  wpm (set_data p d') s (λ _ s', repr s' (l1 ++ (p, (k, d')) :: l2) ∧ same_outside [p] s s').
Proof.
  intros Hr. pose proof (repr_at _ _ _ _ _ _ Hr) as Hp. destruct Hr as [Hwf Hr].
  destruct (Hr p k d) as (i & Hi & Hik & Hid); [apply elem_of_app; right; by left|].
  pose proof Hi as Hi'. unfold infos in Hi'. rewrite lookup_fmap in Hi'. destruct (mem s !! p) as [e|] eqn:He; [|done].
  cbn in Hi'. simplify_eq. unfold wpm, set_data. rewrite He. set (s1 := Store _ _ _ _).
  assert (Ha : app_view (mem s1) = app_view (mem s)).
  { apply map_eq. intros q. unfold app_view. cbn. rewrite !lookup_fmap. destruct (decide (q = p)) as [->|];
      [by rewrite lookup_insert_eq, He|by rewrite lookup_insert_ne]. }
  assert (Hb : bkt_view (mem s1) = bkt_view (mem s)).
  { apply map_eq. intros q. unfold bkt_view. cbn. rewrite !lookup_fmap. destruct (decide (q = p)) as [->|];
      [by rewrite lookup_insert_eq, He|by rewrite lookup_insert_ne]. }
  assert (Hself : infos (mem s1) !! p = Some (Info d' (key (hh e)) (keylen (hh e)) (hashv (hh e)))).
  { unfold infos. cbn. by rewrite lookup_fmap, lookup_insert_eq. }
  assert (Hinf : ∀ q, q ≠ p → infos (mem s1) !! q = infos (mem s) !! q).
  { intros q Hq. unfold infos. cbn. by rewrite !lookup_fmap, lookup_insert_ne. }
  split; [split|].
  - rewrite fmap_app, fmap_cons in Hwf |- *.
    eapply wf_frame; [done|done|done| | |]; intros q; [by rewrite Ha|by rewrite Hb|].
    intros i _ Hqi. destruct (decide (q = p)) as [->|Hq].
    + rewrite Hself. exists d'. by simplify_eq.
    + exists (i_data i). rewrite Hinf by done. rewrite Hqi. by destruct i.
  - intros q k' d'' Hin. destruct (decide (q = p)) as [->|Hq].
    + rewrite Hself. eexists. split; [done|]. cbn.
      apply elem_of_app in Hin as [Hin|[[= <- <-]|Hin]%elem_of_cons]; [|done|].
      * destruct Hp. rewrite fmap_app. apply elem_of_app. left. by eapply in_addrs.
      * destruct Hp. rewrite fmap_app. apply elem_of_app. right. by eapply in_addrs.
    + rewrite Hinf by done. apply Hr. apply elem_of_app in Hin as [?|[?|?]%elem_of_cons]; apply elem_of_app;
        [by left|by simplify_eq|by do 2 right].
  - intros q Hq. apply Hinf. intros ->. apply Hq. by left.
Qed.

Lemma gone m p : infos m !! p = None ↔ m !! p = None.
Proof. unfold infos. rewrite lookup_fmap. by destruct (m !! p). Qed.

Lemma iter_remove_ok s l fuel :
  repr s l → length l < fuel →
  wpm (iter_from fuel (first l.*1 None) remove) s (λ _ s', repr s' [] ∧ (∀ p, p ∈ l.*1 → mem s' !! p = None) ∧
    same_outside l.*1 s s').
Proof.
  revert s fuel. induction l as [|[p [k d]] l IH]; intros s fuel Hr Hf; cbn [fmap list_fmap first fst].
  { destruct fuel; apply wpm_pure; (split_and!; [done|by intros ? ?%not_elem_of_nil|done]). }
  destruct fuel as [|fuel]; [cbn in Hf; lia|]. cbn [iter_from].
  destruct (handle_at (mem s) [] p l.*1) as (e & He & _ & Hnx); [apply Hr|].
  apply wpm_bind. eapply wpm_get_hh; [done|]. rewrite Hnx. apply wpm_bind.
  eapply wpm_mono; [apply (remove_ok s [] p k d l Hr)|]. intros _ s1 (Hr1 & Hg1 & Ho1).
  eapply wpm_mono; [apply IH; [done|cbn in Hf; lia]|]. intros _ s2 (Hr2 & Hg2 & Ho2).
  pose proof (repr_at _ [] _ _ _ _ Hr) as Hp. cbn in Hp.
  split_and!; [done| |].
  - intros q [->|Hq]%elem_of_cons; [|by apply Hg2]. apply gone. rewrite Ho2 by done. by apply gone.
  - intros q [Hq1 Hq2]%not_elem_of_cons. rewrite Ho2, Ho1; [done| |done]. by intros ->%list_elem_of_singleton.
Qed.

Lemma cleanup_ok s l :
  repr s l →
  wpm cleanup s (λ _ s', repr s' [] ∧ (∀ p, p ∈ l.*1 → mem s' !! p = None) ∧ same_outside l.*1 s s').
Proof.
  intros Hr. apply wpm_bind. change (wpm walk_fuel s ?Q) with (Q (S (size (mem s))) s). cbv beta.
  apply wpm_bind, wpm_get_head. rewrite (w_head _ _ (proj1 Hr)). apply iter_remove_ok; [done|].
  pose proof (w_app _ _ (proj1 Hr)) as Hdl. rewrite <- (length_fmap fst l).
  assert (length l.*1 <= size (mem s)); [|lia].
  apply length_live; [apply Hdl|]. intros q Hq. apply live_views_app. by apply (dl_live _ _ _ Hdl).
Qed.

Lemma cnt_repr s l : repr s l → wpm HASH_CNT s (λ r s', s' = s ∧ r = Z.of_nat (length l)).
Proof. intros Hr. rewrite <- (length_fmap fst l). apply cnt_ok, Hr. Qed.

Lemma repr_empty s : tbl s = None → head s = None → repr s [].
Proof. split; [by apply wf_empty|]. by intros ? ? ? ?%not_elem_of_nil. Qed.

Lemma clear_repr s l : repr s l → wpm HASH_CLEAR s (λ _ s', repr s' [] ∧ mem s' = mem s).
Proof.
  intros Hr. eapply wpm_mono; [by eapply clear_ok, Hr|]. intros _ s' [Hwf Hm]. split; [|done].
  split; [done|]. by intros ? ? ? ?%not_elem_of_nil.
Qed.
End proofs.
