(* ===== verification/UthashTable.v ===== *)
(** * The hash table of uthash.h: what it promises, and the server on it

    [uthash_correct] gives the contract of the macros; the instance of
    [StrTable] makes of them a table for the key-value server of KvServer. *)
From Stdlib Require Import ZArith Lia Ascii String.
From stdpp Require Import base gmap strings list fin_maps.
From S2P Require Import Prelude Prog CString Posix KvServer DList Uthash UthashInv.

(** When an insertion may end the program: a block of less than 2^36 bytes is
    refused, or the table has its 2^31 buckets (twice as many are 2^36 bytes). *)
Definition no_room {V} (refuses : nat → Z → bool) (s : @store V) : Prop :=
  (∃ n z, (z < 2 ^ 36)%Z ∧ refuses n z = true) ∨ (∃ t, tbl s = Some t ∧ log2_num_buckets t = 31%Z).

(** C3: the hash table of uthash.h.  A table with no element represents the empty
    sequence; for a table that represents the sequence [l] of entries (address,
    key, data), [HASH_FIND_STR] finds the entry of a key and changes nothing;
    the insertion of a new key appends its entry, and can only fail when there
    is [no_room]; [HASH_DEL] and [free] take any entry out, a store through a
    pointer changes its data; [HASH_COUNT] is the length of [l], the check
    [HASH_FSCK] of a debug build reports nothing; [HASH_CLEAR] empties the
    table and the server's clean-up also frees every element.  Nothing else in
    the heap changes, and no operation follows a dangling pointer or loops:
    for all hash values, chains and expansions of the buckets. *)
Theorem uthash_correct {V} (refuses : nat → Z → bool) (s : @store V) (l : list (nat * (bytes * V)))
    (k : bytes) (d : V) (p : nat) (junk : UT_hash_handle) :
  (∀ n z, (2 ^ 36 <= z)%Z → refuses n z = true) →
  (tbl s = None ∧ head s = None ∧ l = [] ∨ repr s l) → (Z.of_nat (length k) < 2 ^ 32)%Z →
  wpm False (HASH_FIND_STR k) s (λ r s', s' = s ∧ ∀ q, r = Some q ↔ ∃ d, (q, (k, d)) ∈ l) ∧
  (mem s !! p = None → (∀ q d', (q, (k, d')) ∉ l) → (Z.of_nat (length l) + 1 < 2 ^ 32)%Z →
   wpm (no_room refuses s) (insert_str refuses k d p junk) s (λ _ s', repr s' (l ++ [(p, (k, d))]) ∧ same_outside [p] s s')) ∧
  (∀ l1 q k' d' l2, l = l1 ++ (q, (k', d')) :: l2 →
   wpm False (remove q) s (λ _ s', repr s' (l1 ++ l2) ∧ mem s' !! q = None ∧ same_outside [q] s s') ∧
   wpm False (set_data q d) s (λ _ s', repr s' (l1 ++ (q, (k', d)) :: l2) ∧ same_outside [q] s s')) ∧
  wpm False HASH_CNT s (λ r s', s' = s ∧ r = Z.of_nat (length l)) ∧
  wpm False HASH_FSCK s (λ r s', s' = s ∧ r = true) ∧
  wpm False HASH_CLEAR s (λ _ s', repr s' [] ∧ mem s' = mem s) ∧
  wpm False cleanup s (λ _ s', repr s' [] ∧ (∀ q, q ∈ l.*1 → mem s' !! q = None) ∧ same_outside l.*1 s s').
Proof.
  intros Hbig Hr0 Hk. assert (Hr : repr s l) by (destruct Hr0 as [(? & ? & ->)|?]; [by apply repr_empty|done]).
  split_and!.
  - by apply find_repr.
  - intros Hp Hnew Hsz. apply uthash_insert_ok; [|done..|].
    + intros n z Hz Hn. left. eauto.
    + intros t Ht Hlog. right. eauto.
  - intros l1 q k' d' l2 ->. split; [by eapply remove_ok|by eapply set_data_ok].
  - by apply cnt_repr.
  - eapply fsck_ok, Hr.
  - by apply clear_repr with l.
  - by apply cleanup_ok.
Qed.

(** ** A table for the server *)

Definition no_table {V} : @store V := Store ∅ None None 0.
Definition blank : UT_hash_handle := Handle None None None None [] 0 0.

(** The keys of the entries are apart. *)
Lemma keys_nodup {V} (s : @store V) l : repr s l → NoDup l.*2.*1.
Proof.
  intros [Hwf Hr]. apply NoDup_alt. intros i j k Hi Hj.
  rewrite !list_lookup_fmap in Hi, Hj.
  destruct (l !! i) as [[p [k1 d1]]|] eqn:Ei; [|done]. destruct (l !! j) as [[q [k2 d2]]|] eqn:Ej; [|done].
  cbn in Hi, Hj. simplify_eq. pose proof (list_elem_of_lookup_2 _ _ _ Ei) as Hp. pose proof (list_elem_of_lookup_2 _ _ _ Ej) as Hq.
  destruct (Hr _ _ _ Hp) as (x & Hx & Kx & _), (Hr _ _ _ Hq) as (y & Hy & Ky & _).
  assert (p = q) as ->.
  { eapply (w_unique _ _ Hwf); [by eapply in_addrs|by eapply in_addrs|done..|congruence]. }
  apply (proj1 (NoDup_alt l.*1) (wf_nodup _ _ Hwf) i j q); by rewrite list_lookup_fmap, ?Ei, ?Ej.
Qed.

Definition set_entry {V} (p : nat) (d : V) (l : list (nat * (bytes * V))) : list (nat * (bytes * V)) :=
  (λ x, if decide (x.1 = p) then (p, (x.2.1, d)) else x) <$> l.
Definition del_entry {V} (p : nat) (l : list (nat * (bytes * V))) : list (nat * (bytes * V)) :=
  filter (λ x, x.1 ≠ p) l.

Lemma set_entry_split {V} (s : @store V) l1 p k d d' l2 :
  repr s (l1 ++ (p, (k, d)) :: l2) → set_entry p d' (l1 ++ (p, (k, d)) :: l2) = l1 ++ (p, (k, d')) :: l2.
Proof.
  intros Hp%repr_at. rewrite fmap_app, not_elem_of_app in Hp. destruct Hp as [H1 H2].
  assert (Hid : ∀ l : list (nat * (bytes * V)), p ∉ l.*1 → set_entry p d' l = l).
  { intros l. induction l as [|[q x] l IH]; [done|]. intros [Hq Hl]%not_elem_of_cons. cbn in Hq |- *.
    rewrite decide_False by congruence. f_equal. by apply IH. }
  unfold set_entry in *. rewrite fmap_app, fmap_cons. cbn. rewrite decide_True by done. by rewrite !Hid.
Qed.

Lemma del_entry_split {V} (s : @store V) l1 p k d l2 :
  repr s (l1 ++ (p, (k, d)) :: l2) → del_entry p (l1 ++ (p, (k, d)) :: l2) = l1 ++ l2.
Proof.
  intros Hp%repr_at. rewrite fmap_app, not_elem_of_app in Hp. destruct Hp as [H1 H2].
  assert (Hid : ∀ l : list (nat * (bytes * V)), p ∉ l.*1 → del_entry p l = l).
  { intros l. induction l as [|[q x] l IH]; [done|]. intros [Hq Hl]%not_elem_of_cons. cbn in Hq |- *. unfold del_entry.
    rewrite decide_True by (cbn; congruence). f_equal. by apply IH. }
  unfold del_entry in *. rewrite filter_app, filter_cons_False by (cbn; tauto). by rewrite !Hid.
Qed.

Lemma entry_split {V} (l : list (nat * (bytes * V))) p : p ∈ l.*1 → ∃ l1 k d l2, l = l1 ++ (p, (k, d)) :: l2.
Proof.
  intros ([q [k d]] & -> & (l1 & l2 & ->)%list_elem_of_split)%list_elem_of_fmap. by exists l1, k, d, l2.
Qed.

Section table.
Context (refuses : nat → Z → bool) (Hbig : ∀ n z, (2 ^ 36 <= z)%Z → refuses n z = true).

(** A table, with the entries it represents. *)
Record table := MkTable { u_store : @store KeyValue; u_entries : list (nat * (bytes * KeyValue)); u_ok : repr u_store u_entries }.

(** The table an operation leaves, when it ends. *)
Definition after {F} (p : M unit) (s : store) l (H : wpm F p s (λ _ s', repr s' l)) : option table :=
  match p s as r return (match r with Ok _ _ s' => repr s' l | Fatal _ => F | Bad _ => False end → option table) with
  | Ok _ _ s' => λ Hr, Some (MkTable s' l Hr)
  | _ => λ _, None
  end H.

Lemma after_spec {F} p s l (H : wpm F p s (λ _ s', repr s' l)) :
  match after p s l H with Some t => u_entries t = l | None => F end.
Proof. unfold after. revert H. unfold wpm. by destruct (p s). Qed.

(** The state of the allocator for which there is room for a new entry. *)
Definition room_for (k : bytes) (t : table) : Prop :=
  length k < KEY_SIZE ∧ (Z.of_nat (length (u_entries t)) + 1 < 2 ^ 32)%Z ∧ k ∉ (u_entries t).*2.*1.

Definition new_addr (t : table) : nat := fresh (dom (mem (u_store t)) : gset nat).

Lemma insert_table k e t : room_for k t →
  wpm (no_room refuses (u_store t)) (insert_str refuses k e (new_addr t) blank) (u_store t)
    (λ _ s', repr s' (u_entries t ++ [(new_addr t, (k, e))])).
Proof.
  intros (Hk & Hsz & Hnew). eapply wpm_mono; [apply uthash_insert_ok|by intros _ s' [? _]].
  - intros n z Hz Hn. left. eauto.
  - done.
  - apply u_ok.
  - apply (not_elem_of_dom (D := gset nat)). exact (is_fresh (dom (mem (u_store t)) : gset nat)).
  - intros q d' Hin. apply Hnew. apply list_elem_of_fmap. exists (k, d'). split; [done|].
    apply list_elem_of_fmap. by exists (q, (k, d')).
  - unfold KEY_SIZE in Hk. lia.
  - done.
  - intros tb Ht Hlog. right. eauto.
Qed.

Lemma store_table p e t : p ∈ (u_entries t).*1 →
  wpm False (set_data p e) (u_store t) (λ _ s', repr s' (set_entry p e (u_entries t))).
Proof.
  destruct t as [s l Hr]. cbn [u_entries u_store]. intros (l1 & k & d & l2 & ->)%entry_split. rewrite (set_entry_split s) by done.
  eapply wpm_mono; [by eapply set_data_ok|by intros _ s' [? _]].
Qed.

Lemma remove_table p t : p ∈ (u_entries t).*1 →
  wpm False (remove p) (u_store t) (λ _ s', repr s' (del_entry p (u_entries t))).
Proof.
  destruct t as [s l Hr]. cbn [u_entries u_store]. intros (l1 & k & d & l2 & ->)%entry_split. rewrite (del_entry_split s) by done.
  eapply wpm_mono; [by eapply remove_ok|by intros _ s' [? _]].
Qed.

Definition found (k : bytes) (t : table) : option nat :=
  match HASH_FIND_STR k (u_store t) with Ok _ r _ => r | _ => None end.

#[global] Instance room_for_dec k t : Decision (room_for k t).
Proof. unfold room_for. apply _. Defined.

#[export] Instance uthash_table : StrTable table := {
  t_empty := MkTable no_table [] (repr_empty no_table eq_refl eq_refl);
  t_find k t := match found k t with
    | Some p => match get_data p (u_store t) with Ok _ d _ => Some d | _ => None end
    | None => None
    end;
  t_add k e t := match decide (room_for k t) with
    | left H => after _ _ _ (insert_table k e t H)
    | right _ => None
    end;
  t_store k e t := match found k t with
    | Some p => match decide (p ∈ (u_entries t).*1) with
        | left H => default t (after _ _ _ (store_table p e t H))
        | right _ => t
        end
    | None => t
    end;
  t_del k t := match found k t with
    | Some p => match decide (p ∈ (u_entries t).*1) with
        | left H => default t (after _ _ _ (remove_table p t H))
        | right _ => t
        end
    | None => t
    end;
  t_keys t := (u_entries t).*2.*1 }.

Lemma found_spec k t p : (Z.of_nat (length k) < 2 ^ 32)%Z → found k t = Some p ↔ ∃ d, (p, (k, d)) ∈ u_entries t.
Proof.
  intros Hk. pose proof (find_repr False _ _ k (u_ok t) Hk) as H. unfold found, wpm in *.
  destruct (HASH_FIND_STR k (u_store t)); [|done..]. apply H.
Qed.

(** The content of a table. *)
Definition content (t : table) : gmap bytes KeyValue := list_to_map (u_entries t).*2.

Lemma content_spec t k e : content t !! k = Some e ↔ ∃ p, (p, (k, e)) ∈ u_entries t.
Proof.
  unfold content. rewrite <- elem_of_list_to_map by (eapply keys_nodup, u_ok). rewrite list_elem_of_fmap. split.
  - intros ([p x] & E & H). cbn in E. subst. eauto.
  - intros [p H]. by exists (p, (k, e)).
Qed.

Lemma content_none t k : content t !! k = None ↔ k ∉ (u_entries t).*2.*1.
Proof. symmetry. apply not_elem_of_list_to_map. Qed.

(** The key of an entry can be found. *)
Lemma content_found t k e : content t !! k = Some e → ∃ l1 p l2, u_entries t = l1 ++ (p, (k, e)) :: l2 ∧ found k t = Some p.
Proof.
  intros [p H]%content_spec. pose proof H as (l1 & l2 & E)%list_elem_of_split. exists l1, p, l2. split; [done|].
  apply found_spec; [|eauto]. destruct (proj2 (u_ok t) _ _ _ H) as (i & Hi & <- & _).
  destruct (w_entry _ _ (proj1 (u_ok t)) p) as (i' & Hi' & E1 & E2 & _); [by eapply in_addrs|]. simplify_eq. lia.
Qed.

Lemma middle_addr {A} l1 (p : nat) (x : A) l2 : p ∈ (l1 ++ (p, x) :: l2).*1.
Proof. rewrite fmap_app. apply elem_of_app. right. by left. Qed.

(** The table is full: there is no room, or it would have 2^32 elements. *)
Definition full (t : table) : Prop :=
  no_room refuses (u_store t) ∨ (2 ^ 32 <= Z.of_nat (length (u_entries t)) + 1)%Z.

Lemma map_of_middle {A} (l1 : list (nat * (bytes * A))) p k d l2 :
  NoDup (l1 ++ (p, (k, d)) :: l2).*2.*1 →
  (list_to_map (l1 ++ (p, (k, d)) :: l2).*2 : gmap bytes A) = <[k := d]> (list_to_map (l1 ++ l2).*2) ∧
  (list_to_map (l1 ++ l2).*2 : gmap bytes A) !! k = None.
Proof.
  rewrite !fmap_app, !fmap_cons. cbn [fst snd]. intros Hnd.
  assert (Hp : l1.*2 ++ (k, d) :: l2.*2 ≡ₚ (k, d) :: l1.*2 ++ l2.*2) by (symmetry; apply Permutation_middle).
  split.
  - rewrite (list_to_map_proper _ ((k, d) :: l1.*2 ++ l2.*2)); [done| |exact Hp]. by rewrite fmap_app, fmap_cons.
  - apply not_elem_of_list_to_map. rewrite fmap_app. rewrite <- Permutation_middle in Hnd.
    by apply NoDup_cons in Hnd as [? _].
Qed.

#[export] Instance uthash_table_laws : @StrTableLaws table uthash_table.
Proof.
  refine {| t_map := content; t_full := full |}; cbn [t_empty t_find t_add t_store t_del t_keys uthash_table].
  - done.
  - intros k t Hk. destruct (content t !! k) as [e|] eqn:E.
    + destruct (content_found _ _ _ E) as (l1 & p & l2 & El & ->).
      assert (Hin : (p, (k, e)) ∈ u_entries t) by (rewrite El; apply elem_of_app; right; by left).
      destruct (proj2 (u_ok t) _ _ _ Hin) as (i & Hi & _ & <-). unfold infos in Hi. rewrite lookup_fmap in Hi.
      unfold get_data. destruct (mem (u_store t) !! p); [|done]. cbn in Hi. by simplify_eq.
    + destruct (found k t) as [p|] eqn:F; [|done]. apply found_spec in F as [d Hd]; [|unfold KEY_SIZE in Hk; lia].
      assert (content t !! k = Some d) as E' by (apply content_spec; eauto). by rewrite E in E'.
  - intros k e t Hk Hn. apply content_none in Hn. destruct (decide (room_for k t)) as [H|Hr].
    + pose proof (after_spec _ _ _ (insert_table k e t H)) as Ha. destruct (after _ _ _ _) as [t'|]; [|by left].
      unfold content. rewrite Ha. pose proof (keys_nodup _ _ (u_ok t')) as Hnd. rewrite Ha in Hnd.
      rewrite (proj1 (map_of_middle _ _ _ _ _ Hnd)), app_nil_r. done.
    + right. destruct (decide (2 ^ 32 <= Z.of_nat (length (u_entries t)) + 1)%Z); [done|]. destruct Hr. split_and!; [done|lia|done].
  - intros k e t [e0 E]. destruct (content_found _ _ _ E) as (l1 & p & l2 & El & ->).
    destruct (decide _) as [H|H]; [|destruct H; rewrite El; apply middle_addr].
    pose proof (after_spec _ _ _ (store_table p e t H)) as Ha. destruct (after _ _ _ _) as [t'|]; [|done]. cbn [default from_option id].
    pose proof (u_ok t) as Hok. rewrite El in Hok. unfold content. rewrite Ha, El, (set_entry_split _ _ _ _ _ _ _ Hok).
    pose proof (keys_nodup _ _ Hok) as Hnd. rewrite (proj1 (map_of_middle _ _ _ _ _ Hnd)), insert_insert_eq.
    apply map_of_middle. rewrite !fmap_app, !fmap_cons in Hnd |- *. done.
  - intros k t [e0 E]. destruct (content_found _ _ _ E) as (l1 & p & l2 & El & ->).
    destruct (decide _) as [H|H]; [|destruct H; rewrite El; apply middle_addr].
    pose proof (after_spec _ _ _ (remove_table p t H)) as Ha. destruct (after _ _ _ _) as [t'|]; [|done]. cbn [default from_option id].
    pose proof (u_ok t) as Hok. rewrite El in Hok. unfold content. rewrite Ha, El, (del_entry_split _ _ _ _ _ _ Hok).
    pose proof (keys_nodup _ _ Hok) as Hnd. destruct (map_of_middle _ _ _ _ _ Hnd) as [-> Hno]. by rewrite delete_insert_id.
  - intros t. eapply keys_nodup, u_ok.
  - intros t k. rewrite <- not_eq_None_Some, content_none. destruct (decide (k ∈ (u_entries t).*2.*1)); tauto.
Defined.
End table.

(** C5: the key-value server on the table of uthash.h refines the abstract
    store: the composition of [server_main] with the macros it uses.  Its
    replies are those of the store; it stops only with status 1 after a call
    that failed, with -1 when the table is [full], or by undefined behaviour
    for a datagram its buffers cannot hold and for a refused element. *)
Theorem server_on_uthash (refuses : nat → Z → bool) (Hbig : ∀ n z, (2 ^ 36 <= z)%Z → refuses n z = true)
    {W} (K : Prog.kernel posix W) (fuel : nat) (w : W) :
  wp K (server_main (H := uthash_table refuses Hbig) fuel) w (λ r _ tr,
    replies tr = (spec_run ∅ (requests tr)).2 ∧
    match r with
    | Returned _ => False
    | Halted h => h = Cut ∨ h = Exited 1 ∨
        (h = Exited (-1) ∧ ∃ t qs q, full refuses t ∧ requests tr = qs ++ [q] ∧ content t = (spec_run ∅ qs).1) ∨
        (∃ why, h = Undef why) ∧ (out_of_memory tr = true ∨ Exists (λ d, fits d.1 = false) (datagrams tr))
    | Gone => True
    end).
Proof. eapply wp_mono; [apply (server_sim (H0 := uthash_table_laws refuses Hbig) K)|]. intros r w' tr H. exact H. Qed.

(** A heap that gives every block of less than 2^36 bytes. *)
Definition ample : nat → Z → bool := λ _ z, (2 ^ 36 <=? z)%Z.

Lemma ample_big n z : (2 ^ 36 <= z)%Z → ample n z = true.
Proof. intros Hz. by apply Z.leb_le. Qed.

Definition session : list (bytes * string) :=
  [(to_bytes "c:7:color:red", "A"%string); (to_bytes "r:9:color", "B"%string); (to_bytes "d:7:color", "A"%string);
   (to_bytes "r:9:color", "B"%string)].

Lemma server_on_uthash_witness :
  (∀ n z, (2 ^ 36 <= z)%Z → ample n z = true) ∧
  ∃ r w tr, run inbox (server_main (H := uthash_table ample ample_big) 4) session = (r, w, tr) ∧
    replies tr = (spec_run ∅ (requests tr)).2.
Proof.
  split; [exact ample_big|].
  pose proof (server_on_uthash ample ample_big inbox 4 session) as H. unfold wp in H.
  destruct (run inbox _ session) as [[r w] tr]. exists r, w, tr. split; [done|]. apply H.
Defined.

Lemma uthash_correct_witness :
  ∃ s : @store nat, insert_str ample (to_bytes "a") 5 7 blank no_table = Ok _ tt s ∧
    repr s [(7, (to_bytes "a", 5))] ∧
    wpm False (HASH_FIND_STR (to_bytes "a")) s (λ r s', s' = s ∧ ∀ q, r = Some q ↔ ∃ d, (q, (to_bytes "a", d)) ∈ [(7, (to_bytes "a", 5))]).
Proof.
  assert (Hk : (Z.of_nat (length (to_bytes "a")) < 2 ^ 32)%Z) by done.
  destruct (uthash_correct ample no_table [] (to_bytes "a") 5 7 blank ample_big) as (_ & Hins & _); [by left|done|].
  destruct (insert_str ample (to_bytes "a") 5 7 blank no_table) as [[] s| |] eqn:E; [|by vm_compute in E..].
  unfold wpm in Hins. rewrite E in Hins.
  destruct Hins as [Hr _]; [done|by intros ? ? ?%not_elem_of_nil|done|].
  exists s. split; [done|]. split; [exact Hr|].
  apply (uthash_correct ample s _ (to_bytes "a") 0 8 blank ample_big); [by right|done].
Defined.
