(* ===== verification/UthashSort.v ===== *)
(** * Sorting the hash table of uthash.h

    [HASH_SRT], the merge sort of the application's list in place, and the proof
    that it sorts it stably and leaves the table what it was. *)
From Stdlib Require Import ZArith Lia Ascii String.
From stdpp Require Import base gmap strings list fin_maps sorting.
From S2P Require Import Prelude Prog CString DList Uthash UthashInv.
From S2P Require UthashTable.

Section operations.
Context {V : Type}.
Abbreviation store := (@store V).
Abbreviation element := (@element V).
Abbreviation M := (@M V).
(** The comparison of two elements, by their keys and their data. *)
Context (cmpfcn : bytes * V → bytes * V → Z).
Local Open Scope uthash_scope.

Definition get_entry (p : nat) : M (bytes * V) := λ s,
  match mem s !! p with Some e => Ok _ (key (hh e), el_data e) s | None => Bad _ end.

(** The variables of the merge: [_hs_p], [_hs_psize], [_hs_q], [_hs_qsize],
    [_hs_list] and [_hs_tail]. *)
Record merging := Merging { hs_p : ptr; hs_psize : Z; hs_q : ptr; hs_qsize : Z; hs_list : ptr; hs_tail : ptr }.

(** The [for] loop that steps over the first run; [i] counts. *)
Fixpoint hs_split (fuel : nat) (i insize psize : Z) (q : ptr) : M (ptr * Z) :=
  match fuel with
  | O => bad
  | S fuel =>
      if (i <? insize)%Z then
        q <- deref q;;
        h <- get_hh q;;
        match next h with
        | None => pure (None, to_uint (psize + 1))
        | Some _ => hs_split fuel (to_uint (i + 1)) insize (to_uint (psize + 1)) (next h)
        end
      else pure (q, psize)
  end.

(** Which element comes next: [_hs_e], and the variables after it was taken. *)
Definition take_q (m : merging) : M (ptr * merging) :=
  q <- deref (hs_q m);;
  h <- get_hh q;;
  pure (hs_q m, Merging (hs_p m) (hs_psize m) (next h) (to_uint (hs_qsize m - 1)) (hs_list m) (hs_tail m)).

Definition take_p (m : merging) : M (ptr * merging) :=
  p' <- (match hs_p m with Some p => h <- get_hh p;; pure (next h) | None => pure None end);;
  pure (hs_p m, Merging p' (to_uint (hs_psize m - 1)) (hs_q m) (hs_qsize m) (hs_list m) (hs_tail m)).

Definition hs_take (m : merging) : M (ptr * merging) :=
  if (hs_psize m =? 0)%Z then take_q m
  else if (hs_qsize m =? 0)%Z || bool_decide (hs_q m = None) then take_p m
  else
    p <- deref (hs_p m);; x <- get_entry p;;
    q <- deref (hs_q m);; y <- get_entry q;;
    if (cmpfcn x y <=? 0)%Z then take_p m else take_q m.

(** [_hs_e] goes to the end of the list. *)
Definition hs_link (e : ptr) (m : merging) : M merging :=
  (match hs_tail m with Some t => set_hh t (set_next e) | None => pure tt end) ;;;
  (match e with Some e => set_hh e (set_prev (hs_tail m)) | None => pure tt end) ;;;
  pure (Merging (hs_p m) (hs_psize m) (hs_q m) (hs_qsize m)
          (match hs_tail m with Some _ => hs_list m | None => e end) e).

Fixpoint hs_merge (fuel : nat) (m : merging) : M merging :=
  if negb (hs_psize m =? 0)%Z || (negb (hs_qsize m =? 0)%Z && bool_decide (hs_q m ≠ None)) then
    match fuel with
    | O => bad
    | S fuel => r <- hs_take m;; m <- hs_link r.1 r.2;; hs_merge fuel m
    end
  else pure m.

(** One pass: the runs of [insize] elements are merged two by two; the head and
    the tail of the list, and the number of merges. *)
Fixpoint hs_pass (fuel : nat) (insize : Z) (p list tail : ptr) (nmerges : Z) : M (ptr * ptr * Z) :=
  match p with
  | None => pure (list, tail, nmerges)
  | Some _ =>
      match fuel with
      | O => bad
      | S fuel =>
          n <- walk_fuel;;
          r <- hs_split n 0 insize 0 p;;
          m <- hs_merge n (Merging p r.2 r.1 insize list tail);;
          hs_pass fuel insize (hs_q m) (hs_list m) (hs_tail m) (to_uint (nmerges + 1))
      end
  end.

Fixpoint hs_loop (fuel : nat) (insize : Z) (list : ptr) : M unit :=
  match fuel with
  | O => bad
  | S fuel =>
      n <- walk_fuel;;
      r <- hs_pass n insize list None None 0;;
      let '(list, tail, nmerges) := r in
      (match tail with Some t => set_hh t (set_next None) | None => pure tt end) ;;;
      if (nmerges <=? 1)%Z then set_tbl (set_tail tail) ;;; set_head list
      else hs_loop fuel (to_uint (insize * 2)) list
  end.

Definition HASH_SRT : M unit :=
  hd <- get_head;;
  match hd with
  | None => pure tt
  | Some _ => n <- walk_fuel;; hs_loop n 1 hd
  end.
End operations.

(** ** Stable merging *)

Section stable.
Context {A : Type} (R : relation A) `{!∀ x y, Decision (R x y)}.
(** When [R] is a total preorder. *)
Context (P : Prop) (Htotal : P → ∀ x y, R x y ∨ R y x) (Htrans : P → ∀ x y z, R x y → R y z → R x z).
(** The order of the elements before the sort. *)
Context (before : relation A).

(** Sorted, and elements that compare equal are in the order they had. *)
Definition keeps (x y : A) : Prop := R x y ∧ (R y x → before x y).

Lemma list_merge_stable l1 l2 : P →
  StronglySorted keeps l1 → StronglySorted keeps l2 → (∀ x y, x ∈ l1 → y ∈ l2 → before x y) →
  StronglySorted keeps (list_merge R l1 l2).
Proof.
  intros HP. specialize (Htotal HP). specialize (Htrans HP).
  revert l2. induction l1 as [|x l1 IH1]; intros l2 H1 H2 Hb; [by destruct l2|].
  induction l2 as [|y l2 IH2]; [done|]. cbn [list_merge].
  apply StronglySorted_cons in H1 as [Hx H1], H2 as [Hy H2]. rewrite Forall_forall in Hx, Hy.
  destruct (decide (R x y)) as [Hxy|Hxy].
  - apply StronglySorted_cons. split.
    + apply Forall_forall. intros z. rewrite (merge_Permutation R l1 (y :: l2)), elem_of_app.
      intros [Hz|Hz]; [by apply Hx|]. assert (R x z) as Hxz.
      { apply elem_of_cons in Hz as [->|Hz]; [done|]. eapply Htrans; [done|]. by apply Hy. }
      split; [done|]. intros _. apply Hb; [by left|done].
    + apply IH1; [done|by apply StronglySorted_cons; rewrite Forall_forall|]. intros a b Ha Hbb. apply Hb; [by right|done].
  - assert (R y x) as Hyx by (destruct (Htotal x y); done). apply StronglySorted_cons. split.
    + apply Forall_forall. intros z. change (_ ∈ _) with (z ∈ list_merge R (x :: l1) l2).
      rewrite (merge_Permutation R (x :: l1) l2), elem_of_app. intros [Hz|Hz]; [|by apply Hy].
      assert (R x z) as Hxz.
      { apply elem_of_cons in Hz as [->|Hz]; [by destruct (Htotal x x)|]. by apply Hx. }
      split; [by eapply Htrans|]. intros Hzy. destruct Hxy. by eapply Htrans.
    + apply IH2; [done|]. intros a b Ha Hbb. apply Hb; [done|by right].
Qed.

(** Runs of [n] elements, the last of which may be shorter, and their merging two
    by two. *)
Fixpoint shaped (n : nat) (cs : list (list A)) : Prop :=
  match cs with
  | [] => True
  | [c] => 0 < length c ≤ n
  | c :: cs' => length c = n ∧ shaped n cs'
  end.

Fixpoint pairs (f : list A → list A → list A) (cs : list (list A)) : list (list A) :=
  match cs with
  | c1 :: c2 :: cs' => f c1 c2 :: pairs f cs'
  | _ => cs
  end.

(** Induction two runs at a time. *)
Lemma pairs_ind (X : list (list A) → Prop) :
  X [] → (∀ c, X [c]) → (∀ c1 c2 cs, X cs → X (c1 :: c2 :: cs)) → ∀ cs, X cs.
Proof.
  intros H0 H1 H2 cs. enough (X cs ∧ ∀ c, X (c :: cs)) as [HP _] by exact HP.
  induction cs as [|c cs [IH1 IH2]]; [by split|]. split; [by apply IH2|]. intros c'. by apply H2.
Qed.

Lemma length_merge l1 l2 : length (list_merge R l1 l2) = length l1 + length l2.
Proof. by rewrite (Permutation_length (merge_Permutation R l1 l2)), length_app. Qed.

Lemma pairs_shaped n cs : 0 < n → shaped n cs → shaped (n * 2) (pairs (list_merge R) cs).
Proof.
  intros Hn. induction cs as [|c|c1 c2 cs IH] using pairs_ind; [done|cbn; lia|].
  cbn [pairs]. intros Hs. assert (length c1 = n ∧ (cs = [] → 0 < length c2 ≤ n) ∧ (cs ≠ [] → length c2 = n) ∧ shaped n cs) as (H1 & H2 & H3 & Hcs).
  { destruct Hs as [H1 Hs]. destruct cs as [|c cs]; [done|]. destruct Hs as [H2 Hs]. by split_and!. }
  specialize (IH Hcs). destruct cs as [|c cs]; [cbn; rewrite length_merge; specialize (H2 eq_refl); lia|].
  assert (length (list_merge R c1 c2) = n * 2) as Hl by (rewrite length_merge, H3 by done; lia).
  destruct (pairs _ (c :: cs)) as [|d ds] eqn:E; [by destruct cs|]. by split.
Qed.

Lemma pairs_length f cs : length (pairs f cs) = (length cs + 1) / 2.
Proof.
  induction cs as [|c|c1 c2 cs IH] using pairs_ind; [done..|]. cbn [pairs length]. rewrite IH.
  replace (S (S (length cs)) + 1) with (1 * 2 + (length cs + 1)) by lia. by rewrite Nat.div_add_l.
Qed.

(** Each run is a permutation, sorted if [R] is an order, of its piece of the list, in order. *)
Definition run_of (o c : list A) : Prop := c ≡ₚ o ∧ (P → StronglySorted keeps c).

Definition ordered (l : list A) : Prop := ∀ l1 l2 x y, l = l1 ++ l2 → x ∈ l1 → y ∈ l2 → before x y.

Lemma pairs_runs os cs : Forall2 run_of os cs → ordered (concat os) → Forall2 run_of (pairs (++) os) (pairs (list_merge R) cs).
Proof.
  revert cs. induction os as [|o|o1 o2 os IH] using pairs_ind; intros cs Hos Hb.
  - apply Forall2_nil_inv_l in Hos as ->. constructor.
  - apply Forall2_cons_inv_l in Hos as (c & cs' & Hc & ->%Forall2_nil_inv_l & ->).
    constructor; [done|constructor].
  - apply Forall2_cons_inv_l in Hos as (c1 & cs1 & [P1 S1] & Hos & ->). apply Forall2_cons_inv_l in Hos as (c2 & cs2 & [P2 S2] & Hos & ->).
    cbn [pairs]. constructor.
    + split; [by rewrite merge_Permutation, P1, P2|]. intros HP. apply list_merge_stable; [done|by apply S1|by apply S2|]. intros x y. rewrite P1, P2.
      intros Hx Hy. apply (Hb o1 (o2 ++ concat os)); [done..|]. apply elem_of_app. by left.
    + apply IH; [done|]. intros l1 l2 x y E Hx Hy. apply (Hb (o1 ++ o2 ++ l1) l2); [|by do 2 (apply elem_of_app; right)|done].
      cbn. by rewrite E, !app_assoc.
Qed.

Lemma pairs_concat os : concat (pairs (++) os) = concat os.
Proof. induction os as [|o|o1 o2 os IH] using pairs_ind; [done..|]. cbn [pairs concat]. by rewrite IH, app_assoc. Qed.
End stable.

(** ** The list while it is merged *)

(** The nodes [l] are linked by their [next] pointers, the last to [post]. *)
Fixpoint nexts (m : links) (l : list nat) (post : option nat) : Prop :=
  match l with
  | [] => True
  | p :: l' => (∃ o, m !! p = Some (o, first l' post)) ∧ nexts m l' post
  end.

Lemma seg_nexts m pre l post : seg m pre l post → nexts m l post.
Proof. revert pre. induction l as [|p l IH]; intros pre; cbn; [done|]. intros [Hp Hl]. split; [eauto|by eapply IH]. Qed.

Lemma nexts_frame m m' l post : (∀ p, p ∈ l → snd <$> m' !! p = snd <$> m !! p) → nexts m l post → nexts m' l post.
Proof.
  induction l as [|p l IH]; intros Hm; cbn; [done|]. intros [[o Hp] Hl]. split.
  - specialize (Hm p ltac:(by left)). rewrite Hp in Hm. destruct (m' !! p) as [[o' q]|]; [|done]. cbn in Hm. simplify_eq. eauto.
  - apply IH; [|done]. intros q Hq. apply Hm. by right.
Qed.

Lemma nexts_app m l1 l2 post : nexts m (l1 ++ l2) post ↔ nexts m l1 (first l2 post) ∧ nexts m l2 post.
Proof. induction l1 as [|p l1 IH]; cbn; [tauto|]. rewrite IH, first_app. tauto. Qed.

(** [with_next] and [with_prev] of the nodes of another list. *)
Lemma next_of_with_next o v m p : o ≠ Some p → snd <$> with_next o v m !! p = snd <$> m !! p.
Proof. intros Hp. by rewrite with_next_other. Qed.
Lemma next_of_with_prev o v m p : snd <$> with_prev o v m !! p = snd <$> m !! p.
Proof.
  destruct o as [q|]; [|done]. cbn. destruct (decide (q = p)) as [->|Hq].
  - rewrite lookup_alter_eq. by destruct (m !! p).
  - by rewrite lookup_alter_ne.
Qed.

(** The node [e] is put behind the list [out]. *)
Lemma link_out m out e post x :
  NoDup (out ++ [e]) → seg m None out post → m !! e = Some x →
  seg (with_prev (Some e) (final out None) (with_next (final out None) (Some e) m)) None (out ++ [e]) x.2.
Proof.
  intros (Hnd & Hd & _)%NoDup_app Hout He. assert (He' : e ∉ out) by (intros Hin; apply (Hd e Hin); by left).
  apply seg_app. split.
  - eapply seg_frame; [|by apply seg_set_next with (post := post)]. intros p Hp.
    apply with_prev_other. intros [= ->]. done.
  - cbn. split; [|done]. rewrite lookup_alter_eq, with_next_other by (by intros ?%final_elem). by rewrite He.
Qed.

Section proofs.
Context {V : Type} (cmpfcn : bytes * V → bytes * V → Z).
Abbreviation store := (@store V).
Abbreviation wps := (wpm False).

(** The order of the nodes of a heap, given by their entries. *)
Definition entry_at (s : store) (p : nat) : option (bytes * V) := (λ i, (i_key i, i_data i)) <$> infos (mem s) !! p.
Definition le (s : store) (p q : nat) : Prop :=
  match entry_at s p, entry_at s q with
  | Some x, Some y => (cmpfcn x y <= 0)%Z
  | Some _, None => False
  | None, _ => True
  end.

#[global] Instance le_dec s p q : Decision (le s p q).
Proof. unfold le. destruct (entry_at s p), (entry_at s q); apply _. Defined.

(** The heap while it is sorted: [out] is the list made so far, [xs] the first
    run, [qs] the rest of the old list; only the list's pointers have changed. *)
Record heap_ok (s0 s : store) (out xs qs : list nat) : Prop := HeapOk {
  ho_same : s = with_mem s0 (mem s);
  ho_bkt : bkt_view (mem s) = bkt_view (mem s0);
  ho_info : infos (mem s) = infos (mem s0);
  ho_nodup : NoDup (out ++ xs ++ qs);
  ho_out : ∃ post, seg (app_view (mem s)) None out post;
  ho_xs : ∃ post, nexts (app_view (mem s)) xs post;
  ho_qs : nexts (app_view (mem s)) qs None }.

(** The variables; [j] elements of the second run are left. *)
Record vars_ok (out xs qs : list nat) (j : nat) (m : merging) : Prop := VarsOk {
  vo_p : xs ≠ [] → hs_p m = first xs None;
  vo_q : hs_q m = first qs None;
  vo_psize : hs_psize m = Z.of_nat (length xs);
  vo_qsize : hs_qsize m = Z.of_nat j;
  vo_list : hs_list m = first out None;
  vo_tail : hs_tail m = final out None;
  vo_bound : (Z.of_nat (length xs) < 2 ^ 32 ∧ Z.of_nat j < 2 ^ 32)%Z }.

Lemma next_live (s : store) p l post : nexts (app_view (mem s)) (p :: l) post →
  ∃ e, mem s !! p = Some e ∧ next (hh e) = first l post.
Proof.
  intros [[o Hp] _]. unfold app_view in Hp. rewrite lookup_fmap in Hp. destruct (mem s !! p) as [e|]; [|done]. exists e. cbn in Hp. by simplify_eq.
Qed.

Lemma get_entry_ok (s : store) p x : entry_at s p = Some x → ∀ Q, Q x s → wps (get_entry p) s Q.
Proof.
  unfold entry_at, infos. rewrite lookup_fmap. intros H Q HQ. unfold wpm, get_entry. destruct (mem s !! p) as [e|]; [|done].
  cbn in H. simplify_eq. exact HQ.
Qed.

Lemma take_p_ok s0 s out e xs qs j m : heap_ok s0 s out (e :: xs) qs → vars_ok out (e :: xs) qs j m →
  wps (take_p m) s (λ r s', s' = s ∧ r.1 = Some e ∧ vars_ok out xs qs j r.2).
Proof.
  intros Hh Hv. destruct (ho_xs _ _ _ _ _ Hh) as [post Hxs]. destruct (next_live _ _ _ _ Hxs) as (el & He & Hn).
  unfold take_p. rewrite (vo_p _ _ _ _ _ Hv) by done. cbn [first]. apply wpm_bind, wpm_bind. eapply wpm_get_hh; [done|].
  do 2 apply wpm_pure. split; [done|]. split; [done|]. destruct Hv as [_ Hq Hps Hqs Hl Ht [Hb Hj]]. cbn [length] in *. split; cbn; try done.
  - intros Hne. rewrite Hn. by destruct xs.
  - rewrite Hps, to_uint_small by lia. lia.
  - lia.
Qed.

Lemma take_q_ok s0 s out xs e qs j m : heap_ok s0 s out xs (e :: qs) → vars_ok out xs (e :: qs) (S j) m →
  wps (take_q m) s (λ r s', s' = s ∧ r.1 = Some e ∧ vars_ok out xs qs j r.2).
Proof.
  intros Hh Hv. destruct (next_live _ _ _ _ (ho_qs _ _ _ _ _ Hh)) as (el & He & Hn).
  unfold take_q. rewrite (vo_q _ _ _ _ _ Hv). cbn [first]. apply wpm_bind, wpm_pure, wpm_bind. eapply wpm_get_hh; [done|].
  apply wpm_pure. split; [done|]. split; [done|]. destruct Hv as [Hp Hq Hps Hqs Hl Ht [Hb Hj]]. split; cbn; try done.
  - rewrite Hqs, to_uint_small by lia. lia.
  - lia.
Qed.

(** What is taken is the head of the merged runs. *)
Definition taken (s0 : store) (xs qs : list nat) (j : nat) (e : nat) (xs' qs' : list nat) (j' : nat) : Prop :=
  list_merge (le s0) xs (take j qs) = e :: list_merge (le s0) xs' (take j' qs') ∧
  (xs = e :: xs' ∧ qs' = qs ∧ j' = j ∨ xs' = xs ∧ qs = e :: qs' ∧ j = S j').

Lemma hs_take_ok s0 s out xs qs j m : (∀ p, p ∈ xs ++ qs → is_Some (entry_at s0 p)) →
  heap_ok s0 s out xs qs → vars_ok out xs qs j m → xs ≠ [] ∨ take j qs ≠ [] →
  wps (hs_take cmpfcn m) s (λ r s', s' = s ∧ ∃ e xs' qs' j', r.1 = Some e ∧ vars_ok out xs' qs' j' r.2 ∧ taken s0 xs qs j e xs' qs' j').
Proof.
  intros Hent Hh Hv Hne. unfold hs_take. rewrite (vo_psize _ _ _ _ _ Hv), (vo_qsize _ _ _ _ _ Hv).
  destruct xs as [|x xs].
  { cbn [length Z.of_nat Z.eqb]. destruct Hne as [?|Hne]; [done|]. destruct j as [|j], qs as [|q qs]; [done..|].
    eapply wpm_mono; [by eapply take_q_ok|]. intros r s' (-> & Hr & Hv'). split; [done|]. exists q, [], qs, j. split_and!; [done|done|].
    split; [cbn [take]; by destruct (take j qs)|by right]. }
  replace (Z.of_nat (length (x :: xs)) =? 0)%Z with false by (symmetry; apply Z.eqb_neq; cbn; lia).
  destruct (Z.eqb_spec (Z.of_nat j) 0) as [Hj|Hj]; cbn [orb].
  { assert (j = 0) as -> by lia. eapply wpm_mono; [by eapply take_p_ok|]. intros r s' (-> & Hr & Hv'). split; [done|].
    exists x, xs, qs, 0. split_and!; [done|done|]. split; [|by left]. rewrite !take_0. by destruct xs. }
  destruct j as [|j]; [done|]. rewrite (vo_q _ _ _ _ _ Hv). destruct qs as [|q qs]; cbn [first].
  { rewrite bool_decide_true by done. eapply wpm_mono; [by eapply take_p_ok|]. intros r s' (-> & Hr & Hv'). split; [done|].
    exists x, xs, [], (S j). split_and!; [done|done|]. split; [|by left]. cbn [take]. by destruct xs. }
  rewrite bool_decide_false by done. rewrite (vo_p _ _ _ _ _ Hv) by done. cbn [first].
  destruct (Hent x) as [ex Hx]; [by left|]. destruct (Hent q) as [eq Hq]; [apply elem_of_app; right; by left|].
  assert (∀ p, entry_at s p = entry_at s0 p) as Hsame by (intros p; unfold entry_at; by rewrite (ho_info _ _ _ _ _ Hh)).
  apply wpm_bind, wpm_pure, wpm_bind. eapply get_entry_ok; [by rewrite Hsame|].
  apply wpm_bind, wpm_pure, wpm_bind. eapply get_entry_ok; [by rewrite Hsame|].
  destruct (Z.leb_spec (cmpfcn ex eq) 0) as [Hle|Hle].
  - eapply wpm_mono; [by eapply take_p_ok|]. intros r s' (-> & Hr & Hv'). split; [done|].
    exists x, xs, (q :: qs), (S j). split_and!; [done|done|]. split; [|by left]. cbn [take list_merge].
    rewrite decide_True; [done|]. unfold le. by rewrite Hx, Hq.
  - eapply wpm_mono; [by eapply take_q_ok|]. intros r s' (-> & Hr & Hv'). split; [done|].
    exists q, (x :: xs), qs, j. split_and!; [done|done|]. split; [|by right]. cbn [take list_merge].
    rewrite decide_False; [done|]. unfold le. rewrite Hx, Hq. lia.
Qed.

Lemma nodup_taken (out : list nat) e xs' qs' xs qs : NoDup (out ++ xs ++ qs) → (xs = e :: xs' ∧ qs' = qs ∨ xs' = xs ∧ qs = e :: qs') →
  NoDup ((out ++ [e]) ++ xs' ++ qs').
Proof.
  intros Hnd Ht. assert ((out ++ [e]) ++ xs' ++ qs' ≡ₚ out ++ xs ++ qs) as ->; [|done]. rewrite <- app_assoc. apply Permutation_app_head.
  destruct Ht as [[-> ->]|[-> ->]]; [done|]. cbn. by rewrite Permutation_middle.
Qed.

Lemma hs_link_ok s0 s out xs qs j e xs' qs' j' m' : heap_ok s0 s out xs qs → taken s0 xs qs j e xs' qs' j' → vars_ok out xs' qs' j' m' →
  wps (hs_link (Some e) m') s (λ m2 s', heap_ok s0 s' (out ++ [e]) xs' qs' ∧ vars_ok (out ++ [e]) xs' qs' j' m2).
Proof.
  intros Hh [_ Ht] Hv. assert (xs = e :: xs' ∧ qs' = qs ∨ xs' = xs ∧ qs = e :: qs') as Ht' by tauto. clear Ht.
  pose proof (nodup_taken _ _ _ _ _ _ (ho_nodup _ _ _ _ _ Hh) Ht') as Hnd.
  destruct (ho_out _ _ _ _ _ Hh) as [post Hout]. destruct (ho_xs _ _ _ _ _ Hh) as [px Hxs]. pose proof (ho_qs _ _ _ _ _ Hh) as Hqs.
  assert (exists el, mem s !! e = Some el) as [el He].
  { destruct Ht' as [[-> _]|[_ ->]]; [destruct (next_live _ _ _ _ Hxs) as (el & He & _)|destruct (next_live _ _ _ _ Hqs) as (el & He & _)]; by exists el. }
  unfold hs_link. rewrite (vo_tail _ _ _ _ _ Hv). apply wpm_bind.
  set (fin := final out None). set (m1 := match fin with Some t => hset t (set_next (Some e)) (mem s) | None => mem s end).
  assert (app_view m1 = with_next fin (Some e) (app_view (mem s))) as Ha1 by (subst m1; destruct fin; [apply app_set_next|done]).
  assert (bkt_view m1 = bkt_view (mem s)) as Hb1 by (subst m1; destruct fin; [apply bkt_set_next|done]).
  assert (infos m1 = infos (mem s)) as Hi1 by (subst m1; destruct fin; [apply infos_set_next|done]).
  eapply (wpm_mono _ _ _ (λ _ s', s' = with_mem s m1)).
  { subst m1 fin. destruct (final out None) as [t|] eqn:Et; [|apply wpm_pure; by destruct s]. apply wpm_set_hh; [|done].
    apply live_views_app. eapply seg_live; [exact Hout|]. by apply final_elem. }
  intros _ s1 ->. apply wpm_bind, wpm_set_hh; [cbn [mem with_mem]; subst m1; destruct fin; [apply live_hset|]; by eexists|].
  cbn [mem with_mem]. apply wpm_pure. set (m2 := hset e _ m1).
  assert (app_view m2 = with_prev (Some e) fin (with_next fin (Some e) (app_view (mem s)))) as Ha2 by (subst m2; by rewrite app_set_prev, Ha1).
  assert (∀ p, p ∈ xs' ++ qs' → snd <$> app_view m2 !! p = snd <$> app_view (mem s) !! p) as Hother.
  { intros p Hp. rewrite Ha2, next_of_with_prev. apply next_of_with_next. intros Hf%final_elem.
    rewrite <- app_assoc in Hnd. apply NoDup_app in Hnd as (_ & Hnd & _). apply (Hnd p Hf). by apply elem_of_app; right. }
  split; split; cbn [mem with_mem].
  - rewrite (ho_same _ _ _ _ _ Hh). done.
  - subst m2. by rewrite bkt_set_prev, Hb1, (ho_bkt _ _ _ _ _ Hh).
  - subst m2. by rewrite infos_set_prev, Hi1, (ho_info _ _ _ _ _ Hh).
  - done.
  - exists (next (hh el)). rewrite Ha2. eapply (link_out _ _ _ _ (prev (hh el), next (hh el))); [|done|].
    + by apply NoDup_app in Hnd as (? & _ & _).
    + unfold app_view. by rewrite lookup_fmap, He.
  - exists px. eapply nexts_frame; [intros p Hp; apply Hother; apply elem_of_app; by left|]. destruct Ht' as [[-> _]|[-> _]]; [by destruct Hxs|done].
  - eapply nexts_frame; [intros p Hp; apply Hother; apply elem_of_app; by right|]. destruct Ht' as [[_ ->]|[_ ->]]; [done|by destruct Hqs].
  - apply Hv.
  - apply Hv.
  - apply Hv.
  - apply Hv.
  - cbn. rewrite (vo_list _ _ _ _ _ Hv). subst fin. by destruct out as [|o out]; [|destruct (final (o :: out) None) eqn:E; [|rewrite final_None in E; apply last_None in E]].
  - cbn. by rewrite final_app.
  - apply Hv.
Qed.

Lemma taken_facts s0 xs qs j e xs' qs' j' : taken s0 xs qs j e xs' qs' j' →
  length xs + length (take j qs) = S (length xs' + length (take j' qs')) ∧ drop j qs = drop j' qs' ∧
  (∀ p, p ∈ xs' ++ qs' → p ∈ xs ++ qs).
Proof.
  intros [_ [(-> & -> & ->)|(-> & -> & ->)]]; cbn [take drop length]; split_and!; [lia|done| |lia|done|]; intros p.
  - intros Hp. by right.
  - rewrite !elem_of_app, elem_of_cons. tauto.
Qed.

Lemma hs_merge_ok s0 fuel s out xs qs j m : (∀ p, p ∈ xs ++ qs → is_Some (entry_at s0 p)) →
  heap_ok s0 s out xs qs → vars_ok out xs qs j m → length xs + length (take j qs) ≤ fuel →
  wps (hs_merge cmpfcn fuel m) s (λ m' s', let out' := out ++ list_merge (le s0) xs (take j qs) in
    heap_ok s0 s' out' [] (drop j qs) ∧ hs_q m' = first (drop j qs) None ∧ hs_list m' = first out' None ∧ hs_tail m' = final out' None).
Proof.
  revert s out xs qs j m. induction fuel as [|fuel IH]; intros s out xs qs j m Hent Hh Hv Hf.
  all: destruct (decide (xs = [] ∧ take j qs = [])) as [[-> Htk]|Hne].
  1,3: assert (drop j qs = qs) as Hdrop by (destruct j, qs; done);
    assert (negb (hs_psize m =? 0)%Z || (negb (hs_qsize m =? 0)%Z && bool_decide (hs_q m ≠ None)) = false) as Hc by
      (rewrite (vo_psize _ _ _ _ _ Hv), (vo_qsize _ _ _ _ _ Hv), (vo_q _ _ _ _ _ Hv); destruct j as [|j]; [done|]; by destruct qs);
    cbn [hs_merge]; rewrite Hc; apply wpm_pure; cbv zeta; rewrite Htk, Hdrop; cbn; rewrite app_nil_r;
    by split_and!; [|apply Hv..].
  - destruct Hne. destruct xs; [|cbn in Hf; lia]. destruct (take j qs); [done|cbn in Hf; lia].
  - assert (xs ≠ [] ∨ take j qs ≠ []) as Hne' by (destruct xs; [right|by left]; intros Htk; by destruct Hne).
    cbn [hs_merge]. replace (_ || _) with true.
    2: { symmetry. rewrite (vo_psize _ _ _ _ _ Hv), (vo_qsize _ _ _ _ _ Hv), (vo_q _ _ _ _ _ Hv). destruct xs; [|done].
         destruct j as [|j], qs as [|q qs]; [by destruct Hne'..|done]. }
    apply wpm_bind. eapply wpm_mono; [by eapply hs_take_ok|]. intros [r m1] s' (-> & e & xs' & qs' & j' & Hr & Hv1 & Ht). cbn [fst snd] in *. subst r.
    apply wpm_bind. eapply wpm_mono; [by eapply hs_link_ok|]. intros m2 s2 [Hh2 Hv2].
    destruct (taken_facts _ _ _ _ _ _ _ _ Ht) as (Hl & Hd & Hin). eapply wpm_mono.
    + apply (IH s2 (out ++ [e]) xs' qs' j' m2); [|done|done|lia]. intros p Hp. by apply Hent, Hin.
    + intros m3 s3 H3. cbv zeta in *. destruct Ht as [-> _]. rewrite Hd. by rewrite <- app_assoc in H3.
Qed.

(** The first run, and where the second begins. *)
Lemma hs_split_ok (s : store) fuel i n psize qs : nexts (app_view (mem s)) qs None → qs ≠ [] ∨ n ≤ i →
  length qs < fuel → (0 <= psize)%Z → (psize + Z.of_nat (length qs) < 2 ^ 32)%Z → (Z.of_nat n < 2 ^ 32)%Z → i ≤ n →
  wps (hs_split fuel (Z.of_nat i) (Z.of_nat n) psize (first qs None)) s (λ r s', s' = s ∧
    r = (first (drop (n - i) qs) None, psize + Z.of_nat (length (take (n - i) qs)))%Z).
Proof.
  revert i psize qs. induction fuel as [|fuel IH]; intros i psize qs Hqs Hne Hf Hp Hb Hn Hi; [lia|]. cbn [hs_split].
  destruct (Z.ltb_spec (Z.of_nat i) (Z.of_nat n)) as [Hlt|Hge].
  - destruct Hne as [Hne|Hne]; [|lia]. destruct qs as [|q qs]; [done|]. cbn [first].
    apply wpm_bind, wpm_pure, wpm_bind. destruct (next_live _ _ _ _ Hqs) as (e & He & Hnx). eapply wpm_get_hh; [done|]. rewrite Hnx.
    cbn [length] in *. replace (n - i) with (S (n - S i)) by lia. cbn [take drop length].
    rewrite (to_uint_small (psize + 1)) by lia. destruct qs as [|q' qs]; cbn [first].
    + apply wpm_pure. split; [done|]. rewrite drop_nil, take_nil. done.
    + rewrite to_uint_small by lia. replace (Z.of_nat i + 1)%Z with (Z.of_nat (S i)) by lia.
      eapply wpm_mono; [apply (IH (S i) (psize + 1)%Z (q' :: qs)); [by destruct Hqs|by left|cbn in *; lia..]|].
      intros r s' [-> ->]. split; [done|]. f_equal. lia.
  - replace (n - i) with 0 by lia. rewrite drop_0, take_0. apply wpm_pure. split; [done|]. f_equal. cbn. lia.
Qed.

Lemma shaped_cons {A} n (c : list A) cs : 0 < n → shaped n (c :: cs) →
  take n (concat (c :: cs)) = c ∧ drop n (concat (c :: cs)) = concat cs ∧ shaped n cs ∧ c ≠ [].
Proof.
  intros Hn Hs. cbn [concat]. destruct cs as [|c' cs].
  - destruct Hs as [H1 H2]. cbn. rewrite app_nil_r, take_ge, drop_ge by lia. split_and!; [done..|]. intros ->. cbn in H1. lia.
  - destruct Hs as [<- Hs]. rewrite take_app_length, drop_app_length. split_and!; [done..|]. intros ->. cbn in Hn. lia.
Qed.

Lemma nexts_live (s : store) l post p : nexts (app_view (mem s)) l post → p ∈ l → is_Some (mem s !! p).
Proof.
  induction l as [|q l IH]; [by intros _ ?%not_elem_of_nil|]. intros H [->|Hp]%elem_of_cons.
  - destruct (next_live _ _ _ _ H) as (e & He & _). by exists e.
  - destruct H as [_ H]. by apply IH.
Qed.

(** The elements that are left are fewer than the fuel of a walk. *)
Lemma rest_walk s0 s out xs qs : heap_ok s0 s out xs qs → length qs ≤ size (mem s).
Proof.
  intros Hh. apply length_live.
  - pose proof (ho_nodup _ _ _ _ _ Hh) as Hnd. apply NoDup_app in Hnd as (_ & _ & Hnd). by apply NoDup_app in Hnd as (_ & _ & ?).
  - intros p Hp. by eapply nexts_live, Hp; apply Hh.
Qed.

(** One merge of the pass. *)
Lemma heap_ok_split s0 s out qs n : heap_ok s0 s out [] qs → heap_ok s0 s out (take n qs) (drop n qs).
Proof.
  intros [Hs Hb Hi Hnd Hout _ Hqs]. rewrite <- (take_drop n qs) in Hqs. apply nexts_app in Hqs as [H1 H2]. split; [done..| |done|by eexists|done].
  cbn in Hnd. by rewrite take_drop.
Qed.

Lemma hs_pass_ok s0 n fuel s out cs nm : 0 < n → (Z.of_nat n < 2 ^ 32)%Z → shaped n cs → length cs ≤ fuel →
  (∀ p, p ∈ concat cs → is_Some (entry_at s0 p)) → (Z.of_nat (length (concat cs)) < 2 ^ 32)%Z →
  (0 <= nm)%Z → (nm + Z.of_nat (length cs) < 2 ^ 32)%Z → heap_ok s0 s out [] (concat cs) →
  wps (hs_pass cmpfcn fuel (Z.of_nat n) (first (concat cs) None) (first out None) (final out None) nm) s
    (λ r s', let out' := out ++ concat (pairs (list_merge (le s0)) cs) in
      heap_ok s0 s' out' [] [] ∧ r = (first out' None, final out' None, (nm + Z.of_nat (length (pairs (list_merge (le s0)) cs)))%Z)).
Proof.
  intros Hn Hn2. revert fuel s out nm.
  assert (∀ fuel s out qs nm, heap_ok s0 s out [] qs → qs ≠ [] → (∀ p, p ∈ qs → is_Some (entry_at s0 p)) → (Z.of_nat (length qs) < 2 ^ 32)%Z →
    (0 <= nm)%Z → (nm + 1 < 2 ^ 32)%Z → ∀ Q, (∀ s', let out' := out ++ list_merge (le s0) (take n qs) (take n (drop n qs)) in
      heap_ok s0 s' out' [] (drop n (drop n qs)) → wps (hs_pass cmpfcn fuel (Z.of_nat n) (first (drop n (drop n qs)) None) (first out' None) (final out' None) (nm + 1)) s' Q) →
    wps (hs_pass cmpfcn (S fuel) (Z.of_nat n) (first qs None) (first out None) (final out None) nm) s Q) as Hstep.
  { intros fuel s out qs nm Hh Hne Hent Hlen Hnm Hnm2 Q HQ. destruct (first qs None) as [p|] eqn:Hp; [|by destruct qs].
    rewrite <- Hp. cbn [hs_pass]. rewrite Hp, <- Hp. pose proof (rest_walk _ _ _ _ _ Hh) as Hw.
    apply wpm_bind. unfold wpm at 1. cbn [walk_fuel]. apply wpm_bind.
    eapply wpm_mono; [apply (hs_split_ok s _ 0 n 0 qs); [apply Hh|by left|lia..]|]. intros r s' [-> ->]. cbn [fst snd]. rewrite Nat.sub_0_r.
    apply wpm_bind. eapply wpm_mono; [apply (hs_merge_ok s0 _ s out (take n qs) (drop n qs) n)|].
    - intros q Hq. rewrite take_drop in Hq. by apply Hent.
    - by apply heap_ok_split.
    - split; cbn; try done.
      + intros Ht. by destruct qs, n. 
      + rewrite length_take. lia.
    - rewrite !length_take, length_drop. lia.
    - intros m s' (Hh' & -> & -> & ->). rewrite to_uint_small by lia. by apply HQ. }
  induction cs as [|c|c1 c2 cs IH] using pairs_ind; intros fuel s out nm Hs Hf Hent Hlen Hnm Hnm2 Hh.
  - destruct fuel; cbn; rewrite app_nil_r; (split; [done|f_equal; lia]).
  - destruct fuel as [|fuel]; [cbn in Hf; lia|]. destruct (shaped_cons _ _ _ Hn Hs) as (E1 & E2 & _ & Hc).
    apply Hstep; [done|by destruct c|done..|lia|cbn in Hnm2; lia|]. intros s' out'. subst out'. rewrite E1, E2. cbn [concat]. rewrite drop_nil, take_nil.
    cbn [pairs concat]. rewrite app_nil_r. replace (list_merge (le s0) c []) with c by (by destruct c). intros Hh'.
    destruct fuel; cbn; (split; [done|f_equal; cbn in *; lia]).
  - destruct fuel as [|fuel]; [cbn in Hf; lia|]. destruct (shaped_cons _ _ _ Hn Hs) as (E1 & E2 & Hs1 & Hc).
    destruct (shaped_cons _ _ _ Hn Hs1) as (E3 & E4 & Hs2 & _).
    apply Hstep; [done|by destruct c1|done..|lia|cbn in Hnm2; lia|]. intros s' out'. subst out'. rewrite E1, E2, E3, E4. intros Hh'.
    eapply wpm_mono; [apply IH; try done|].
    + cbn in Hf. lia.
    + intros p Hp. apply Hent. cbn. by do 2 (apply elem_of_app; right).
    + cbn in Hlen. rewrite !length_app in Hlen. lia.
    + lia.
    + cbn in Hnm2. lia.
    + intros r s2 [H1 H2]. cbn [pairs concat length]. rewrite app_assoc. split; [done|]. rewrite H2. f_equal. lia.
Qed.

Lemma shaped_length {A} n (cs : list (list A)) : 0 < n → shaped n cs → length cs ≤ length (concat cs) ∧ (2 ≤ length cs → n ≤ length (concat cs)).
Proof.
  intros Hn. induction cs as [|c cs IH]; [cbn; lia|]. intros Hs. destruct (shaped_cons _ _ _ Hn Hs) as (_ & _ & Hs' & Hc).
  destruct (IH Hs') as [IH1 IH2]. cbn [concat length]. rewrite length_app. destruct c; [done|]. cbn [length] in *. split; [lia|].
  intros H2. destruct cs as [|c' cs]; [cbn in H2; lia|]. destruct Hs as [Hl _]. cbn in Hl. lia.
Qed.

Lemma runs_concat (R before : relation nat) P os cs : Forall2 (run_of R P before) os cs → concat cs ≡ₚ concat os.
Proof. induction 1 as [|o c os cs [Hp _] _ IH]; [done|]. cbn. by rewrite Hp, IH. Qed.

Lemma shaped_singles {A} (l : list A) : shaped 1 ((λ p, [p]) <$> l) ∧ concat ((λ p, [p]) <$> l) = l.
Proof.
  induction l as [|p l [IH1 IH2]]; [done|]. rewrite fmap_cons. cbn [concat app]. rewrite IH2. split; [|done].
  destruct l as [|q l]; [cbn; lia|]. by split.
Qed.

Lemma runs_singles (R before : relation nat) P l : Forall2 (run_of R P before) ((λ p, [p]) <$> l) ((λ p, [p]) <$> l).
Proof. induction l as [|p l IH]; constructor; [|done]. split; [done|]. intros _. repeat constructor. Qed.

(** [p] is before [q] in [l]. *)
Definition precedes {A} (l : list A) (p q : A) : Prop := ∃ l1 l2, l = l1 ++ l2 ∧ p ∈ l1 ∧ q ∈ l2.

(** The comparison orders the entries. *)
Definition orders : Prop :=
  (∀ x y, (cmpfcn x y <= 0)%Z ∨ (cmpfcn y x <= 0)%Z) ∧
  (∀ x y z, (cmpfcn x y <= 0)%Z → (cmpfcn y z <= 0)%Z → (cmpfcn x z <= 0)%Z).

Lemma le_total s : orders → ∀ p q, le s p q ∨ le s q p.
Proof. intros [Htotal _] p q. unfold le. destruct (entry_at s p), (entry_at s q); auto. Qed.
Lemma le_trans s : orders → ∀ p q r, le s p q → le s q r → le s p r.
Proof. intros [_ Htrans] p q r. unfold le. destruct (entry_at s p), (entry_at s q), (entry_at s r); try done. apply Htrans. Qed.

(** What the sort leaves: only the links of the list, its head and its tail. *)
Record sorted_heap (s0 s : store) (t : UT_hash_table) (items : list nat) (c : list nat) : Prop := SortedHeap {
  sh_run : run_of (le s0) orders (precedes items) items c;
  sh_dl : dl (app_view (mem s)) c;
  sh_store : s = Store (mem s) (Some (set_tail (final c None) t)) (first c None) (asked s0);
  sh_bkt : bkt_view (mem s) = bkt_view (mem s0);
  sh_info : infos (mem s) = infos (mem s0) }.

Lemma hs_loop_ok s0 t items : tbl s0 = Some t → (∀ p, p ∈ items → is_Some (entry_at s0 p)) → (Z.of_nat (length items) < 2 ^ 32)%Z →
  ∀ fuel s n os cs, 0 < n → (Z.of_nat n < 2 ^ 32)%Z → shaped n cs → cs ≠ [] → length cs ≤ fuel →
  Forall2 (run_of (le s0) orders (precedes items)) os cs → concat os = items → heap_ok s0 s [] [] (concat cs) →
  wps (hs_loop cmpfcn fuel (Z.of_nat n) (first (concat cs) None)) s (λ _ s', ∃ c, sorted_heap s0 s' t items c).
Proof.
  intros Ht Hent Hlen. induction fuel as [|fuel IH]; intros s n os cs Hn Hn2 Hs Hne Hf Hr Ho Hh; [by destruct cs; [|cbn in Hf; lia]|].
  pose proof (runs_concat _ _ _ _ _ Hr) as Hp. rewrite Ho in Hp. pose proof (Permutation_length Hp) as Hpl.
  destruct (shaped_length n cs Hn Hs) as [Hcl _]. pose proof (rest_walk _ _ _ _ _ Hh) as Hw.
  cbn [hs_loop]. apply wpm_bind. unfold wpm at 1. cbn [walk_fuel]. apply wpm_bind.
  eapply wpm_mono; [apply (hs_pass_ok s0 n _ s [] cs 0); [done..|lia| |lia|done|lia|done]|].
  { intros p. rewrite Hp. apply Hent. }
  intros r s1 [Hh1 ->]. cbn [app] in Hh1 |- *. set (cs1 := pairs (list_merge (le s0)) cs) in *. cbv beta iota.
  assert (shaped (n * 2) cs1) as Hs1 by (by apply pairs_shaped).
  assert (Forall2 (run_of (le s0) orders (precedes items)) (pairs (++) os) cs1) as Hr1.
  { apply pairs_runs; [apply le_total|apply le_trans|done|]. rewrite Ho. intros l1 l2 x y E Hx Hy. by exists l1, l2. }
  assert (cs1 ≠ []) as Hne1 by (subst cs1; by destruct cs as [|? [|]]).
  assert (length cs1 = (length cs + 1) / 2) as Hl1 by apply pairs_length.
  pose proof (runs_concat _ _ _ _ _ Hr1) as Hp1. rewrite pairs_concat, Ho in Hp1. pose proof (Permutation_length Hp1) as Hpl1.
  destruct (shaped_length (n * 2) cs1 ltac:(lia) Hs1) as [Hcl1 Hn1].
  assert (exists f, final (concat cs1) None = Some f) as [f Hfin].
  { rewrite final_None. destruct (last (concat cs1)) eqn:E; [by eexists|]. apply last_None in E. rewrite E in Hcl1. cbn in Hcl1.
    destruct cs1; [done|cbn in Hcl1; lia]. }
  destruct (ho_out _ _ _ _ _ Hh1) as [post Hseg]. rewrite Hfin. apply wpm_bind, wpm_set_hh.
  { apply live_views_app. eapply seg_live; [exact Hseg|]. by apply final_elem. }
  set (s2 := with_mem s1 _).
  assert (dl (app_view (mem s2)) (concat cs1)) as Hdl.
  { split; [|pose proof (ho_nodup _ _ _ _ _ Hh1) as Hnd; by rewrite !app_nil_r in Hnd]. cbn [mem with_mem s2]. rewrite app_set_next, <- Hfin.
    eapply seg_set_next; [|exact Hseg]. pose proof (ho_nodup _ _ _ _ _ Hh1) as Hnd. by rewrite !app_nil_r in Hnd. }
  assert (bkt_view (mem s2) = bkt_view (mem s0)) as Hb2 by (cbn [mem with_mem s2]; rewrite bkt_set_next; apply Hh1).
  assert (infos (mem s2) = infos (mem s0)) as Hi2 by (cbn [mem with_mem s2]; rewrite infos_set_next; apply Hh1).
  assert (s2 = with_mem s0 (mem s2)) as Hs2 by (subst s2; rewrite (ho_same _ _ _ _ _ Hh1); done).
  assert (tbl s2 = Some t) as Ht2 by (rewrite Hs2; done).
  destruct (Z.leb_spec (0 + Z.of_nat (length cs1)) 1) as [Hle|Hgt].
  - destruct cs1 as [|c [|]]; [done| |cbn in Hle; lia]. cbn [concat] in *. rewrite app_nil_r in *.
    assert (run_of (le s0) orders (precedes items) items c) as Hrun.
    { apply Forall2_cons_inv_r in Hr1 as (o & os' & Hc & ->%Forall2_nil_inv_r & E). pose proof (pairs_concat os) as Ep.
      rewrite E, Ho in Ep. cbn in Ep. rewrite app_nil_r in Ep. by subst. }
    apply wpm_bind. eapply wpm_set_tbl; [exact Ht2|]. apply wpm_set_head. exists c. split; [done|exact Hdl| |exact Hb2|exact Hi2].
    cbn. rewrite Hfin. unfold with_head, with_tbl. cbn. f_equal. exact (f_equal asked Hs2).
  - assert (n * 2 ≤ length items) as Hn3 by (rewrite <- Hpl1; apply Hn1; lia).
    replace (Z.of_nat n * 2)%Z with (Z.of_nat (n * 2)) by lia. rewrite to_uint_small by lia.
    apply (IH s2 (n * 2) (pairs (++) os) cs1); [lia|lia|done|done| |done|by rewrite pairs_concat|].
    + assert (2 ≤ length cs) as H2 by (destruct cs as [|? [|]]; [done|cbn in Hgt; lia|cbn; lia]).
      rewrite Hl1. assert ((length cs + 1) / 2 < length cs); [|lia]. apply Nat.Div0.div_lt_upper_bound; lia.
    + split; [done..| | | |]; cbn.
      * apply Hdl.
      * by exists None.
      * by exists None.
      * eapply seg_nexts. apply Hdl.
Qed.

(** The order of the entries from that of their addresses. *)
Lemma precedes_entries {B} (l : list (nat * B)) x y : NoDup l.*1 → x ∈ l → y ∈ l → precedes l.*1 x.1 y.1 → precedes l x y.
Proof.
  intros Hnd Hx Hy (n1 & n2 & E & Hx1 & Hy2). apply fmap_app_inv in E as (l1 & l2 & -> & -> & ->).
  exists l1, l2. split; [done|]. rewrite fmap_app in Hnd. apply NoDup_app in Hnd as (_ & Hd & _).
  apply elem_of_app in Hx as [Hx|Hx], Hy as [Hy|Hy]; try done.
  - destruct (Hd y.1); [by apply list_elem_of_fmap_2|done].
  - destruct (Hd x.1); [done|by apply list_elem_of_fmap_2].
  - destruct (Hd x.1); [done|by apply list_elem_of_fmap_2].
Qed.

Lemma StronglySorted_fmap {A B} (f : A → B) (R : relation A) (R' : relation B) l :
  (∀ x y, x ∈ l → y ∈ l → R' (f x) (f y) → R x y) → StronglySorted R' (f <$> l) → StronglySorted R l.
Proof.
  induction l as [|x l IH]; intros HR; [constructor|]. rewrite fmap_cons, !StronglySorted_cons. intros [H1 H2]. split.
  - rewrite Forall_forall in H1. apply Forall_forall. intros y Hy. apply HR; [by left|by right|]. apply H1. by apply list_elem_of_fmap_2.
  - apply IH; [|done]. intros a b Ha Hb. apply HR; by right.
Qed.

(** Entries in the order of the sort. *)
Definition stable_order (l : list (nat * (bytes * V))) (x y : nat * (bytes * V)) : Prop :=
  (cmpfcn x.2 y.2 <= 0)%Z ∧ ((cmpfcn y.2 x.2 <= 0)%Z → precedes l x y).

Lemma repr_entry s l x : repr s l → x ∈ l → entry_at s x.1 = Some x.2.
Proof.
  destruct x as [p [k d]]. intros [_ Hr] Hx. destruct (Hr _ _ _ Hx) as (i & Hi & <- & <-). unfold entry_at. cbn [fst]. by rewrite Hi.
Qed.

Lemma srt_ok s l : repr s l → wps (HASH_SRT cmpfcn) s (λ _ s', ∃ l', l' ≡ₚ l ∧ repr s' l' ∧
  (orders → StronglySorted (stable_order l) l') ∧ infos (mem s') = infos (mem s)).
Proof.
  intros Hrepr. pose proof Hrepr as [Hwf Hr]. apply wpm_bind, wpm_get_head. rewrite (w_head _ _ Hwf).
  destruct l as [|e l0]; [cbn; exists []; split_and!; [done|done|by constructor|done]|].
  set (l := e :: l0) in *. set (items := l.*1). pose proof (w_tbl _ _ Hwf) as Htb. destruct (tbl s) as [t|] eqn:Et; [|done].
  destruct Htb as (Hne & Hnum & Htail & Htok). cbn [first items l fmap list_fmap]. apply wpm_bind. unfold wpm at 1. cbn [walk_fuel].
  pose proof (w_app _ _ Hwf) as Hdl. fold items in Hdl, Hne, Htok, Hnum, Htail. destruct (shaped_singles items) as [Hsh Hcc].
  assert (Hw : length items ≤ size (mem s)).
  { apply length_live; [apply Hdl|]. intros p Hp. apply live_views_app. by apply (dl_live _ items). }
  change (Some e.1) with (first items None). rewrite <- Hcc at 1.
  set (singles := (λ p, [p]) <$> items) in *.
  eapply wpm_mono; [apply (hs_loop_ok s t items Et) with (n := 1) (os := singles) (cs := singles)|].
  - intros p Hp. apply list_elem_of_fmap in Hp as (x & -> & Hx). eexists. by eapply repr_entry.
  - apply Hwf.
  - lia.
  - done.
  - done.
  - done.
  - subst singles. rewrite length_fmap. lia.
  - apply runs_singles.
  - done.
  - rewrite Hcc. split; [by destruct s|done|done| |by exists None|by exists None|].
    + apply Hdl.
    + eapply seg_nexts. apply Hdl.
  - intros _ s' (c & [[Hp Hss] Hd Hst Hb Hi]). apply Permutation_map_inv in Hp as (l' & -> & Hp').
    change (map fst l') with (l'.*1) in *. assert (items ≡ₚ l'.*1) as Hpi by (subst items; by rewrite Hp').
    exists l'. split_and!; [done|split| |done].
    + split; [exact Hd|by rewrite Hst|rewrite <- Hpi; apply Hwf| | |].
      * intros p. rewrite <- Hpi, Hi. apply Hwf.
      * intros p q i i'. rewrite <- Hpi, Hi. apply Hwf.
      * rewrite Hst. split_and!; [|by rewrite <- (Permutation_length Hpi)|done|].
        -- intros E. rewrite E in Hpi. by apply Permutation_nil_r in Hpi.
        -- eapply tbl_ok_frame; [exact Htok|done..| |]; intros p _; [by rewrite <- Hi, Hst|by rewrite <- Hb, Hst].
    + intros p k d. rewrite <- Hp', Hi. apply Hr.
    + intros Hord. eapply StronglySorted_fmap; [|exact (Hss Hord)]. intros x y Hx Hy [H1 H2]. rewrite <- Hp' in Hx, Hy.
      unfold le in H1, H2. rewrite (repr_entry s l x), (repr_entry s l y) in H1, H2 by done. split; [done|]. intros H3.
      apply precedes_entries; [by apply Hdl|done|done|]. by apply H2.
Qed.
End proofs.

(** C6: [HASH_SRT] of uthash.h, the merge sort that relinks the application's list
    in place.  For a table that represents the sequence [l], and any comparison
    function, it ends without following a null or dangling pointer, whatever the
    length of the list below 2^32, and leaves a table that represents a
    permutation of [l]: both directions of the list, its head and tail, the
    chains of the buckets and every element with its key and data are right, so
    all that is proved of the other macros holds afterwards.  When the comparison
    is a total preorder the sequence is sorted, and entries that compare equal are
    in the order they had. *)
Theorem uthash_sort_correct {V} (cmpfcn : bytes * V → bytes * V → Z) (s : @store V) (l : list (nat * (bytes * V))) :
  (tbl s = None ∧ head s = None ∧ l = [] ∨ repr s l) →
  wpm False (HASH_SRT cmpfcn) s (λ _ s', ∃ l', l' ≡ₚ l ∧ repr s' l' ∧
    (orders cmpfcn → StronglySorted (stable_order cmpfcn l) l') ∧ same_outside [] s s').
Proof.
  intros Hr. eapply wpm_mono; [apply (srt_ok cmpfcn s l)|].
  - destruct Hr as [(? & ? & ->)|?]; [by apply repr_empty|done].
  - intros _ s' (l' & H1 & H2 & H3 & H4). exists l'. split_and!; [done..|]. intros p _. by rewrite H4.
Qed.

(** Elements inserted in an empty table, and sorted by their data. *)
Definition by_data (x y : bytes * nat) : Z := (Z.of_nat x.2 - Z.of_nat y.2)%Z.
Definition put_in (k : bytes) (d p : nat) (s : @store nat) : @store nat :=
  match insert_str UthashTable.ample k d p UthashTable.blank s with Ok _ _ s' => s' | _ => s end.

Lemma put_in_repr s l k d p : repr s l → mem s !! p = None → k ∉ l.*2.*1 →
  (Z.of_nat (length k) < 2 ^ 32)%Z → (Z.of_nat (length l) + 1 < 2 ^ 32)%Z →
  match insert_str UthashTable.ample k d p UthashTable.blank s with Ok _ _ _ => True | _ => False end →
  repr (put_in k d p s) (l ++ [(p, (k, d))]).
Proof.
  intros Hr Hp Hk Hkl Hl Hok.
  pose proof (uthash_insert_ok UthashTable.ample True (λ _ _ _ _, I) UthashTable.ample_big s l p k d UthashTable.blank Hr Hp) as Hins.
  unfold put_in, wpm in *. destruct (insert_str _ k d p _ s); [|done..]. apply Hins; [|done|done|done].
  intros q d' Hin. apply Hk, list_elem_of_fmap. exists (k, d'). split; [done|]. by apply list_elem_of_fmap_2 with (f := snd) in Hin.
Qed.

Definition three : @store nat :=
  put_in (to_bytes "d") 1 9 (put_in (to_bytes "b") 1 7 (put_in (to_bytes "c") 2 8 UthashTable.no_table)).
Definition three_entries : list (nat * (bytes * nat)) :=
  [(8, (to_bytes "c", 2)); (7, (to_bytes "b", 1)); (9, (to_bytes "d", 1))].

(** The addresses of the list of a heap, from a node on. *)
Fixpoint walk {V} (fuel : nat) (s : @store V) (p : ptr) : list nat :=
  match fuel, p with
  | S fuel, Some q => q :: match mem s !! q with Some e => walk fuel s (next (hh e)) | None => [] end
  | _, _ => []
  end.

Lemma three_repr : repr three three_entries.
Proof.
  apply (put_in_repr _ [(8, (to_bytes "c", 2)); (7, (to_bytes "b", 1))]); [|apply (bool_decide_unpack _); vm_compute; exact I..|vm_compute; exact I].
  apply (put_in_repr _ [(8, (to_bytes "c", 2))]); [|apply (bool_decide_unpack _); vm_compute; exact I..|vm_compute; exact I].
  apply (put_in_repr _ []); [by apply repr_empty|apply (bool_decide_unpack _); vm_compute; exact I..|vm_compute; exact I].
Qed.

Lemma uthash_sort_correct_witness :
  ∃ s', HASH_SRT by_data three = Ok _ tt s' ∧ walk 4 s' (head s') = [7; 9; 8] ∧
    ∃ l', l' ≡ₚ three_entries ∧ repr s' l' ∧ StronglySorted (stable_order by_data three_entries) l'.
Proof.
  pose proof (uthash_sort_correct by_data three three_entries (or_intror three_repr)) as Hsort.
  assert (match HASH_SRT by_data three with Ok _ _ s' => walk 4 s' (head s') | _ => [] end = [7; 9; 8]) as Hwalk by (vm_compute; reflexivity).
  unfold wpm in Hsort. destruct (HASH_SRT by_data three) as [[] s'| |]; [|destruct Hsort..].
  exists s'. split; [reflexivity|]. split; [exact Hwalk|]. destruct Hsort as (l' & H1 & H2 & H3 & _).
  exists l'. split; [exact H1|]. split; [exact H2|]. apply H3. split; unfold by_data; intros; lia.
Defined.
