(* ===== verification/UthashMore.v ===== *)
(** * Insertion in order, replacement and the other hash functions of uthash.h

    The macros that add an element in the order of a comparison or in the place
    of the one with its key, and the hash functions that may be chosen instead of
    [HASH_JEN]. *)
From Stdlib Require Import ZArith Lia Ascii String.
From stdpp Require Import base gmap strings list fin_maps sorting.
From S2P Require Import Prelude Prog CString DList Uthash UthashInv UthashSort.
From S2P Require UthashTable.

Section operations.
Context {V : Type} (refuses : nat → Z → bool).
Abbreviation store := (@store V).
Abbreviation M := (@M V).
Context (cmpfcn : bytes * V → bytes * V → Z).
Local Open Scope uthash_scope.

(** The first element that is greater than [add], if there is one. *)
Fixpoint HASH_AKBI_INNER_LOOP (fuel : nat) (iter add : nat) : M ptr :=
  match fuel with
  | O => bad
  | S fuel =>
      x <- get_entry iter;;
      y <- get_entry add;;
      if (0 <? cmpfcn x y)%Z then pure (Some iter) else
      h <- get_hh iter;;
      match next h with
      | None => pure None
      | Some q => HASH_AKBI_INNER_LOOP fuel q add
      end
  end.

Definition HASH_ADD_KEYPTR_BYHASHVALUE_INORDER (keyptr : bytes) (keylen_in hashval : Z) (add : nat) : M unit :=
  set_hh add (λ h, Handle (prev h) (next h) (hh_prev h) (hh_next h) keyptr (to_uint keylen_in) hashval) ;;;
  hd <- get_head;;
  (match hd with
   | None =>
       set_hh add (set_next None) ;;; set_hh add (set_prev None) ;;;
       HASH_MAKE_TABLE refuses add ;;; set_head (Some add)
   | Some h0 =>
       n <- walk_fuel;;
       iter <- HASH_AKBI_INNER_LOOP n h0 add;;
       match iter with
       | Some it =>
           set_hh add (set_next (Some it)) ;;;
           h <- get_hh it;;
           set_hh add (set_prev (prev h)) ;;;
           (match prev h with Some q => set_hh q (set_next (Some add)) | None => set_head (Some add) end) ;;;
           set_hh it (set_prev (Some add))
       | None => HASH_APPEND_LIST add
       end
   end) ;;;
  HASH_ADD_TO_TABLE refuses hashval add.

Definition HASH_ADD_KEYPTR_INORDER (keyptr : bytes) (keylen_in : Z) (add : nat) : M unit :=
  HASH_ADD_KEYPTR_BYHASHVALUE_INORDER keyptr keylen_in (HASH_JEN (take (Z.to_nat keylen_in) keyptr)) add.

(** The element that was replaced, if there was one. *)
Definition HASH_REPLACE_BYHASHVALUE (keyptr : bytes) (keylen_in hashval : Z) (add : nat) : M ptr :=
  replaced <- HASH_FIND_BYHASHVALUE keyptr keylen_in hashval;;
  (match replaced with Some q => HASH_DELETE_HH q | None => pure tt end) ;;;
  HASH_ADD_KEYPTR_BYHASHVALUE refuses keyptr keylen_in hashval add ;;;
  pure replaced.

Definition HASH_REPLACE_BYHASHVALUE_INORDER (keyptr : bytes) (keylen_in hashval : Z) (add : nat) : M ptr :=
  replaced <- HASH_FIND_BYHASHVALUE keyptr keylen_in hashval;;
  (match replaced with Some q => HASH_DELETE_HH q | None => pure tt end) ;;;
  HASH_ADD_KEYPTR_BYHASHVALUE_INORDER keyptr keylen_in hashval add ;;;
  pure replaced.

Definition HASH_REPLACE (keyptr : bytes) (keylen_in : Z) (add : nat) : M ptr :=
  HASH_REPLACE_BYHASHVALUE keyptr keylen_in (HASH_JEN (take (Z.to_nat keylen_in) keyptr)) add.
Definition HASH_REPLACE_INORDER (keyptr : bytes) (keylen_in : Z) (add : nat) : M ptr :=
  HASH_REPLACE_BYHASHVALUE_INORDER keyptr keylen_in (HASH_JEN (take (Z.to_nat keylen_in) keyptr)) add.
Definition HASH_REPLACE_STR (str : bytes) (add : nat) : M ptr := HASH_REPLACE str (to_uint (Z.of_nat (length str))) add.

(** [sizeof(UT_hash_handle)]. *)
Definition SIZEOF_HANDLE : Z := 56.
Definition HASH_OVERHEAD : M Z :=
  hd <- get_head;;
  match hd with
  | None => pure 0%Z
  | Some _ => t <- get_tbl;; pure (to_size (num_items t * SIZEOF_HANDLE + num_buckets t * SIZEOF_BUCKET + SIZEOF_TABLE))
  end.
End operations.

(** ** The other hash functions, on unsigned integers of 32 bits *)

Definition shl (a n : Z) : Z := to_uint (Z.shiftl a n).

Definition HASH_BER (key : bytes) : Z := foldl (λ h c, to_uint (to_uint (shl h 5 + h) + code c)) 0%Z key.

Definition HASH_SAX (key : bytes) : Z :=
  foldl (λ h c, Z.lxor h (to_uint (to_uint (shl h 5 + Z.shiftr h 2) + code c))) 0%Z key.

Definition HASH_FNV (key : bytes) : Z := foldl (λ h c, to_uint (Z.lxor h (code c) * 16777619)) 2166136261%Z key.

Definition HASH_OAT (key : bytes) : Z :=
  let h := foldl (λ h c,
    let h := to_uint (h + code c) in
    let h := to_uint (h + shl h 10) in
    Z.lxor h (Z.shiftr h 6)) 0%Z key in
  let h := to_uint (h + shl h 3) in
  let h := Z.lxor h (Z.shiftr h 11) in
  to_uint (h + shl h 15).

Definition get16bits (a b : ascii) : Z := (Z.shiftl (code b) 8 + code a)%Z.

(** The main loop takes four bytes at a time; what remains are at most three. *)
Fixpoint sfh_blocks (key : bytes) (h : Z) : Z * bytes :=
  match key with
  | a :: b :: c :: d :: rest =>
      let h := to_uint (h + get16bits a b) in
      let tmp := Z.lxor (shl (get16bits c d) 11) h in
      let h := Z.lxor (shl h 16) tmp in
      sfh_blocks rest (to_uint (h + Z.shiftr h 11))
  | _ => (h, key)
  end.

Definition HASH_SFH (key : bytes) : Z :=
  let '(h, rest) := sfh_blocks key 3405691582 in
  let h := match rest with
    | [a; b; c] =>
        let h := to_uint (h + get16bits a b) in
        let h := Z.lxor h (shl h 16) in
        let h := Z.lxor h (shl (code c) 18) in
        to_uint (h + Z.shiftr h 11)
    | [a; b] =>
        let h := to_uint (h + get16bits a b) in
        let h := Z.lxor h (shl h 11) in
        to_uint (h + Z.shiftr h 17)
    | [a] =>
        let h := to_uint (h + code a) in
        let h := Z.lxor h (shl h 10) in
        to_uint (h + Z.shiftr h 1)
    | _ => h
    end in
  let h := Z.lxor h (shl h 3) in
  let h := to_uint (h + Z.shiftr h 5) in
  let h := Z.lxor h (shl h 4) in
  let h := to_uint (h + Z.shiftr h 17) in
  let h := Z.lxor h (shl h 25) in
  to_uint (h + Z.shiftr h 6).

(** *** Their values *)

Definition is_uint (z : Z) : Prop := (0 <= z < 2 ^ 32)%Z.

Lemma to_uint_range z : is_uint (to_uint z).
Proof. apply Z.mod_pos_bound. lia. Qed.

Lemma log2_uint z : is_uint z → (Z.log2 z < 32)%Z.
Proof. intros Hz. destruct (Z.eq_dec z 0%Z) as [->|Hne]; [done|]. apply Z.log2_lt_pow2; unfold is_uint in Hz; lia. Qed.

Lemma lxor_range a b : is_uint a → is_uint b → is_uint (Z.lxor a b).
Proof.
  intros Ha Hb. pose proof (log2_uint a Ha). pose proof (log2_uint b Hb). unfold is_uint in *.
  assert (0 <= Z.lxor a b)%Z as Hn by (apply Z.lxor_nonneg; lia). split; [done|].
  destruct (Z.eq_dec (Z.lxor a b) 0%Z) as [->|Hne]; [lia|]. apply Z.log2_lt_pow2; [lia|].
  pose proof (Z.log2_lxor a b ltac:(lia) ltac:(lia)). lia.
Qed.

Lemma shr_range a n : is_uint a → (0 <= n)%Z → is_uint (Z.shiftr a n).
Proof.
  unfold is_uint. intros Ha Hn. rewrite Z.shiftr_div_pow2 by done. pose proof (Z.pow_pos_nonneg 2 n ltac:(lia) Hn). split.
  - apply Z.div_pos; lia.
  - apply Z.div_lt_upper_bound; [lia|]. nia.
Qed.

Create HintDb uint discriminated.
#[export] Hint Resolve to_uint_range lxor_range shr_range : uint.
#[export] Hint Extern 5 (_ <= _)%Z => lia : uint.

Lemma shl_range a n : is_uint (shl a n).
Proof. apply to_uint_range. Qed.
#[export] Hint Resolve shl_range : uint.

Lemma foldl_range (f : Z → ascii → Z) key z : (∀ h c, is_uint h → is_uint (f h c)) → is_uint z → is_uint (foldl f z key).
Proof. intros Hf. revert z. induction key as [|c key IH]; intros z Hz; [done|]. cbn. auto. Qed.

Lemma hash_ranges key : Forall is_uint [HASH_BER key; HASH_SAX key; HASH_FNV key; HASH_OAT key; HASH_SFH key].
Proof.
  repeat (apply Forall_cons; split); [| | | | |by apply Forall_nil].
  - apply foldl_range; [auto with uint|split; lia].
  - apply foldl_range; [auto with uint|split; lia].
  - apply foldl_range; [auto with uint|split; lia].
  - unfold HASH_OAT. auto with uint.
  - unfold HASH_SFH. destruct (sfh_blocks _ _). auto with uint.
Qed.

(** The function of Bernstein is the value of the key in base 33. *)
Definition base33 (key : bytes) : Z := foldl (λ z c, z * 33 + code c)%Z 0%Z key.

Lemma ber_base33 key : HASH_BER key = to_uint (base33 key).
Proof.
  enough (∀ z, foldl (λ h c, to_uint (to_uint (shl h 5 + h) + code c)) (to_uint z) key =
    to_uint (foldl (λ z c, z * 33 + code c)%Z z key)) as H by exact (H 0%Z).
  induction key as [|c key IH]; intros z; [done|]. cbn [foldl]. rewrite <- IH. f_equal.
  unfold shl, to_uint. rewrite Z.shiftl_mul_pow2 by lia. change (2 ^ 5)%Z with 32%Z.
  rewrite Zplus_mod_idemp_l, <- Z.add_assoc, Zplus_mod_idemp_l.
  set (m := (z mod 2 ^ 32)%Z). replace (m * 32 + (m + code c))%Z with (m * 33 + code c)%Z by ring. subst m.
  by rewrite <- Zplus_mod_idemp_l, Zmult_mod_idemp_l, Zplus_mod_idemp_l.
Qed.

(** The blocks of [HASH_SFH] leave the last one, two or three bytes. *)
Lemma sfh_rest key h : (sfh_blocks key h).2 = drop (4 * (length key / 4)) key.
Proof.
  remember (length key) as n eqn:En. revert key h En. induction (lt_wf n) as [n _ IH]. intros key h ->.
  destruct key as [|a [|b [|c [|d rest]]]]; [done..|]. cbn [sfh_blocks].
  rewrite (IH (length rest)) by (cbn; lia). cbn [length].
  replace (S (S (S (S (length rest))))) with (1 * 4 + length rest) by lia. rewrite Nat.div_add_l by done.
  by replace (4 * (1 + length rest / 4)) with (S (S (S (S (4 * (length rest / 4)))))) by lia.
Qed.

(** ** Where an element goes *)

(** A node between two lists. *)
Lemma dl_insert m l1 l2 p x : dl m (l1 ++ l2) → p ∉ l1 ++ l2 → m !! p = Some x →
  dl (with_prev (first l2 None) (Some p) (with_next (final l1 None) (Some p)
       (with_prev (Some p) (final l1 None) (with_next (Some p) (first l2 None) m)))) (l1 ++ p :: l2).
Proof.
  intros [[H1 H2]%seg_app Hnd] Hp Hx. pose proof Hnd as (Hn1 & Hd & Hn2)%NoDup_app. pose proof Hp as [Hp1 Hp2]%not_elem_of_app.
  set (m1 := with_prev (Some p) _ _). assert (∀ q, q ≠ p → m1 !! q = m !! q) as Hm1.
  { intros q Hq. subst m1. by rewrite with_prev_other, with_next_other by congruence. }
  assert (m1 !! p = Some (final l1 None, first l2 None)) as Hmp by (subst m1; cbn; by rewrite lookup_alter_eq, lookup_alter_eq, Hx).
  set (m2 := with_next (final l1 None) _ m1).
  assert (∀ q, q ∉ l1 → m2 !! q = m1 !! q) as Hm2 by (intros q Hq; subst m2; apply with_next_other; by intros ?%final_elem).
  assert (∀ q, q ∉ l2 → with_prev (first l2 None) (Some p) m2 !! q = m2 !! q) as Hm3 by (intros q Hq; apply with_prev_other; by intros ?%first_elem).
  split; [|by rewrite <- Permutation_middle; apply NoDup_cons]. apply seg_app. cbn. split_and!.
  - eapply seg_frame; [intros q Hq; apply Hm3; intros Hq2; by apply (Hd q)|]. subst m2.
    eapply seg_set_next; [done|]. eapply seg_frame; [|exact H1]. intros q Hq. apply Hm1. by intros ->.
  - by rewrite Hm3, Hm2.
  - eapply seg_set_prev; [done|]. eapply seg_frame; [|exact H2]. intros q Hq.
    rewrite Hm2 by (intros Hq1; by apply (Hd q)). apply Hm1. by intros ->.
Qed.

(** ** The number of the buckets *)

Section log.
Context {V : Type}.
Abbreviation store := (@store V).

(** What an operation leaves of the number of the buckets. *)
Definition keeps_log {A} (p : @M V A) : Prop := ∀ s a s', p s = Ok _ a s' →
  ∀ t', tbl s' = Some t' → ∃ t, tbl s = Some t ∧ log2_num_buckets t' = log2_num_buckets t.

Lemma keeps_log_bind {A B} (p : @M V A) (f : A → @M V B) : keeps_log p → (∀ a, keeps_log (f a)) → keeps_log (bindM f p).
Proof.
  intros Hp Hf s b s'. unfold bindM. destruct (p s) as [a s1| |] eqn:E; [|done..]. intros E' t' Ht'.
  destruct (Hf a _ _ _ E' t' Ht') as (t1 & Ht1 & ->). by apply (Hp _ _ _ E).
Qed.

End log.

Ltac keeps_log_step :=
  match goal with
  | |- keeps_log (bindM _ _) => apply keeps_log_bind
  | |- keeps_log (match ?x with _ => _ end) => destruct x
  | |- ∀ _, keeps_log _ => intros ?
  | |- keeps_log ?p =>
      try (intros ? ? ? E t' Ht'; unfold get_hh, set_hh, get_tbl, set_tbl, get_head, set_head, free_tbl, get_bucket, walk_fuel, uthash_malloc, bad, pure in E;
      repeat case_match; simplify_eq/=; by eauto)
  end.

Section order.
Context {V : Type} (refuses : nat → Z → bool) (F : Prop) (HF : ∀ n z, (z < 2 ^ 36)%Z → refuses n z = true → F).
Context (Hbig : ∀ n z, (2 ^ 36 <= z)%Z → refuses n z = true).
Abbreviation store := (@store V).
Context (cmpfcn : bytes * V → bytes * V → Z).
Abbreviation wpf := (wpm F).
Abbreviation entries := (list (nat * (bytes * V))).

(** [i1] goes before [add], and the first of [i2] is greater. *)
Definition around (s : store) (add : nat) (i1 i2 : list nat) : Prop :=
  Forall (λ q, le cmpfcn s q add) i1 ∧ match i2 with q :: _ => ¬ le cmpfcn s q add | [] => True end.

Lemma get_entry_F (s : store) p x Q : entry_at s p = Some x → Q x s → wpf (get_entry p) s Q.
Proof.
  unfold entry_at, infos. rewrite lookup_fmap. intros Hp HQ. unfold wpm, get_entry. destruct (mem s !! p) as [e|]; [|done].
  cbn in Hp. simplify_eq. exact HQ.
Qed.

Lemma akbi_ok s add pre it items fuel : seg (app_view (mem s)) pre (it :: items) None →
  (∀ p, p ∈ add :: it :: items → is_Some (entry_at s p)) → length items < fuel →
  wpf (HASH_AKBI_INNER_LOOP cmpfcn fuel it add) s (λ r s', s' = s ∧ ∃ i1 i2, it :: items = i1 ++ i2 ∧ r = first i2 None ∧ around s add i1 i2).
Proof.
  revert pre it fuel. induction items as [|q items IH]; intros pre it fuel [Hit Hs] He Hf; (destruct fuel as [|fuel]; [cbn in Hf; lia|]).
  all: destruct (He it) as [x Hx]; [by right; left|]; destruct (He add) as [y Hy]; [by left|].
  all: cbn [HASH_AKBI_INNER_LOOP]; apply wpm_bind; eapply get_entry_F; [exact Hx|]; apply wpm_bind; eapply get_entry_F; [exact Hy|].
  all: destruct (Z.ltb_spec 0 (cmpfcn x y)) as [Hgt|Hle];
    [apply wpm_pure; split; [done|]; eexists [], _; split_and!; [done|done|split; [constructor|]]; unfold le; rewrite Hx, Hy; lia|].
  all: assert (le cmpfcn s it add) as Hle' by (unfold le; rewrite Hx, Hy; lia).
  all: unfold app_view in Hit; rewrite lookup_fmap in Hit; destruct (mem s !! it) as [e|] eqn:Em; [|done]; cbn in Hit; injection Hit as _ Hn.
  all: apply wpm_bind; eapply wpm_get_hh; [exact Em|]; rewrite Hn.
  - apply wpm_pure. split; [done|]. exists [it], []. split_and!; [done|done|split; [by constructor|done]].
  - eapply wpm_mono; [eapply IH; [exact Hs| |cbn in Hf; lia]|].
    + intros p Hp. apply He. apply elem_of_cons in Hp as [->|Hp]; [by left|by do 2 right].
    + intros r s' (-> & i1 & i2 & E & -> & H1 & H2). split; [done|]. exists (it :: i1), i2. split_and!; [by rewrite E|done|split; [by constructor|done]].
Qed.

Lemma insert_before_ok s i1 q i2 t p (items := i1 ++ q :: i2) :
  is_Some (mem s !! p) → dl (app_view (mem s)) items → p ∉ items → head s = first items None →
  tbl s = Some t → num_items t = Z.of_nat (length items) → tail t = final items None → tbl_ok (mem s) t items →
  (log2_num_buckets t = 31%Z → F) →
  wpf (set_hh p (set_next (Some q)) ;;; h <- get_hh q;; set_hh p (set_prev (prev h)) ;;;
       (match prev h with Some r => set_hh r (set_next (Some p)) | None => set_head (Some p) end : @M V unit) ;;;
       set_hh q (set_prev (Some p)))%ut s
    (λ _ s2, listed_in F s items (i1 ++ p :: q :: i2) s2).
Proof.
  intros Hp Hdl Hpi Hh Ht Hn Htail Hok Hfull. assert (exists x, app_view (mem s) !! p = Some x) as [x Hx] by by apply live_views_app.
  assert (q ∈ items) as Hq by (apply elem_of_app; right; by left).
  assert (p ≠ q) as Hpq by (by intros ->).
  destruct (handle_at _ _ _ _ Hdl) as (e & He & Hpv & _).
  apply wpm_bind, wpm_set_hh; [done|]. apply wpm_bind. eapply wpm_get_hh.
  { cbn [mem with_mem]. unfold hset. by rewrite lookup_alter_ne. }
  rewrite Hpv. apply wpm_bind, wpm_set_hh; [by apply live_hset|]. cbn [mem with_mem]. set (m2 := hset p _ (hset p _ (mem s))).
  assert (∀ r, is_Some (mem s !! r) → is_Some (m2 !! r)) as Hl2 by (intros r Hr; by do 2 apply live_hset).
  set (m3 := match final i1 None with Some r => hset r (set_next (Some p)) m2 | None => m2 end).
  apply wpm_bind. eapply (wpm_mono _ _ _ (λ _ s3, s3 = Store m3 (tbl s) (first (i1 ++ [p]) None) (asked s))).
  { subst m3. destruct (final i1 None) as [r|] eqn:Er.
    - apply wpm_set_hh; [apply Hl2, live_views_app, (dl_live _ _ _ Hdl), elem_of_app; left; by apply final_elem|].
      unfold with_mem. cbn. f_equal. rewrite Hh. by destruct i1.
    - rewrite final_None in Er. apply last_None in Er as ->. by apply wpm_set_head. }
  intros _ s3 ->. apply wpm_set_hh.
  { cbn [mem]. assert (is_Some (m2 !! q)) by (apply Hl2; by eexists). subst m3. destruct (final i1 None); [by apply live_hset|done]. }
  assert (app_view m3 = with_next (final i1 None) (Some p) (app_view m2)) as Ha3 by (subst m3; destruct (final i1 None); [apply app_set_next|done]).
  assert (bkt_view m3 = bkt_view (mem s)) as Hb3.
  { subst m3 m2. destruct (final i1 None); by rewrite ?bkt_set_next, bkt_set_prev, bkt_set_next. }
  assert (infos m3 = infos (mem s)) as Hi3.
  { subst m3 m2. destruct (final i1 None); by rewrite ?infos_set_next, infos_set_prev, infos_set_next. }
  split_and!; cbn [mem with_mem head tbl].
  - rewrite app_set_prev, Ha3. subst m2. rewrite app_set_prev, app_set_next. by eapply (dl_insert _ i1 (q :: i2) p x).
  - by destruct i1.
  - by rewrite infos_set_prev.
  - exists t. split_and!; [done..| |].
    + rewrite Htail. subst items. by rewrite !final_app.
    + eapply tbl_ok_frame; [done..| |]; intros r _; [by rewrite infos_set_prev, Hi3|by rewrite bkt_set_prev, Hb3].
Qed.

Lemma around_infos s s' p i1 i2 : infos (mem s') = infos (mem s) → around s p i1 i2 → around s' p i1 i2.
Proof. intros Hi. unfold around, le, entry_at. by rewrite Hi. Qed.

Lemma add_inorder_ok s items p k : addable F s items p k →
  wpf (HASH_ADD_KEYPTR_INORDER refuses cmpfcn k (Z.of_nat (length k)) p) s (λ _ s', ∃ i1 i2, items = i1 ++ i2 ∧
    wf s' (i1 ++ p :: i2) ∧ infos (mem s') = alter (keyed k) p (infos (mem s)) ∧ around s' p i1 i2).
Proof.
  intros Hadd. pose proof Hadd as [Hwf Hp Hpi Hk Hkl Hsz Hfull]. unfold HASH_ADD_KEYPTR_INORDER, HASH_ADD_KEYPTR_BYHASHVALUE_INORDER.
  rewrite to_uint_small, take_ge by lia. apply wpm_bind, wpm_set_hh; [done|].
  destruct (set_key_ok _ _ _ _ _ Hadd) as (Hp1 & Ha & Hi & Hok1). set (s1 := with_mem s _) in *.
  apply wpm_bind, wpm_get_head. apply wpm_bind.
  eapply (wpm_mono _ _ _ (λ _ s2, ∃ i1 i2, items = i1 ++ i2 ∧ listed_in F s1 items (i1 ++ p :: i2) s2 ∧ around s1 p i1 i2)).
  - change (head s1) with (head s). rewrite (w_head _ _ Hwf). pose proof (w_tbl _ _ Hwf) as Ht. destruct items as [|q items]; cbn [first].
    { eapply wpm_mono; [by apply make_table_ok|]. intros [] s2 Hl. exists [], []. split; [done|]. split; [exact Hl|]. by split; [constructor|]. }
    destruct (tbl s) as [t|] eqn:Et; [|done]. destruct Ht as (_ & Hn & Htl & Hok). pose proof (w_app _ _ Hwf) as Hdl. rewrite <- Ha in Hdl.
    apply wpm_bind. unfold wpm at 1. cbn [walk_fuel]. apply wpm_bind. eapply wpm_mono; [eapply akbi_ok; [apply Hdl| |]|].
    + intros r Hr. assert (is_Some (infos (mem s1) !! r)) as [i Hir]; [|unfold entry_at; rewrite Hir; by eexists]. apply live_info.
      apply elem_of_cons in Hr as [->|Hr]; [done|]. by apply live_views_app, (dl_live _ _ _ Hdl).
    + assert (length (q :: items) <= size (mem s1)) as Hls; [|cbn [length] in Hls; lia].
      apply length_live; [apply Hdl|]. intros r Hr. by apply live_views_app, (dl_live _ _ _ Hdl).
    + intros r s2 (-> & i1 & i2 & E & -> & Har). destruct i2 as [|q2 i2]; cbn [first].
      * rewrite app_nil_r in E. subst i1. eapply wpm_mono; [eapply append_list_ok with (items := q :: items); [done|exact Hdl|done|done|apply Hwf|exact Et|done|done|by apply Hok1|by apply Hfull]|].
        intros [] s2 Hl. exists (q :: items), []. split; [by rewrite app_nil_r|]. split; [exact Hl|exact Har].
      * pose proof (insert_before_ok s1 i1 q2 i2 t p) as Hib. cbv zeta in Hib. rewrite <- E in Hib. eapply wpm_mono; [apply Hib; [done|exact Hdl|done|apply Hwf|exact Et|done|done|by apply Hok1|by apply Hfull]|].
        intros [] s2 Hl. exists i1, (q2 :: i2). split; [done|]. split; [exact Hl|exact Har].
  - intros _ s2 (i1 & i2 & E & Hl & Har). eapply wpm_mono; [eapply add_to_table_ok; [done..|exact Hadd|exact Hi|exact Hl|]|].
    { rewrite E. symmetry. apply Permutation_middle. }
    intros _ s3 [Hwf3 Hi3]. exists i1, i2. split; [done|]. split; [done|]. split; [done|]. eapply around_infos; [|exact Har]. by rewrite Hi3, Hi.
Qed.

(** *** The same of the sequence of entries *)

Lemma addable_repr (s : store) (l : entries) p k i : repr s l → p ∉ l.*1 → infos (mem s) !! p = Some i → (∀ q d', (q, (k, d')) ∉ l) →
  (Z.of_nat (length k) < 2 ^ 32)%Z → (Z.of_nat (length l) + 1 < 2 ^ 32)%Z → (∀ t, tbl s = Some t → log2_num_buckets t = 31%Z → F) →
  addable F s l.*1 p k.
Proof.
  intros Hr Hp Hi Hk Hkl Hsz Hfull. split; [apply Hr|by apply live_info; rewrite Hi|done| |done|by rewrite length_fmap|done].
  intros q Hq Hkq. apply (repr_key _ _ _ _ Hr Hq) in Hkq as [d Hd]. by apply (Hk q d).
Qed.

Lemma repr_added (s s' : store) (l1 l2 : entries) p k i : repr s (l1 ++ l2) → p ∉ (l1 ++ l2).*1 → infos (mem s) !! p = Some i →
  wf s' (l1.*1 ++ p :: l2.*1) → infos (mem s') = alter (keyed k) p (infos (mem s)) →
  repr s' (l1 ++ (p, (k, i_data i)) :: l2) ∧ same_outside [p] s s'.
Proof.
  intros [_ Hr] Hp Hi Hwf Hi'. split; [split|].
  - by rewrite fmap_app, fmap_cons.
  - intros q k' d' Hin. rewrite Hi'. assert ((q, (k', d')) ∈ l1 ++ l2 ∨ (q, (k', d')) = (p, (k, i_data i))) as [Hin'|[= -> -> ->]].
    { rewrite elem_of_app, elem_of_cons in Hin. rewrite elem_of_app. tauto. }
    + rewrite lookup_alter_ne; [by apply Hr|]. intros ->. by apply Hp, (in_addrs _ q (k', d')).
    + rewrite lookup_alter_eq, Hi. by eexists.
  - intros q Hq. rewrite Hi'. apply lookup_alter_ne. intros ->. apply Hq. by left.
Qed.

(** Entries up to [x] in the order, and those behind it. *)
Definition in_place (l1 : entries) (x : bytes * V) (l2 : entries) : Prop :=
  Forall (λ y, (cmpfcn y.2 x <= 0)%Z) l1 ∧ match l2 with y :: _ => (0 < cmpfcn y.2 x)%Z | [] => True end.

Definition sorted (l : entries) : Prop := StronglySorted (λ x y, (cmpfcn x.2 y.2 <= 0)%Z) l.

Lemma in_place_sorted l1 x l2 p : orders cmpfcn → in_place l1 x l2 → sorted (l1 ++ l2) → sorted (l1 ++ (p, x) :: l2).
Proof.
  intros [Htotal Htrans] [H1 H2]. unfold sorted. induction l1 as [|y l1 IH]; cbn [app].
  - intros Hs. apply StronglySorted_cons. split; [|done]. destruct l2 as [|y l2]; [constructor|].
    assert (cmpfcn x y.2 <= 0)%Z by (destruct (Htotal x y.2); lia). apply StronglySorted_cons in Hs as [Hy _].
    constructor; [done|]. eapply Forall_impl; [exact Hy|]. intros z Hz. by eapply Htrans.
  - intros [Hy Hs]%StronglySorted_cons. apply Forall_cons in H1 as [Hx H1]. apply StronglySorted_cons. split; [|by apply IH].
    rewrite Forall_app in Hy |- *. destruct Hy as [Hy1 Hy2]. split; [done|]. by constructor.
Qed.

Lemma around_in_place s l1 l2 p k i : repr s (l1 ++ (p, (k, i_data i)) :: l2) → around s p l1.*1 l2.*1 → in_place l1 (k, i_data i) l2.
Proof.
  intros Hr [H1 H2]. assert (∀ y, y ∈ l1 ++ l2 → le cmpfcn s y.1 p ↔ (cmpfcn y.2 (k, i_data i) <= 0)%Z) as Hle.
  { intros y Hy. unfold le. rewrite (repr_entry s (l1 ++ (p, (k, i_data i)) :: l2) y) by (first [done|rewrite elem_of_app, elem_of_cons; apply elem_of_app in Hy; tauto]).
    pose proof (repr_entry s _ (p, (k, i_data i)) Hr ltac:(apply elem_of_app; right; by left)) as Hpe. cbn [fst snd] in Hpe. by rewrite Hpe. }
  split.
  - rewrite Forall_fmap in H1. rewrite Forall_forall in H1 |- *. intros y Hy. apply Hle; [apply elem_of_app; by left|]. by apply H1.
  - destruct l2 as [|y l2]; [done|]. cbn in H2. rewrite Hle in H2 by (apply elem_of_app; right; by left). lia.
Qed.

Lemma insert_inorder_ok (s : store) (l : entries) p k i : repr s l → p ∉ l.*1 → infos (mem s) !! p = Some i → (∀ q d', (q, (k, d')) ∉ l) →
  (Z.of_nat (length k) < 2 ^ 32)%Z → (Z.of_nat (length l) + 1 < 2 ^ 32)%Z → (∀ t, tbl s = Some t → log2_num_buckets t = 31%Z → F) →
  wpf (HASH_ADD_KEYPTR_INORDER refuses cmpfcn k (Z.of_nat (length k)) p) s (λ _ s', ∃ l1 l2, l = l1 ++ l2 ∧
    repr s' (l1 ++ (p, (k, i_data i)) :: l2) ∧ in_place l1 (k, i_data i) l2 ∧ same_outside [p] s s').
Proof.
  intros Hr Hp Hi Hk Hkl Hsz Hfull. eapply wpm_mono; [apply add_inorder_ok; by eapply addable_repr|].
  intros [] s' (i1 & i2 & E & Hwf & Hi' & Har). apply fmap_app_inv in E as (l1 & l2 & -> & -> & ->).
  destruct (repr_added s s' l1 l2 p k i) as [Hr' Ho]; [done..|]. exists l1, l2. split; [done|]. split; [done|]. split; [|done].
  by eapply around_in_place.
Qed.

Lemma insert_last_ok (s : store) (l : entries) p k i : repr s l → p ∉ l.*1 → infos (mem s) !! p = Some i → (∀ q d', (q, (k, d')) ∉ l) →
  (Z.of_nat (length k) < 2 ^ 32)%Z → (Z.of_nat (length l) + 1 < 2 ^ 32)%Z → (∀ t, tbl s = Some t → log2_num_buckets t = 31%Z → F) →
  wpf (HASH_ADD_STR refuses k p) s (λ _ s', repr s' (l ++ [(p, (k, i_data i))]) ∧ same_outside [p] s s').
Proof.
  intros Hr Hp Hi Hk Hkl Hsz Hfull. eapply wpm_mono; [apply (uthash_add_ok refuses F HF Hbig s l.*1); by eapply addable_repr|].
  intros [] s' [Hwf Hi']. apply (repr_added s s' l [] p k i); by rewrite ?app_nil_r.
Qed.

(** ** Replacing *)

Lemma delete_keeps_log p : keeps_log (@HASH_DELETE_HH V p).
Proof. unfold HASH_DELETE_HH, HASH_DEL_IN_BKT. repeat keeps_log_step. Qed.

Lemma wpm_keeps_log {A} (p : @M V A) s Q : keeps_log p → wpf p s Q →
  wpf p s (λ a s', Q a s' ∧ ∀ t', tbl s' = Some t' → ∃ t, tbl s = Some t ∧ log2_num_buckets t' = log2_num_buckets t).
Proof. intros Hp. unfold wpm. destruct (p s) as [a s'| |] eqn:E; [|done..]. intros HQ. split; [done|by apply (Hp s a)]. Qed.

Lemma find_byhash_ok (s : store) (l : entries) k : repr s l → (Z.of_nat (length k) < 2 ^ 32)%Z →
  wpf (HASH_FIND_BYHASHVALUE k (Z.of_nat (length k)) (HASH_JEN k)) s (λ r s', s' = s ∧ ∀ p, r = Some p ↔ ∃ d, (p, (k, d)) ∈ l).
Proof.
  intros Hr Hk. pose proof (find_repr F s l k Hr Hk) as Hf. unfold HASH_FIND_STR, HASH_FIND in Hf. rewrite to_uint_small, take_ge in Hf by lia.
  unfold wpm at 1, bindM at 1, get_head at 1 in Hf. destruct (head s) as [h|] eqn:Eh; [exact Hf|].
  apply wpm_bind, wpm_get_head. by rewrite Eh.
Qed.

(** The entries but that of the key [k]. *)
Definition without (k : bytes) (l : entries) : entries := filter (λ x, x.2.1 ≠ k) l.

Lemma without_other k l : k ∉ l.*2.*1 → without k l = l.
Proof.
  induction l as [|[p [k' d]] l IH]; [done|]. rewrite !fmap_cons. cbn [fst snd]. intros [Hk Hl]%not_elem_of_cons. unfold without. rewrite filter_cons_True by (cbn; congruence).
  f_equal. by apply IH.
Qed.

Lemma without_at (s : store) l1 p k d l2 : repr s (l1 ++ (p, (k, d)) :: l2) → without k (l1 ++ (p, (k, d)) :: l2) = l1 ++ l2.
Proof.
  intros Hnd%UthashTable.keys_nodup. rewrite !fmap_app, !fmap_cons in Hnd. cbn [fst snd] in Hnd.
  apply NoDup_app in Hnd as (_ & Hd & [H2 _]%NoDup_cons). unfold without. rewrite filter_app, filter_cons_False by (cbn; tauto).
  f_equal; apply without_other; [|done]. intros H1. apply (Hd k H1). by left.
Qed.

(** The part that [HASH_REPLACE] and its version in order share. *)
Definition find_delete (k : bytes) : @M V ptr :=
  (replaced <- HASH_FIND_BYHASHVALUE k (Z.of_nat (length k)) (HASH_JEN k);;
   (match replaced with Some q => HASH_DELETE_HH q | None => pure tt end) ;;; pure replaced)%ut.

Lemma find_delete_ok (s : store) (l : entries) k : repr s l → (Z.of_nat (length k) < 2 ^ 32)%Z →
  wpf (find_delete k) s (λ r s', repr s' (without k l) ∧ infos (mem s') = infos (mem s) ∧
    (∀ p, r = Some p ↔ ∃ d, (p, (k, d)) ∈ l) ∧
    ∀ t', tbl s' = Some t' → ∃ t, tbl s = Some t ∧ log2_num_buckets t' = log2_num_buckets t).
Proof.
  intros Hr Hk. apply wpm_bind. eapply wpm_mono; [by apply find_byhash_ok|]. intros r s1 [-> Hf]. apply wpm_bind. destruct r as [q|].
  - destruct (proj1 (Hf q) eq_refl) as [d (l1 & l2 & ->)%list_elem_of_split]. rewrite (without_at _ _ _ _ _ _ Hr).
    pose proof Hr as [Hwf Hin]. rewrite fmap_app, fmap_cons in Hwf. cbn [fst] in Hwf.
    eapply wpm_mono; [apply wpm_keeps_log; [apply delete_keeps_log|by apply delete_ok]|]. intros [] s1 ([Hwf1 Hi1] & Hlog).
    apply wpm_pure. split; [|split; [done|split; [done|exact Hlog]]]. split; [by rewrite fmap_app|].
    intros p k' d' Hp. rewrite Hi1. apply Hin. rewrite elem_of_app, elem_of_cons. apply elem_of_app in Hp. tauto.
  - do 2 apply wpm_pure. rewrite without_other; [split; [done|split; [done|split; [done|by eauto]]]|].
    intros (x & -> & ([p [k' d]] & -> & Hin)%list_elem_of_fmap)%list_elem_of_fmap. cbn [fst snd] in *.
    assert (@None nat = Some p) as E by (apply Hf; by exists d). done.
Qed.

Lemma wpm_find_delete {A} k (rest : ptr → @M V A) s Q R : wpf (find_delete k) s R → (∀ r s1, R r s1 → wpf (rest r) s1 Q) →
  wpf (replaced <- HASH_FIND_BYHASHVALUE k (Z.of_nat (length k)) (HASH_JEN k);;
       (match replaced with Some q => HASH_DELETE_HH q | None => pure tt end) ;;; rest replaced)%ut s Q.
Proof.
  unfold find_delete, wpm at 1 3, bindM. destruct (HASH_FIND_BYHASHVALUE _ _ _ s) as [r s1| |]; [|done..].
  destruct (match r with Some q => HASH_DELETE_HH q | None => pure tt end s1) as [[] s2| |]; [|done..]. intros HR HQ. by apply HQ.
Qed.

Lemma without_in k l x : x ∈ without k l ↔ x ∈ l ∧ x.2.1 ≠ k.
Proof. unfold without. rewrite list_elem_of_filter. tauto. Qed.

Lemma replace_ok (s : store) (l : entries) p k i : repr s l → p ∉ l.*1 → infos (mem s) !! p = Some i →
  (Z.of_nat (length k) < 2 ^ 32)%Z → (Z.of_nat (length l) + 1 < 2 ^ 32)%Z → (∀ t, tbl s = Some t → log2_num_buckets t = 31%Z → F) →
  wpf (HASH_REPLACE_STR refuses k p) s (λ r s', (∀ q, r = Some q ↔ ∃ d, (q, (k, d)) ∈ l) ∧
    repr s' (without k l ++ [(p, (k, i_data i))]) ∧ same_outside [p] s s') ∧
  wpf (HASH_REPLACE_INORDER refuses cmpfcn k (Z.of_nat (length k)) p) s (λ r s', (∀ q, r = Some q ↔ ∃ d, (q, (k, d)) ∈ l) ∧
    ∃ l1 l2, without k l = l1 ++ l2 ∧ repr s' (l1 ++ (p, (k, i_data i)) :: l2) ∧ in_place l1 (k, i_data i) l2 ∧ same_outside [p] s s').
Proof.
  intros Hr Hp Hi Hk Hsz Hfull. unfold HASH_REPLACE_STR, HASH_REPLACE, HASH_REPLACE_INORDER, HASH_REPLACE_BYHASHVALUE, HASH_REPLACE_BYHASHVALUE_INORDER.
  rewrite to_uint_small, take_ge by lia.
  assert (p ∉ (without k l).*1) as Hp1.
  { intros (x & -> & Hx%without_in)%list_elem_of_fmap. apply Hp, list_elem_of_fmap_2, Hx. }
  assert (∀ q d', (q, (k, d')) ∉ without k l) as Hk1 by (by intros q d' [_ ?]%without_in).
  assert (Z.of_nat (length (without k l)) + 1 < 2 ^ 32)%Z as Hsz1 by (pose proof (length_filter (λ x : nat * (bytes * V), x.2.1 ≠ k) l); unfold without; lia).
  split; (eapply wpm_find_delete; [by apply find_delete_ok|]; intros r s1 (Hr1 & Hi1 & Hf & Hlog);
    assert (∀ t, tbl s1 = Some t → log2_num_buckets t = 31%Z → F) as Hfull1 by (intros t' Ht'; destruct (Hlog t' Ht') as (t & Ht & ->); by apply Hfull);
    assert (∀ s', same_outside [p] s1 s' → same_outside [p] s s') as Hso by (intros s' Ho q Hq; by rewrite Ho, Hi1);
    rewrite <- Hi1 in Hi; apply wpm_bind).
  - pose proof (insert_last_ok s1 (without k l) p k i Hr1 Hp1 Hi Hk1 Hk Hsz1 Hfull1) as Hins. unfold HASH_ADD_STR, HASH_ADD_KEYPTR in Hins.
    rewrite to_uint_small, take_ge in Hins by lia. eapply wpm_mono; [exact Hins|]. intros [] s' [Hr' Ho]. apply wpm_pure. split; [done|]. split; [done|by apply Hso].
  - pose proof (insert_inorder_ok s1 (without k l) p k i Hr1 Hp1 Hi Hk1 Hk Hsz1 Hfull1) as Hins. unfold HASH_ADD_KEYPTR_INORDER in Hins.
    rewrite take_ge in Hins by lia. eapply wpm_mono; [exact Hins|]. intros [] s' (l1 & l2 & E & Hr' & Hpl & Ho). apply wpm_pure. split; [done|].
    exists l1, l2. split; [done|]. split; [done|]. split; [done|by apply Hso].
Qed.

(** The bytes a table takes: no overflow. *)
Lemma overhead_ok (s : store) (l : entries) : repr s l →
  wpf HASH_OVERHEAD s (λ r s', s' = s ∧ match tbl s with
    | None => r = 0%Z
    | Some t => r = (Z.of_nat (length l) * SIZEOF_HANDLE + num_buckets t * SIZEOF_BUCKET + SIZEOF_TABLE)%Z
    end).
Proof.
  intros [Hwf _]. apply wpm_bind, wpm_get_head. rewrite (w_head _ _ Hwf). pose proof (w_tbl _ _ Hwf) as Ht. pose proof (w_bound _ _ Hwf) as Hb.
  destruct (tbl s) as [t|] eqn:Et; [|rewrite Ht; by apply wpm_pure]. destruct Ht as (Hne & Hn & _ & [Hlog Hnum _ _]).
  rewrite length_fmap in *. destruct l as [|x l]; [done|]. cbn [first fmap list_fmap]. apply wpm_bind. eapply wpm_get_tbl; [exact Et|].
  apply wpm_pure. split; [done|]. rewrite Hn. apply Z.mod_small. rewrite Hnum.
  pose proof (Z.pow_le_mono_r 2 (log2_num_buckets t) 31 ltac:(lia) ltac:(lia)). pose proof (Z.pow_pos_nonneg 2 (log2_num_buckets t) ltac:(lia) ltac:(lia)).
  unfold SIZEOF_HANDLE, SIZEOF_BUCKET, SIZEOF_TABLE. lia.
Qed.
End order.

(** C22: the macros of uthash.h that keep an order or replace, and its other hash
    functions.  For a table that represents [l] and a live element [p] outside of
    it, whose key [k] is new, [HASH_ADD_KEYPTR_INORDER] puts the element behind
    all entries that do not compare greater, up to the first that does; when the
    comparison is a total preorder and [l] is sorted, the result is sorted.
    [HASH_REPLACE_STR] takes out the entry of the key [k], if there is one, and
    returns it, and appends the new element; [HASH_REPLACE_INORDER] puts it in its
    place.  Both leave a table that represents the new sequence and the rest of
    the heap alone, and can only fail when there is [no_room].  [HASH_OVERHEAD]
    is the size of the handles, the buckets and the table, without overflow.  All
    hash functions stay within 32 bits, on every key; [HASH_BER] is the key in base
    33, and [HASH_SFH] takes four bytes at a time up to the last three. *)
Theorem uthash_order_correct {V} (refuses : nat → Z → bool) (cmpfcn : bytes * V → bytes * V → Z) (s : @store V)
    (l : list (nat * (bytes * V))) (p : nat) (k : bytes) (i : info) :
  (∀ n z, (2 ^ 36 <= z)%Z → refuses n z = true) → (tbl s = None ∧ head s = None ∧ l = [] ∨ repr s l) →
  p ∉ l.*1 → infos (mem s) !! p = Some i → (Z.of_nat (length k) < 2 ^ 32)%Z → (Z.of_nat (length l) + 1 < 2 ^ 32)%Z →
  let new := (p, (k, i_data i)) in
  ((∀ q d, (q, (k, d)) ∉ l) →
   wpm (UthashTable.no_room refuses s) (HASH_ADD_KEYPTR_INORDER refuses cmpfcn k (Z.of_nat (length k)) p) s (λ _ s', ∃ l1 l2,
     l = l1 ++ l2 ∧ repr s' (l1 ++ new :: l2) ∧ in_place cmpfcn l1 new.2 l2 ∧
     (orders cmpfcn → sorted cmpfcn l → sorted cmpfcn (l1 ++ new :: l2)) ∧ same_outside [p] s s')) ∧
  wpm (UthashTable.no_room refuses s) (HASH_REPLACE_STR refuses k p) s (λ r s',
    (∀ q, r = Some q ↔ ∃ d, (q, (k, d)) ∈ l) ∧ repr s' (without k l ++ [new]) ∧ same_outside [p] s s') ∧
  wpm (UthashTable.no_room refuses s) (HASH_REPLACE_INORDER refuses cmpfcn k (Z.of_nat (length k)) p) s (λ r s',
    (∀ q, r = Some q ↔ ∃ d, (q, (k, d)) ∈ l) ∧ ∃ l1 l2, without k l = l1 ++ l2 ∧ repr s' (l1 ++ new :: l2) ∧
      in_place cmpfcn l1 new.2 l2 ∧ same_outside [p] s s') ∧
  wpm False HASH_OVERHEAD s (λ r s', s' = s ∧ match tbl s with
    | None => r = 0%Z
    | Some t => r = (Z.of_nat (length l) * SIZEOF_HANDLE + num_buckets t * SIZEOF_BUCKET + SIZEOF_TABLE)%Z
    end) ∧
  Forall is_uint [HASH_BER k; HASH_SAX k; HASH_FNV k; HASH_OAT k; HASH_SFH k] ∧ HASH_BER k = to_uint (base33 k) ∧
  ∀ h, (sfh_blocks k h).2 = drop (4 * (length k / 4)) k.
Proof.
  intros Hbig Hr0 Hp Hi Hk Hsz new. assert (repr s l) as Hr by (destruct Hr0 as [(? & ? & ->)|?]; [by apply repr_empty|done]).
  assert (∀ n z, (z < 2 ^ 36)%Z → refuses n z = true → UthashTable.no_room refuses s) as HF by (intros n z Hz Hn; left; eauto).
  assert (∀ t, tbl s = Some t → log2_num_buckets t = 31%Z → UthashTable.no_room refuses s) as Hfull by (intros t Ht Hlog; right; eauto).
  split_and!.
  - intros Hnew. eapply wpm_mono; [by apply (insert_inorder_ok refuses _ HF Hbig cmpfcn s l p k i)|].
    intros [] s' (l1 & l2 & -> & Hr' & Hpl & Ho). exists l1, l2. split; [done|]. split; [exact Hr'|]. split; [exact Hpl|]. split; [|exact Ho].
    intros Hord Hs. by apply in_place_sorted.
  - by apply (replace_ok refuses _ HF Hbig cmpfcn s l p k i).
  - by apply (replace_ok refuses _ HF Hbig cmpfcn s l p k i).
  - by apply overhead_ok.
  - apply hash_ranges.
  - apply ber_base33.
  - intros h. apply sfh_rest.
Qed.

(** An element that waits outside of the table of [three], sorted by its data. *)
Definition ready (p : nat) (d : nat) (s : @store nat) : @store nat :=
  Store (<[p := Element d UthashTable.blank]> (mem s)) (tbl s) (head s) (asked s).

Lemma uthash_order_correct_witness :
  let two := ready 5 1 three in
  ∃ s' l1 l2, HASH_ADD_KEYPTR_INORDER UthashTable.ample by_data (to_bytes "a") 1 5 two = Ok _ tt s' ∧
    three_entries = l1 ++ l2 ∧ repr s' (l1 ++ (5, (to_bytes "a", 1)) :: l2) ∧ walk 5 s' (head s') = [5; 8; 7; 9].
Proof.
  intros two. destruct (new_element_ok three three_entries 5 1 UthashTable.blank three_repr eq_refl) as (Hr & Hp & Hi).
  destruct (uthash_order_correct UthashTable.ample by_data two three_entries 5 (to_bytes "a") (Info 1 [] 0 0)) as [Hadd _].
  - exact UthashTable.ample_big.
  - by right.
  - exact Hp.
  - vm_compute. reflexivity.
  - vm_compute. reflexivity.
  - vm_compute. reflexivity.
  - assert (match HASH_ADD_KEYPTR_INORDER UthashTable.ample by_data (to_bytes "a") 1 5 two with
      Ok _ _ s' => walk 5 s' (head s') | _ => [] end = [5; 8; 7; 9]) as Hwalk by (vm_compute; reflexivity).
    unfold wpm in Hadd. change (Z.of_nat (length (to_bytes "a"))) with 1%Z in Hadd.
    destruct (HASH_ADD_KEYPTR_INORDER UthashTable.ample by_data (to_bytes "a") 1 5 two) as [[] s'| |]; [|discriminate Hwalk..].
    destruct Hadd as (l1 & l2 & H1 & H2 & _).
    + intros q d Hin. assert ((to_bytes "a", d) ∈ three_entries.*2) as Hin2 by (by apply (list_elem_of_fmap_2 snd) in Hin).
      apply (list_elem_of_fmap_2 fst) in Hin2. revert Hin2. apply (bool_decide_unpack _). vm_compute. exact I.
    + exists s', l1, l2. split; [reflexivity|]. split; [exact H1|]. split; [exact H2|exact Hwalk].
Defined.
