(* ===== verification/UthashSelect.v ===== *)
(** * Selecting from a hash table of uthash.h

    [HASH_SELECT] makes a second table of the elements that satisfy a condition.
    Its list runs through a second handle of the elements: a store of its own,
    in which the same addresses hold the same data and the other handles. *)
From Stdlib Require Import ZArith Lia Ascii String.
From stdpp Require Import base gmap strings list fin_maps.
From S2P Require Import Prelude Prog CString DList Uthash UthashInv UthashSort UthashMore.
From S2P Require UthashTable.

Section operations.
Context {V : Type} (refuses : nat → Z → bool).
Abbreviation store := (@store V).
Abbreviation M := (@M V).
(** The condition, and the table to select from; its handles are only read. *)
Context (cond : bytes * V → bool) (src : store).
Local Open Scope uthash_scope.

(** The element [elt], whose handle in [src] is [src_hh], goes behind
    [last_elt]; the new [_last_elt]. *)
Definition select_one (src_hh : UT_hash_handle) (elt : nat) (last_elt : ptr) : M ptr :=
  set_hh elt (λ d, Handle (prev d) (next d) (hh_prev d) (hh_next d) (key src_hh) (keylen src_hh) (hashv src_hh)) ;;;
  set_hh elt (set_prev last_elt) ;;;
  set_hh elt (set_next None) ;;;
  (match last_elt with Some q => set_hh q (set_next (Some elt)) | None => pure tt end) ;;;
  dst <- get_head;;
  (match dst with
   | None => set_head (Some elt) ;;; HASH_MAKE_TABLE refuses elt
   | Some _ => pure tt
   end) ;;;
  t <- get_tbl;;
  HASH_ADD_TO_BKT refuses (HASH_TO_BKT (hashv src_hh) (num_buckets t)) elt ;;;
  set_tbl (λ t, set_num_items (to_uint (num_items t + 1)) t) ;;;
  pure (Some elt).

Fixpoint select_chain (fuel : nat) (src_hh last_elt : ptr) : M ptr :=
  match src_hh with
  | None => pure last_elt
  | Some elt =>
      match fuel, mem src !! elt with
      | S fuel, Some e =>
          last_elt <- (if cond (key (hh e), el_data e) then select_one (hh e) elt last_elt else pure last_elt);;
          select_chain fuel (hh_next (hh e)) last_elt
      | _, _ => bad
      end
  end.

Fixpoint select_buckets (l : list UT_hash_bucket) (last_elt : ptr) : M ptr :=
  match l with
  | [] => pure last_elt
  | b :: l' => last_elt <- select_chain (S (size (mem src))) (hh_head b) last_elt;; select_buckets l' last_elt
  end.

Definition HASH_SELECT : M unit :=
  match head src with
  | None => pure tt
  | Some _ =>
      match tbl src with
      | Some t => select_buckets (take (Z.to_nat (num_buckets t)) (buckets t)) None ;;; pure tt
      | None => bad
      end
  end.
End operations.

(** ** How far the table grows *)

Section grows.
Context {V : Type} (refuses : nat → Z → bool).

(** At most one doubling of the buckets. *)
Definition grows {A} (p : @M V A) : Prop := ∀ s a s', p s = Ok _ a s' →
  ∀ t', tbl s' = Some t' → ∃ t, tbl s = Some t ∧ (log2_num_buckets t' <= Z.max (log2_num_buckets t) (to_uint (log2_num_buckets t + 1)))%Z.

Lemma keeps_grows {A} (p : @M V A) : keeps_log p → grows p.
Proof. intros Hp s a s' E t' Ht'. destruct (Hp s a s' E t' Ht') as (t & Ht & ->). exists t. split; [done|lia]. Qed.

Lemma keeps_then_grows {A B} (p : @M V A) (f : A → @M V B) : keeps_log p → (∀ a, grows (f a)) → grows (bindM f p).
Proof.
  intros Hp Hf s b s'. unfold bindM. destruct (p s) as [a s1| |] eqn:E; [|done..]. intros E' t' Ht'.
  destruct (Hf a _ _ _ E' t' Ht') as (t1 & Ht1 & Hle). destruct (Hp _ _ _ E t1 Ht1) as (t & Ht & El). exists t. by rewrite <- El.
Qed.

Lemma expand_loop_keeps_log old new : keeps_log (@expand_loop V old new).
Proof.
  revert new. induction old as [|b old IH]; intros new; cbn [expand_loop]; [by keeps_log_step|].
  apply keeps_log_bind; [by keeps_log_step|]. intros n. apply keeps_log_bind; [|done]. generalize (hh_head b).
  revert new. induction n as [|n IHn]; intros new [p|]; cbn [expand_chain]; unfold expand_one, push_front; repeat keeps_log_step; apply IHn.
Qed.
Lemma expand_grows : grows (@HASH_EXPAND_BUCKETS V refuses).
Proof.
  unfold HASH_EXPAND_BUCKETS. do 4 (apply keeps_then_grows; [first [apply expand_loop_keeps_log|by repeat keeps_log_step]|intros ?]).
  intros s u s' E t' Ht'. unfold set_tbl in E. destruct (tbl s) as [t|]; [|done]. simplify_eq/=. exists t. split; [done|lia].
Qed.

Lemma add_to_bkt_grows bkt p : grows (@HASH_ADD_TO_BKT V refuses bkt p).
Proof.
  unfold HASH_ADD_TO_BKT, push_front. do 4 (apply keeps_then_grows; [by repeat keeps_log_step|intros ?]).
  destruct (_ && _); [apply expand_grows|]. apply keeps_grows. by keeps_log_step.
Qed.

Lemma wpm_grows F {A} (p : @M V A) s Q : grows p → wpm F p s Q → wpm F p s (λ a s', Q a s' ∧
  ∀ t', tbl s' = Some t' → ∃ t, tbl s = Some t ∧ (log2_num_buckets t' <= Z.max (log2_num_buckets t) (to_uint (log2_num_buckets t + 1)))%Z).
Proof. intros Hp. unfold wpm. destruct (p s) as [a s'| |] eqn:E; [|done..]. intros HQ. split; [done|by apply (Hp s a)]. Qed.
End grows.

Lemma prev_next_comm o v w m : with_prev o v (with_next o w m) = with_next o w (with_prev o v m).
Proof.
  destruct o as [p|]; [|done]. apply map_eq. intros q. unfold with_prev, with_next. destruct (decide (q = p)) as [->|Hq].
  - rewrite !lookup_alter_eq. by destruct (m !! p).
  - by rewrite !lookup_alter_ne.
Qed.

Section select.
Context {V : Type} (refuses : nat → Z → bool) (F : Prop) (HF : ∀ n z, (z < 2 ^ 36)%Z → refuses n z = true → F).
Context (Hbig : ∀ n z, (2 ^ 36 <= z)%Z → refuses n z = true).
Abbreviation store := (@store V).
Context (cond : bytes * V → bool) (src : store) (items : list nat) (Hsrc : wf src items).
Abbreviation wpf := (wpm F).

(** The destination [s], which was [s0] at the start, when the elements [out]
    have been selected.  The table's tail is its first element. *)
Record selected (s0 s : store) (out : list nat) : Prop := Selected {
  se_dl : dl (app_view (mem s)) out;
  se_in : ∀ p, p ∈ out → p ∈ items;
  se_head : head s = first out None;
  se_info : ∀ p, infos (mem s) !! p = if decide (p ∈ out) then infos (mem src) !! p else infos (mem s0) !! p;
  se_tbl : match tbl s with
    | None => out = []
    | Some t => out ≠ [] ∧ num_items t = Z.of_nat (length out) ∧ tail t = first out None ∧
        (log2_num_buckets t <= 5 + Z.of_nat (length out))%Z ∧ tbl_ok (mem s) t out
    end }.

(** The first writes of [select_one]: the handle, and the link from the last element. *)
Lemma select_link_ok s0 s out p e : selected s0 s out → p ∉ out → mem src !! p = Some e →
  i_data <$> infos (mem s0) !! p = Some (el_data e) →
  ∀ (rest : @M V ptr) Q,
  (∀ m, dl (app_view m) (out ++ [p]) → bkt_view m = bkt_view (mem s) →
    (∀ q, infos m !! q = if decide (q ∈ out ++ [p]) then infos (mem src) !! q else infos (mem s0) !! q) →
    wpf rest (with_mem s m) Q) →
  wpf (set_hh p (λ d, Handle (prev d) (next d) (hh_prev d) (hh_next d) (key (hh e)) (keylen (hh e)) (hashv (hh e))) ;;;
       set_hh p (set_prev (final out None)) ;;; set_hh p (set_next None) ;;;
       (match final out None with Some q => set_hh q (set_next (Some p)) | None => pure tt end) ;;; rest)%ut s Q.
Proof.
  intros Hsel Hp He Hd rest Q HQ. pose proof (se_info _ _ _ Hsel) as Hinf. pose proof (se_dl _ _ _ Hsel) as Hdl.
  assert (exists i0, infos (mem s) !! p = Some i0 ∧ i_data i0 = el_data e) as (i0 & Hi0 & Ed).
  { rewrite Hinf, decide_False by done. destruct (infos (mem s0) !! p) as [i0|]; [|done]. exists i0. cbn in Hd. by simplify_eq. }
  assert (is_Some (mem s !! p)) as Hlive by (apply live_info; by eexists).
  assert (exists x, app_view (mem s) !! p = Some x) as [x Hx] by by apply live_views_app.
  apply wpm_bind, wpm_set_hh; [done|]. apply wpm_bind, wpm_set_hh; [by apply live_hset|]. apply wpm_bind, wpm_set_hh; [by do 2 apply live_hset|].
  cbn [mem with_mem]. destruct (set_key_views p (mem s) (key (hh e)) (keylen (hh e)) (hashv (hh e))) as (Ha & Hb & Hi).
  set (m1 := hset p _ (mem s)) in *. set (m3 := hset p (set_next None) _).
  set (m4 := match final out None with Some q => hset q (set_next (Some p)) m3 | None => m3 end).
  apply wpm_bind. eapply (wpm_mono _ _ _ (λ _ s4, s4 = with_mem s m4)).
  { subst m4. destruct (final out None) as [q|] eqn:Eq; [|by apply wpm_pure]. apply wpm_set_hh; [|done]. do 3 apply live_hset.
    apply live_views_app, (dl_live _ _ _ Hdl). by apply final_elem. }
  intros [] s4 ->. apply HQ.
  - assert (app_view m4 = with_next (final out None) (Some p) (app_view m3)) as -> by (subst m4; destruct (final out None); [apply app_set_next|done]).
    subst m3. rewrite app_set_next, app_set_prev, Ha, <- prev_next_comm. by apply dl_append with x.
  - subst m4 m3. destruct (final out None); by rewrite ?bkt_set_next, bkt_set_prev.
  - assert (infos m4 = infos m1) as -> by (subst m4 m3; destruct (final out None); by rewrite ?infos_set_next, infos_set_prev).
    intros q. rewrite Hi. destruct (decide (q = p)) as [->|Hq].
    + rewrite lookup_alter_eq, Hi0, decide_True by (apply elem_of_app; right; by left). unfold infos. rewrite lookup_fmap, He. cbn. unfold info_of. by rewrite Ed.
    + rewrite lookup_alter_ne, Hinf by done. destruct (decide (q ∈ out)) as [Hqo|Hqo].
      * by rewrite decide_True by (apply elem_of_app; by left).
      * rewrite decide_False; [done|]. by rewrite elem_of_app, list_elem_of_singleton; intros [|].
Qed.

(** A table for the first element, with nothing in its chains yet. *)
Lemma new_table_ok (s : store) p (Q : unit → store → Prop) :
  (∀ k t, num_items t = 0%Z → tail t = Some p → log2_num_buckets t = 5%Z → tbl_ok (mem s) t [] →
    Q tt (Store (mem s) (Some t) (Some p) k)) →
  wpf (set_head (Some p) ;;; HASH_MAKE_TABLE refuses p)%ut s Q.
Proof.
  intros HQ. apply wpm_bind, wpm_set_head. apply wpm_bind. eapply wpm_malloc; [exact HF|done|]. apply wpm_bind. eapply wpm_malloc; [exact HF|done|].
  unfold wpm. apply HQ; [done..|]. split; cbn; [unfold HASH_INITIAL_NUM_BUCKETS_LOG2; lia|done|done|].
  exists (replicate 32 []). split; [done|]. apply (empty_chains_ok _ _ 32).
Qed.

Lemma select_one_ok s0 s out p e : selected s0 s out → p ∈ items → p ∉ out → mem src !! p = Some e →
  i_data <$> infos (mem s0) !! p = Some (el_data e) → (Z.of_nat (length out) + 1 < 2 ^ 32)%Z → (26 ≤ length out → F) →
  wpf (select_one refuses (hh e) p (final out None)) s (λ r s', r = final (out ++ [p]) None ∧ selected s0 s' (out ++ [p])).
Proof.
  intros Hsel Hpi Hp He Hd Hsz Hfull. eapply select_link_ok; [exact Hsel|exact Hp|exact He|exact Hd|]. intros m Hdl Hb Hi.
  assert (∀ t, tbl s = Some t → tbl_ok m t out) as Hok1.
  { intros t Ht. pose proof (se_tbl _ _ _ Hsel) as Htb. rewrite Ht in Htb. destruct Htb as (_ & _ & _ & _ & Hok).
    eapply tbl_ok_frame; [exact Hok|done..| |]; intros q Hq; [|by rewrite Hb].
    rewrite Hi, (se_info _ _ _ Hsel), !decide_True; [done|done|apply elem_of_app; by left]. }
  apply wpm_bind, wpm_get_head. cbn [head with_mem]. rewrite (se_head _ _ _ Hsel). apply wpm_bind.
  eapply (wpm_mono _ _ _ (λ _ s5, ∃ k t, s5 = Store m (Some t) (first (out ++ [p]) None) k ∧ num_items t = Z.of_nat (length out) ∧
    tail t = first (out ++ [p]) None ∧ (log2_num_buckets t <= 5 + Z.of_nat (length out))%Z ∧ tbl_ok m t out)).
  { destruct out as [|o out]; cbn [first app].
    - apply new_table_ok. cbn [mem with_mem]. intros k t Hn Htl Hl Hok. exists k, t. split_and!; [done|done|done|cbn; lia|done].
    - pose proof (se_tbl _ _ _ Hsel) as Htb. destruct (tbl s) as [t|] eqn:Et; [|done]. destruct Htb as (_ & Hn & Htl & Hl & _).
      apply wpm_pure. exists (asked s), t. split_and!; [|done|done|done|by apply Hok1].
      unfold with_mem. rewrite Et, (se_head _ _ _ Hsel). done. }
  intros [] s5 (k & t & -> & Hn & Htl & Hl & Hok). apply wpm_bind. eapply wpm_get_tbl; [done|].
  assert (infos m !! p = Some (info_of e)) as Hip.
  { rewrite Hi, decide_True by (apply elem_of_app; right; by left). unfold infos. by rewrite lookup_fmap, He. }
  assert (p :: out ≡ₚ out ++ [p]) as Hperm by (by rewrite Permutation_app_comm).
  apply wpm_bind. eapply wpm_mono.
  { apply wpm_grows; [apply add_to_bkt_grows|]. change (hashv (hh e)) with (i_hash (info_of e)).
    eapply (add_to_bkt_ok refuses F HF Hbig (Store m (Some t) _ k) t out p (info_of e)); [done|done| |done|done|].
    - apply NoDup_cons. split; [done|]. apply (se_dl _ _ _ Hsel).
    - intros Hlog. apply Hfull. lia. }
  intros [] s6 [(t6 & Ht6 & Hh6 & Ha6 & Hi6 & Hn6 & Htl6 & Hok6) Hg]. cbn [head mem tbl] in *.
  destruct (Hg t6 Ht6) as (t' & [= <-] & Hgl). apply wpm_bind. eapply wpm_set_tbl; [exact Ht6|]. apply wpm_pure.
  split; [by rewrite final_app|]. split; cbn [mem with_tbl head tbl].
  - by rewrite Ha6.
  - intros q [Hq| ->%list_elem_of_singleton]%elem_of_app; [by apply (se_in _ _ _ Hsel)|done].
  - by rewrite Hh6.
  - intros q. by rewrite Hi6.
  - rewrite length_app. cbn [length]. split_and!.
    + by destruct out.
    + cbn. rewrite Hn6, Hn, to_uint_small by lia. lia.
    + cbn. by rewrite Htl6.
    + cbn. pose proof (t_log _ _ _ Hok). rewrite to_uint_small in Hgl by lia. lia.
    + eapply tbl_ok_frame; [exact Hok6|exact Hperm|done..].
Qed.

(** The elements among [l] that satisfy the condition. *)
Definition chosen (l : list nat) : list nat := filter (λ p, from_option cond false (entry_at src p) = true) l.

Lemma chosen_app l1 l2 : chosen (l1 ++ l2) = chosen l1 ++ chosen l2.
Proof. apply filter_app. Qed.

(** The loops select at most [N] elements. *)
Context (s0 : store) (N : nat) (HN : (Z.of_nat N < 2 ^ 32)%Z) (Hfull : 26 < N → F).
Context (Hdata : ∀ p, p ∈ items → i_data <$> infos (mem s0) !! p = i_data <$> infos (mem src) !! p).

Lemma select_chain_ok fuel s out pre c : selected s0 s out → seg (bkt_view (mem src)) pre c None → (∀ p, p ∈ c → p ∈ items) →
  NoDup (out ++ c) → length c < fuel → length (out ++ chosen c) ≤ N →
  wpf (select_chain refuses cond src fuel (first c None) (final out None)) s (λ r s',
    r = final (out ++ chosen c) None ∧ selected s0 s' (out ++ chosen c)).
Proof.
  revert fuel s out pre. induction c as [|p c IH]; intros fuel s out pre Hsel Hseg Hin Hnd Hf Hn; cbn [first].
  { destruct fuel; apply wpm_pure; by rewrite app_nil_r. }
  destruct fuel as [|fuel]; [cbn in Hf; lia|]. destruct Hseg as [Hp Hseg]. cbn [select_chain].
  unfold bkt_view in Hp. rewrite lookup_fmap in Hp. destruct (mem src !! p) as [e|] eqn:He; [|done]. cbn in Hp. injection Hp as _ Hnx.
  assert (entry_at src p = Some (key (hh e), el_data e)) as Hent by (unfold entry_at, infos; by rewrite lookup_fmap, He).
  assert (i_data <$> infos (mem s0) !! p = Some (el_data e)) as Hd.
  { rewrite Hdata by (apply Hin; by left). unfold infos. by rewrite lookup_fmap, He. }
  pose proof Hnd as (_ & Hpo & [Hpc _]%NoDup_cons)%NoDup_app.
  assert (p ∉ out) as Hp by (intros Ho; apply (Hpo p Ho); by left). unfold chosen in Hn |- *. rewrite Hnx.
  destruct (cond (key (hh e), el_data e)) eqn:Ec.
  - rewrite filter_cons_True in Hn |- * by (by rewrite Hent). fold (chosen c) in Hn |- *.
    change (p :: chosen c) with ([p] ++ chosen c) in Hn |- *. rewrite app_assoc in Hn |- *.
    assert (length out + 1 ≤ N) by (rewrite !length_app in Hn; cbn in Hn; lia).
    apply wpm_bind. eapply wpm_mono; [apply (select_one_ok s0 s out p e); [done|apply Hin; by left|done..|lia|intros; apply Hfull; lia]|].
    intros r s1 [-> Hsel1]. eapply IH; [exact Hsel1|exact Hseg| |by rewrite <- app_assoc|cbn in Hf; lia|done]. intros q Hq. apply Hin. by right.
  - rewrite filter_cons_False in Hn |- * by (rewrite Hent; cbn; by rewrite Ec). fold (chosen c) in Hn |- *. apply wpm_bind, wpm_pure.
    eapply IH; [exact Hsel|exact Hseg| | |cbn in Hf; lia|done]; [intros q Hq; apply Hin; by right|].
    rewrite <- Permutation_middle in Hnd. by apply NoDup_cons in Hnd as [_ Hnd].
Qed.

Lemma select_buckets_ok bs cs s out : Forall2 (old_chain (mem src)) bs cs → selected s0 s out → (∀ p, p ∈ concat cs → p ∈ items) →
  NoDup (out ++ concat cs) → length (out ++ chosen (concat cs)) ≤ N →
  wpf (select_buckets refuses cond src bs (final out None)) s (λ _ s', selected s0 s' (out ++ chosen (concat cs))).
Proof.
  intros Hcs. revert s out. induction Hcs as [|b c bs cs [Hh Hdl] Hcs IH]; intros s out Hsel Hin Hnd Hn; cbn [select_buckets concat] in *.
  { apply wpm_pure. by rewrite app_nil_r. }
  rewrite chosen_app, app_assoc in Hn |- *. rewrite app_assoc in Hnd. rewrite Hh. apply wpm_bind. eapply wpm_mono.
  - eapply select_chain_ok; [exact Hsel|apply Hdl| | | |].
    + intros p Hp. apply Hin, elem_of_app. by left.
    + by apply NoDup_app in Hnd as (? & _ & _).
    + assert (length c <= size (mem src)) as Hlc; [|lia]. apply length_live; [apply Hdl|]. intros p Hp. apply live_bkt. by apply (dl_live _ c).
    + rewrite length_app in Hn. lia.
  - intros r s1 [-> Hsel1]. apply IH; [done| | |done].
    + intros p Hp. apply Hin, elem_of_app. by right.
    + eapply sublist_NoDup; [exact Hnd|]. apply sublist_app; [|done]. apply sublist_app; [done|apply sublist_filter].
Qed.
End select.

(** ** What the second table is good for *)

Section after.
Context {V : Type} (refuses : nat → Z → bool) (F : Prop) (HF : ∀ n z, (z < 2 ^ 36)%Z → refuses n z = true → F).
Context (Hbig : ∀ n z, (2 ^ 36 <= z)%Z → refuses n z = true).
Abbreviation store := (@store V).
Abbreviation wpf := (wpm F).

(** The table with another tail. *)
Definition retail (o : ptr) (s : store) : store := with_tbl s (set_tail o <$> tbl s).

(** Searching reads the elements only. *)
Lemma find_from_mem fuel out k n h (s s2 : store) Q Q2 : mem s = mem s2 → (∀ r, Q2 r s2 → Q r s) →
  wpf (find_from fuel out k n h) s2 Q2 → wpf (find_from fuel out k n h) s Q.
Proof.
  intros Hm HQ. revert out. induction fuel as [|fuel IH]; intros [p|]; cbn [find_from]; try done; [| |apply HQ].
  - intros H. apply HQ. exact H.
  - unfold wpm, bindM, get_hh. rewrite Hm. destruct (mem s2 !! p) as [e|]; [|done].
    destruct (_ && _); [apply HQ|apply IH].
Qed.

Lemma find_retail o (s : store) k Q Q2 : (∀ r, Q2 r (retail o s) → Q r s) → wpf (HASH_FIND_STR k) (retail o s) Q2 → wpf (HASH_FIND_STR k) s Q.
Proof.
  destruct s as [m [t|] [p|] a]; intros HQ; unfold HASH_FIND_STR, HASH_FIND, HASH_FIND_BYHASHVALUE, HASH_FIND_IN_BKT, retail, with_tbl in *;
    cbn [fmap option_fmap option_map tbl head mem asked] in *; unfold wpm, bindM, get_head, get_tbl, get_bucket, walk_fuel;
    cbn [fmap option_fmap option_map tbl head mem buckets num_buckets set_tail]; [|by apply HQ|done|by apply HQ].
  destruct (buckets t !! _) as [b|]; [|done]. by eapply find_from_mem.
Qed.

(** An addition links the new element behind the tail, whatever was there. *)
Lemma append_at_tail (s : store) t items x p k : tbl s = Some t → tail t = Some x → head s = Some x → x ∈ items → tbl_ok (mem s) t items → NoDup items →
  is_Some (mem s !! p) → p ∉ items → (Z.of_nat (length k) < 2 ^ 32)%Z → (Z.of_nat (length items) + 1 < 2 ^ 32)%Z → (log2_num_buckets t = 31%Z → F) →
  (∀ q, q ∈ items → is_Some (mem s !! q)) →
  wpf (HASH_ADD_STR refuses k p) s (λ _ s', head s' = Some x ∧ snd <$> app_view (mem s') !! x = Some (Some p) ∧ app_view (mem s') !! p = Some (Some x, None)).
Proof.
  intros Ht Htl Hh Hx Hok Hnd Hp Hpi Hk Hsz Hfull Hlive. unfold HASH_ADD_STR, HASH_ADD_KEYPTR, HASH_ADD_KEYPTR_BYHASHVALUE.
  rewrite (to_uint_small (Z.of_nat (length k))), (to_uint_small (Z.of_nat (length k))), take_ge by lia.
  assert (p ≠ x) as Hpx by (by intros ->). destruct (Hlive x Hx) as [ex Hex].
  apply wpm_bind, wpm_set_hh; [done|]. cbn [mem with_mem]. destruct (set_key_views p (mem s) k (Z.of_nat (length k)) (HASH_JEN k)) as (Ha & Hb & Hi).
  set (m1 := hset p _ (mem s)) in *. apply wpm_bind, wpm_get_head. cbn [head with_mem]. rewrite Hh. apply wpm_bind.
  apply wpm_bind, wpm_set_hh; [by apply live_hset|]. apply wpm_bind. eapply wpm_get_tbl; [exact Ht|].
  apply wpm_bind, wpm_set_hh; [by do 2 apply live_hset|]. rewrite Htl. apply wpm_bind, wpm_pure. apply wpm_bind, wpm_set_hh.
  { cbn [mem with_mem]. do 3 apply live_hset. by eexists. }
  cbn [mem with_mem]. eapply wpm_set_tbl; [exact Ht|]. set (m4 := hset x _ _).
  assert (infos m4 = infos m1) as Hi4 by (subst m4; by rewrite infos_set_next, infos_set_prev, infos_set_next).
  assert (is_Some (infos m1 !! p)) as [i1 Hi1] by (apply live_info; by apply live_hset).
  assert (i_hash i1 = HASH_JEN k) as Hh1.
  { rewrite Hi, lookup_alter_eq in Hi1. destruct (infos (mem s) !! p); [|done]. cbn in Hi1. by simplify_eq. }
  apply wpm_bind. eapply wpm_set_tbl; [done|]. apply wpm_bind. eapply wpm_get_tbl; [done|].
  set (s5 := with_tbl _ _). set (t5 := set_num_items _ _). rewrite <- Hh1.
  eapply wpm_mono; [apply (add_to_bkt_ok refuses F HF Hbig s5 t5 items p i1); [done| |by apply NoDup_cons|by change (mem s5) with m4; rewrite Hi4|done|done]|].
  - eapply tbl_ok_frame; [exact Hok|done..| |]; intros q Hq; change (mem s5) with m4.
    + rewrite Hi4, Hi. apply lookup_alter_ne. by intros ->.
    + subst m4. by rewrite bkt_set_next, bkt_set_prev, bkt_set_next, Hb.
  - intros [] s6 (t6 & _ & Hh6 & Ha6 & _). assert (is_Some (app_view (mem s) !! p)) as [vp Hvp] by (by apply live_views_app).
    assert (is_Some (app_view (mem s) !! x)) as [vx Hvx] by (apply live_views_app; by eexists).
    rewrite Ha6, Hh6. change (mem s5) with m4. change (head s5) with (head s). subst m4. rewrite app_set_next, app_set_prev, app_set_next, Ha.
    unfold with_next, with_prev. split; [done|]. rewrite lookup_alter_eq, !lookup_alter_ne by done. rewrite Hvx. split; [done|].
    by rewrite lookup_alter_eq, lookup_alter_eq, Hvp.
Qed.
End after.

Section result.
Context {V : Type} (cond : bytes * V → bool).
Abbreviation store := (@store V).

(** The entries that satisfy the condition. *)
Definition select_entries (l : list (nat * (bytes * V))) : list (nat * (bytes * V)) := filter (λ x, cond x.2 = true) l.

Lemma chosen_entries (src : store) l : repr src l → chosen cond src l.*1 = (select_entries l).*1.
Proof.
  intros Hr. assert (∀ x, x ∈ l → entry_at src x.1 = Some x.2) as Hl by (intros x; by apply repr_entry). clear Hr.
  induction l as [|x l IH]; [done|]. rewrite fmap_cons. unfold chosen, select_entries. pose proof (Hl x ltac:(by left)) as Hx.
  specialize (IH (λ y Hy, Hl y (list_elem_of_further _ _ _ Hy))). unfold chosen, select_entries in IH. destruct (cond x.2) eqn:Ec.
  - rewrite !filter_cons_True; [|done|by rewrite Hx]. by rewrite fmap_cons, IH.
  - rewrite !filter_cons_False; [done|by rewrite Ec|rewrite Hx; cbn; by rewrite Ec].
Qed.

Lemma selected_repr (src s0 s : store) l out : repr src l → selected src l.*1 s0 s out → out ≡ₚ chosen cond src l.*1 →
  ∃ l', out = l'.*1 ∧ l' ≡ₚ select_entries l ∧ repr (retail (final out None) s) l'.
Proof.
  intros Hr Hsel Hp. rewrite (chosen_entries _ _ Hr) in Hp. apply Permutation_map_inv in Hp as (l' & E & Hp').
  change (map fst l') with (l'.*1) in E. exists l'. split; [done|]. split; [by symmetry|]. pose proof Hr as [Hwf Hin].
  assert (∀ p, p ∈ out → infos (mem s) !! p = infos (mem src) !! p) as Hi by (intros p Hpo; by rewrite (se_info _ _ _ _ _ Hsel), decide_True).
  assert (∀ p, p ∈ out → p ∈ l.*1) as Ho by apply (se_in _ _ _ _ _ Hsel).
  assert (length out ≤ length l.*1) as Hlen.
  { rewrite E, !length_fmap, <- Hp'. unfold select_entries. apply length_filter. }
  split; [rewrite <- E; split|]; cbn [mem retail with_tbl head tbl].
  - apply Hsel.
  - apply Hsel.
  - pose proof (w_bound _ _ Hwf). lia.
  - intros p Hpo. rewrite Hi by done. by apply (w_entry _ _ Hwf), Ho.
  - intros p q i i' Hpo Hqo. rewrite !Hi by done. apply (w_unique _ _ Hwf); by apply Ho.
  - pose proof (se_tbl _ _ _ _ _ Hsel) as Htb. destruct (tbl s) as [t|]; [|exact Htb]. cbn [fmap option_fmap option_map].
    destruct Htb as (H1 & H2 & _ & _ & H3). split_and!; [done|done|done|]. by eapply tbl_ok_frame.
  - intros p k d Hx. rewrite Hi by (rewrite E; by eapply in_addrs). apply Hin. rewrite <- Hp' in Hx. unfold select_entries in Hx.
    by apply list_elem_of_filter in Hx as [_ Hx].
Qed.
End result.

(** C14: [HASH_SELECT] of uthash.h, from a table that represents [l] into an empty
    one whose handles lie in the same elements.  It ends for every condition,
    without following a null or dangling pointer, and the new table holds the
    elements that satisfy the condition, each once: all chains and links are
    right and every key is found.  It can only fail when a block of less than
    2^36 bytes is refused, or else for more than 26 elements (each may double the
    buckets; the largest table there is has 2^31).  But it leaves the table's
    [tail] at the first element: the new table is a proper one only up to one
    element, and when more were selected, an element that is added later goes
    behind the first, and the others are lost from the list. *)
Theorem uthash_select_correct {V} (refuses : nat → Z → bool) (cond : bytes * V → bool) (src s : @store V) (l : list (nat * (bytes * V))) :
  (∀ n z, (2 ^ 36 <= z)%Z → refuses n z = true) → repr src l → tbl s = None → head s = None →
  (∀ q, q ∈ l.*1 → i_data <$> infos (mem s) !! q = i_data <$> infos (mem src) !! q) →
  wpm ((∃ n z, (z < 2 ^ 36)%Z ∧ refuses n z = true) ∨ 26 < length (select_entries cond l)) (HASH_SELECT refuses cond src) s (λ _ s', ∃ l',
    l' ≡ₚ select_entries cond l ∧ repr (retail (final l'.*1 None) s') l' ∧ (∀ t, tbl s' = Some t → tail t = first l'.*1 None) ∧
    (length l' ≤ 1 → repr s' l') ∧ (∀ q, q ∉ l'.*1 → infos (mem s') !! q = infos (mem s) !! q) ∧
    (∀ k, (Z.of_nat (length k) < 2 ^ 32)%Z → wpm False (HASH_FIND_STR k) s' (λ r s2, s2 = s' ∧ ∀ q, r = Some q ↔ ∃ d, (q, (k, d)) ∈ l')) ∧
    (∀ x y rest k p, l' = x :: y :: rest → is_Some (mem s' !! p) → p ∉ l'.*1 → (Z.of_nat (length k) < 2 ^ 32)%Z →
      (Z.of_nat (length l') + 1 < 2 ^ 32)%Z → wpm (UthashTable.no_room refuses s') (HASH_ADD_STR refuses k p) s' (λ _ s2,
        head s2 = Some x.1 ∧ snd <$> app_view (mem s2) !! x.1 = Some (Some p) ∧ app_view (mem s2) !! p = Some (Some x.1, None)))).
Proof.
  intros Hbig Hr Ht Hh Hd. set (F := _ ∨ _). pose proof Hr as [Hwf _].
  assert (∀ n z, (z < 2 ^ 36)%Z → refuses n z = true → F) as HF by (intros n z Hz Hn; left; eauto).
  eapply (wpm_mono _ _ _ (λ _ s', ∃ out, selected src l.*1 s s' out ∧ out ≡ₚ chosen cond src l.*1)).
  - assert (selected src l.*1 s s []) as H0.
    { split; [apply dl_nil|by intros ? ?%not_elem_of_nil|done| |by rewrite Ht]. intros p. by rewrite decide_False by apply not_elem_of_nil. }
    unfold HASH_SELECT. rewrite (w_head _ _ Hwf). destruct l as [|x l0]; cbn [fmap list_fmap first].
    { apply wpm_pure. exists []. by split. }
    change (x.1 :: list_fmap _ _ _ l0) with ((x :: l0).*1) in *. set (l := x :: l0) in *.
    pose proof (w_tbl _ _ Hwf) as Htb. destruct (tbl src) as [t|]; [|done]. destruct Htb as (_ & _ & _ & [Hlog Hnum Hlen (cs & Hperm & Hlc & Hc)]).
    rewrite take_ge by lia. apply wpm_bind. eapply wpm_mono.
    + eapply (select_buckets_ok refuses F HF Hbig cond src l.*1 s (length (select_entries cond l))) with (cs := cs) (out := []); [| |exact Hd| |exact H0| | |].
      * pose proof (w_bound _ _ Hwf) as Hb. rewrite length_fmap in Hb. pose proof (length_filter (λ x, cond x.2 = true) l). unfold select_entries. lia.
      * intros H. by right.
      * apply Forall2_same_length_lookup_2; [done|]. intros j b c Hb Hcj. by destruct (Hc j b c Hb Hcj) as [? ? _ _].
      * intros p. by rewrite Hperm.
      * cbn [app]. rewrite Hperm. by eapply wf_nodup.
      * cbn [app]. unfold chosen. rewrite (filter_Permutation _ _ _ Hperm). fold (chosen cond src l.*1). by rewrite (chosen_entries _ _ _ Hr), length_fmap.
    + intros r s' Hsel. apply wpm_pure. eexists. split; [exact Hsel|]. cbn [app]. unfold chosen. by rewrite Hperm.
  - intros [] s' (out & Hsel & Hp). destruct (selected_repr cond src s s' l out Hr Hsel Hp) as (l' & -> & Hp' & Hr'). exists l'.
    assert (∀ t, tbl s' = Some t → tail t = first l'.*1 None) as Htail.
    { intros t Et. pose proof (se_tbl _ _ _ _ _ Hsel) as Htb. rewrite Et in Htb. apply Htb. }
    split; [done|]. split; [done|]. split; [done|]. split; [|split; [|split]].
    + intros Hl. assert (retail (final l'.*1 None) s' = s') as <-; [|done]. unfold retail, with_tbl. destruct s' as [m [t|] h a]; [|done].
      cbn. do 2 f_equal. specialize (Htail t eq_refl). destruct t. cbn in *. subst. unfold set_tail. cbn. f_equal.
      destruct l' as [|x [|]]; [done|done|cbn in Hl; lia].
    + intros q Hq. rewrite (se_info _ _ _ _ _ Hsel). by rewrite decide_False.
    + intros k Hk. eapply (find_retail False (final l'.*1 None)); [|by apply (find_repr False _ l')]. by intros r [_ H].
    + intros x y rest k p -> Hlive Hpn Hk Hsz. pose proof (se_tbl _ _ _ _ _ Hsel) as Htb. destruct (tbl s') as [t|] eqn:Et; [|done].
      destruct Htb as (_ & _ & Htl & _ & Hok). eapply (append_at_tail refuses _) with (t := t) (items := (x :: y :: rest).*1); try done.
      * intros n z Hz Hn. left. eauto.
      * apply (se_head _ _ _ _ _ Hsel).
      * by left.
      * apply (se_dl _ _ _ _ _ Hsel).
      * by rewrite length_fmap.
      * intros Hlog. right. eauto.
      * intros q Hq. by apply live_views_app, (dl_live _ _ _ (se_dl _ _ _ _ _ Hsel)).
Qed.

(** A second handle in each of [three], and the two elements whose data is 1. *)
Definition second_handles : @store nat := Store ((λ e, Element (el_data e) UthashTable.blank) <$> mem three) None None 0.
Definition ones (x : bytes * nat) : bool := Nat.eqb x.2 1.

Lemma uthash_select_correct_witness :
  ∃ s' l', HASH_SELECT UthashTable.ample ones three second_handles = Ok _ tt s' ∧ l' ≡ₚ select_entries ones three_entries ∧
    walk 4 s' (head s') = l'.*1 ∧ length l' = 2 ∧
    wpm False (HASH_FIND_STR (to_bytes "b")) s' (λ r s2, s2 = s' ∧ ∀ q, r = Some q ↔ ∃ d, (q, (to_bytes "b", d)) ∈ l').
Proof.
  assert (∀ q, q ∈ three_entries.*1 → i_data <$> infos (mem second_handles) !! q = i_data <$> infos (mem three) !! q) as Hd.
  { intros q Hq. repeat (apply elem_of_cons in Hq as [->|Hq]; [vm_compute; reflexivity|]). by apply not_elem_of_nil in Hq. }
  pose proof (uthash_select_correct UthashTable.ample ones three second_handles three_entries UthashTable.ample_big three_repr eq_refl eq_refl Hd) as Hsel.
  assert (match HASH_SELECT UthashTable.ample ones three second_handles with Ok _ _ s' => length (walk 4 s' (head s')) | _ => 0 end = 2) as Hwalk
    by (vm_compute; reflexivity).
  unfold wpm at 1 in Hsel. destruct (HASH_SELECT UthashTable.ample ones three second_handles) as [[] s'| |]; [|discriminate Hwalk..].
  destruct Hsel as (l' & H1 & H2 & _ & _ & _ & H3 & _). exists s', l'. split; [reflexivity|]. split; [exact H1|].
  assert (length l' = 2) as Hl by (rewrite H1; vm_compute; reflexivity). split; [|split; [exact Hl|apply H3; vm_compute; reflexivity]].
  destruct H2 as [[[Hseg _] Hh _ _ _ _] _]. cbn [mem head retail with_tbl] in Hseg, Hh. rewrite Hh.
  destruct l' as [|[p1 x1] [|[p2 x2] [|]]]; try discriminate Hl. cbn [fmap list_fmap fst] in Hseg |- *. destruct Hseg as (E1 & E2 & _).
  unfold app_view in E1, E2. rewrite lookup_fmap in E1, E2. cbn [walk first] in *.
  destruct (mem s' !! p1) as [e1|]; [|discriminate E1]. injection E1 as _ ->. cbn [walk first].
  destruct (mem s' !! p2) as [e2|]; [|discriminate E2]. injection E2 as _ ->. reflexivity.
Defined.
