(* ===== verification/Timers.v ===== *)
(** * Timers

    CH23: itimerspec_from_str.c, curr_time.c and ptmr_sigev_signal.c, which uses
    both; setitimer_alarm.c; timer_create_versus.c.  The handler of
    ptmr_sigev_signal.c runs where the environment says that a timer that has
    been armed expires ([deliveries]). *)
From Stdlib Require Import ZArith Lia Ascii String.
From stdpp Require Import base gmap strings list.
From S2P Require Import Prelude Prog CString Posix ErrorFunctions.
Local Open Scope prog_scope.

(** ** itimerspec_from_str.c *)

Record timespec := Timespec { tv_sec : Z; tv_nsec : Z }.
Record itimerspec := Itimerspec { it_value : timespec; it_interval : timespec }.

(** [if (p != NULL) *p = '\0'] *)
Definition put_nul (p : chr_result) (b : bytes) : bytes :=
  match p with ChrAt i => <[i := NUL]> b | _ => b end.
(** [(p != NULL) ? atoi(p + 1) : 0] *)
Definition atoi_after (p : chr_result) (b : bytes) : Z :=
  match p with ChrAt i => atoi (cstr (drop (S i) b)) | _ => 0%Z end.

(** The structure, and the buffer as the function leaves it. *)
Definition itimerspecFromStr (str : bytes) : itimerspec * bytes :=
  let cptr := strchr str ":" in
  let str := put_nul cptr str in
  let sptr := strchr str "/" in
  let str := put_nul sptr str in
  let value := Timespec (atoi (cstr str)) (atoi_after sptr str) in
  match cptr with
  | ChrAt i =>
      let rest := drop (S i) str in
      let sptr := strchr rest "/" in
      let rest := put_nul sptr rest in
      (Itimerspec value (Timespec (atoi (cstr rest)) (atoi_after sptr rest)), take (S i) str ++ rest)
  | _ => (Itimerspec value (Timespec 0 0), str)
  end.

(** ** curr_time.c *)

Definition CURR_BUF_SIZE : Z := 1000.

Definition currTime (format : option string) : prog posix (option string) :=
  t <- sys Time;;
  tm <- sys (Localtime (ret t));;
  if (ret tm =? 0)%Z then Ret None else
  '(s, buf) <- sys (Strftime CURR_BUF_SIZE (match format with Some f => f | None => "%c"%string end));;
  Ret (if (ret s =? 0)%Z then None else Some buf).

(** ** ptmr_sigev_signal.c *)

Definition TIMER_SIG : Z := SIGRTMAX.

(** [tid] is what [*tidptr] holds. *)
Definition handler (sig tid : Z) : prog posix unit :=
  c <- currTime (Some "%T"%string);;
  match c with
  | None => undef "%s of a null pointer"
  | Some text =>
      printf ("[" +:+ text +:+ "] Got signal " +:+ zstr sig +:+ nl) ;;;
      printf ("    *sival_ptr         = " +:+ zstr tid +:+ nl) ;;;
      o <- sys (TimerGetoverrun tid);;
      printf ("    timer_getoverrun() = " +:+ zstr (ret o) +:+ nl)
  end.

(** Each of the timers [tids] may expire at a point of the program. *)
Definition deliveries (point : nat) (tids : list Z) : prog posix unit :=
  for_each tids (λ tid _,
    d <- sys (Deliver TIMER_SIG point);; when (negb (ret d =? 0)%Z) (handler TIMER_SIG tid)) tt.

Definition pair_of (ts : timespec) : Z * Z := (tv_sec ts, tv_nsec ts).

Section ptmr.
Context (ename strerror : Z → string).
Local Abbreviation errExit := (errExit ename strerror).

(** The loop; [tids] is the part of [tidlist] that has been filled. *)
Fixpoint start_timers (args : list string) (tids : list Z) : prog posix (list Z) :=
  match args with
  | [] => Ret tids
  | a :: args' =>
      let '(ts, str) := itimerspecFromStr (to_bytes a ++ [NUL]) in
      deliveries 0 tids ;;;
      '(c, tid) <- sys (TimerCreate (Some (TIMER_SIG, Z.of_nat (length tids))));;
      if (ret c =? -1)%Z then errExit (errno c) "timer_create" [] else
      deliveries 1 tids ;;;
      printf ("Timer ID: " +:+ zstr tid +:+ " (" +:+ of_bytes (cstr str) +:+ ")" +:+ nl) ;;;
      deliveries 2 tids ;;;
      s <- sys (TimerSettime tid (pair_of (it_value ts)) (pair_of (it_interval ts)));;
      if (ret s =? -1)%Z then errExit (errno s) "timer_settime" [] else
      start_timers args' (tids ++ [tid])
  end.

Definition ptmr_main (argv : list string) : prog posix Z :=
  if (Z.of_nat (length argv) <? 2)%Z
  then usageErr ("%s secs[/nsecs][:int-secs[/int-nsecs]]..." +:+ nl) [AStr (argv_0 argv)] else
  m <- sys (Malloc ((Z.of_nat (length argv) - 1) * 8));;
  if (ret m =? 0)%Z then errExit (errno m) "malloc" [] else
  a <- sys (Sigaction TIMER_SIG (Sigact (Handler "handler") 0 4));;
  if (ret a =? -1)%Z then errExit (errno a) "sigaction" [] else
  tids <- start_timers (tail argv) [];;
  deliveries 3 tids ;;;
  s <- sys (Sigwaitinfo 0);;
  deliveries 4 tids ;;;
  if negb (ret s =? 0)%Z then perror "sigwaitinfo" (errno s) ;;; exit EXIT_FAILURE
  else Ret 0%Z.
End ptmr.

(** ** setitimer_alarm.c *)

Definition setitimer_alarm (seconds : Z) : prog posix rc :=
  '(r, old) <- sys (Setitimer (to_long seconds, 0) (0, 0))%Z;;
  if (ret r =? -1)%Z then Ret (Rc (-1) (errno r)) else Ret (Rc old.1 (errno r)).

(** One of the three calls of [main]; the result is whether it failed. *)
Definition alarm_call (seconds : Z) : prog posix bool :=
  old <- setitimer_alarm seconds;;
  if (ret old =? -1)%Z then perror "setitimer_alarm failed" (errno old) ;;; Ret true
  else printf ("previous alarm value " +:+ zstr (ret old) +:+ nl) ;;; Ret false.

(** [for (;;);] *)
Definition spin (fuel : nat) : prog posix Z := loop fuel (λ _, Ret (inl tt)) tt.

Definition setitimer_alarm_main (fuel : nat) : prog posix Z :=
  e <- alarm_call 5;; if e : bool then Ret 1%Z else
  e <- alarm_call 8;; if e : bool then Ret 1%Z else
  e <- alarm_call 0;; if e : bool then Ret 1%Z else
  spin fuel.

(** ** timer_create_versus.c *)

(** [garbage] is what [timerWithEventID] holds before it is assigned. *)
Definition timer_create_versus_main (fuel : nat) (garbage : Z) : prog posix Z :=
  '(a, _) <- sys (TimerCreate None);;
  if negb (ret a =? 0)%Z then perror "timer_create" (errno a) ;;; exit EXIT_FAILURE else
  '(b, _) <- sys (TimerCreate (Some (SIGALRM, to_int garbage)));;
  if negb (ret b =? 0)%Z then perror "timer_create" (errno b) ;;; exit EXIT_FAILURE else
  spin fuel.

Example itimerspec_ex : itimerspecFromStr (to_bytes "5/20:3/7" ++ [NUL]) =
  (Itimerspec (Timespec 5 20) (Timespec 3 7), to_bytes "5" ++ [NUL] ++ to_bytes "20" ++ [NUL] ++ to_bytes "3" ++ [NUL] ++ to_bytes "7" ++ [NUL]).
Proof. vm_compute. reflexivity. Qed.

(** ** What the string says *)

(** ["sec[/nsec]"], and the part before the slash. *)
Definition field (s : bytes) : timespec :=
  let '(a, b) := break_at "/" s in Timespec (atoi a) (match b with Some b => atoi b | None => 0%Z end).
Definition spec_of (s : bytes) : itimerspec :=
  let '(v, i) := break_at ":" s in
  Itimerspec (field v) (match i with Some i => field i | None => Timespec 0 0 end).
Definition label (s : bytes) : bytes := (break_at "/" (break_at ":" s).1).1.

Lemma break_at_cases d s : ((d ∉ s) ∧ break_at d s = (s, None)) ∨
  ∃ a b, s = a ++ d :: b ∧ (d ∉ a) ∧ break_at d s = (a, Some b).
Proof.
  destruct (decide (d ∈ s)) as [(a & b & -> & Ha)%list_elem_of_split_l|H]; [right|left; by rewrite break_at_None].
  exists a, b. by rewrite break_at_Some.
Qed.

(** Replacing the slash by a NUL. *)
Lemma field_ok s r : no_nul s → let b := s ++ NUL :: r in let p := strchr b "/" in
  Timespec (atoi (cstr (put_nul p b))) (atoi_after p (put_nul p b)) = field s ∧
  ∃ x, put_nul p b = x ++ NUL :: r ∧ length x = length s ∧ ∀ r', cstr (x ++ NUL :: r') = (break_at "/" s).1.
Proof.
  intros Hs. cbv zeta. unfold field. destruct (break_at_cases "/" s) as [[Hd ->]|(a & c & -> & Ha & ->)].
  - rewrite strchr_null by done. cbn [put_nul atoi_after]. rewrite cstr_app_nul by done. split; [done|].
    exists s. split; [done|]. split; [done|]. intros r'. by apply cstr_app_nul.
  - unfold no_nul in Hs. rewrite not_elem_of_app, not_elem_of_cons in Hs. destruct Hs as (Hna & _ & Hnc).
    rewrite <- app_assoc. cbn [app]. rewrite strchr_found by done. cbn [put_nul atoi_after].
    rewrite insert_app_r_alt, Nat.sub_diag by done. cbn [insert list_insert].
    rewrite (cstr_app_nul a) by done. rewrite drop_app_ge by lia. replace (S (length a) - length a) with 1 by lia. cbn [drop].
    rewrite drop_0, cstr_app_nul by done. split; [done|]. exists (a ++ NUL :: c). rewrite <- app_assoc, !length_app. split_and!; [done..|].
    intros r'. rewrite <- app_assoc. by apply cstr_app_nul.
Qed.

Lemma itimerspec_ok s : no_nul s →
  (itimerspecFromStr (s ++ [NUL])).1 = spec_of s ∧ cstr (itimerspecFromStr (s ++ [NUL])).2 = label s.
Proof.
  intros Hs. unfold itimerspecFromStr, spec_of, label. destruct (break_at_cases ":" s) as [[Hd ->]|(v & i & -> & Hv & ->)].
  - rewrite strchr_null by done. cbn [put_nul]. destruct (field_ok s [] Hs) as (Hf & x & Hx & _ & Hc).
    cbn [fst snd]. rewrite Hf, Hx. by rewrite Hc.
  - unfold no_nul in Hs. rewrite not_elem_of_app, not_elem_of_cons in Hs. destruct Hs as (Hnv & _ & Hni).
    rewrite <- app_assoc. cbn [app]. rewrite strchr_found by done. cbn [put_nul].
    rewrite insert_app_r_alt, Nat.sub_diag by done. cbn [insert list_insert].
    destruct (field_ok v (i ++ [NUL]) Hnv) as (Hf & x & Hx & Hl & Hc). cbn [fst snd]. rewrite Hf, Hx.
    rewrite drop_app_ge, Hl by lia. replace (S (length v) - length v) with 1 by lia. cbn [drop]. rewrite drop_0.
    destruct (field_ok i [] Hni) as (Hf2 & _). rewrite Hf2. split; [done|].
    rewrite take_app_ge, Hl by lia. replace (S (length v) - length v) with 1 by lia. cbn [take].
    rewrite <- app_assoc. cbn [app]. by rewrite Hc.
Qed.

(** The string that says [ts]. *)
Definition spec_text (ts : itimerspec) : bytes :=
  let text t := zdec (tv_sec t) ++ ["/"%char] ++ zdec (tv_nsec t) in
  text (it_value ts) ++ [":"%char] ++ text (it_interval ts).

Lemma zdec_not c n : digit_in 10 c = None → c ≠ "-"%char → c ∉ zdec n.
Proof.
  intros Hc Hm Hin. unfold zdec in Hin. assert (∀ m, (0 <= m)%Z → c ∉ numeral 10 m) as Hnum.
  { intros m Hmm Hx. destruct (numeral_in 10 m c ltac:(lia) Hmm Hx) as [d Hd]. congruence. }
  destruct (n <? 0)%Z eqn:E; zbool; [apply elem_of_cons in Hin as [->|Hin]; [done|]|]; (eapply Hnum; [|exact Hin]); lia.
Qed.

Lemma field_text t : in_int (tv_sec t) → in_int (tv_nsec t) →
  field (zdec (tv_sec t) ++ ["/"%char] ++ zdec (tv_nsec t)) = t.
Proof.
  intros H1 H2. unfold field. cbn [app]. rewrite break_at_Some by by apply zdec_not.
  pose proof (atoi_zdec _ [] H1 I) as E1. pose proof (atoi_zdec _ [] H2 I) as E2. rewrite app_nil_r in E1, E2.
  rewrite E1, E2. by destruct t.
Qed.

Lemma spec_of_text ts : in_int (tv_sec (it_value ts)) → in_int (tv_nsec (it_value ts)) →
  in_int (tv_sec (it_interval ts)) → in_int (tv_nsec (it_interval ts)) → spec_of (spec_text ts) = ts.
Proof.
  intros H1 H2 H3 H4. unfold spec_of, spec_text. cbv zeta. cbn [app].
  rewrite break_at_Some by (rewrite not_elem_of_app, not_elem_of_cons; split_and!; [|done|]; by apply zdec_not).
  pose proof (field_text (it_value ts) H1 H2) as E1. pose proof (field_text (it_interval ts) H3 H4) as E2.
  cbn [app] in E1, E2. rewrite E1, E2. by destruct ts.
Qed.

Lemma spec_text_no_nul ts : no_nul (spec_text ts).
Proof.
  unfold no_nul, spec_text. cbv zeta. rewrite !not_elem_of_app. split_and!; first [apply zdec_no_nul|by intros ?%list_elem_of_singleton].
Qed.

Lemma itimerspec_parsed (s : bytes) (ts : itimerspec) :
  (no_nul s → (itimerspecFromStr (s ++ [NUL])).1 = spec_of s ∧ cstr (itimerspecFromStr (s ++ [NUL])).2 = label s) ∧
  (Forall in_int [tv_sec (it_value ts); tv_nsec (it_value ts); tv_sec (it_interval ts); tv_nsec (it_interval ts)] →
   (itimerspecFromStr (spec_text ts ++ [NUL])).1 = ts).
Proof.
  split; [apply itimerspec_ok|]. intros H. rewrite !Forall_cons in H. destruct H as (H1 & H2 & H3 & H4 & _).
  rewrite (proj1 (itimerspec_ok _ (spec_text_no_nul ts))). by apply spec_of_text.
Qed.


(** ** What a trace says of the timers *)

(** The timers created, those armed with their times, the lines about them. *)
Record tlog := TLog { created : list Z; armed : list (Z * (Z * Z) * (Z * Z)); lines : list string }.

(** A line about a timer, and not one of the handler's. *)
Definition is_line (s : string) : bool := match s with String c _ => Ascii.eqb c "T" | EmptyString => false end.

Definition t_event (l : tlog) (e : event posix) : tlog :=
  match e with
  | ECall (TimerCreate _) a => if (ret a.1 =? -1)%Z then l else TLog (created l ++ [a.2]) (armed l) (lines l)
  | ECall (TimerSettime id v i) a => if (ret a =? -1)%Z then l else TLog (created l) (armed l ++ [(id, v, i)]) (lines l)
  | EOut (Out s) => if is_line s then TLog (created l) (armed l) (lines l ++ [s]) else l
  | _ => l
  end.
Definition tlog_of (t : list (event posix)) : tlog := fold_left t_event t (TLog [] [] []).

Lemma tlog_snoc t e : tlog_of (t ++ [e]) = t_event (tlog_of t) e.
Proof. unfold tlog_of. by rewrite fold_left_app. Qed.
Lemma tlog_quiet t t' : Forall (λ e, ∀ l, t_event l e = l) t' → tlog_of (t ++ t') = tlog_of t.
Proof.
  intros H. unfold tlog_of. rewrite fold_left_app. generalize (fold_left t_event t (TLog [] [] [])).
  induction H as [|e t' He _ IH]; intros l; [done|]. cbn. by rewrite He.
Qed.

(** The program has come to wait for signals. *)
Definition is_wait (e : event posix) : Prop := match e with ECall (Sigwaitinfo _) _ | EGone (Sigwaitinfo _) => True | _ => False end.
(** [localtime] or [strftime] has failed. *)
Definition time_failed (t : list (event posix)) : Prop :=
  Exists (λ e, match e with ECall (Localtime _) a => ret a = 0%Z | ECall (Strftime _ _) a => ret a.1 = 0%Z | _ => False end) t.

(** Nothing happened to the timers between [t] and [t']. *)
Definition quiet (t t' : list (event posix)) : Prop :=
  ∃ u, t' = t ++ u ∧ Forall (λ e, (∀ l, t_event l e = l) ∧ ¬ is_wait e) u.

Lemma quiet_refl t : quiet t t.
Proof. exists []. by rewrite app_nil_r. Qed.
Lemma quiet_snoc t t' e : quiet t t' → (∀ l, t_event l e = l) → ¬ is_wait e → quiet t (t' ++ [e]).
Proof.
  intros (u & -> & H) H1 H2. exists (u ++ [e]). rewrite app_assoc. split; [done|]. apply Forall_app. split; [done|].
  by apply Forall_singleton.
Qed.
Lemma quiet_log t t' : quiet t t' → tlog_of t' = tlog_of t.
Proof. intros (u & -> & H). apply tlog_quiet. eapply Forall_impl; [exact H|]. by intros e [? _]. Qed.
Lemma quiet_wait t t' : quiet t t' → Exists is_wait t' → Exists is_wait t.
Proof.
  intros (u & -> & H) [?|Hu]%Exists_app; [done|]. rewrite Forall_forall in H. apply Exists_exists in Hu as (e & He & Hw).
  by destruct (H e He).
Qed.

(** What a handler may do. *)
Definition handled {A} (t : list (event posix)) (r : outcome A) (t' : list (event posix)) : Prop :=
  quiet t t' ∧ match r with Returned _ | Gone => True | Halted h => (∃ why, h = Undef why) ∧ time_failed t' end.

Ltac quietly := repeat (apply quiet_snoc; [|done|by intros []]); done.

Lemma handler_ok {W} (K : kernel posix W) sig tid t0 t w : quiet t0 t →
  wpa K t (handler sig tid) w (λ r _ t', handled t0 r t').
Proof.
  intros Hq. unfold handler, currTime. acc_call; [|split; [quietly|done]]. acc_call; [|split; [quietly|done]].
  destruct (ret a0 =? 0)%Z eqn:Ea; zbool.
  { acc_steps. split; [quietly|]. split; [by eexists|]. apply Exists_app. right. by apply Exists_cons_hd. }
  acc_call; [|split; [quietly|done]]. destruct a1 as [s buf]. acc_steps. destruct (ret s =? 0)%Z eqn:Es; zbool.
  { acc_steps. split; [quietly|]. split; [by eexists|]. apply Exists_app. right. by apply Exists_cons_hd. }
  acc_call; [|split; [quietly|done]]. acc_steps. split; [quietly|done].
Qed.

Lemma timer_deliveries_ok {W} (K : kernel posix W) p tids t w :
  wpa K t (deliveries p tids) w (λ r _ t', handled t r t').
Proof.
  unfold deliveries. apply (wpa_for_each K (λ _ _ _ t', quiet t t')); [| |apply quiet_refl].
  - intros tid tids' s w1 t1 Ht. acc_call; [|split; [quietly|done]]. unfold when. destruct (negb _).
    + eapply wpa_mono; [by apply (handler_ok K _ _ t); quietly|]. intros [u|h|] w2 t2 [H1 H2]; [done|by split|by split].
    + acc_steps. quietly.
  - intros s w1 t1 Ht. by split.
Qed.

(** What is armed and printed for the argument [a] whose timer is [id]. *)
Definition arm_of (id : Z) (a : string) : Z * (Z * Z) * (Z * Z) :=
  (id, pair_of (it_value (spec_of (to_bytes a))), pair_of (it_interval (spec_of (to_bytes a)))).
Definition line_of (id : Z) (a : string) : string :=
  "Timer ID: " +:+ zstr id +:+ " (" +:+ of_bytes (label (to_bytes a)) +:+ ")" +:+ nl.

(** The timers created and armed, and the lines printed, are those of the first arguments. *)
Definition started (args : list string) (l : tlog) : Prop :=
  armed l `prefix_of` zip_with arm_of (created l) args ∧ lines l `prefix_of` zip_with line_of (created l) args ∧
  length (created l) ≤ length args.

Lemma zip_with_snoc {A B C} (f : A → B → C) l x k y : k !! length l = Some y →
  zip_with f (l ++ [x]) k = zip_with f l k ++ [f x y].
Proof.
  revert k. induction l as [|a l IH]; intros [|b k] H; cbn in H |- *; simplify_eq; [done|]. by rewrite IH.
Qed.

Section start.
Context (ename strerror : Z → string) {W : Type} (K : kernel posix W) (all : list string)
  (Hnul : Forall (λ a, no_nul (to_bytes a)) all).

(** All the timers [tids] are armed. *)
Definition running (tids : list Z) (t : list (event posix)) : Prop :=
  tlog_of t = TLog tids (zip_with arm_of tids all) (zip_with line_of tids all) ∧ ¬ Exists is_wait t.

Definition start_post (r : outcome (list Z)) (t : list (event posix)) : Prop :=
  match r with
  | Returned tids => length tids = length all ∧ running tids t
  | r => started all (tlog_of t) ∧ ¬ Exists is_wait t ∧
      match r with Halted h => failed (A := Z) (Halted h) ∨ (∃ why, h = Undef why) ∧ time_failed t | _ => True end
  end.

Lemma report_quiet t u : Forall report_event u → quiet t (t ++ u).
Proof.
  intros H. exists u. split; [done|]. eapply Forall_impl; [exact H|].
  intros [o|c a|c] He; [destruct o|destruct c|destruct c]; cbn in He |- *; try done; (split; [done|by intros []]).
Qed.

Lemma start_partial (r : outcome (list Z)) t t' : started all (tlog_of t) → ¬ Exists is_wait t → quiet t t' →
  match r with Returned _ => False | Halted h => failed (A := Z) (Halted h) ∨ (∃ why, h = Undef why) ∧ time_failed t' | Gone => True end →
  start_post r t'.
Proof.
  intros H1 H2 Hq Hr. unfold start_post. rewrite (quiet_log _ _ Hq). destruct r; [done| |];
    (split_and!; [done|by intros ?%(quiet_wait _ _ Hq)|done]).
Qed.

Lemma wpa_report {A} t u e format ap text (R : outcome A → list (event posix) → Prop) w :
  vformat (to_bytes format) ap = Some text → quiet t u →
  (∀ r t', quiet t t' → failed r → R r t') → wpa K u (errExit (A := A) ename strerror e format ap) w (λ r _ t', R r t').
Proof.
  intros Hf (x & -> & Hx) HR. eapply wp_mono; [eapply wp_errExit, Hf|]. intros r w' t' [H1 H2]. apply HR; [|done].
  exists (x ++ t'). rewrite app_assoc. split; [done|]. apply Forall_app. split; [done|].
  destruct (report_quiet [] t' H2) as (t2 & E & H3). cbn in E. by subst.
Qed.

Lemma failed_any {A B} (h : halt) : failed (A := A) (Halted h) → failed (A := B) (Halted h).
Proof. done. Qed.

Ltac gone Hst Hnw := apply (start_partial Gone _ _ Hst Hnw); [quietly|done].
Ltac reported Hst Hnw := eapply wpa_report; [reflexivity|quietly|];
  let Hq := fresh in let Hf := fresh in intros [?|?|] ? Hq Hf; [done|apply (start_partial _ _ _ Hst Hnw Hq); by left|by apply (start_partial _ _ _ Hst Hnw Hq)].

Lemma start_timers_ok args tids t w : (∃ pre, all = pre ++ args ∧ length tids = length pre) → running tids t →
  wpa K t (start_timers ename strerror args tids) w (λ r _ t', start_post r t').
Proof.
  revert tids t w. induction args as [|a args IH]; intros tids t w (pre & Hall & Hlen) Ht; cbn [start_timers].
  { apply wpa_ret. split; [|done]. by rewrite Hall, app_nil_r. }
  assert (all !! length tids = Some a) as Ha by (rewrite Hall, Hlen; by apply list_lookup_middle).
  destruct (itimerspec_ok (to_bytes a)) as [Hs Hl]; [by eapply (Forall_lookup_1 _ _ _ _ Hnul)|].
  destruct (itimerspecFromStr (to_bytes a ++ [NUL])) as [ts str]. cbn [fst snd] in Hs, Hl. subst ts.
  destruct Ht as [Ht Hnw]. assert (Hst : started all (tlog_of t)).
  { rewrite Ht. split_and!; [done|done|]. cbn. apply lookup_lt_Some in Ha. lia. }
  apply wpa_bind. eapply wpa_mono; [apply timer_deliveries_ok|]. intros [[]|h|] w1 t1 [Hq1 Hr1].
  2:{ apply (start_partial _ _ _ Hst Hnw Hq1). by right. } 2:{ by apply (start_partial _ _ _ Hst Hnw Hq1). }
  acc_call; [|gone Hst Hnw]. destruct a0 as [c tid]. destruct (ret c =? -1)%Z eqn:Ec.
  { assert (quiet t (t1 ++ [ECall (S := posix) (TimerCreate (Some (TIMER_SIG, Z.of_nat (length tids)))) (c, tid)])) as Hq2.
    { apply quiet_snoc; [done| |by intros []]. intros l. cbn. by rewrite Ec. }
    reported Hst Hnw. }
  set (t2 := t1 ++ _).
  assert (Ht2 : tlog_of t2 = TLog (tids ++ [tid]) (zip_with arm_of tids all) (zip_with line_of tids all)).
  { unfold t2. rewrite tlog_snoc, (quiet_log _ _ Hq1), Ht. cbn. by rewrite Ec. }
  assert (Hnw2 : ¬ Exists is_wait t2).
  { intros [Hx|Hx]%Exists_app; [by apply Hnw, (quiet_wait _ _ Hq1)|]. by apply Exists_cons in Hx as [[]|?%Exists_nil]. }
  clearbody t2. clear Hst Hnw Hq1 Ht t t1 Hr1. revert Ht2 Hnw2. rename t2 into t. intros Ht Hnw.
  assert (Hst : started all (tlog_of t)).
  { rewrite Ht. unfold started. cbn. rewrite !(zip_with_snoc _ _ _ _ _ Ha). split_and!; [by apply prefix_app_r|by apply prefix_app_r|].
    apply lookup_lt_Some in Ha. rewrite length_app. cbn. lia. }
  apply wpa_bind. eapply wpa_mono; [apply timer_deliveries_ok|]. intros [[]|h|] w3 t3 [Hq3 Hr3].
  2:{ apply (start_partial _ _ _ Hst Hnw Hq3). by right. } 2:{ by apply (start_partial _ _ _ Hst Hnw Hq3). }
  unfold printf, put. cbn [bind]. apply wpa_put. rewrite Hl.
  set (t4 := t3 ++ _).
  assert (Ht4 : tlog_of t4 = TLog (tids ++ [tid]) (zip_with arm_of tids all) (zip_with line_of (tids ++ [tid]) all)).
  { unfold t4. rewrite tlog_snoc, (quiet_log _ _ Hq3), Ht, (zip_with_snoc line_of _ _ _ _ Ha). reflexivity. }
  assert (Hnw4 : ¬ Exists is_wait t4).
  { intros [Hx|Hx]%Exists_app; [by apply Hnw, (quiet_wait _ _ Hq3)|]. by apply Exists_cons in Hx as [[]|?%Exists_nil]. }
  clearbody t4. clear Hst Hnw Hq3 Ht t t3 Hr3. revert Ht4 Hnw4. rename t4 into t. intros Ht Hnw.
  assert (Hst : started all (tlog_of t)).
  { rewrite Ht. unfold started. cbn. rewrite (zip_with_snoc arm_of _ _ _ _ Ha). split_and!; [by apply prefix_app_r|done|].
    apply lookup_lt_Some in Ha. rewrite length_app. cbn. lia. }
  apply wpa_bind. eapply wpa_mono; [apply timer_deliveries_ok|]. intros [[]|h|] w5 t5 [Hq5 Hr5].
  2:{ apply (start_partial _ _ _ Hst Hnw Hq5). by right. } 2:{ by apply (start_partial _ _ _ Hst Hnw Hq5). }
  acc_call; [|gone Hst Hnw]. destruct (ret a0 =? -1)%Z eqn:Es.
  { assert (quiet t (t5 ++ [ECall (S := posix) (TimerSettime tid (pair_of (it_value (spec_of (to_bytes a)))) (pair_of (it_interval (spec_of (to_bytes a))))) a0])) as Hq6.
    { apply quiet_snoc; [done| |by intros []]. intros l. cbn. by rewrite Es. }
    reported Hst Hnw. }
  apply IH.
  - exists (pre ++ [a]). rewrite <- app_assoc, !length_app, Hlen. done.
  - split.
    + rewrite tlog_snoc, (quiet_log _ _ Hq5), Ht. cbn. rewrite Es. by rewrite (zip_with_snoc arm_of _ _ _ _ Ha).
    + intros [Hx|Hx]%Exists_app; [by apply Hnw, (quiet_wait _ _ Hq5)|]. by apply Exists_cons in Hx as [[]|?%Exists_nil].
Qed.
End start.

(** What <signal.h> documents of [sigwaitinfo]: a signal's number, or -1. *)
Definition waits_for_signal {W} (K : kernel posix W) : Prop :=
  ∀ set w a w', K (Sigwaitinfo set) w = Answer a w' → ret a ≠ 0%Z.

(** How ptmr_sigev_signal.c ends. *)
Definition ptmr_post (args : list string) (r : outcome Z) (t : list (event posix)) : Prop :=
  started args (tlog_of t) ∧
  (Exists is_wait t → length (created (tlog_of t)) = length args ∧
     armed (tlog_of t) = zip_with arm_of (created (tlog_of t)) args ∧
     lines (tlog_of t) = zip_with line_of (created (tlog_of t)) args ∧
     ∀ h, r = Halted h → perror_last t ∨ time_failed t) ∧
  match r with
  | Returned _ => False
  | Halted h => failed (A := Z) (Halted h) ∨ (∃ why, h = Undef why) ∧ time_failed t
  | Gone => True
  end.

Lemma ptmr_early args (r : outcome Z) t : quiet [] t →
  match r with Returned _ => False | Halted h => failed (A := Z) (Halted h) | Gone => True end → ptmr_post args r t.
Proof.
  intros Hq Hr. unfold ptmr_post. rewrite (quiet_log _ _ Hq). split_and!; [split_and!; [apply prefix_nil..|cbn; lia]| |].
  - by intros ?%(quiet_wait _ _ Hq)%Exists_nil.
  - destruct r; [done|by left|done].
Qed.

Lemma ptmr_ok ename strerror {W} (K : kernel posix W) (argv : list string) (w : W) :
  waits_for_signal K → Forall (λ a, no_nul (to_bytes a)) (tail argv) →
  wpa K [] (ptmr_main ename strerror argv) w (λ r _ t, ptmr_post (tail argv) r t).
Proof.
  intros HK Hnul. unfold ptmr_main. destruct (Z.of_nat (length argv) <? 2)%Z.
  { eapply wp_mono; [eapply wp_usageErr; reflexivity|]. intros r w' t [H1 H2]. cbn.
    apply ptmr_early; [apply (report_quiet [] t H2)|by destruct r]. }
  pose proof (quiet_refl []) as Hq0.
  acc_call; [|apply ptmr_early; [quietly|done]]. destruct (ret a =? 0)%Z.
  { eapply wpa_report; [reflexivity|quietly|]. intros [?|?|] t Hq Hf; [done|by apply ptmr_early..]. }
  acc_call; [|apply ptmr_early; [quietly|done]]. destruct (ret a0 =? -1)%Z.
  { eapply wpa_report; [reflexivity|quietly|]. intros [?|?|] t Hq Hf; [done|by apply ptmr_early..]. }
  apply wpa_bind. eapply wpa_mono.
  { apply (start_timers_ok ename strerror K (tail argv) Hnul (tail argv) []); [by exists []|]. split; [reflexivity|].
    intros Hx. repeat (apply Exists_cons in Hx as [[]|Hx]). by apply Exists_nil in Hx. }
  intros [tids|h|] w1 t [H1 H2].
  2:{ destruct H2 as [H2 H3]. by split_and!. } 2:{ destruct H2 as [H2 H3]. by split_and!. }
  destruct H2 as [Ht Hnw].
  (* the rest neither creates nor arms a timer *)
  assert (∀ (r : outcome Z) t', quiet t t' → match r with Returned _ => False
    | Halted h => (∃ why, h = Undef why) ∧ time_failed t' | Gone => True end → ptmr_post (tail argv) r t') as Hstop.
  { intros r t' Hq Hr. unfold ptmr_post, started. rewrite (quiet_log _ _ Hq), Ht. cbn. split_and!; [done..|lia| |].
    - intros _. split_and!; [done..|]. intros h ->. right. by destruct Hr.
    - destruct r; [done|by right|done]. }
  apply wpa_bind. eapply wpa_mono; [apply timer_deliveries_ok|]. intros [[]|h|] w2 t2 [Hq2 Hr2]; [|by apply Hstop..].
  assert (Hafter : ∀ (r : outcome Z) e u, is_wait e → (∀ l, t_event l e = l) → quiet (t2 ++ [e]) u →
    match r with Returned _ => False | Halted h => h = Exited 1 ∧ perror_last u ∨ (∃ why, h = Undef why) ∧ time_failed u | Gone => True end →
    ptmr_post (tail argv) r u).
  { intros r e u He Hl Hq Hr. unfold ptmr_post, started. rewrite (quiet_log _ _ Hq), tlog_snoc, Hl, (quiet_log _ _ Hq2), Ht. cbn.
    split_and!; [done..|lia| |].
    - intros _. split_and!; [done..|]. intros h ->. destruct Hr as [[_ ?]|[_ ?]]; [by left|by right].
    - destruct r; [done| |done]. destruct Hr as [[-> _]|?]; [by left|by right]. }
  acc_call; [|by eapply Hafter; [..|apply quiet_refl|]].
  apply wpa_bind. eapply wpa_mono; [apply timer_deliveries_ok|]. intros [[]|h|] w3 t3 [Hq3 Hr3];
    [|by eapply Hafter; [..|exact Hq3|]; [..|right]|by eapply Hafter; [..|exact Hq3|]].
  match goal with H : K (Sigwaitinfo _) _ = _ |- _ => rewrite (proj2 (Z.eqb_neq _ _) (HK _ _ _ _ H)) end. cbn [negb]. acc_steps.
  eapply Hafter; [..|apply quiet_snoc; [exact Hq3|done|by intros []]|]; [done..|]. left. split; [done|apply perror_last_snoc].
Qed.

(** ** The real-time interval timer *)

(** The contract of [setitimer], in terms of the microseconds [left] to the next
    expiration (0 when disarmed): it fails and the timer goes on, or it returns
    what is left when it is called and sets the new value. *)
Definition itimer_contract {W} (K : kernel posix W) (left : W → Z) : Prop :=
  ∀ v i w a w', K (Setitimer v i) w = Answer a w' → (0 <= left w)%Z →
    ret a.1 = (-1)%Z ∨
    ret a.1 = 0%Z ∧ (∃ rem, 0 <= rem <= left w ∧ a.2 = (rem / 1000000, rem mod 1000000))%Z ∧
      left w' = (v.1 * 1000000 + v.2)%Z.

Section itimer.
Context {W : Type} (K : kernel posix W) (left : W → Z) (HK : itimer_contract K left).

Lemma alarm_call_ok n w : (0 <= n <= 1000)%Z → (0 <= left w)%Z →
  wp K (alarm_call n) w (λ r w' t, match r with
    | Returned true => ∃ e t0, t = t0 ++ [EOut (Perror "setitimer_alarm failed" e)]
    | Returned false => left w' = (n * 1000000)%Z ∧ ∃ p, (0 <= p <= left w / 1000000)%Z ∧
        outs t = ["previous alarm value " +:+ zstr p +:+ nl]
    | r => r = Gone
    end).
Proof.
  intros Hn Hw. unfold alarm_call, setitimer_alarm. prog_call. destruct a as [a old]. destruct (ret a =? -1)%Z eqn:Ea; zbool.
  - apply wp_ret. cbn [ret errno]. change (-1 =? -1)%Z with true. cbv iota. prog_steps. by eexists _, [_].
  - destruct (HK _ _ _ _ _ H Hw) as [?|(_ & (rem & Hr & Ho) & Hl)]; [done|]. cbn [fst snd] in Ho, Hl. subst old. apply wp_ret. cbn [ret fst].
    assert (0 <= rem / 1000000 <= left w / 1000000)%Z as Hp by (split; [apply Z.div_pos; lia|apply Z.div_le_mono; lia]).
    destruct (rem / 1000000 =? -1)%Z eqn:E; zbool; [lia|]. prog_steps. split.
    + rewrite Hl, to_long_id by (unfold in_long, LONG_MIN, LONG_MAX; lia). lia.
    + by exists (rem / 1000000)%Z.
Qed.

Lemma spin_ok fuel w : wp K (spin fuel) w (λ r w' t, r = Halted Cut ∧ w' = w ∧ t = []).
Proof. unfold spin. induction fuel as [|fuel IH]; [by apply wp_stop|]. exact IH. Qed.

(** The three lines of setitimer_alarm.c. *)
Definition alarm_lines (left0 : Z) (l : list string) : Prop :=
  ∃ p0 p1 p2, (0 <= p0 <= left0 / 1000000 ∧ 0 <= p1 <= 5 ∧ 0 <= p2 <= 8)%Z ∧
    l = (λ p, "previous alarm value " +:+ zstr p +:+ nl) <$> [p0; p1; p2].

Lemma setitimer_alarm_ok fuel w : (0 <= left w)%Z →
  wp K (setitimer_alarm_main fuel) w (λ r w' t, match r with
    | Returned z => z = 1%Z ∧ perror_last t
    | Halted h => h = Cut ∧ left w' = 0%Z ∧ alarm_lines (left w) (outs t)
    | Gone => True
    end).
Proof.
  intros Hw. unfold setitimer_alarm_main.
  apply wp_bind. eapply wp_mono; [apply (alarm_call_ok 5); lia|]. intros [[]|h|] w1 t1 H1; [|..|done|done].
  { apply wp_ret. destruct H1 as (e & t0 & ->). rewrite app_nil_r. split; [done|apply perror_last_snoc]. }
  destruct H1 as (L1 & p0 & P0 & O0).
  apply wp_bind. eapply wp_mono; [apply (alarm_call_ok 8); lia|]. intros [[]|h|] w2 t2 H2; [|..|done|done].
  { apply wp_ret. destruct H2 as (e & t0 & ->). rewrite app_nil_r, app_assoc. split; [done|apply perror_last_snoc]. }
  destruct H2 as (L2 & p1 & P1 & O1). rewrite L1 in P1. change (5 * 1000000 / 1000000)%Z with 5%Z in P1.
  apply wp_bind. eapply wp_mono; [apply (alarm_call_ok 0); lia|]. intros [[]|h|] w3 t3 H3; [|..|done|done].
  { apply wp_ret. destruct H3 as (e & t0 & ->). rewrite app_nil_r, !app_assoc. split; [done|apply perror_last_snoc]. }
  destruct H3 as (L3 & p2 & P2 & O2). rewrite L2 in P2. change (8 * 1000000 / 1000000)%Z with 8%Z in P2.
  eapply wp_mono; [apply spin_ok|]. intros r w4 t4 (-> & -> & ->). split; [done|]. split; [lia|].
  exists p0, p1, p2. split; [done|]. by rewrite !outs_app, O0, O1, O2.
Qed.
End itimer.

Lemma versus_ok {W} (K : kernel posix W) fuel garbage w :
  wp K (timer_create_versus_main fuel garbage) w (λ r _ t, armed (tlog_of t) = [] ∧
    match r with Returned _ => False | Halted h => h = Cut ∨ h = Exited 1 ∧ perror_last t | Gone => True end).
Proof.
  unfold timer_create_versus_main. prog_call. destruct a as [a i1]. destruct (negb (ret a =? 0)%Z).
  { prog_steps. split; [cbn; by destruct (ret a =? -1)%Z|]. right. split; [done|]. by eexists _, _. }
  prog_call; [|cbn; by destruct (ret a =? -1)%Z]. destruct a0 as [b i2]. destruct (negb (ret b =? 0)%Z).
  { prog_steps. split; [cbn; by destruct (ret a =? -1)%Z, (ret b =? -1)%Z|]. right. split; [done|]. by eexists _, _. }
  eapply wp_mono; [apply spin_ok|]. intros r w2 t (-> & _ & ->). split; [cbn; by destruct (ret a =? -1)%Z, (ret b =? -1)%Z|by left].
Qed.


(** The world: the timers created, and the microseconds to the next expiration
    of the interval timer, of which each call takes a second. *)
Definition timer_kernel : kernel posix (Z * Z) := λ c w,
  match c as c return reaction (posix_ans c) (Z * Z) with
  | Malloc _ => Answer (Rc 4096 0) w
  | Sigaction _ _ => Answer (Rc 0 0) w
  | TimerCreate _ => Answer (Rc 0 0, w.1) (w.1 + 1, w.2)%Z
  | TimerSettime _ _ _ => Answer (Rc 0 0) w
  | Deliver _ p => Answer (Rc (if bool_decide (p = 4) then 1 else 0) 0) w
  | Time => Answer (Rc 1700000000 0) w
  | Localtime _ => Answer (Rc 8192 0) w
  | Strftime _ _ => Answer (Rc 8 0, "22:13:20"%string) w
  | TimerGetoverrun _ => Answer (Rc 0 0) w
  | Sigwaitinfo _ => Answer (Rc (-1) EINTR) w
  | Setitimer v _ => let rem := Z.max 0 (w.2 - 1000000) in
      Answer (Rc 0 0, (rem / 1000000, rem mod 1000000))%Z (w.1, v.1 * 1000000 + v.2)%Z
  | _ => NoReturn w
  end.

