(* ===== verification/Pipes.v ===== *)
(** * A dialogue through two pipes

    bidirectional_pipes.c (CH44): the parent sends every line of its standard
    input to the child and displays what the child answers, the line in upper
    case.  The two loops are two threads of control of a machine whose state is
    the terminal and the two pipes; the program up to the loops is a program
    like the others. *)
From Stdlib Require Import ZArith Lia Ascii String.
From stdpp Require Import base gmap strings list relations well_founded.
From S2P Require Import Prelude Prog CString Posix Conc.
Local Open Scope prog_scope.

Definition PIPE_BUFFER_LEN : Z := 512.

(** [strchr(buf, '\n')] and, at a newline, the NUL stored behind it; [None] if
    the search or the store leaves the array. *)
Definition end_line (buf : bytes) : option bytes :=
  match strchr buf LF with
  | ChrAt i => if decide (S i < length buf) then Some (<[S i := NUL]> buf) else None
  | ChrNull => Some buf
  | ChrOver => None
  end.

(** [toupper(3)] in the C locale. *)
Definition toupper (c : ascii) : ascii :=
  if (97 <=? code c)%Z && (code c <=? 122)%Z then chr (code c - 32) else c.

(** The loop that converts the string in the buffer. *)
Fixpoint upcase (buf : bytes) : bytes :=
  match buf with
  | [] => []
  | c :: b => if Ascii.eqb c NUL then buf else toupper c :: upcase b
  end.

(** One round of the child's loop; the state is [childBuffer]. *)
Definition child_round (ptc_r ctp_w : Z) (childBuffer : bytes) : prog posix (bytes + unit) :=
  '(r, d) <- sys (Read ptc_r PIPE_BUFFER_LEN);;
  when (ret r =? -1)%Z (perror "read - child" (errno r)) ;;;
  match end_line (buf_store d childBuffer) with
  | None => undef "childBuffer"
  | Some buf =>
      let buf := upcase buf in
      w <- sys (Write ctp_w (cstr buf));;
      when (negb (ret w =? Z.of_nat (length (cstr buf)))%Z) (perror "write - child" (errno w)) ;;;
      Ret (inl buf)
  end.

(** One round of the parent's loop; the state is [parentBuffer]. *)
Definition parent_round (ptc_w ctp_r : Z) (parentBuffer : bytes) : prog posix (bytes + unit) :=
  '(r, d) <- sys (Read STDIN_FILENO PIPE_BUFFER_LEN);;
  when (ret r =? -1)%Z (perror "read - parent" (errno r)) ;;;
  let parentBuffer := buf_store d parentBuffer in
  w <- sys (Write ptc_w parentBuffer);;
  when (ret w =? -1)%Z (perror "write - parent" (errno w)) ;;;
  '(r, d) <- sys (Read ctp_r PIPE_BUFFER_LEN);;
  when (ret r =? -1)%Z (perror "read - parent" (errno r)) ;;;
  match end_line (buf_store d parentBuffer) with
  | None => undef "parentBuffer"
  | Some buf =>
      w <- sys (Write STDOUT_FILENO (cstr buf));;
      when (negb (ret w =? Z.of_nat (length (cstr buf)))%Z) (perror "write - parent" (errno w)) ;;;
      Ret (inl buf)
  end.

Definition child_loop (fuel : nat) (ptc_r ctp_w : Z) (buf : bytes) : prog posix unit := loop fuel (child_round ptc_r ctp_w) buf.
Definition parent_loop (fuel : nat) (ptc_w ctp_r : Z) (buf : bytes) : prog posix unit := loop fuel (parent_round ptc_w ctp_r) buf.

(** The two branches of the [switch]. *)
Definition child_branch (fuel : nat) (ptc ctp : Z * Z) (buf : bytes) : prog posix unit :=
  c <- sys (Close ptc.2);;
  if (ret c =? -1)%Z then eprintf "close: child" ;;; quick_exit EXIT_FAILURE else
  c <- sys (Close ctp.1);;
  if (ret c =? -1)%Z then eprintf "close: child" ;;; quick_exit EXIT_FAILURE else
  child_loop fuel ptc.1 ctp.2 buf.

Definition parent_branch (fuel : nat) (ptc ctp : Z * Z) (buf : bytes) : prog posix unit :=
  c <- sys (Close ptc.1);;
  if (ret c =? -1)%Z then eprintf "close: parent" ;;; exit EXIT_FAILURE else
  c <- sys (Close ctp.2);;
  if (ret c =? -1)%Z then eprintf "close: paren" ;;; exit EXIT_FAILURE else
  parent_loop fuel ptc.2 ctp.1 buf.

(** A pipe, or the uninitialised array [junk] after the message. *)
Definition make_pipe (junk : Z * Z) : prog posix (Z * Z) :=
  '(r, p) <- sys Pipe;;
  if (ret r =? -1)%Z then perror "pipe" (errno r) ;;; Ret junk else Ret p.

(** [case -1] falls through to [case 0]. *)
Definition bidirectional_main (fuel : nat) (junk1 junk2 : Z * Z) (childBuffer parentBuffer : bytes) : prog posix unit :=
  ctp <- make_pipe junk1;;
  ptc <- make_pipe junk2;;
  f <- sys Fork;;
  if (ret f =? -1)%Z then perror "fork" (errno f) ;;; child_branch fuel ptc ctp childBuffer
  else if (ret f =? 0)%Z then child_branch fuel ptc ctp childBuffer
  else parent_branch fuel ptc ctp parentBuffer.

(** ** Two processes *)

(** Whose turn it is: nothing is in the pipes; the parent has sent its buffer;
    the child has read it; the child has answered. *)
Inductive stage := Idle | Sent | Taken | Replied.

(** The lines still to be typed, the two pipes, what has been displayed; and to
    follow the dialogue, the last buffer sent, the round and the stage. *)
Record duplex := Duplex {
  typed : list bytes; ptc : bytes; ctp : bytes; shown : list bytes;
  msg : bytes; round : nat; now : stage }.

(** A [read] of the terminal: at most [n] bytes of the next line; nothing at the
    end. *)
Definition next_line (n : nat) (l : list bytes) : bytes * list bytes :=
  match l with
  | [] => ([], [])
  | d :: l' => (take n d, match drop n d with [] => l' | d' => d' :: l' end)
  end.

Section machine.
Context (ptc_r ptc_w ctp_r ctp_w : Z).

(** A pipe holds at most 65536 bytes; both ends stay open. *)
Definition duplex_step (i : nat) (c : posix_op) (s : duplex) : mresult (posix_ans c) duplex :=
  match c as c return mresult (posix_ans c) duplex with
  | Read fd n =>
      let n := Z.to_nat n in
      if decide (i = 0 ∧ fd = STDIN_FILENO) then
        let '(d, l) := next_line n (typed s) in
        MOk (Rc (Z.of_nat (length d)) 0, d) (Duplex l (ptc s) (ctp s) (shown s) (msg s) (round s) (now s))
      else if decide (i = 0 ∧ fd = ctp_r) then
        match ctp s with
        | [] => MBlocked
        | q => MOk (Rc (Z.of_nat (length (take n q))) 0, take n q)
                 (Duplex (typed s) (ptc s) (drop n q) (shown s) (msg s) (S (round s)) Idle)
        end
      else if decide (i = 1 ∧ fd = ptc_r) then
        match ptc s with
        | [] => MBlocked
        | q => MOk (Rc (Z.of_nat (length (take n q))) 0, take n q)
                 (Duplex (typed s) (drop n q) (ctp s) (shown s) (msg s) (round s) Taken)
        end
      else MFault
  | Write fd b =>
      let a := Rc (Z.of_nat (length b)) 0 in
      if decide (i = 0 ∧ fd = STDOUT_FILENO) then
        MOk a (Duplex (typed s) (ptc s) (ctp s) (shown s ++ [b]) (msg s) (round s) (now s))
      else if decide (i = 0 ∧ fd = ptc_w) then
        if decide (length (ptc s) + length b ≤ Z.to_nat 65536) then
          MOk a (Duplex (typed s) (ptc s ++ b) (ctp s) (shown s) b (round s) Sent)
        else MBlocked
      else if decide (i = 1 ∧ fd = ctp_w) then
        if decide (length (ctp s) + length b ≤ Z.to_nat 65536) then
          MOk a (Duplex (typed s) (ptc s) (ctp s ++ b) (shown s) (msg s) (round s) Replied)
        else MBlocked
      else MFault
  | _ => MFault
  end.

Definition duplex_machine : machine posix duplex := Machine posix duplex duplex_step (λ _ _ s, s).
End machine.

Definition duplex0 (lines : list bytes) : duplex := Duplex lines [] [] [] [] 0 Idle.

(** ** What is displayed *)

(** What the child writes for the buffer [m]; an empty answer leaves the parent
    waiting. *)
Definition reply (m : bytes) : option bytes := (λ b, cstr (upcase b)) <$> end_line m.

Definition answer (m : bytes) : option (bytes * bytes) :=
  match reply m with
  | Some (c :: r) => (λ b, (cstr b, b)) <$> end_line (buf_store (c :: r) m)
  | _ => None
  end.

(** The lines displayed in [n] rounds. *)
Fixpoint dialogue (n : nat) (buf : bytes) (lines : list bytes) : list bytes :=
  match n with
  | O => []
  | S n =>
      let '(d, lines) := next_line 512 lines in
      match answer (buf_store d buf) with
      | Some (s, buf) => s :: dialogue n buf lines
      | None => []
      end
  end.

Example dialogue_ex : let z := repeat NUL 512 in
  of_bytes <$> dialogue 4 z [to_bytes ("hello" +:+ nl); to_bytes ("ab" +:+ nl)] =
  ["HELLO" +:+ nl; "AB" +:+ nl; "AB" +:+ nl; "AB" +:+ nl].
Proof. vm_compute. reflexivity. Qed.

(** ** Lines in upper case *)

(** A line that fits into the buffers with its newline and a NUL. *)
Definition fits (l : bytes) : Prop := no_nul l ∧ (LF ∉ l) ∧ length l ≤ 510.
Definition typed_line (l : bytes) : bytes := l ++ [LF].
Definition upper_line (l : bytes) : bytes := (toupper <$> l) ++ [LF].

Lemma toupper_cases c : toupper c = c ∨ (65 <= code (toupper c) <= 90)%Z.
Proof.
  unfold toupper. destruct (_ && _) eqn:E; [right|by left]. zbool. rewrite code_chr; lia.
Qed.

Lemma toupper_idem c : toupper (toupper c) = toupper c.
Proof.
  destruct (toupper_cases c) as [E|H]; [by rewrite !E|]. unfold toupper at 1.
  destruct (_ && _) eqn:E; [zbool; lia|done].
Qed.

(** Neither NUL nor the newline comes from another character. *)
Lemma toupper_not c (x : bytes) : (code c < 65)%Z → c ∉ x → c ∉ (toupper <$> x).
Proof.
  intros Hc Hx (y & E & Hy)%list_elem_of_fmap. destruct (toupper_cases y) as [H|H]; [congruence|]. rewrite <- E in H. lia.
Qed.

Lemma fits_upper l : fits l → fits (toupper <$> l).
Proof.
  intros (H1 & H2 & H3). split_and!; [by apply toupper_not|by apply toupper_not|by rewrite length_fmap].
Qed.

Lemma end_line_ok l c x : fits l → end_line (l ++ LF :: c :: x) = Some (l ++ LF :: NUL :: x).
Proof.
  intros (H1 & H2 & H3). unfold end_line. rewrite strchr_found by done. rewrite decide_True by (rewrite length_app; cbn; lia).
  f_equal. rewrite insert_app_r_alt by lia. by replace (S (length l) - length l) with 1 by lia.
Qed.

Lemma upcase_ok l x : no_nul l → upcase (l ++ LF :: NUL :: x) = (toupper <$> l) ++ LF :: NUL :: x.
Proof.
  unfold no_nul. induction l as [|c l IH]; intros H; [done|]. apply not_elem_of_cons in H as [Hc H]. cbn.
  destruct (Ascii.eqb_spec c NUL) as [->|]; [done|]. by rewrite IH.
Qed.

Lemma cstr_line l x : fits l → cstr (l ++ LF :: NUL :: x) = l ++ [LF].
Proof.
  intros (H1 & _). replace (l ++ LF :: NUL :: x) with ((l ++ [LF]) ++ NUL :: x) by by rewrite <- app_assoc.
  apply cstr_app_nul. unfold no_nul in *. rewrite not_elem_of_app. split; [done|]. by intros ?%list_elem_of_singleton.
Qed.

Lemma answer_ok l c x : fits l →
  answer (l ++ LF :: c :: x) = Some (upper_line l, (toupper <$> l) ++ LF :: NUL :: x).
Proof.
  intros Hl. unfold answer, reply. rewrite end_line_ok by done. cbn [fmap option_fmap option_map].
  rewrite upcase_ok by apply Hl. pose proof (fits_upper l Hl) as Hu. rewrite cstr_line by done.
  destruct ((toupper <$> l) ++ [LF]) as [|y r] eqn:E; [by destruct (toupper <$> l)|]. rewrite <- E. unfold buf_store.
  replace (drop _ _) with (c :: x).
  2:{ rewrite length_app, length_fmap. cbn. rewrite drop_app_ge by lia. by replace (length l + 1 - length l) with 1 by lia. }
  rewrite <- app_assoc. cbn [app]. rewrite end_line_ok by done. cbn. by rewrite cstr_line.
Qed.

(** A buffer that holds the line [l], ended as the parent ends it. *)
Definition holds (l buf : bytes) : Prop := ∃ x, buf = l ++ LF :: NUL :: x ∧ length buf = 512.

Lemma answer_typed l buf : fits l → length buf = 512 →
  ∃ buf', answer (buf_store (typed_line l) buf) = Some (upper_line l, buf') ∧ holds (toupper <$> l) buf'.
Proof.
  intros Hl Hb. unfold buf_store, typed_line. destruct (drop (length (l ++ [LF])) buf) as [|c x] eqn:E.
  { apply (f_equal length) in E. rewrite length_drop, length_app in E. cbn in E. destruct Hl as (_ & _ & ?). lia. }
  rewrite <- app_assoc. cbn [app]. rewrite answer_ok by done. eexists. split; [done|]. exists x. split; [done|].
  apply (f_equal length) in E. rewrite length_drop, !length_app in *. rewrite length_fmap. cbn in *. destruct Hl as (_ & _ & ?). lia.
Qed.

Lemma answer_held l buf : fits l → holds (toupper <$> l) buf → ∃ buf', answer buf = Some (upper_line l, buf') ∧ holds (toupper <$> l) buf'.
Proof.
  intros Hl (x & -> & Hx). rewrite answer_ok by by apply fits_upper. unfold upper_line. rewrite <- list_fmap_compose.
  replace (toupper ∘ toupper <$> l) with (toupper <$> l).
  - eexists. split; [done|]. by exists x.
  - apply list_fmap_ext. intros i c _. symmetry. apply toupper_idem.
Qed.

Lemma next_typed l ls : fits l → next_line 512 (typed_line l :: ls) = (typed_line l, ls).
Proof.
  intros (_ & _ & H). unfold next_line, typed_line. rewrite take_ge, drop_ge by (rewrite length_app; cbn; lia). done.
Qed.

Lemma dialogue_held n : ∀ p ls buf, fits p → Forall fits ls → holds (toupper <$> p) buf →
  dialogue n buf (typed_line <$> ls) = take n ((upper_line <$> ls) ++ replicate n (default (upper_line p) (last (upper_line <$> ls)))).
Proof.
  induction n as [|n IH]; intros p ls buf Hp Hls Hb; [done|]. destruct ls as [|l ls]; cbn [fmap list_fmap dialogue].
  - cbn [next_line]. unfold buf_store. cbn [app length drop]. rewrite drop_0.
    destruct (answer_held p buf Hp Hb) as (buf' & -> & Hb'). cbn. f_equal. by apply (IH p [] buf').
  - apply Forall_cons in Hls as [Hl Hls]. rewrite next_typed by done.
    destruct (answer_typed l buf Hl) as (buf' & -> & Hb'); [by destruct Hb as (x & _ & ?)|].
    rewrite last_cons. cbn [app take]. f_equal. rewrite (IH l ls buf' Hl Hls Hb').
    assert (default (upper_line p) (match last (upper_line <$> ls) with Some y => Some y | None => Some (upper_line l) end)
      = default (upper_line l) (last (upper_line <$> ls))) as -> by by destruct (last (upper_line <$> ls)).
    rewrite replicate_S_end, app_assoc. symmetry. apply take_app_le. rewrite length_app, length_replicate. lia.
Qed.

(** For lines that fit: each in upper case, and the last one again and again
    when there are no more. *)
Lemma dialogue_lines n ls e buf : Forall fits ls → last (upper_line <$> ls) = Some e → length buf = 512 →
  dialogue n buf (typed_line <$> ls) = take n ((upper_line <$> ls) ++ replicate n e).
Proof.
  intros Hls He Hb. destruct ls as [|l ls]; [done|]. apply Forall_cons in Hls as [Hl Hls].
  destruct n as [|n]; [done|]. cbn [fmap list_fmap dialogue]. rewrite next_typed by done.
  destruct (answer_typed l buf Hl Hb) as (buf' & -> & Hb'). cbn [app take]. f_equal. rewrite (dialogue_held n l ls buf') by done.
  rewrite fmap_cons, last_cons in He. assert (default (upper_line l) (last (upper_line <$> ls)) = e) as ->.
  { destruct (last (upper_line <$> ls)); by simplify_eq/=. }
  rewrite replicate_S_end, app_assoc. symmetry. apply take_app_le. rewrite length_app, length_replicate. lia.
Qed.

(** ** Lengths *)

Lemma end_line_length b b' : end_line b = Some b' → length b' = length b.
Proof.
  unfold end_line. destruct (strchr b LF) as [i| |]; [|by intros [= <-]|done].
  destruct (decide _); [|done]. intros [= <-]. apply length_insert.
Qed.
Lemma upcase_length b : length (upcase b) = length b.
Proof. induction b as [|c b IH]; [done|]. cbn. destruct (Ascii.eqb c NUL); cbn; by rewrite ?IH. Qed.
Lemma reply_length m r : reply m = Some r → length r ≤ length m.
Proof.
  unfold reply. destruct (end_line m) as [b|] eqn:E; [|done]. intros [= <-].
  etrans; [apply cstr_length|]. by rewrite upcase_length, (end_line_length _ _ E).
Qed.
Lemma buf_store_length d b : length d ≤ length b → length (buf_store d b) = length b.
Proof. intros H. unfold buf_store. rewrite length_app, length_drop. lia. Qed.
Lemma next_line_length n l : length (next_line n l).1 ≤ n.
Proof. destruct l as [|d l]; cbn; [lia|]. rewrite length_take. lia. Qed.

(** ** The dialogue *)

Section dialogue.
Context (ptc_r ptc_w ctp_r ctp_w : Z) (N M : nat) (buf0 : bytes) (lines : list bytes).
Context (Hout : ptc_w ≠ STDOUT_FILENO) (Hin : ctp_r ≠ STDIN_FILENO).

(** Every round is answered. *)
Definition full : Prop := length (dialogue N buf0 lines) = N.
Definition answerable (m : bytes) : Prop := ∃ c r, reply m = Some (c :: r).

Record duplex_inv (s : duplex) : Prop := {
  d_stage : match now s with
            | Idle | Taken => ptc s = [] ∧ ctp s = []
            | Sent => ptc s = msg s ∧ ctp s = []
            | Replied => ptc s = [] ∧ reply (msg s) = Some (ctp s)
            end;
  d_msg : now s ≠ Idle → length (msg s) = 512 ∧ (full → answerable (msg s)) ∧ round s < N;
  d_shown : shown s `prefix_of` dialogue N buf0 lines }.

Definition duplex_rely (i : nat) (s s' : duplex) : Prop :=
  match i with
  | 0 => match now s with
         | Idle | Replied => s' = s
         | Sent => (typed s', shown s', msg s', round s') = (typed s, shown s, msg s, round s) ∧ now s' ≠ Idle
         | Taken => (typed s', shown s', msg s', round s') = (typed s, shown s, msg s, round s) ∧ (now s' = Taken ∨ now s' = Replied)
         end
  | 1 => match now s with
         | Sent | Taken => s' = s
         | Idle => round s' = round s ∧ (now s' = Idle ∨ now s' = Sent)
         | Replied => (round s' = round s ∧ now s' = Replied) ∨ (round s' = S (round s) ∧ (now s' = Idle ∨ now s' = Sent))
         end
  | _ => True
  end.

#[local] Instance duplex_rely_preorder i : PreOrder (duplex_rely i).
Proof.
  split.
  - intros s. destruct i as [|[|i]]; cbn; [| |done]; destruct (now s) eqn:E; auto.
  - intros a b c. destruct i as [|[|i]]; cbn; [| |done]; destruct (now a) eqn:Ea.
    + intros ->. by rewrite Ea.
    + intros [H1 H2]. destruct (now b) eqn:Eb; [done|..].
      * intros [H3 H4]. split; [congruence|done].
      * intros [H3 [H4|H4]]; (split; [congruence|by rewrite H4]).
      * intros ->. split; [done|by rewrite Eb].
    + intros [H1 [H2|H2]]; rewrite H2.
      * intros [H3 H4]. split; [congruence|done].
      * intros ->. split; [done|by right].
    + intros ->. by rewrite Ea.
    + intros [H1 [H2|H2]]; rewrite H2; [intros [H3 H4]; split; [congruence|done]|intros ->; split; [congruence|by right]].
    + intros ->. by rewrite Ea.
    + intros ->. by rewrite Ea.
    + intros [[H1 H2]|[H1 [H2|H2]]]; rewrite H2.
      * intros [[H3 H4]|[H3 H4]]; [left|right]; (split; [congruence|done]).
      * intros [H3 H4]. right. split; [congruence|done].
      * intros ->. right. split; [done|by right].
Qed.

Definition duplex_waits (i : nat) (s : duplex) : Prop :=
  match i with
  | 0 => now s = Sent ∨ now s = Taken ∨ now s = Replied ∧ ctp s = []
  | _ => now s = Idle ∨ now s = Replied
  end.

Abbreviation mach := (duplex_machine ptc_r ptc_w ctp_r ctp_w).
Abbreviation drg := (rg mach duplex_inv duplex_rely duplex_waits).
Abbreviation dguar := (guar duplex_inv duplex_rely).

(** Where the child is before its round [k]. *)
Definition child_at (k : nat) (s : duplex) : Prop :=
  (round s = k ∧ (now s = Idle ∨ now s = Sent)) ∨ (k = S (round s) ∧ now s = Replied).

Definition duplex_post (i : nat) (r : outcome unit) (s : duplex) : Prop :=
  match r with
  | Halted Cut =>
      if decide (i = 0) then now s = Idle ∧ round s = N ∧ shown s = dialogue N buf0 lines else child_at M s
  | Halted (Undef _) => ¬ full
  | _ => False
  end.

Lemma child_at_stable k s s' : child_at k s → duplex_rely 1 s s' → child_at k s'.
Proof.
  unfold child_at, duplex_rely. intros [[H1 [H2|H2]]|[H1 H2]]; rewrite H2.
  - intros [H3 H4]. left. split; [congruence|done].
  - intros ->. left. split; [done|by right].
  - intros [[H3 H4]|[H3 H4]]; [right|left]; (split; [congruence|done]).
Qed.

(** The parent before its round [k], with its buffer. *)
Record parent_at (k : nat) (buf : bytes) (s : duplex) : Prop := {
  p_idle : now s = Idle;
  p_round : round s = k;
  p_buf : length buf = 512;
  p_shown : length (shown s) = k;
  p_rest : dialogue N buf0 lines = shown s ++ dialogue (N - k) buf (typed s) }.

Lemma idle_rely s s' : now s = Idle → duplex_rely 0 s s' → s' = s.
Proof. unfold duplex_rely. intros ->. done. Qed.

(** The round [k] with the line [d]. *)
Lemma answer_step k f buf s d l : parent_at k buf s → k + S f = N → next_line 512 (typed s) = (d, l) →
  (full → answerable (buf_store d buf)) ∧
  match answer (buf_store d buf) with
  | Some (x, buf') => dialogue N buf0 lines = (shown s ++ [x]) ++ dialogue (N - S k) buf' l
  | None => ¬ full
  end.
Proof.
  intros [H1 H2 H3 H4 H5] HN Hd. replace (N - k) with (S f) in H5 by lia. cbn [dialogue] in H5. rewrite Hd in H5.
  replace (N - S k) with f by lia. unfold full. rewrite H5.
  destruct (answer (buf_store d buf)) as [[x buf']|] eqn:Ea.
  - split; [|by rewrite <- app_assoc]. intros _. unfold answer in Ea. unfold answerable.
    destruct (reply _) as [[|c r]|]; [done|by eexists _, _|done].
  - rewrite length_app, H4. cbn. split; [|lia]. intros. lia.
Qed.

(** The calls of the two processes. *)
Lemma step_stdin s : duplex_step ptc_r ptc_w ctp_r ctp_w 0 (Read STDIN_FILENO PIPE_BUFFER_LEN) s =
  let '(d, l) := next_line 512 (typed s) in
  MOk (Rc (Z.of_nat (length d)) 0, d) (Duplex l (ptc s) (ctp s) (shown s) (msg s) (round s) (now s)).
Proof. reflexivity. Qed.

Lemma step_send s b : ptc s = [] → length b = 512 →
  duplex_step ptc_r ptc_w ctp_r ctp_w 0 (Write ptc_w b) s =
    MOk (Rc (Z.of_nat (length b)) 0) (Duplex (typed s) b (ctp s) (shown s) b (round s) Sent).
Proof.
  intros Hp Hb. cbn [duplex_step]. rewrite decide_False by tauto. rewrite decide_True by done.
  rewrite Hp. rewrite decide_True by (rewrite Hb; cbn [length]; lia). done.
Qed.

Lemma step_answer s : duplex_step ptc_r ptc_w ctp_r ctp_w 0 (Read ctp_r PIPE_BUFFER_LEN) s =
  match ctp s with
  | [] => MBlocked
  | q => MOk (Rc (Z.of_nat (length (take 512 q))) 0, take 512 q)
           (Duplex (typed s) (ptc s) (drop 512 q) (shown s) (msg s) (S (round s)) Idle)
  end.
Proof. cbn [duplex_step]. rewrite decide_False by tauto. by rewrite decide_True. Qed.

Lemma step_show s b : duplex_step ptc_r ptc_w ctp_r ctp_w 0 (Write STDOUT_FILENO b) s =
  MOk (Rc (Z.of_nat (length b)) 0) (Duplex (typed s) (ptc s) (ctp s) (shown s ++ [b]) (msg s) (round s) (now s)).
Proof. reflexivity. Qed.

Lemma step_take s : duplex_step ptc_r ptc_w ctp_r ctp_w 1 (Read ptc_r PIPE_BUFFER_LEN) s =
  match ptc s with
  | [] => MBlocked
  | q => MOk (Rc (Z.of_nat (length (take 512 q))) 0, take 512 q)
           (Duplex (typed s) (drop 512 q) (ctp s) (shown s) (msg s) (round s) Taken)
  end.
Proof. cbn [duplex_step]. do 2 rewrite decide_False by (intros [? _]; lia). by rewrite decide_True. Qed.

Lemma step_reply s b : ctp s = [] → length b ≤ 512 →
  duplex_step ptc_r ptc_w ctp_r ctp_w 1 (Write ctp_w b) s =
    MOk (Rc (Z.of_nat (length b)) 0) (Duplex (typed s) (ptc s) b (shown s) (msg s) (round s) Replied).
Proof.
  intros Hp Hb. cbn [duplex_step]. do 2 rewrite decide_False by (intros [? _]; lia). rewrite decide_True by done.
  rewrite Hp. rewrite decide_True by (cbn [length]; lia). done.
Qed.

Lemma no_error n : (Z.of_nat n =? -1)%Z = false.
Proof. apply Z.eqb_neq. lia. Qed.

Lemma parent_loop_ok f : ∀ k buf s, k + f = N → parent_at k buf s → duplex_inv s →
  drg 0 (parent_loop f ptc_w ctp_r buf) (duplex_post 0) s.
Proof.
  unfold parent_loop. induction f as [|f IH]; intros k buf s Hk Hp HI; cbn [loop].
  { intros s' Hr _. rewrite (idle_rely _ _ (p_idle _ _ _ Hp) Hr). destruct Hp as [H1 H2 H3 H4 H5].
    unfold duplex_post. rewrite decide_True by done. split_and!; [done|lia|]. rewrite H5. replace (N - k) with 0 by lia.
    by rewrite app_nil_r. }
  unfold parent_round at 1, sys at 1. cbn [bind]. intros s1 Hr1 _. rewrite (idle_rely _ _ (p_idle _ _ _ Hp) Hr1). clear s1 Hr1.
  change (mstep mach) with (duplex_step ptc_r ptc_w ctp_r ctp_w). rewrite step_stdin.
  destruct (next_line 512 (typed s)) as [d l] eqn:Ed. destruct (answer_step _ _ _ _ _ _ Hp Hk Ed) as [Hfull Hans].
  pose proof Hp as [Hidle Hround Hbuf Hlen Hrest]. pose proof HI as [I1 I2 I3]. rewrite Hidle in I1. destruct I1 as [I1 I1'].
  set (s1 := Duplex l (ptc s) (ctp s) (shown s) (msg s) (round s) (now s)).
  assert (now s1 = Idle) as Hs1 by done. assert (duplex_inv s1) as HI1.
  { constructor; cbn; [by rewrite Hidle|done|done]. }
  split; [split; [done|]; intros [|[|j]] Hj; cbn; rewrite ?Hidle; first [done|auto]|].
  assert (length d ≤ 512) as Hd by (pose proof (next_line_length 512 (typed s)) as X; by rewrite Ed in X).
  assert (length (buf_store d buf) = 512) as Hm by (rewrite buf_store_length; lia).
  cbn [bind ret when]. rewrite no_error. cbn [bind when]. unfold sys at 1. cbn [bind].
  intros s2 Hr2 _. rewrite (idle_rely _ _ Hs1 Hr2). clear s2 Hr2.
  change (mstep mach) with (duplex_step ptc_r ptc_w ctp_r ctp_w). rewrite step_send by done.
  set (s2 := Duplex (typed s1) (buf_store d buf) (ctp s1) (shown s1) (buf_store d buf) (round s1) Sent). assert (duplex_inv s2) as HI2.
  { constructor; cbn; [done| |done]. intros _. split_and!; [done|done|lia]. }
  split; [split; [done|]; intros [|[|j]] Hj; cbn; rewrite ?Hidle; first [done|auto]|].
  cbn [bind ret when]. rewrite no_error. cbn [bind when]. unfold sys at 1. cbn [bind].
  intros s3 [Hr3 Hn3] HI3. cbn in Hr3. injection Hr3 as Hty Hsh Hms Hrd.
  change (mstep mach) with (duplex_step ptc_r ptc_w ctp_r ctp_w). rewrite step_answer.
  destruct (ctp s3) as [|c q] eqn:Eq.
  { unfold duplex_waits. destruct (now s3); [done|by left|by right; left|by right; right]. }
  assert (now s3 = Replied) as Hnow.
  { destruct HI3 as [X _ _]. destruct (now s3); [done|by destruct X as [_ X]; rewrite Eq in X..|done]. }
  destruct HI3 as [X1 X2 X3]. rewrite Hnow in X1. destruct X1 as [X1 X1']. rewrite Hms, Eq in X1'.
  assert (length (c :: q) ≤ 512) as Hq by (rewrite <- Hm; by apply reply_length). cbv zeta. rewrite take_ge, drop_ge by exact Hq.
  set (s4 := Duplex (typed s3) (ptc s3) [] (shown s3) (msg s3) (S (round s3)) Idle). assert (duplex_inv s4) as HI4 by by constructor.
  split; [split; [done|]; intros [|[|j]] Hj; cbn; rewrite ?Hnow; first [done|auto]|].
  cbn [bind ret when]. rewrite no_error. cbn [bind when].
  unfold answer in Hans. rewrite X1' in Hans. destruct (end_line (buf_store (c :: q) (buf_store d buf))) as [b|] eqn:Eb; cbn [fmap option_fmap option_map] in Hans.
  2:{ intros s5 _ _. exact Hans. }
  assert (length b = 512) as Hb by (rewrite (end_line_length _ _ Eb), buf_store_length; lia).
  unfold sys. cbn [bind]. intros s5 Hr5 _. rewrite (idle_rely s4 s5 eq_refl Hr5). clear s5 Hr5.
  change (mstep mach) with (duplex_step ptc_r ptc_w ctp_r ctp_w). rewrite step_show.
  set (s5 := Duplex _ _ _ _ _ _ _). assert (duplex_inv s5) as HI5.
  { constructor; cbn; [done|done|]. rewrite Hsh, Hans. apply prefix_app_r. done. }
  split; [split; [done|]; intros [|[|j]] Hj; cbn; first [done|auto]|].
  cbn [bind ret when]. rewrite Z.eqb_refl. cbn [negb bind when].
  apply (IH (S k)); [lia| |done]. constructor; cbn; [done|lia|done|rewrite Hsh, length_app; cbn; lia|by rewrite Hsh, Hty].
Qed.

Lemma child_loop_ok f : ∀ k buf s, k + f = M → child_at k s → length buf = 512 → duplex_inv s →
  drg 1 (child_loop f ptc_r ctp_w buf) (duplex_post 1) s.
Proof.
  unfold child_loop. induction f as [|f IH]; intros k buf s Hk Hc Hbuf HI; cbn [loop].
  { intros s' Hr _. unfold duplex_post. rewrite decide_False by lia. replace M with k by lia. by eapply child_at_stable. }
  unfold child_round at 1, sys at 1. cbn [bind]. intros s1 Hr1 HI1. pose proof (child_at_stable _ _ _ Hc Hr1) as Hc1. clear s Hc Hr1 HI.
  change (mstep mach) with (duplex_step ptc_r ptc_w ctp_r ctp_w). rewrite step_take. pose proof HI1 as [I1 I2 I3].
  destruct (ptc s1) as [|c q] eqn:Eq.
  { unfold duplex_waits. destruct Hc1 as [[_ [H|H]]|[_ H]]; [by left| |by right]. rewrite H in I1, I2. destruct I1 as [I1 _].
    destruct I2 as [I2 _]; [done|]. by rewrite <- I1 in I2. }
  assert (now s1 = Sent ∧ round s1 = k) as [Hnow Hrd].
  { destruct Hc1 as [[? [H|H]]|[_ H]]; [|done|]; rewrite H in I1; by destruct I1. }
  rewrite Hnow in I1, I2. destruct I1 as [I1 I1'], I2 as (Hm & Hfull & Hlt); [done|]. cbv zeta. rewrite I1, take_ge, drop_ge by lia.
  set (s2 := Duplex _ _ _ _ _ _ _). assert (duplex_inv s2) as HI2 by (constructor; cbn; done).
  split; [split; [done|]; intros [|[|j]] Hj; cbn; rewrite ?Hnow; first [done|auto]|].
  cbn [bind ret when]. rewrite no_error. cbn [bind when].
  assert (buf_store (msg s1) buf = msg s1) as ->.
  { unfold buf_store. rewrite drop_ge by lia. apply app_nil_r. }
  destruct (end_line (msg s1)) as [b|] eqn:Eb.
  2:{ intros s3 _ _. intros Hf. destruct (Hfull Hf) as (c' & r & Hr). unfold reply in Hr. by rewrite Eb in Hr. }
  assert (reply (msg s1) = Some (cstr (upcase b))) as Hrep by (unfold reply; by rewrite Eb).
  unfold sys. cbn [bind]. intros s3 Hr3 _. cbn in Hr3. subst s3.
  change (mstep mach) with (duplex_step ptc_r ptc_w ctp_r ctp_w). rewrite step_reply by (first [done|rewrite <- Hm; by apply reply_length]).
  set (s3 := Duplex _ _ _ _ _ _ _). assert (duplex_inv s3) as HI3 by (constructor; cbn; done).
  split; [split; [done|]; intros [|[|j]] Hj; cbn; first [done|auto]|].
  cbn [bind ret when]. rewrite Z.eqb_refl. cbn [negb bind when].
  apply (IH (S k)); [lia| |by rewrite upcase_length, (end_line_length _ _ Eb)|done]. right. cbn. split; [lia|done].
Qed.

Definition dialogue_start (cbuf : bytes) : config (S := posix) (W := duplex) (A := unit) :=
  (duplex0 lines, [parent_loop N ptc_w ctp_r buf0; child_loop M ptc_r ctp_w cbuf]).

Lemma dialogue_good cbuf : length buf0 = 512 → length cbuf = 512 →
  good mach duplex_inv duplex_rely duplex_waits duplex_post 2 (dialogue_start cbuf).
Proof.
  intros Hb Hc. assert (duplex_inv (duplex0 lines)) as HI by (constructor; cbn; [done|done|apply prefix_nil]).
  split; [done|]. split; [done|]. intros [|[|i]] p [= <-].
  - apply (parent_loop_ok N 0); [done| |done]. constructor; cbn; [done..|]. by rewrite Nat.sub_0_r.
  - apply (child_loop_ok M 0); [done| |done|done]. left. split; [done|by left].
Qed.

(** In a round the child still has to answer, or has answered, the parent's
    wait ends. *)
Lemma never_stuck s : N ≤ M → full → duplex_inv s → duplex_waits 0 s → ¬ child_at M s ∧ ¬ duplex_waits 1 s.
Proof.
  intros HNM Hf [I1 I2 _] Hw. assert (now s = Sent ∨ now s = Taken) as Hn.
  { destruct Hw as [H|[H|[H Hq]]]; [by left|by right|exfalso]. rewrite H in I1, I2. destruct I2 as (_ & Ha & _); [done|].
    destruct (Ha Hf) as (c & r & Hr). destruct I1 as [_ I1]. congruence. }
  assert (now s ≠ Idle) as Hi by by destruct Hn as [->| ->]. destruct (I2 Hi) as (_ & _ & Hr). split.
  - intros [[? _]|[_ ?]]; [lia|]. destruct Hn; congruence.
  - intros [?|?]; destruct Hn; congruence.
Qed.

Lemma duplex_ok cbuf c : length buf0 = 512 → length cbuf = 512 → N ≤ M → rtc (cstep mach) (dialogue_start cbuf) c →
  (∀ i, ¬ faulty mach i c) ∧ shown c.1 `prefix_of` dialogue N buf0 lines ∧
  (full → (∀ i why, c.2 !! i ≠ Some (Stop (Undef why))) ∧
     ((∃ c', cstep mach c c') ∨ c.2 !! 0 = Some (Stop Cut) ∧ shown c.1 = dialogue N buf0 lines)).
Proof.
  intros Hb Hc HNM Hs. destruct (rg_sound _ _ _ _ _ _ _ _ (dialogue_good cbuf Hb Hc) Hs) as (Hgood & Hfault & Hret & Hstop).
  destruct Hgood as (HI & Hlen & Hg). split; [done|]. split; [apply HI|]. intros Hf.
  assert (∀ i why, c.2 !! i ≠ Some (Stop (Undef why))) as Hundef.
  { intros i why Hi. exact (Hstop i _ Hi Hf). }
  split; [done|].
  destruct (lookup_lt_is_Some_2 c.2 0 ltac:(lia)) as [p0 Hp0], (lookup_lt_is_Some_2 c.2 1 ltac:(lia)) as [p1 Hp1].
  assert (∀ i p, c.2 !! i = Some p → (∃ c', cstep mach c c') ∨ p = Stop Cut ∨ duplex_waits i c.1) as Hmove.
  { intros i p Hp. destruct p as [a|h|o k|op k].
    - by destruct (Hret i a Hp).
    - pose proof (Hstop i h Hp) as H. destruct h; try done. right; by left.
    - left. eexists. exists i. unfold sched_step. by rewrite Hp.
    - pose proof (Hg i _ Hp c.1 ltac:(reflexivity) HI) as Hr. destruct (mstep mach i op c.1) as [a s| |] eqn:E; [|right; by right|done].
      left. eexists. exists i. unfold sched_step. by rewrite Hp, E. }
  destruct (Hmove 0 p0 Hp0) as [?|[->|Hw]]; [by left|right|left].
  - split; [done|]. by apply (Hstop 0 Cut Hp0).
  - destruct (never_stuck c.1 HNM Hf HI Hw) as [H1 H2]. destruct (Hmove 1 p1 Hp1) as [?|[->|?]]; [done| |done].
    destruct H1. exact (Hstop 1 Cut Hp1).
Qed.
End dialogue.

(** ** The ends of the pipes *)

Definition is_transfer (e : event posix) : Prop :=
  match e with ECall (Read _ _) _ | ECall (Write _ _) _ | EGone (Read _ _) | EGone (Write _ _) => True | _ => False end.

Definition pipe_made (junk p : Z * Z) (t : list (event posix)) : Prop :=
  p = junk ∨ called t Pipe (λ a, ret a.1 ≠ (-1)%Z ∧ a.2 = p).
Definition closed (fd : Z) (t : list (event posix)) : Prop := called t (Close fd) (λ a, ret a ≠ (-1)%Z).

(** The process has closed the ends that belong to the other side; the process
    whose [fork] failed takes the child's side. *)
Definition ends_closed (junk1 junk2 : Z * Z) (t : list (event posix)) : Prop :=
  ∃ ctp ptc, pipe_made junk1 ctp t ∧ pipe_made junk2 ptc t ∧
    (called t Fork (λ a, ret a = 0 ∨ ret a = -1)%Z ∧ closed ptc.2 t ∧ closed ctp.1 t ∨
     called t Fork (λ a, ret a ≠ 0 ∧ ret a ≠ -1)%Z ∧ closed ptc.1 t ∧ closed ctp.2 t).

Lemma pipe_made_snoc junk p t e : pipe_made junk p t → pipe_made junk p (t ++ [e]).
Proof. intros [?|?]; [by left|right; by apply called_app_l]. Qed.
Lemma closed_snoc fd t e : closed fd t → closed fd (t ++ [e]).
Proof. apply called_app_l. Qed.

Lemma ends_closed_snoc junk1 junk2 t e : ends_closed junk1 junk2 t → ends_closed junk1 junk2 (t ++ [e]).
Proof.
  intros (ctp & ptc & H1 & H2 & H3). exists ctp, ptc. split_and!; [by apply pipe_made_snoc..|].
  destruct H3 as [(H3 & H4 & H5)|(H3 & H4 & H5)]; [left|right]; (split_and!; [by apply called_app_l|by apply closed_snoc..]).
Qed.

Section setup.
Context {W : Type} (K : kernel posix W) (junk1 junk2 : Z * Z).
Abbreviation sel := (before_each is_transfer (ends_closed junk1 junk2)).

Lemma sel_snoc t e : sel t → ¬ is_transfer e → sel (t ++ [e]).
Proof. intros. by apply before_each_snoc. Qed.

(** Events that are no transfer. *)
Ltac plain := repeat (apply sel_snoc; [|by intros []]); done.

Lemma make_pipe_ok junk t w : sel t →
  wpa K t (make_pipe junk) w (λ r _ t', sel t' ∧ (∃ u, t' = t ++ u) ∧
    match r with Returned p => pipe_made junk p t' | Halted _ => False | Gone => True end).
Proof.
  intros Ht. unfold make_pipe. acc_call; [|split; [plain|split; [by eexists|done]]].
  destruct a as [r p]. destruct (ret r =? -1)%Z eqn:E; zbool; acc_steps.
  - split; [plain|]. split; [eexists; by rewrite <- app_assoc|by left].
  - split; [plain|]. split; [by eexists|]. right. by apply called_last.
Qed.

Lemma child_branch_ok fuel ptc ctp buf t w : sel t → pipe_made junk1 ctp t → pipe_made junk2 ptc t →
  called t Fork (λ a, ret a = 0 ∨ ret a = -1)%Z → wpa K t (child_branch fuel ptc ctp buf) w (λ _ _ t', sel t').
Proof.
  intros Ht H1 H2 H3. unfold child_branch. acc_call; [|plain].
  destruct (ret a =? -1)%Z eqn:Ea; zbool; [acc_steps; plain|].
  acc_call; [|plain].
  destruct (ret a0 =? -1)%Z eqn:Eb; zbool; [acc_steps; plain|].
  apply wpa_before; [by intros; apply ends_closed_snoc| |plain].
  exists ctp, ptc. split_and!; [do 2 apply pipe_made_snoc; done..|]. left.
  split_and!; [do 2 apply called_app_l; done|apply closed_snoc; by apply called_last|by apply called_last].
Qed.

Lemma parent_branch_ok fuel ptc ctp buf t w : sel t → pipe_made junk1 ctp t → pipe_made junk2 ptc t →
  called t Fork (λ a, ret a ≠ 0 ∧ ret a ≠ -1)%Z → wpa K t (parent_branch fuel ptc ctp buf) w (λ _ _ t', sel t').
Proof.
  intros Ht H1 H2 H3. unfold parent_branch. acc_call; [|plain].
  destruct (ret a =? -1)%Z eqn:Ea; zbool; [acc_steps; plain|].
  acc_call; [|plain].
  destruct (ret a0 =? -1)%Z eqn:Eb; zbool; [acc_steps; plain|].
  apply wpa_before; [by intros; apply ends_closed_snoc| |plain].
  exists ctp, ptc. split_and!; [do 2 apply pipe_made_snoc; done..|]. right.
  split_and!; [do 2 apply called_app_l; done|apply closed_snoc; by apply called_last|by apply called_last].
Qed.

Lemma bidirectional_setup fuel cbuf pbuf w : wpa K [] (bidirectional_main fuel junk1 junk2 cbuf pbuf) w (λ _ _ t, sel t).
Proof.
  unfold bidirectional_main. apply wpa_bind. eapply wpa_mono; [apply make_pipe_ok, before_each_nil|].
  intros [ctp|h|] w1 t1 (Ht1 & _ & H1); [|done|done]. apply wpa_bind. eapply wpa_mono; [by apply make_pipe_ok|].
  intros [ptc|h|] w2 t2 (Ht2 & (u & ->) & H2); [|done|done].
  assert (pipe_made junk1 ctp (t1 ++ u)) as H3 by (destruct H1; [by left|right; by apply called_app_l]).
  acc_call; [|plain].
  destruct (ret a =? -1)%Z eqn:Ea; zbool; [|destruct (ret a =? 0)%Z eqn:Eb; zbool].
  - acc_steps. apply child_branch_ok; [plain|do 2 apply pipe_made_snoc; done..|].
    apply called_app_l, called_last. by right.
  - apply child_branch_ok; [plain|by apply pipe_made_snoc..|]. apply called_last. by left.
  - apply parent_branch_ok; [plain|by apply pipe_made_snoc..|]. by apply called_last.
Qed.
End setup.

(** C32: bidirectional_pipes.c.  Before a process reads or writes it has closed
    the ends of the pipes that belong to the other one (a process whose [fork]
    failed acts as the child).  In every interleaving of parent and child, what
    has been displayed is the beginning of [dialogue]: nothing is lost, repeated
    or out of order.  If all rounds of the dialogue have an answer, there is
    neither a deadlock nor a store outside the buffers, and the parent completes
    them.  That is so for lines of at most 510 characters: each is displayed in
    upper case, and after the end of the input the last one again and again. *)
Theorem bidirectional_correct {W} (K : kernel posix W) (w : W) (fuel N M : nat) (junk1 junk2 : Z * Z)
    (ptc_r ptc_w ctp_r ctp_w : Z) (cbuf pbuf : bytes) (lines : list bytes) :
  ptc_w ≠ STDOUT_FILENO → ctp_r ≠ STDIN_FILENO → length cbuf = 512 → length pbuf = 512 → N ≤ M →
  let mach := duplex_machine ptc_r ptc_w ctp_r ctp_w in
  wp K (bidirectional_main fuel junk1 junk2 cbuf pbuf) w (λ _ _ t, before_each is_transfer (ends_closed junk1 junk2) t) ∧
  (∀ c, rtc (cstep mach) (duplex0 lines, [parent_loop N ptc_w ctp_r pbuf; child_loop M ptc_r ctp_w cbuf]) c →
    (∀ i, ¬ faulty mach i c) ∧ shown c.1 `prefix_of` dialogue N pbuf lines ∧ Acc (flip (cstep mach)) c ∧
    (length (dialogue N pbuf lines) = N →
      (∀ i why, c.2 !! i ≠ Some (Stop (Undef why))) ∧
      ((∃ c', cstep mach c c') ∨ c.2 !! 0 = Some (Stop Cut) ∧ shown c.1 = dialogue N pbuf lines))) ∧
  (∀ ls e, Forall fits ls → last (upper_line <$> ls) = Some e →
    dialogue N pbuf (typed_line <$> ls) = take N ((upper_line <$> ls) ++ replicate N e)).
Proof.
  intros Hout Hin Hc Hp HNM mach. split_and!.
  - apply wpa_wp, bidirectional_setup.
  - intros c Hs. destruct (duplex_ok ptc_r ptc_w ctp_r ctp_w N M pbuf lines Hout Hin cbuf c Hp Hc HNM Hs) as (H1 & H2 & H3).
    split_and!; [exact H1|exact H2|apply cstep_terminates|exact H3].
  - intros ls e H1 H2. by apply dialogue_lines.
Qed.

(** At the end of the input with nothing typed before, the parent sends what its
    buffer held; if that is the empty string both sides wait for ever. *)
Example bidirectional_deadlock :
  let mach := duplex_machine 5 6 3 4 in
  let z := repeat NUL 512 in
  let c := schedule mach (repeat 0 10 ++ repeat 1 10 ++ repeat 0 10) (duplex0 [], [parent_loop 1 6 3 z; child_loop 2 5 4 z]) in
  Conc.finished <$> c.2 = [false; false] ∧ (∀ i, sched_step mach i c = None).
Proof.
  intros mach z c. split; [vm_compute; reflexivity|]. intros [|[|i]]; vm_compute; reflexivity.
Qed.

Lemma bidirectional_correct_witness :
  let mach := duplex_machine 5 6 3 4 in
  let z := repeat NUL 512 in
  let ls := [to_bytes "hello"; to_bytes "Rocq"] in
  let c := schedule mach (concat (repeat [0; 1] 40)) (duplex0 (typed_line <$> ls), [parent_loop 3 6 3 z; child_loop 3 5 4 z]) in
  shown c.1 `prefix_of` dialogue 3 z (typed_line <$> ls) ∧ (∀ i, ¬ faulty mach i c) ∧
  of_bytes <$> shown c.1 = ["HELLO" +:+ nl; "ROCQ" +:+ nl; "ROCQ" +:+ nl] ∧
  dialogue 3 z (typed_line <$> ls) = take 3 ((upper_line <$> ls) ++ replicate 3 (upper_line (to_bytes "Rocq"))).
Proof.
  intros mach z ls c.
  destruct (bidirectional_correct (λ _ n, NoReturn n) 0%Z 1 3 3 (0, 0)%Z (0, 0)%Z 5 6 3 4 z z (typed_line <$> ls)) as (_ & H & Hl);
    [discriminate|discriminate|vm_compute; reflexivity|vm_compute; reflexivity|lia|].
  destruct (H c (schedule_steps mach _ _)) as (H1 & H2 & _).
  split_and!; [exact H2|exact H1|vm_compute; reflexivity|].
  apply Hl; [|reflexivity]. repeat (apply Forall_cons; split; [|try apply Forall_nil; try exact I]);
    (split_and!; [apply (bool_decide_unpack _); vm_compute; exact I..|cbn; lia]).
Defined.
