(* ===== verification/Getopt.v ===== *)
(** * getopt(3)

    glibc's [getopt] for short options, call by call: it scans [argv] from
    [optind] and moves the words that are no options behind the options while
    it does ([exchange]), so what a program finds in [argv] between two calls
    depends on how far the scan has come.  The state is that of the library:
    [first_nonopt] and [last_nonopt] bound the words skipped so far. *)
From Stdlib Require Import ZArith Lia Ascii String.
From stdpp Require Import base gmap strings list.
From S2P Require Import Prelude Prog CString Posix.
Local Open Scope prog_scope.

(** What follows a letter of [optstring]: nothing, [:] or [::]. *)
Inductive has_arg := NoArg | RequiredArg | OptionalArg.

(** The result of a call: an option with its [optarg], ['?'] with the message
    written to stderr, or -1. *)
Inductive gresult := Option (c : ascii) (optarg : option string) | Invalid (message : string) | NoMore.

Record gstate := GState {
  g_argv : list string; optind : nat; first_nonopt : nat; last_nonopt : nat; nextchar : string }.

Definition getopt_start (argv : list string) : gstate := GState argv 1 1 1 "".

Definition nonoption (a : string) : bool :=
  match a with String c (String _ _) => negb (Ascii.eqb c "-") | _ => true end.

(** [exchange]: the options scanned since go before the words skipped. *)
Definition exchange (g : gstate) : gstate :=
  let argv := g_argv g in
  let moved := take (first_nonopt g) argv ++ drop (last_nonopt g) (take (optind g) argv) ++
    drop (first_nonopt g) (take (last_nonopt g) argv) ++ drop (optind g) argv in
  GState moved (optind g) (first_nonopt g + (optind g - last_nonopt g)) (optind g) (nextchar g).

(** Skips words that are no options. *)
Fixpoint skip_words (argv : list string) (i : nat) : nat :=
  match argv with
  | a :: argv' => if nonoption a then skip_words argv' (S i) else i
  | [] => i
  end.

(** The words skipped so far lie before [optind]. *)
Definition clamp (g : gstate) : gstate :=
  GState (g_argv g) (optind g) (if optind g <? first_nonopt g then optind g else first_nonopt g)
    (if optind g <? last_nonopt g then optind g else last_nonopt g) (nextchar g).

Definition permute (g : gstate) : gstate :=
  if negb (first_nonopt g =? last_nonopt g) && negb (last_nonopt g =? optind g) then exchange g
  else if negb (last_nonopt g =? optind g)
  then GState (g_argv g) (optind g) (optind g) (last_nonopt g) (nextchar g) else g.

Definition skip_nonoptions (g : gstate) : gstate :=
  let i := skip_words (drop (optind g) (g_argv g)) (optind g) in
  GState (g_argv g) i (first_nonopt g) i (nextchar g).

(** The word [--] ends the options. *)
Definition stop_at_dashes (g : gstate) : gstate :=
  match g_argv g !! optind g with
  | Some a =>
      if streq a "--" then
        let g := GState (g_argv g) (S (optind g)) (first_nonopt g) (last_nonopt g) (nextchar g) in
        let g := if negb (first_nonopt g =? last_nonopt g) && negb (last_nonopt g =? optind g) then exchange g
                 else if first_nonopt g =? last_nonopt g
                 then GState (g_argv g) (optind g) (optind g) (last_nonopt g) (nextchar g) else g in
        GState (g_argv g) (length (g_argv g)) (first_nonopt g) (length (g_argv g)) (nextchar g)
      else g
  | None => g
  end.

Definition begin_word (g : gstate) : gstate + gstate :=
  match g_argv g !! optind g with
  | Some a => inl (GState (g_argv g) (optind g) (first_nonopt g) (last_nonopt g) (match a with String _ s => s | _ => a end))
  | None =>
      inr (GState (g_argv g) (if negb (first_nonopt g =? last_nonopt g) then first_nonopt g else optind g)
             (first_nonopt g) (last_nonopt g) "")
  end.

(** The next word of options, when the last one is used up. *)
Definition next_word (g : gstate) : gstate + gstate :=
  begin_word (stop_at_dashes (skip_nonoptions (permute (clamp g)))).

Section getopt.
(** The [optstring]. *)
Context (spec : ascii → option has_arg).

(** The next letter of the word [nextchar]. *)
Definition next_letter (g : gstate) : gresult * gstate :=
  let at_ i s := GState (g_argv g) i (first_nonopt g) (last_nonopt g) s in
  match nextchar g with
  | EmptyString => (NoMore, g)
  | String c s =>
      let done := match s with EmptyString => true | _ => false end in
      let i := if done then S (optind g) else optind g in
      let name := argv_0 (g_argv g) in
      match spec c with
      | None => (Invalid (name +:+ ": invalid option -- '" +:+ String c ("'" +:+ nl)), at_ i s)
      | Some NoArg => (Option c None, at_ i s)
      | Some OptionalArg => if done then (Option c None, at_ i "") else (Option c (Some s), at_ (S i) "")
      | Some RequiredArg =>
          if negb done then (Option c (Some s), at_ (S i) "")
          else match g_argv g !! i with
               | Some a => (Option c (Some a), at_ (S i) "")
               | None => (Invalid (name +:+ ": option requires an argument -- '" +:+ String c ("'" +:+ nl)), at_ i "")
               end
      end
  end.

Definition getopt (g : gstate) : gresult * gstate :=
  match nextchar g with
  | EmptyString =>
      match next_word g with
      | inl g' => next_letter g'
      | inr g' => (NoMore, g')
      end
  | _ => next_letter g
  end.

(** [while ((opt = getopt(argc, argv, optstring)) != -1) body]: [body] may read
    [argv] as it is then.  Every call that does not end the scan uses up a
    letter or a word. *)
Fixpoint getopt_loop {St} (fuel : nat) (body : gresult → list string → St → prog posix St) (g : gstate) (s : St)
    : prog posix (gstate * St) :=
  match fuel with
  | O => Stop Cut
  | S fuel =>
      match getopt g with
      | (NoMore, g') => Ret (g', s)
      | (Invalid m, g') => eprintf m ;;; s <- body (Invalid m) (g_argv g') s;; getopt_loop fuel body g' s
      | (r, g') => s <- body r (g_argv g') s;; getopt_loop fuel body g' s
      end
  end.
End getopt.

(** Enough for every scan: a call for each letter, and the last one. *)
Definition getopt_fuel (argv : list string) : nat := S (sum_list (String.length <$> argv)).

Example getopt_ex : let spec c := if Ascii.eqb c "n" then Some OptionalArg else None in
  let g := getopt_start ["tail"; "file"; "-n"; "5"]%string in
  (getopt spec g).1 = Option "n" None ∧ g_argv (getopt spec g).2 = ["tail"; "file"; "-n"; "5"]%string ∧
  (getopt spec (getopt spec g).2).1 = NoMore ∧
  g_argv (getopt spec (getopt spec g).2).2 = ["tail"; "-n"; "file"; "5"]%string ∧ optind (getopt spec (getopt spec g).2).2 = 2.
Proof. vm_compute. split_and!; reflexivity. Qed.

(** ** The scan ends *)

Definition sizes (l : list string) : nat := sum_list (String.length <$> l).

(** The letters still to be scanned; while a word is scanned [optind] is its index. *)
Definition left_to_scan (g : gstate) : nat :=
  match nextchar g with
  | EmptyString => sizes (drop (optind g) (g_argv g))
  | s => String.length s + sizes (drop (S (optind g)) (g_argv g))
  end.

Record getopt_wf (g : gstate) : Prop := {
  g_first : first_nonopt g ≤ last_nonopt g;
  g_last : last_nonopt g ≤ optind g;
  g_ind : optind g ≤ length (g_argv g);
  g_word : nextchar g ≠ EmptyString → optind g < length (g_argv g) }.

Lemma sizes_drop_le l i j : i ≤ j → sizes (drop j l) ≤ sizes (drop i l).
Proof.
  intros H. replace j with (i + (j - i)) by lia. rewrite <- drop_drop. generalize (drop i l) (j - i). clear.
  intros l n. revert l. induction n as [|n IH]; intros [|a l]; cbn; [done..|]. unfold sizes in *. cbn. specialize (IH l). lia.
Qed.

Lemma sizes_drop_S l i a : l !! i = Some a → sizes (drop i l) = String.length a + sizes (drop (S i) l).
Proof. intros H. by rewrite (drop_S _ _ _ H). Qed.

Lemma exchange_ok g : first_nonopt g ≤ last_nonopt g → last_nonopt g ≤ optind g → optind g ≤ length (g_argv g) →
  length (g_argv (exchange g)) = length (g_argv g) ∧ drop (optind g) (g_argv (exchange g)) = drop (optind g) (g_argv g) ∧
  first_nonopt (exchange g) ≤ last_nonopt (exchange g) ∧ last_nonopt (exchange g) = optind g ∧
  optind (exchange g) = optind g ∧ nextchar (exchange g) = nextchar g.
Proof.
  intros H1 H2 H3. unfold exchange. cbn. rewrite !app_assoc.
  assert (length ((take (first_nonopt g) (g_argv g) ++ drop (last_nonopt g) (take (optind g) (g_argv g))) ++
    drop (first_nonopt g) (take (last_nonopt g) (g_argv g))) = optind g) as Hl.
  { rewrite !length_app, !length_drop, !length_take. lia. }
  split_and!; [rewrite length_app, Hl, length_drop; lia|by apply drop_app_exact|lia|done..].
Qed.

Lemma skip_words_range argv i : i ≤ skip_words argv i ≤ i + length argv.
Proof.
  revert i. induction argv as [|a argv IH]; intros i; cbn; [lia|]. destruct (nonoption a); [|lia]. specialize (IH (S i)). lia.
Qed.

Lemma skip_words_stop argv i a : (drop i argv : list string) !! (skip_words (drop i argv) i - i) = Some a → nonoption a = false.
Proof.
  generalize (drop i argv). clear argv. intros argv. revert i. induction argv as [|b argv IH]; intros i; cbn; [done|].
  destruct (nonoption b) eqn:E.
  - pose proof (skip_words_range argv (S i)). replace (skip_words argv (S i) - i) with (S (skip_words argv (S i) - S i)) by lia.
    apply IH.
  - rewrite Nat.sub_diag. by intros [= ->].
Qed.

Lemma clamp_id g : getopt_wf g → clamp g = g.
Proof.
  intros [H1 H2 _ _]. unfold clamp.
  assert ((optind g <? last_nonopt g) = false) as -> by (apply Nat.ltb_ge; lia).
  assert ((optind g <? first_nonopt g) = false) as -> by (apply Nat.ltb_ge; lia). by destruct g.
Qed.

Lemma permute_ok g : getopt_wf g → nextchar g = EmptyString →
  length (g_argv (permute g)) = length (g_argv g) ∧ drop (optind g) (g_argv (permute g)) = drop (optind g) (g_argv g) ∧
  first_nonopt (permute g) ≤ optind g ∧ optind (permute g) = optind g.
Proof.
  intros [H1 H2 H3 _] _. unfold permute. destruct (_ && _).
  - destruct (exchange_ok g) as (? & ? & ? & ? & ? & _); [lia..|]. split_and!; try done; lia.
  - destruct (negb _); cbn; split_and!; done || lia.
Qed.

Lemma stop_ok g a : first_nonopt g ≤ last_nonopt g → last_nonopt g = optind g → g_argv g !! optind g = Some a →
  stop_at_dashes g = g ∨ length (g_argv (stop_at_dashes g)) ≤ optind (stop_at_dashes g).
Proof.
  intros H1 H2 Ha. unfold stop_at_dashes. rewrite Ha. destruct (streq a "--"); [right|by left].
  cbv zeta. cbn [first_nonopt last_nonopt optind g_argv nextchar]. set (g2 := if _ && _ then _ else _). cbn. lia.
Qed.

(** What was before [optind] does not matter: the scan goes on in the words from there. *)
Lemma next_word_ok g : getopt_wf g → nextchar g = EmptyString →
  match next_word g with
  | inl g' => getopt_wf g' ∧ nextchar g' ≠ EmptyString ∧ left_to_scan g' < left_to_scan g
  | inr g' => True
  end.
Proof.
  intros Hg Hn. unfold next_word. rewrite clamp_id by done. destruct (permute_ok g Hg Hn) as (E1 & E2 & E3 & E4).
  pose proof (g_ind g Hg) as H3. destruct (permute g) as [argv1 i first1 last1 nxt1]. cbn [first_nonopt optind g_argv] in *. subst i.
  set (g2 := skip_nonoptions _). pose proof (skip_words_range (drop (optind g) argv1) (optind g)) as Hj. rewrite length_drop in Hj.
  assert (first_nonopt g2 ≤ last_nonopt g2 ∧ last_nonopt g2 = optind g2 ∧ g_argv g2 = argv1) as (F1 & F2 & F3) by (cbn; split_and!; [lia|done|done]).
  destruct (argv1 !! optind g2) as [a|] eqn:Ea.
  2:{ unfold stop_at_dashes. rewrite F3, Ea. unfold begin_word. by rewrite F3, Ea. }
  destruct (stop_ok g2 a F1 F2 ltac:(by rewrite F3)) as [->|Hs].
  2:{ unfold begin_word. by rewrite lookup_ge_None_2 by done. }
  unfold begin_word. rewrite F3, Ea. pose proof (lookup_lt_Some _ _ _ Ea) as Hlt.
  assert (nonoption a = false) as Hopt.
  { apply (skip_words_stop argv1 (optind g)). rewrite lookup_drop. cbn in Ea.
    by replace (optind g + (skip_words (drop (optind g) argv1) (optind g) - optind g)) with (skip_words (drop (optind g) argv1) (optind g)) by lia. }
  destruct a as [|c [|c2 s]]; [done|done|].
  split; [constructor; cbn [first_nonopt last_nonopt optind g_argv nextchar]; [lia|lia|lia|lia]|]. split; [done|].
  unfold left_to_scan at 1. cbn [nextchar optind g_argv]. unfold left_to_scan. rewrite Hn.
  assert (sizes (drop (optind g2) argv1) ≤ sizes (drop (optind g) (g_argv g))) as Hs.
  { rewrite <- E2. apply sizes_drop_le. cbn. lia. }
  rewrite (sizes_drop_S _ _ _ Ea) in Hs. cbn [String.length] in *. lia.
Qed.

Section scan.
Context (spec : ascii → option has_arg).

Lemma next_letter_ok g : getopt_wf g → nextchar g ≠ EmptyString →
  getopt_wf (next_letter spec g).2 ∧ left_to_scan (next_letter spec g).2 < left_to_scan g.
Proof.
  intros [H1 H2 H3 H4] Hn. specialize (H4 Hn). destruct g as [argv i first last nxt]. cbn in *. destruct nxt as [|c s]; [done|].
  unfold next_letter. cbn [nextchar optind g_argv first_nonopt last_nonopt].
  pose proof (sizes_drop_le argv (S i) (S (S i)) ltac:(lia)) as Hle.
  assert (∀ j, i ≤ j → j ≤ S (S i) → j ≤ length argv → getopt_wf (GState argv j first last "")) as Hwf by (intros j ???; constructor; cbn; [done|lia|done|done]).
  destruct s as [|c2 s].
  - assert (left_to_scan (GState argv (S i) first last "") < left_to_scan (GState argv i first last (String c ""))) as Hm by (unfold left_to_scan; cbn [nextchar optind g_argv String.length]; lia).
    assert (getopt_wf (GState argv (S i) first last "")) as Hw by (apply Hwf; lia).
    destruct (spec c) as [[| |]|]; cbn [negb snd]; [done| |done|done].
    destruct (argv !! S i) as [a|] eqn:Ea; cbn [snd]; [|done]. apply lookup_lt_Some in Ea.
    split; [apply Hwf; lia|]. unfold left_to_scan in *. cbn [nextchar optind g_argv String.length] in *. lia.
  - assert (getopt_wf (GState argv i first last (String c2 s))) as Hw by by constructor.
    assert (getopt_wf (GState argv (S i) first last "")) as Hw' by (apply Hwf; lia).
    assert (∀ n, n ≤ S (String.length s) → n + sizes (drop (S i) argv) < left_to_scan (GState argv i first last (String c (String c2 s)))) as Hm
      by (intros n ?; unfold left_to_scan; cbn [nextchar optind g_argv String.length]; lia).
    destruct (spec c) as [[| |]|]; cbn [negb snd]; (split; [done|]); first [by apply (Hm (S (String.length s)))|apply (Hm 0); lia].
Qed.

Lemma getopt_ok g : getopt_wf g →
  (getopt spec g).1 = NoMore ∨ getopt_wf (getopt spec g).2 ∧ left_to_scan (getopt spec g).2 < left_to_scan g.
Proof.
  intros Hg. unfold getopt. destruct (nextchar g) as [|c s] eqn:E.
  - pose proof (next_word_ok g Hg E) as H. destruct (next_word g) as [g'|g']; [|by left]. right. destruct H as (H1 & H2 & H3).
    destruct (next_letter_ok g' H1 H2). split; [done|lia].
  - right. apply next_letter_ok; [done|]. by rewrite E.
Qed.

(** The first call of the loop. *)
Lemma getopt_loop_option {St} k (body : gresult → list string → St → prog posix St) g c o g' s :
  getopt spec g = (Option c o, g') →
  getopt_loop spec (S k) body g s = bind (λ s, getopt_loop spec k body g' s) (body (Option c o) (g_argv g') s).
Proof. intros H. cbn [getopt_loop]. by rewrite H. Qed.
(** A call that begins a word, stage by stage. *)
Lemma getopt_word g g1 g2 g3 r : nextchar g = EmptyString → permute (clamp g) = g1 → skip_nonoptions g1 = g2 → stop_at_dashes g2 = g2 →
  begin_word g2 = g3 → match g3 with inl g' => next_letter spec g' | inr g' => (NoMore, g') end = r → getopt spec g = r.
Proof. intros H1 H2 H3 H4 H5 H6. unfold getopt, next_word. by rewrite H1, H2, H3, H4, H5, <- H6. Qed.

Lemma getopt_loop_end {St} k (body : gresult → list string → St → prog posix St) g g' s :
  getopt spec g = (NoMore, g') → getopt_loop spec (S k) body g s = Ret (g', s).
Proof. intros H. cbn [getopt_loop]. by rewrite H. Qed.

(** What a call may return. *)
Definition allowed (r : gresult) : Prop :=
  match r with
  | Option c o => match spec c with
                  | Some NoArg => o = None
                  | Some RequiredArg => o ≠ None
                  | Some OptionalArg => True
                  | None => False
                  end
  | _ => True
  end.

Lemma getopt_allowed g : allowed (getopt spec g).1.
Proof.
  assert (∀ g, allowed (next_letter spec g).1) as H.
  { intros g0. unfold next_letter. destruct (nextchar g0) as [|c s]; [done|]. destruct (spec c) as [[| |]|] eqn:E; cbn; [by rewrite E| | |done].
    - destruct (negb _); cbn; [by rewrite E|]. destruct (_ !! _); cbn; [by rewrite E|done].
    - destruct s; cbn; by rewrite E. }
  unfold getopt. destruct (nextchar g); [|apply H]. destruct (next_word g); [apply H|done].
Qed.

(** The rule for the loop over the options. *)
Lemma wp_getopt_loop {W St} (K : kernel posix W) (body : gresult → list string → St → prog posix St)
    (I : St → W → Prop) (Q : halt → Prop) :
  (∀ r argv s w, r ≠ NoMore → allowed r → I s w → wp K (body r argv s) w (λ o w' _, match o with Returned s' => I s' w' | Halted h => Q h | Gone => True end)) →
  ∀ fuel g s w, getopt_wf g → left_to_scan g < fuel → I s w →
  wp K (getopt_loop spec fuel body g s) w (λ o w' _, match o with Returned (_, s') => I s' w' | Halted h => Q h | Gone => True end).
Proof.
  intros Hbody fuel. induction fuel as [|fuel IH]; intros g s w Hg Hf HI; [lia|]. cbn [getopt_loop].
  pose proof (getopt_ok g Hg) as Hok. pose proof (getopt_allowed g) as Ha. destruct (getopt spec g) as [r g']. cbn [fst snd] in *.
  assert (r ≠ NoMore → wp K (bind (λ s, getopt_loop spec fuel body g' s) (body r (g_argv g') s)) w
    (λ o w' _, match o with Returned (_, s') => I s' w' | Halted h => Q h | Gone => True end)) as Hstep.
  { intros Hr. destruct Hok as [?|[H1 H2]]; [done|]. apply wp_bind. eapply wp_mono; [by apply Hbody|].
    intros [s'|h|] w' t H; [|done..]. apply IH; [done|lia|done]. }
  destruct r as [c o|m|]; [by apply Hstep| |by apply wp_ret].
  unfold eprintf, put. cbn [bind]. apply wp_put. by apply Hstep.
Qed.

Lemma getopt_start_wf argv : argv ≠ [] → getopt_wf (getopt_start argv) ∧ left_to_scan (getopt_start argv) < getopt_fuel argv.
Proof.
  destruct argv as [|a argv]; [done|]. intros _. split; [constructor; cbn; [lia|lia|lia|done]|].
  unfold left_to_scan, getopt_fuel. cbn [nextchar getopt_start optind g_argv].
  pose proof (sizes_drop_le (a :: argv) 0 1 ltac:(lia)) as H. unfold sizes in H at 2. cbn [drop] in *. lia.
Qed.
End scan.

(** A call on a concrete command line of which [f] and [N] are known to be no
    options. *)
Ltac words :=
  eapply getopt_word;
  [reflexivity|lazy; reflexivity|unfold skip_nonoptions; cbn [drop skip_words g_argv optind first_nonopt nextchar nonoption];
     repeat (match goal with H : nonoption _ = true |- _ => rewrite H end; cbn [skip_words]); reflexivity
  |reflexivity|reflexivity|reflexivity].
