(* ===== verification/Tail.v ===== *)
(** * tail

    tail.c (CH13): prints the end of a file. *)
From Stdlib Require Import ZArith Lia Ascii String.
From stdpp Require Import base gmap strings list.
From S2P Require Import Prelude Prog CString Posix Getopt FileSys Kernels FileTools.
Local Open Scope prog_scope.

Definition BUFFER_SIZE : Z := 4096.

(** ["n::"] *)
Definition tail_spec (c : ascii) : option has_arg := if Ascii.eqb c "n" then Some OptionalArg else None.

(** The [switch]; the state is [n] and [nflag].  The number is taken from
    [argv[2]], not from [optarg]. *)
Definition tail_option (r : gresult) (argv : list string) (s : Z * bool) : prog posix (Z * bool) :=
  match r with
  | Option _ _ =>
      match argv !! 2 with
      | None => undef "strtol of a null pointer"
      | Some a =>
          let v := strtol (to_bytes a) 10 in
          if negb (st_errno v =? 0)%Z then perror "strtol" (st_errno v) ;;; exit EXIT_FAILURE
          else Ret (to_int (st_val v), true)
      end
  | _ => Ret s
  end.

Fixpoint count_lf (d : bytes) : nat :=
  match d with
  | [] => 0
  | c :: d' => if Ascii.eqb c LF then S (count_lf d') else count_lf d'
  end.

(** What the inner loops look at: a block without its first character. *)
Definition inner (r : Z) (buf : bytes) : bytes := drop 1 (take (Z.to_nat r) buf).

(** Counting the newlines; the state is [filecontent] and [totalnewline]. *)
Definition count_step (fd : Z) (s : bytes * Z) : prog posix (bytes * Z + bytes * Z) :=
  '(r, d) <- sys (Read fd BUFFER_SIZE);;
  if (ret r =? 0)%Z then Ret (inr s) else
  let buf := buf_store d s.1 in
  let totalnewline := (s.2 + Z.of_nat (count_lf (inner (ret r) buf)))%Z in
  if bool_decide (in_int totalnewline) then Ret (inl (buf, totalnewline)) else undef "signed overflow".

(** The inner loop that looks for the place; the state is [startprinting] and
    [newlinecounter]. *)
Fixpoint seek_block (n totalnewline : Z) (d : bytes) (s : Z * Z) : Z * Z :=
  match d with
  | [] => s
  | c :: d' =>
      let startprinting := (s.1 + 1)%Z in
      let newlinecounter := if Ascii.eqb c LF then (s.2 + 1)%Z else s.2 in
      if (totalnewline - newlinecounter =? n - 1)%Z then (startprinting, newlinecounter)
      else seek_block n totalnewline d' (startprinting, newlinecounter)
  end.

Definition seek_step (fd n totalnewline : Z) (s : bytes * (Z * Z)) : prog posix (bytes * (Z * Z) + bytes * (Z * Z)) :=
  '(r, d) <- sys (Read fd BUFFER_SIZE);;
  if (ret r =? 0)%Z then Ret (inr s) else
  let buf := buf_store d s.1 in
  if bool_decide (inner (ret r) buf = []) || bool_decide (in_int (n - 1))
  then Ret (inl (buf, seek_block n totalnewline (inner (ret r) buf) s.2))
  else undef "signed overflow".

(** [printf("%s", filecontent)] prints the buffer up to the first NUL. *)
Definition print_step (fd : Z) (buf : bytes) : prog posix (bytes + unit) :=
  '(r, d) <- sys (Read fd BUFFER_SIZE);;
  if (ret r =? 0)%Z then Ret (inr tt) else
  let buf := buf_store d buf in
  if bool_decide (NUL ∈ buf) then printf (of_bytes (cstr buf)) ;;; Ret (inl buf) else undef "filecontent".

(** From [open] on. *)
Definition tail_file (fuel : nat) (filecontent : bytes) (n : Z) (filename : option string) : prog posix unit :=
  fd <- open_arg filename O_RDONLY 0;;
  if (ret fd =? -1)%Z then perror "open" (errno fd) ;;; exit EXIT_FAILURE else
  '(buf, totalnewline) <- loop fuel (count_step (ret fd)) (filecontent, 0%Z);;
  sys (Lseek (ret fd) 0 SEEK_SET) ;;;
  buf <- (if (n <? totalnewline)%Z then
            '(buf, (startprinting, _)) <- loop fuel (seek_step (ret fd) n totalnewline) (buf, (0, 0)%Z);;
            sys (Lseek (ret fd) startprinting SEEK_SET) ;;; Ret buf
          else Ret buf);;
  loop fuel (print_step (ret fd)) buf ;;;
  exit EXIT_SUCCESS.

Definition tail_main (fuel : nat) (filecontent : bytes) (argv : list string) : prog posix unit :=
  if (4 <? length argv) || (length argv <? 2) || match argv !! 1 with Some a => streq a "--help" | None => false end
  then printf (argv_0 argv +:+ " [-n(number of lines) ] <file path>") ;;; exit EXIT_FAILURE else
  '(g, (n, nflag)) <- getopt_loop tail_spec (getopt_fuel argv) tail_option (getopt_start argv) (10%Z, false);;
  tail_file fuel filecontent n (g_argv g !! (if nflag : bool then 3 else 1)).

(** ** Command lines *)

Lemma nonoption_not f s : nonoption f = true → nonoption s = false → streq f s = false.
Proof. intros H1 H2. destruct (streq f s) eqn:E; [|done]. apply streq_true in E as ->. congruence. Qed.

#[local] Arguments strtol : simpl never.
#[local] Arguments tail_file : simpl never.

Section command.
Context (fuel : nat) (buf : bytes) (a : string).

Lemma tail_plain f : nonoption f = true → tail_main fuel buf [a; f] = tail_file fuel buf 10 (Some f).
Proof.
  intros Hf. unfold tail_main. cbn [length lookup list_lookup Nat.ltb Nat.leb orb].
  rewrite nonoption_not by done. unfold getopt_fuel.
  rewrite (getopt_loop_end _ _ _ _ (GState [a; f] 1 1 2 "")); [done|]. words.
Qed.

(** The scan of a command line with one option makes two calls. *)
Lemma fuel_two argv x : "-n" ∈ argv ∨ String "-" (String "n" x) ∈ argv → ∃ k, getopt_fuel argv = S (S k).
Proof.
  intros H. assert (∃ o, o ∈ argv ∧ 0 < String.length o) as (o & Ho & Hlen) by (destruct H; eexists; (split; [done|]); cbn; lia).
  unfold getopt_fuel. assert (0 < sum_list (String.length <$> argv)) as Hs.
  { clear H. induction argv as [|b argv IH]; [by apply not_elem_of_nil in Ho|]. cbn.
    apply elem_of_cons in Ho as [<-|Ho]; [lia|]. specialize (IH Ho). lia. }
  destruct (sum_list _) as [|k]; [lia|]. by exists k.
Qed.

(** One option and the end of the scan. *)
Lemma tail_scan argv g g' x : (4 <? length argv) = false → (length argv <? 2) = false →
  match argv !! 1 with Some a => streq a "--help" | None => false end = false →
  "-n" ∈ argv ∨ String "-" (String "n" x) ∈ argv →
  getopt tail_spec (getopt_start argv) = (Option "n" (if streq x "" then None else Some x), g) → getopt tail_spec g = (NoMore, g') →
  ∀ s m, g_argv g !! 2 = Some s → st_errno (strtol (to_bytes s) 10) = 0%Z → to_int (st_val (strtol (to_bytes s) 10)) = m →
  tail_main fuel buf argv = tail_file fuel buf m (g_argv g' !! 3).
Proof.
  intros H1 H2 H3 Hin E1 E2 s m Hs He <-. unfold tail_main. rewrite H1, H2, H3. cbn [orb].
  destruct (fuel_two argv x Hin) as [k ->]. rewrite (getopt_loop_option _ _ _ _ _ _ _ _ E1).
  unfold tail_option at 2. rewrite Hs. cbv zeta. rewrite He. cbn [Z.eqb negb bind].
  by rewrite (getopt_loop_end _ _ _ _ _ _ E2).
Qed.

Lemma tail_number N f : nonoption N = true → nonoption f = true → st_errno (strtol (to_bytes N) 10) = 0%Z →
  tail_main fuel buf [a; "-n"; N; f]%string = tail_file fuel buf (to_int (st_val (strtol (to_bytes N) 10))) (Some f).
Proof.
  intros HN Hf He.
  apply (tail_scan [a; "-n"; N; f]%string (GState [a; "-n"; N; f]%string 2 1 1 "") (GState [a; "-n"; N; f]%string 2 2 4 "")
    "" eq_refl eq_refl eq_refl) with (s := N); [left; right; left|words|words|reflexivity|exact He|reflexivity].
Qed.

Lemma tail_after f N : nonoption N = true → nonoption f = true →
  tail_main fuel buf [a; f; "-n"; N]%string = tail_file fuel buf 0 (Some N).
Proof.
  intros HN Hf.
  apply (tail_scan [a; f; "-n"; N]%string (GState [a; f; "-n"; N]%string 3 1 2 "") (GState [a; "-n"; f; N]%string 2 2 4 "")
    "" eq_refl eq_refl) with (s := "-n"%string);
    [by apply nonoption_not|left; right; right; left|words|words|reflexivity|vm_compute; reflexivity|vm_compute; reflexivity].
Qed.

Lemma tail_joined d x f : nonoption f = true → st_errno (strtol (to_bytes f) 10) = 0%Z →
  tail_main fuel buf [a; String "-" (String "n" (String d x)); f] =
    tail_file fuel buf (to_int (st_val (strtol (to_bytes f) 10))) None.
Proof.
  intros Hf He.
  apply (tail_scan [a; String "-" (String "n" (String d x)); f] (GState [a; String "-" (String "n" (String d x)); f] 2 1 1 "")
    (GState [a; String "-" (String "n" (String d x)); f] 2 2 3 "") (String d x) eq_refl eq_refl eq_refl)
    with (s := f); [right; right; left|words|words|reflexivity|exact He|reflexivity].
Qed.
End command.

(** ** What the search finds *)

(** The place the search finds in a block with [T] newlines: the newline that
    [n - 1] newlines follow, or the last character. *)
Lemma seek_found n T d : ∀ p c, T = (c + Z.of_nat (count_lf d))%Z → (n - 1 < T - c)%Z →
  let '(p', c') := seek_block n T d (p, c) in
  ((1 <= n)%Z → ∃ k, p' = (p + Z.of_nat k)%Z ∧ 0 < k ∧ d !! (k - 1) = Some LF ∧ Z.of_nat (count_lf (drop k d)) = (n - 1)%Z) ∧
  ((n < 1)%Z → p' = (p + Z.of_nat (length d))%Z).
Proof.
  induction d as [|x d IH]; intros p c HT Hn; cbn [seek_block].
  { cbn in *. split; [lia|]. intros _. lia. }
  cbn [count_lf] in HT. cbn [fst snd]. set (c1 := if Ascii.eqb x LF then (c + 1)%Z else c).
  assert (T = (c1 + Z.of_nat (count_lf d))%Z) as HT1 by (unfold c1; destruct (Ascii.eqb x LF); lia).
  destruct (T - c1 =? n - 1)%Z eqn:E; zbool.
  - split; [|lia]. intros _. exists 1. split; [lia|]. split; [lia|].
    assert (Ascii.eqb x LF = true) as Hx by (unfold c1 in *; destruct (Ascii.eqb x LF); [done|lia]).
    apply Ascii.eqb_eq in Hx as ->. split; [done|].
    change (drop 1 (LF :: d)) with d. lia.
  - specialize (IH (p + 1)%Z c1 HT1). destruct (seek_block n T d (p + 1, c1)%Z) as [p' c'].
    destruct IH as [I1 I2]; [unfold c1 in *; destruct (Ascii.eqb x LF); lia|]. split.
    + intros H. destruct (I1 H) as (k & -> & Hk & H1 & H2). exists (S k). split; [lia|]. split; [lia|].
      split; [|done]. replace (S k - 1) with (S (k - 1)) by lia. exact H1.
    + intros H. rewrite (I2 H). cbn [length]. lia.
Qed.

Lemma count_lf_le d : count_lf d ≤ length d.
Proof. induction d as [|x d IH]; cbn; [lia|]. destruct (Ascii.eqb x LF); lia. Qed.

Lemma seek_le n T d p c : (p <= (seek_block n T d (p, c)).1 <= p + Z.of_nat (length d))%Z.
Proof.
  revert p c. induction d as [|x d IH]; intros p c; cbn [seek_block fst snd]; [cbn; lia|].
  destruct (_ =? _)%Z; cbn [fst length]; [lia|].
  specialize (IH (p + 1)%Z (if Ascii.eqb x LF then (c + 1)%Z else c)). cbn [length]. lia.
Qed.

Lemma cstr_take d b : NUL ∉ d → cstr (d ++ b) = d ++ cstr b.
Proof.
  induction d as [|x d IH]; intros H; [done|]. apply not_elem_of_cons in H as [H1 H2]. cbn.
  destruct (Ascii.eqb_spec x NUL) as [->|_]; [done|]. by rewrite IH.
Qed.

(** ** The loops over the file *)

(** The size of the buffer, kept folded. *)
Definition blk : nat := Z.to_nat BUFFER_SIZE.
Lemma blk_Z : Z.of_nat blk = BUFFER_SIZE.
Proof. reflexivity. Qed.
Lemma blk_range : (0 < Z.of_nat blk < INT_MAX)%Z.
Proof. rewrite blk_Z. unfold BUFFER_SIZE, INT_MAX. lia. Qed.
Lemma blk_eq : Z.to_nat BUFFER_SIZE = blk.
Proof. reflexivity. Qed.
#[local] Opaque blk.
Local Ltac blia := pose proof blk_range; unfold in_int, INT_MIN, INT_MAX in *; lia.

Section file.
Context {W : Type} (K : kernel posix W) (view : W → fsview) `{!FileKernel K view}.

(** Reads give all that is left of the file, up to the length asked for. *)
Definition full_reads : Prop := ∀ fd n w a w' id o content, K (Read fd n) w = Answer a w' → (0 <= n)%Z →
  fd_ofd (view w) fd = Some (id, o) → files (view w) !! of_path o = Some content →
  ret a.1 ≠ (-1)%Z ∧ a.2 = take (Z.to_nat n) (drop (of_off o) content).

Context (Hfull : full_reads) (fd : Z) (id : nat) (path : string) (flags : Z) (content : bytes).

(** [fd] is open on the file, at [off]. *)
Definition open_at (off : nat) (w : W) : Prop :=
  fd_ofd (view w) fd = Some (id, Ofd path off flags) ∧ files (view w) !! path = Some content.

Lemma block_read off w a w' : open_at off w → K (Read fd BUFFER_SIZE) w = Answer a w' →
  let d := take blk (drop off content) in
  a.2 = d ∧ ret a.1 = Z.of_nat (length d) ∧ open_at (off + length d) w'.
Proof.
  intros [Hfd Hc] E. pose proof (Hfull _ _ _ _ _ _ _ _ E ltac:(done) Hfd Hc) as [Hr Hd].
  apply file_kernel in E. cbn in E. destruct E as [(? & _)|(id' & o & l & H1 & H2 & H3 & _ & _ & _ & Hv)]; [done|].
  rewrite Hfd in H1. injection H1 as <- <-. cbn [of_path of_off] in *. rewrite blk_eq in Hd.
  cbv zeta. rewrite <- Hd. split; [done|]. split; [done|]. unfold open_at. rewrite Hv. split; [|done]. by eapply fd_ofd_set_off.
Qed.

Lemma rewound off off' w a w' : open_at off w → K (Lseek fd (Z.of_nat off') SEEK_SET) w = Answer a w' → open_at off' w'.
Proof.
  intros [Hfd Hc] E. apply file_kernel in E. cbn in E. unfold lseek_step in E. rewrite Hfd in E. cbn [of_path] in E.
  rewrite Hc in E. change (seek_base _ content SEEK_SET) with 0%Z in E. cbv zeta in E. rewrite (proj2 (Z.ltb_ge _ _)) in E by blia.
  destruct E as [_ Hv]. unfold open_at. rewrite Hv. split; [|done]. rewrite Z.add_0_l, Nat2Z.id. by eapply fd_ofd_set_off.
Qed.

(** A loop that goes through the file block by block. *)
Definition scan_step {St} (ok : Z → bytes → St → bool) (upd : Z → bytes → St → St) (s : St) : prog posix (St + St) :=
  '(r, d) <- sys (Read fd BUFFER_SIZE);;
  if (ret r =? 0)%Z then Ret (inr s) else if ok (ret r) d s then Ret (inl (upd (ret r) d s)) else undef "signed overflow".

Section scan.
Context {St : Type} (ok : Z → bytes → St → bool) (upd : Z → bytes → St → St) (I : nat → St → Prop).
Context (HI : ∀ off s, I off s → off < length content → let d := take blk (drop off content) in
  ok (Z.of_nat (length d)) d s = true ∧ I (off + length d) (upd (Z.of_nat (length d)) d s)).

Lemma scan_step_ok off s w : I off s → off ≤ length content → open_at off w →
  wp K (scan_step ok upd s) w (λ r w' t, match r with
    | Returned (inl s') => ∃ off', I off' s' ∧ off < off' ≤ length content ∧ open_at off' w' ∧ outs t = []
    | Returned (inr s') => I (length content) s' ∧ open_at (length content) w' ∧ outs t = []
    | r => r = Gone ∧ outs t = []
    end).
Proof.
  intros Hs Hoff Hw. unfold scan_step. prog_call. destruct a as [r d].
  destruct (block_read off w (r, d) w' Hw H) as (Hd & Hr & Hw'). cbn [fst snd] in *.
  subst d. pose proof (length_take (drop off content) blk) as Hl. rewrite length_drop in Hl.
  destruct (ret r =? 0)%Z eqn:E0; zbool.
  - prog_steps. assert (off = length content) as -> by blia. split_and!; [done| |done].
    by rewrite Hl, Nat.sub_diag, Nat.min_0_r, Nat.add_0_r in Hw'.
  - rewrite Hr. destruct (HI off s Hs) as [-> HI']; [blia|]. prog_steps.
    exists (off + length (take blk (drop off content))). split_and!; [done|blia|blia|done|done].
Qed.

Lemma scan_loop_ok fuel off s w : I off s → off ≤ length content → open_at off w → length content - off < fuel →
  wp K (loop fuel (scan_step ok upd) s) w (λ r w' t, match r with
    | Returned s' => I (length content) s' ∧ open_at (length content) w' ∧ outs t = []
    | r => r = Gone ∧ outs t = []
    end).
Proof.
  revert off s w. induction fuel as [|fuel IH]; intros off s w Hs Hoff Hw Hf; [blia|]. cbn [loop].
  apply wp_bind. eapply wp_mono; [by apply (scan_step_ok off)|]. intros [[s'|s']|h|] w' t HH;
    [|apply wp_ret; by rewrite app_nil_r|by destruct HH|by destruct HH].
  destruct HH as (off' & Hs' & Hoff' & Hw' & Ht). eapply wp_mono; [apply (IH off'); [done|blia|done|blia]|].
  intros [s2|h|] w2 t2 HH; rewrite outs_app, Ht; exact HH.
Qed.
End scan.

Definition count_ok (r : Z) (d : bytes) (s : bytes * Z) : bool :=
  bool_decide (in_int (s.2 + Z.of_nat (count_lf (inner r (buf_store d s.1))))).
Definition count_upd (r : Z) (d : bytes) (s : bytes * Z) : bytes * Z :=
  (buf_store d s.1, (s.2 + Z.of_nat (count_lf (inner r (buf_store d s.1))))%Z).
Definition seek_ok (n : Z) (r : Z) (d : bytes) (s : bytes * (Z * Z)) : bool :=
  bool_decide (inner r (buf_store d s.1) = []) || bool_decide (in_int (n - 1)).
Definition seek_upd (n T r : Z) (d : bytes) (s : bytes * (Z * Z)) : bytes * (Z * Z) :=
  (buf_store d s.1, seek_block n T (inner r (buf_store d s.1)) s.2).

Lemma count_is_scan : count_step fd = scan_step count_ok count_upd.
Proof. reflexivity. Qed.
Lemma seek_is_scan n T : seek_step fd n T = scan_step (seek_ok n) (seek_upd n T).
Proof. reflexivity. Qed.

Lemma inner_store d buf : inner (Z.of_nat (length d)) (buf_store d buf) = drop 1 d.
Proof. unfold inner, buf_store. rewrite Nat2Z.id. by rewrite take_app_length. Qed.

(** [tail_file] from its loops: [C] holds of what is counted, [F] of what is found. *)
Lemma tail_loops fuel buf n w (C : bytes * Z → Prop) (F : bytes → nat → Prop) (Q : outcome unit → W → list (event posix) → Prop) :
  (∀ w, open_at 0 w → wp K (loop fuel (count_step fd) (buf, 0%Z)) w (λ r w' t, match r with
     | Returned s => C s ∧ open_at (length content) w' ∧ outs t = [] | r => r = Gone ∧ outs t = [] end)) →
  (∀ buf T w, C (buf, T) → (n < T)%Z → open_at 0 w →
     wp K (loop fuel (seek_step fd n T) (buf, (0, 0)%Z)) w (λ r w' t, match r with
     | Returned (buf', (p, _)) => (∃ k, p = Z.of_nat k ∧ F buf' k) ∧ open_at (length content) w' ∧ outs t = []
     | r => r = Gone ∧ outs t = [] end)) →
  (∀ buf T, C (buf, T) → (T <= n)%Z → F buf 0) →
  (∀ buf p w, F buf p → open_at p w → wp K (loop fuel (print_step fd) buf) w (λ r w' t, match r with
     | Returned _ => ∀ t', outs t' = outs t → Q (Halted (Exited 0)) w' t'
     | Halted h => ∀ t', outs t' = outs t → Q (Halted h) w' t'
     | Gone => ∀ t', outs t' = outs t → Q Gone w' t' end)) →
  (∀ w t, outs t = [] → Q Gone w t) →
  open_at 0 w → wp K (
    '(buf, totalnewline) <- loop fuel (count_step fd) (buf, 0%Z);;
    sys (Lseek fd 0 SEEK_SET) ;;;
    buf <- (if (n <? totalnewline)%Z then
              '(buf, (startprinting, _)) <- loop fuel (seek_step fd n totalnewline) (buf, (0, 0)%Z);;
              sys (Lseek fd startprinting SEEK_SET) ;;; Ret buf
            else Ret buf);;
    loop fuel (print_step fd) buf ;;;
    exit EXIT_SUCCESS) w Q.
Proof.
  intros H1 H2 H3 H4 H5 Hw. apply wp_bind. eapply wp_mono; [by apply H1|].
  intros [[buf1 T]|h|] w1 t1 HH; [|by destruct HH|destruct HH; by apply H5]. destruct HH as (HC & Hw1 & Ht1).
  prog_call; [|apply H5; by rewrite outs_app, Ht1]. pose proof (rewound _ 0 _ _ _ Hw1 H) as Hw2.
  assert (∀ buf2 p w2 t2, F buf2 p → open_at p w2 → outs t2 = [] →
    wp K (loop fuel (print_step fd) buf2 ;;; exit EXIT_SUCCESS) w2 (λ r w' t, Q r w' (t2 ++ t))) as Hend.
  { intros buf2 p w2 t2 HF Hw' Ht2. apply wp_bind. eapply wp_mono; [by apply (H4 buf2 p)|].
    intros [u|h|] w3 t3 HQ; [apply wp_stop; rewrite app_nil_r|..]; apply HQ; by rewrite outs_app, Ht2. }
  apply wp_bind. destruct (n <? T)%Z eqn:En; zbool.
  - apply wp_bind. eapply wp_mono; [by apply H2|].
    intros [[buf2 [p c]]|h|] w2 t2 HH; [|by destruct HH|destruct HH; apply H5; by rewrite outs_app; cbn; rewrite Ht1].
    destruct HH as ((k & -> & HF) & Hw3 & Ht2). prog_call; [|apply H5; rewrite !outs_app; cbn; by rewrite Ht1, outs_app, Ht2].
    apply wp_ret. pose proof (rewound _ k _ _ _ Hw3 H0) as Hw4.
    eapply wp_mono; [apply (Hend _ _ _ (t1 ++ ECall (Lseek fd 0 SEEK_SET) a :: t2 ++ [ECall (Lseek fd (Z.of_nat k) SEEK_SET) a0]) HF Hw4)|].
    + rewrite outs_app, Ht1. cbn. by rewrite outs_app, Ht2.
    + intros r w6 t HQ. cbv beta in HQ. rewrite <- app_assoc in HQ. exact HQ.
  - apply wp_ret. eapply wp_mono; [apply (Hend _ _ _ (t1 ++ [ECall (Lseek fd 0 SEEK_SET) a]) (H3 _ _ HC En) Hw2)|].
    + by rewrite outs_app, Ht1.
    + intros r w6 t HQ. cbv beta in HQ. rewrite <- app_assoc in HQ. exact HQ.
Qed.

(** What is printed of a file shorter than the buffer, from the place [p]: the
    buffer still holds what an earlier read stored. *)
Definition printed (buf : bytes) (p : nat) : list string :=
  match content with
  | [] => []
  | _ => [of_bytes (drop p content ++ drop (length content - p) content ++ cstr (drop (length content) buf))]
  end.

(** The place from which a short file is printed. *)
Definition place (n : Z) (p : nat) : Prop :=
  let T := Z.of_nat (count_lf (drop 1 content)) in
  if (T <=? n)%Z then p = 0 else if (n <? 1)%Z then p = length content - 1
  else content !! p = Some LF ∧ Z.of_nat (count_lf (drop p content)) = n.

(** One round of the loop that prints. *)
Lemma print_once p b w : open_at p w → let d := take blk (drop p content) in
  wp K (print_step fd b) w (λ r w' t, r = Gone ∨ open_at (p + length d) w' ∧
    if decide (d = []) then r = Returned (inr tt) ∧ outs t = []
    else if decide (NUL ∈ buf_store d b)
    then r = Returned (inl (buf_store d b)) ∧ outs t = [of_bytes (cstr (buf_store d b))]
    else r = Halted (Undef "filecontent") ∧ outs t = []).
Proof.
  intros Hw. cbv zeta. unfold print_step. prog_call; [|by left]. destruct a as [r d].
  destruct (block_read p w (r, d) w' Hw H) as (Hd & Hr & Hw'). cbn [fst snd] in *. subst d.
  destruct (ret r =? 0)%Z eqn:E0; zbool.
  - prog_steps. right. split; [done|]. rewrite decide_True by (apply length_zero_iff_nil; blia). done.
  - assert (take blk (drop p content) ≠ []) as Hne by (intros E; rewrite E in Hr; by cbn in Hr).
    destruct (bool_decide _) eqn:Eb; prog_steps; right; (split; [done|]); rewrite decide_False by done.
    + apply bool_decide_eq_true in Eb. by rewrite decide_True by done.
    + apply bool_decide_eq_false in Eb. by rewrite decide_False by done.
Qed.

Section short.
Context (buf : bytes) (n : Z).
Context (Hshort : length content < blk) (Hbuf : length buf = blk) (Hnul : NUL ∉ content)
  (Hend : NUL ∈ drop (length content) buf) (Hn : in_int (n - 1)).

Lemma take_all : take blk content = content.
Proof. apply take_ge. blia. Qed.

Lemma short_count fuel w : length content < fuel → open_at 0 w →
  wp K (loop fuel (count_step fd) (buf, 0%Z)) w (λ r w' t, match r with
    | Returned s => s = (buf_store content buf, Z.of_nat (count_lf (drop 1 content))) ∧ open_at (length content) w' ∧ outs t = []
    | r => r = Gone ∧ outs t = [] end).
Proof.
  intros Hf Hw. rewrite count_is_scan. eapply wp_mono; [apply (scan_loop_ok count_ok count_upd
    (λ off s, s = (buf_store (take off content) buf, Z.of_nat (count_lf (drop 1 (take off content)))) ∧ (off = 0 ∨ off = length content)))
    with (off := 0); [|by split; [|left]|blia|done|blia]|].
  - intros off s [-> [-> | ->]] Hoff; [|blia]. cbv zeta. rewrite drop_0, take_all. unfold count_ok, count_upd. cbn [fst snd].
    change (buf_store (take 0 content) buf) with buf. rewrite inner_store. change (count_lf (drop 1 (take 0 content))) with 0.
    split; [apply bool_decide_eq_true_2; pose proof (count_lf_le (drop 1 content)); rewrite length_drop in *; unfold in_int, INT_MIN, INT_MAX; blia|].
    cbn [Nat.add]. rewrite firstn_all. split; [|by right]. by rewrite Z.add_0_l.
  - intros [s|h|] w' t HH; [|exact HH..]. rewrite firstn_all in HH. tauto.
Qed.

Lemma store_twice : buf_store content (buf_store content buf) = buf_store content buf.
Proof. unfold buf_store. by rewrite drop_app_length. Qed.

Lemma short_seek fuel w : length content < fuel → open_at 0 w → let T := Z.of_nat (count_lf (drop 1 content)) in
  (n < T)%Z → wp K (loop fuel (seek_step fd n T) (buf_store content buf, (0, 0)%Z)) w (λ r w' t, match r with
    | Returned (buf', (p, _)) => (∃ k, p = Z.of_nat k ∧ buf' = buf_store content buf ∧ place n k) ∧ open_at (length content) w' ∧ outs t = []
    | r => r = Gone ∧ outs t = [] end).
Proof.
  intros Hf Hw T HnT. rewrite seek_is_scan. eapply wp_mono; [apply (scan_loop_ok (seek_ok n) (seek_upd n T)
    (λ off s, s = (buf_store content buf, seek_block n T (drop 1 (take off content)) (0, 0)%Z) ∧ (off = 0 ∨ off = length content)))
    with (off := 0); [|by split; [|left]|blia|done|blia]|].
  - intros off s [-> [-> | ->]] Hoff; [|blia]. cbv zeta. rewrite drop_0, take_all. unfold seek_ok, seek_upd. cbn [fst snd].
    rewrite inner_store, store_twice. split; [apply orb_true_iff; right; by apply bool_decide_eq_true_2|].
    cbn [Nat.add]. rewrite firstn_all. split; [done|by right].
  - intros [[buf' pc]|h|] w' t HH; [|exact HH..]. rewrite firstn_all in HH. destruct HH as [[E _] HH]. injection E as -> ->.
    pose proof (seek_found n T (drop 1 content) 0 0 ltac:(blia) ltac:(blia)) as Hs. destruct (seek_block _ _ _ _) as [p c].
    destruct Hs as [H1 H2]. split; [|exact HH]. unfold place. fold T. rewrite (proj2 (Z.leb_gt _ _)) by done.
    destruct (n <? 1)%Z eqn:E1; zbool.
    + rewrite (H2 E1), length_drop. by exists (length content - 1).
    + destruct (H1 E1) as (k & -> & Hk & H3 & H4). exists k. split; [done|]. split; [done|].
      rewrite lookup_drop in H3. replace (1 + (k - 1)) with k in H3 by blia. split; [done|].
      rewrite (drop_S _ _ _ H3). cbn [count_lf]. rewrite drop_drop in H4. cbn [Nat.add] in H4. rewrite (Ascii.eqb_refl LF). blia.
Qed.

Lemma place_range p : place n p → content = [] ∨ p < length content.
Proof.
  unfold place. intros Hp. destruct (decide (content = [])) as [->|Hne]; [by left|right].
  assert (0 < length content) by (destruct content; cbn; [done|blia]).
  revert Hp. destruct (_ <=? n)%Z; [blia|]. destruct (n <? 1)%Z; [blia|]. intros [Hl2 _]. by apply lookup_lt_Some in Hl2.
Qed.

Lemma nul_stays p b : b = drop p content ++ drop (length (drop p content)) (buf_store content buf) → NUL ∈ b.
Proof.
  intros ->. unfold buf_store. rewrite drop_app. rewrite !elem_of_app. do 2 right.
  rewrite length_drop. by replace (length content - p - length content) with 0 by blia.
Qed.

Lemma short_print fuel p w : 1 < fuel → place n p → open_at p w →
  wp K (loop fuel (print_step fd) (buf_store content buf)) w (λ r w' t, match r with
    | Returned _ => outs t = printed buf p
    | r => r = Gone end).
Proof.
  intros Hf Hp Hw. destruct fuel as [|[|fuel]]; [blia|blia|].
  assert (take blk (drop p content) = drop p content) as E by (apply take_ge; rewrite length_drop; blia).
  remember (S fuel) as f. cbn [loop]. apply wp_bind. eapply wp_mono; [by apply (print_once p)|]. cbv zeta. rewrite E.
  intros r w1 t1 [->|[Hw1 HH]]; [done|]. unfold printed.
  destruct (decide (drop p content = [])) as [Hd|Hd].
  { destruct HH as [-> Ht]. apply wp_ret. rewrite app_nil_r, Ht. destruct (place_range p Hp) as [->|Hlt]; [done|].
    apply (f_equal length) in Hd. rewrite length_drop in Hd. cbn in Hd. blia. }
  rewrite decide_True in HH by (by apply (nul_stays p)). destruct HH as [-> Ht]. subst f. cbn [loop].
  apply wp_bind. eapply wp_mono; [by apply (print_once _ _ _ Hw1)|]. cbv zeta.
  rewrite (drop_ge content (p + _)) by (rewrite length_drop; blia). cbn [take].
  intros r w2 t2 [->|[_ [-> Ht2]]]; [done|]. apply wp_ret. rewrite app_nil_r, outs_app, Ht, Ht2.
  assert (content ≠ []) as Hc by (intros ->; by rewrite drop_nil in Hd).
  destruct content eqn:Ec; [done|]. rewrite <- Ec in *. cbn [app]. do 2 f_equal.
  unfold buf_store. rewrite cstr_take by (intros Hin; apply Hnul; by apply (subseteq_drop p)). f_equal.
  rewrite drop_app. rewrite cstr_take by (intros Hin; apply Hnul; by eapply subseteq_drop). do 2 f_equal; [by rewrite length_drop|].
  rewrite !length_drop. by replace (length content - p - length content) with 0 by blia.
Qed.
End short.

(** ** Files of a block or more *)

Section long.
Context (buf : bytes) (n : Z).
Context (Hlong : blk ≤ length content) (Hmax : (Z.of_nat (length content) <= INT_MAX)%Z) (Hbuf : length buf = blk)
  (Hnul : NUL ∉ content) (Hn : in_int (n - 1)).

(** After a full block nothing ends the text in the buffer. *)
Definition filled (off : nat) (b : bytes) : Prop := length b = blk ∧ (blk ≤ off → NUL ∉ b) ∧ (off < blk → off = 0).

Lemma block_no_nul off : NUL ∉ take blk (drop off content).
Proof. intros H. by eapply Hnul, (subseteq_drop off), subseteq_take, H. Qed.

Lemma store_no_nul d b : length d ≤ blk → length b = blk → NUL ∉ d → (NUL ∉ b ∨ length d = blk) →
  NUL ∉ buf_store d b ∧ length (buf_store d b) = blk.
Proof.
  intros Hd Hb H1 H2. unfold buf_store. split; [|rewrite length_app, length_drop; blia].
  rewrite elem_of_app. intros [H|H]; [done|]. destruct H2 as [H2|H2]; [by apply H2; eapply subseteq_drop|].
  rewrite drop_ge in H by blia. by apply not_elem_of_nil in H.
Qed.

Lemma filled_step off b : filled off b → off < length content → let d := take blk (drop off content) in
  filled (off + length d) (buf_store d b).
Proof.
  intros (H1 & H2 & H3) Hoff. cbv zeta. pose proof (length_take (drop off content) blk) as Hl. rewrite length_drop in Hl.
  destruct (store_no_nul (take blk (drop off content)) b) as [H4 H5]; [blia|done|apply block_no_nul| |].
  - destruct (decide (off < blk)) as [Hlt|?]; [right; specialize (H3 Hlt); blia|left; apply H2; blia].
  - split; [done|]. split; [done|]. destruct (decide (off < blk)) as [Hlt|?]; [specialize (H3 Hlt); blia|blia].
Qed.

Lemma long_count fuel w : length content < fuel → open_at 0 w →
  wp K (loop fuel (count_step fd) (buf, 0%Z)) w (λ r w' t, match r with
    | Returned s => filled (length content) s.1 ∧ open_at (length content) w' ∧ outs t = []
    | r => r = Gone ∧ outs t = [] end).
Proof.
  intros Hf Hw. rewrite count_is_scan. eapply wp_mono; [apply (scan_loop_ok count_ok count_upd
    (λ off s, filled off s.1 ∧ off ≤ length content ∧ (0 <= s.2 <= Z.of_nat off)%Z))
    with (off := 0); [|split; [|cbn; blia]|blia|done|blia]|].
  - intros off s (H1 & H2 & H3) Hoff. cbv zeta. unfold count_ok, count_upd. rewrite inner_store.
    pose proof (length_take (drop off content) blk) as Hl. rewrite length_drop in Hl.
    pose proof (count_lf_le (drop 1 (take blk (drop off content)))) as Hc. rewrite length_drop in Hc.
    split; [apply bool_decide_eq_true_2; unfold in_int, INT_MIN in *; blia|].
    split; [by apply filled_step|]. cbn [snd]. blia.
  - split; [done|]. split; [blia|done].
  - intros [s|h|] w' t HH; [|exact HH..]. tauto.
Qed.

Lemma long_seek fuel b T w : length content < fuel → filled (length content) b → open_at 0 w →
  wp K (loop fuel (seek_step fd n T) (b, (0, 0)%Z)) w (λ r w' t, match r with
    | Returned (b', (p, _)) => (∃ k, p = Z.of_nat k ∧ filled (length content) b' ∧ k < length content) ∧ open_at (length content) w' ∧ outs t = []
    | r => r = Gone ∧ outs t = [] end).
Proof.
  intros Hf (Hb1 & Hb2 & _) Hw. rewrite seek_is_scan. eapply wp_mono; [apply (scan_loop_ok (seek_ok n) (seek_upd n T)
    (λ off s, length s.1 = blk ∧ NUL ∉ s.1 ∧ (0 <= s.2.1)%Z ∧ (off = 0 ∧ s.2.1 = 0%Z ∨ (s.2.1 < Z.of_nat off)%Z)))
    with (off := 0); [|cbn; split_and!; [done|by apply Hb2|blia|by left]|blia|done|blia]|].
  - intros off [b' [p c]] (H1 & H2 & H3 & H4) Hoff. cbv zeta. unfold seek_ok, seek_upd. cbn [fst snd] in *. rewrite inner_store.
    pose proof (length_take (drop off content) blk) as Hl. rewrite length_drop in Hl.
    split; [apply orb_true_iff; right; by apply bool_decide_eq_true_2|].
    destruct (store_no_nul (take blk (drop off content)) b') as [H5 H6]; [blia|done|apply block_no_nul|by left|].
    pose proof (seek_le n T (drop 1 (take blk (drop off content))) p c) as Hs. rewrite length_drop in Hs.
    split_and!; [done|done|blia|]. right. blia.
  - intros [[b' [p c]]|h|] w' t HH; [|exact HH..]. cbn [fst snd] in HH. destruct HH as [(H1 & H2 & H3 & H4) HH].
    split; [|exact HH]. exists (Z.to_nat p). split; [blia|]. split; [by split; [|split; [|blia]]|blia].
Qed.

Lemma long_print fuel b p w : 0 < fuel → filled (length content) b → p < length content → open_at p w →
  wp K (loop fuel (print_step fd) b) w (λ r w' t, r = Gone ∨ (∃ why, r = Halted (Undef why)) ∧ outs t = []).
Proof.
  intros Hf (Hb1 & Hb2 & _) Hp Hw. destruct fuel as [|fuel]; [blia|]. cbn [loop]. apply wp_bind.
  eapply wp_mono; [by apply (print_once p)|]. cbv zeta. intros r w1 t1 [->|[_ HH]]; [by left|].
  pose proof (length_take (drop p content) blk) as Hl. rewrite length_drop in Hl.
  rewrite decide_False in HH by (intros E; rewrite E in Hl; cbn in Hl; blia).
  destruct (store_no_nul (take blk (drop p content)) b) as [H5 _]; [blia|done|apply block_no_nul|left; apply Hb2; blia|].
  rewrite decide_False in HH by done. destruct HH as [-> Ht]. right. split; [by eexists|done].
Qed.
End long.
End file.

(** ** What the program does with a file *)

Section tail.
Context {W : Type} (K : kernel posix W) (view : W → fsview) `{!FileKernel K view}.

(** The outcome when the file cannot be opened or the kernel does not return. *)
Definition not_read (r : outcome unit) (t : list (event posix)) : Prop :=
  outs t = [] ∧ (r = Gone ∨ r = Halted (Exited 1) ∧ perror_last t).

Lemma wp_tail_open fuel buf n path content w (Q : outcome unit → W → list (event posix) → Prop) :
  files (view w) !! path = Some content →
  (∀ r w t, not_read r t → Q r w t) →
  (∀ fd id flags w a w0, K (Open path O_RDONLY 0) w0 = Answer a w → open_at view fd id path flags content 0 w → ret a = fd → wp K (
    '(buf, totalnewline) <- loop fuel (count_step fd) (buf, 0%Z);;
    sys (Lseek fd 0 SEEK_SET) ;;;
    buf <- (if (n <? totalnewline)%Z then
              '(buf, (startprinting, _)) <- loop fuel (seek_step fd n totalnewline) (buf, (0, 0)%Z);;
              sys (Lseek fd startprinting SEEK_SET) ;;; Ret buf
            else Ret buf);;
    loop fuel (print_step fd) buf ;;;
    exit EXIT_SUCCESS) w (λ r w t, ∀ t', outs t' = outs t → Q r w t')) →
  wp K (tail_file fuel buf n (Some path)) w Q.
Proof.
  intros Hc Hno Hgo. unfold tail_file, open_arg. prog_call; [|by apply Hno; split; [|left]].
  destruct (ret a =? -1)%Z eqn:Ha; zbool.
  - prog_steps. apply Hno. split; [done|]. right. split; [done|]. by eexists _, _.
  - pose proof (file_kernel _ _ _ _ H) as Ho. cbn in Ho. destruct Ho as [[? _]|(id & _ & Hid & _ & Hv)]; [done|].
    eapply wp_mono; [eapply (Hgo (ret a) id O_RDONLY w' a w H); [|done]|].
    + split; rewrite Hv; [by apply fd_ofd_open|]. cbn. unfold opened_files. by rewrite Hc.
    + intros r w2 t HQ. by apply HQ.
Qed.

Lemma tail_short fuel buf n path content w :
  full_reads K view → files (view w) !! path = Some content →
  (Z.of_nat (length content) < BUFFER_SIZE)%Z → Z.of_nat (length buf) = BUFFER_SIZE → NUL ∉ content →
  NUL ∈ drop (length content) buf → in_int (n - 1) → length content + 1 < fuel →
  wp K (tail_file fuel buf n (Some path)) w (λ r w' t, not_read r t ∨ r = Gone ∨
    r = Halted (Exited 0) ∧ ∃ p, place content n p ∧ outs t = printed content buf p).
Proof.
  intros Hfull Hc Hshort Hbuf Hnul Hend Hn Hf. rewrite <- blk_Z in *. pose proof blk_range.
  apply (wp_tail_open fuel buf n path content); [done|by left|]. intros fd id flags w1 a w0 _ Hw _.
  eapply (tail_loops K view fd id path flags content fuel buf n w1
    (λ s, s = (buf_store content buf, Z.of_nat (count_lf (drop 1 content)))) (λ b k, b = buf_store content buf ∧ place content n k)).
  - intros w2 Hw2. eapply (short_count K view Hfull fd id path flags); done || lia.
  - intros b T w2 [= -> ->] HT Hw2. eapply (short_seek K view Hfull fd id path flags); done || lia.
  - intros b T [= -> ->] HT. split; [done|]. unfold place. by rewrite (proj2 (Z.leb_le _ _)) by done.
  - intros b p w2 [-> Hp] Hw2. eapply wp_mono; [eapply (short_print K view Hfull fd id path flags); done || lia|].
    intros [u|h|] w3 t HH; [|done|]; intros t1 Ht1 t2 Ht2; [|by right; left].
    right; right. split; [done|]. exists p. by rewrite Ht2, Ht1.
  - intros w2 t Ht t' Ht'. right; by left.
  - done.
Qed.

Lemma tail_long fuel buf n path content w :
  full_reads K view → files (view w) !! path = Some content →
  (BUFFER_SIZE <= Z.of_nat (length content) <= INT_MAX)%Z → Z.of_nat (length buf) = BUFFER_SIZE → NUL ∉ content →
  in_int (n - 1) → length content < fuel →
  wp K (tail_file fuel buf n (Some path)) w (λ r w' t, not_read r t ∨ r = Gone ∨ (∃ why, r = Halted (Undef why)) ∧ outs t = []).
Proof.
  intros Hfull Hc Hlong Hbuf Hnul Hn Hf. rewrite <- blk_Z in *. pose proof blk_range.
  apply (wp_tail_open fuel buf n path content); [done|by left|]. intros fd id flags w1 a w0 _ Hw _.
  eapply (tail_loops K view fd id path flags content fuel buf n w1
    (λ s, filled (length content) s.1) (λ b k, filled (length content) b ∧ k < length content)).
  - intros w2 Hw2. eapply (long_count K view Hfull fd id path flags) with (buf := buf); done || lia.
  - intros b T w2 HC HT Hw2. eapply (long_seek K view Hfull fd id path flags) with (buf := buf); done || lia.
  - intros b T HC HT. split; [done|lia].
  - intros b p w2 [Hb Hp] Hw2. eapply wp_mono; [eapply (long_print K view Hfull fd id path flags content) with (buf := buf) (p := p); done || lia|].
    intros r w3 t [->|[[why ->] Ht]] t1 Ht1 t2 Ht2; [right; by left|]. right; right. split; [by eexists|]. by rewrite Ht2, Ht1.
  - intros w2 t Ht t' Ht'. right; by left.
  - done.
Qed.

(** Reads that fail are taken for blocks: the first loop does not end. *)
Lemma tail_stuck fuel buf n path w :
  (∀ fd m w a w', K (Read fd m) w = Answer a w' → ret a.1 = (-1)%Z) →
  wp K (tail_file fuel buf n (Some path)) w (λ r w' t, not_read r t ∨ r = Gone ∨ r = Halted Cut ∧ outs t = []).
Proof.
  intros Hfail. unfold tail_file, open_arg. prog_call; [|by left; split; [|left]]. destruct (ret a =? -1)%Z eqn:Ha; zbool.
  - prog_steps. left. split; [done|]. right. split; [done|]. by eexists _, _.
  - apply wp_bind. eapply wp_mono; [apply (wp_loop_partial K (λ s _ t, s.2 = 0%Z ∧ outs t = []) (count_step (ret a))
      (λ r _ t, r = Gone ∨ r = Halted Cut ∧ outs t = [])) with (t := []); [|intros s w1 t [_ Ht]; by right|done]|].
    + intros s w1 t [Hs Ht]. unfold count_step. prog_call; [|by left]. destruct a0 as [r d].
      pose proof (Hfail _ _ _ _ _ H0) as Hr. cbn [fst] in Hr. rewrite Hr. change (-1 =? 0)%Z with false. cbv iota zeta.
      change (inner (-1) (buf_store d s.1)) with (@nil ascii). rewrite Hs.
      rewrite bool_decide_eq_true_2 by (unfold in_int, INT_MIN, INT_MAX; cbn; lia). prog_steps. split; [done|]. by rewrite outs_app, Ht.
    + intros r w1 t HH. cbn in HH. destruct r as [s|h|]; [by destruct HH as [?|[? _]]| |by right; left].
      destruct HH as [?|[HH Ht]]; [done|]. injection HH as ->. right; right. done.
Qed.

(** C33: tail.c.  The number of lines is the word [argv[2]], wherever the option
    is: [tail -n N f] and [tail f] open [f] with [N] and 10 lines, but
    [tail f -n N] opens [N] with 0 lines and [tail -nN f] a null pointer.  Of a
    file shorter than the buffer and without NULs, on a kernel whose reads are
    complete, the program prints from the place the search finds: all of it when
    at most [n] newlines follow its first character, else from the newline that
    makes [n] (so [n - 1] lines after it), or the last character when [n < 1];
    after those characters comes what the buffer still holds behind as many:
    the rest of the file, once more, and the first string after it.
    Every file of a block or more makes it undefined: the buffer that is printed
    has no NUL.  When the reads fail it does not end. *)
Theorem tail_correct fuel (buf : bytes) (a f N : string) :
  (nonoption f = true →
     tail_main fuel buf [a; f] = tail_file fuel buf 10 (Some f) ∧
     (nonoption N = true → tail_main fuel buf [a; f; "-n"%string; N] = tail_file fuel buf 0 (Some N) ∧
        (st_errno (strtol (to_bytes N) 10) = 0%Z →
         tail_main fuel buf [a; "-n"%string; N; f] = tail_file fuel buf (to_int (st_val (strtol (to_bytes N) 10))) (Some f))) ∧
     (st_errno (strtol (to_bytes f) 10) = 0%Z → ∀ d x, tail_main fuel buf [a; String "-" (String "n" (String d x)); f] =
        tail_file fuel buf (to_int (st_val (strtol (to_bytes f) 10))) None)) ∧
  (∀ n path content w, full_reads K view → files (view w) !! path = Some content → NUL ∉ content →
     (Z.of_nat (length content) <= INT_MAX)%Z → Z.of_nat (length buf) = BUFFER_SIZE → in_int (n - 1) → length content + 1 < fuel →
     wp K (tail_file fuel buf n (Some path)) w (λ r w' t, not_read r t ∨ r = Gone ∨
       if (Z.of_nat (length content) <? BUFFER_SIZE)%Z
       then NUL ∈ drop (length content) buf → r = Halted (Exited 0) ∧ ∃ p, place content n p ∧ outs t = printed content buf p
       else (∃ why, r = Halted (Undef why)) ∧ outs t = [])) ∧
  (∀ n path w, (∀ fd m w a w', K (Read fd m) w = Answer a w' → ret a.1 = (-1)%Z) →
     wp K (tail_file fuel buf n (Some path)) w (λ r w' t, not_read r t ∨ r = Gone ∨ r = Halted Cut ∧ outs t = [])).
Proof.
  split; [|split].
  - intros Hf. split; [by apply tail_plain|]. split; [|intros He d x; by apply tail_joined].
    intros HN. split; [by apply tail_after|]. intros He. by apply tail_number.
  - intros n path content w Hfull Hc Hnul Hmax Hbuf Hn Hf. destruct (_ <? BUFFER_SIZE)%Z eqn:E; zbool.
    + destruct (decide (NUL ∈ drop (length content) buf)) as [Hend|Hend]; [|apply wp_intro; intros r w' t _; by right; right].
      eapply wp_mono; [by apply (tail_short fuel buf n path content)|]. intros r w' t [H|[H|H]]; [by left|by right; left|]. by right; right.
    + eapply tail_long; done || lia.
  - intros n path w. apply tail_stuck.
Qed.
End tail.

(** ** The program at work *)

Definition lines_disk : fsview := FsView {[ "f"%string := to_bytes ("1" +:+ nl +:+ "2" +:+ nl +:+ "3" +:+ nl) ]} ∅ ∅ ∅.
Definition zeroes : bytes := repeat NUL 4096.

(** [memfs] with reads that fail. *)
Definition readless : kernel posix fsview := λ c v,
  match c as c return reaction (posix_ans c) fsview with
  | Read _ _ => Answer (fail 5, []) v
  | c => memfs c v
  end.

#[export] Instance readless_ok : FileKernel readless id.
Proof. intros c v a v' E. destruct c; try by apply (memfs_ok _ _ _ _ E). cbn in E. injection E as <- <-. by left. Qed.

Lemma memfs_full : full_reads memfs id.
Proof.
  intros fd n w a w' i o content H Hn Hfd Hc. cbn in H. unfold id in *. rewrite (proj2 (Z.ltb_ge _ _)) in H by done.
  unfold with_file in H. rewrite Hfd, Hc in H. injection H as <- _. cbn. split; [lia|done].
Qed.

(** [tail -n 2 f] prints the newline before the last line, the last line, and
    both again. *)
Lemma tail_correct_witness :
  tail_main 9 zeroes ["tail"; "-n"; "2"; "f"]%string = tail_file 9 zeroes 2 (Some "f"%string) ∧
  tail_main 9 zeroes ["tail"; "f"; "-n"; "2"]%string = tail_file 9 zeroes 0 (Some "2"%string) ∧
  (∃ p, place (to_bytes ("1" +:+ nl +:+ "2" +:+ nl +:+ "3" +:+ nl)) 2 p ∧
     outs (run memfs (tail_file 9 zeroes 2 (Some "f"%string)) lines_disk).2 =
       printed (to_bytes ("1" +:+ nl +:+ "2" +:+ nl +:+ "3" +:+ nl)) zeroes p) ∧
  outs (run memfs (tail_file 9 zeroes 2 (Some "f"%string)) lines_disk).2 = [nl +:+ "3" +:+ nl +:+ nl +:+ "3" +:+ nl] ∧
  (run readless (tail_file 9 zeroes 2 (Some "f"%string)) lines_disk).1.1 = Halted Cut.
Proof.
  destruct (tail_correct memfs id 9 zeroes "tail" "f" "2") as (H1 & H2 & _). destruct (H1 eq_refl) as (_ & H3 & _).
  destruct (H3 eq_refl) as [H4 H5]. split; [exact (H5 eq_refl)|]. split; [exact H4|].
  split; [|split; [vm_compute; reflexivity|]].
  - specialize (H2 2%Z "f"%string (to_bytes ("1" +:+ nl +:+ "2" +:+ nl +:+ "3" +:+ nl)) lines_disk memfs_full eq_refl).
    destruct (run memfs (tail_file 9 zeroes 2 (Some "f"%string)) lines_disk) as [[r w'] t] eqn:E.
    assert (r = Halted (Exited 0)) as Hr by (apply (f_equal (λ x, x.1.1)) in E; cbn [fst] in E; rewrite <- E; vm_compute; reflexivity).
    refine (match wp_run memfs _ _ _ _ _ _ (H2 _ _ _ _ _) E with
      | or_introl (conj _ (or_introl HH)) => _ | or_introl (conj _ (or_intror (conj HH _))) => _ | or_intror (or_introl HH) => _
      | or_intror (or_intror HH) => proj2 (HH _) end).
    + apply (bool_decide_unpack _). vm_compute. exact I.
    + vm_compute. discriminate.
    + vm_compute. reflexivity.
    + vm_compute. split; discriminate.
    + vm_compute. lia.
    + rewrite Hr in HH. discriminate.
    + rewrite Hr in HH. discriminate.
    + rewrite Hr in HH. discriminate.
    + apply (bool_decide_unpack _). vm_compute. exact I.
  - destruct (tail_correct readless id 9 zeroes "tail" "f" "2") as (_ & _ & H6).
    specialize (H6 2%Z "f"%string lines_disk ltac:(intros ? ? ? ? ? [= <- _]; reflexivity)).
    destruct (run readless (tail_file 9 zeroes 2 (Some "f"%string)) lines_disk) as [[r w'] t] eqn:E.
    assert (r = Halted Cut) as Hr by (apply (f_equal (λ x, x.1.1)) in E; cbn [fst] in E; rewrite <- E; vm_compute; reflexivity).
    destruct (wp_run _ _ _ _ _ _ _ H6 E) as [HH|[HH|[HH _]]]; [exact Hr|exact Hr|exact HH].
Defined.
