(* ===== verification/MqTools.v ===== *)
(** * Talking over message queues

    CH52: talk.c, a dialogue between two terminals, each with a queue of its
    own and a thread that displays what arrives on it; and
    pmsg_receive_with_timeout.c, which takes one message from a queue.  The loop
    that sends and the thread that receives are two threads of control of a
    machine whose state is what has been typed, the queue and what has been
    displayed.  The theorem at the end also covers the service of MqSeqnum. *)
From Stdlib Require Import ZArith Lia Ascii String.
From stdpp Require Import base gmap strings list relations well_founded.
From S2P Require Import Prelude Prog CString Posix Conc Getopt.
From S2P Require SeqServers MqSeqnum.
Local Open Scope prog_scope.

(** ** talk.c *)

(** ["/mq-client_%d"]; the text of an [int] fits into the 32 characters. *)
Definition mq_name (pid : Z) : string := "/mq-client_" +:+ zstr pid.
Definition MQ_FLAGS : Z := Z.lor O_CREAT (Z.lor O_NONBLOCK O_RDWR).
Definition MQ_MSG_LEN : Z := 512.

(** One round of the receiver's loop; the state is [buffer]. *)
Definition receive_round (mq msg_len : Z) (buffer : bytes) : prog posix (bytes + unit) :=
  '(received, d) <- sys (MqReceive mq msg_len);;
  if (ret received =? -1)%Z then
    if (errno received =? EAGAIN)%Z then sys (Usleep 100000) ;;; Ret (inl buffer)
    else perror "mq_receive" (errno received) ;;; Ret (inr tt)
  else
    let buffer := buf_store d buffer in
    if bool_decide (NUL ∈ buffer) then
      printf (nl +:+ "[Received]: " +:+ of_bytes (cstr buffer)) ;;; put (Flush STDOUT_FILENO) ;;; Ret (inl buffer)
    else undef "buffer".

(** [heap] is what [malloc] returns. *)
Definition receiver_thread (fuel : nat) (heap : Z → bytes) (mq msg_len : Z) : prog posix unit :=
  m <- sys (Malloc msg_len);;
  if (ret m =? 0)%Z then perror "malloc" (errno m) else
  printf ("Receiver thread started..." +:+ nl) ;;;
  loop fuel (receive_round mq msg_len) (heap msg_len).

(** One round of the loop that sends; the state is [outputBuffer] and
    [mqMsgLen], which [getline] changes when a line does not fit. *)
Definition send_round (theirTerminalMQd : Z) (s : bytes * Z) : prog posix (bytes * Z + unit) :=
  let '(outputBuffer, mqMsgLen) := s in
  let outputBuffer := repeat NUL (Z.to_nat mqMsgLen) in
  printf "You: " ;;; put (Flush STDOUT_FILENO) ;;;
  '(g, (d, mqMsgLen)) <- sys (Getline mqMsgLen);;
  let outputBuffer := buf_store d outputBuffer in
  if (ret g =? -1)%Z then perror "getline" (errno g) ;;; Ret (inr tt) else
  q <- sys (MqSend theirTerminalMQd (take (Z.to_nat mqMsgLen) outputBuffer));;
  if (ret q =? -1)%Z then perror "mq_send" (errno q) ;;; Ret (inr tt) else
  Ret (inl (outputBuffer, mqMsgLen)).

(** From the prompt on. *)
Definition talk_to (fuel : nat) (outputBuffer : bytes) (ourTerminalMQd : Z) (ourMQName : string) : prog posix unit :=
  printf "Enter the PID of the terminal to connect to: " ;;;
  '(n, theirTerminalPID) <- sys ScanInt;;
  if negb (ret n =? 1)%Z || (theirTerminalPID <=? 0)%Z
  then eprintf ("Invalid PID entered." +:+ nl) ;;; exit EXIT_FAILURE else
  their <- sys (MqOpen (mq_name theirTerminalPID) O_WRONLY);;
  if (ret their =? -1)%Z then perror "mq_open" (errno their) ;;; exit EXIT_FAILURE else
  printf ("Connected to terminal with ID: " +:+ zstr theirTerminalPID +:+ nl) ;;;
  loop fuel (send_round (ret their)) (outputBuffer, MQ_MSG_LEN) ;;;
  sys PthreadCancel ;;;
  sys PthreadJoin ;;;
  sys (MqClose ourTerminalMQd) ;;;
  sys (MqUnlink ourMQName) ;;;
  sys (MqClose (ret their)) ;;;
  exit EXIT_SUCCESS.

Definition talk_main (fuel : nat) (heap : Z → bytes) : prog posix unit :=
  m <- sys (Malloc MQ_MSG_LEN);;
  if (ret m =? 0)%Z then perror "malloc" (errno m) ;;; exit EXIT_FAILURE else
  pid <- sys Getpid;;
  let ourMQName := mq_name (ret pid) in
  our <- sys (MqOpen ourMQName MQ_FLAGS);;
  if (ret our =? -1)%Z then perror "mq_open" (errno our) ;;; exit EXIT_FAILURE else
  printf ("Your Terminal ID: " +:+ zstr (ret pid) +:+ nl) ;;;
  printf ("Waiting to connect to another terminal..." +:+ nl) ;;;
  t <- sys PthreadCreate;;
  if negb (ret t =? 0)%Z then perror "pthread_create" (errno t) ;;; exit EXIT_FAILURE else
  talk_to fuel (heap MQ_MSG_LEN) (ret our) ourMQName.

(** ** pmsg_receive_with_timeout.c *)

Definition usageError {A} (progName : string) : prog posix A :=
  eprintf ("Usage: " +:+ progName +:+ " [-n] name [-t] seconds" +:+ nl) ;;;
  eprintf (tab +:+ "-n" +:+ tab +:+ tab +:+ "Use O_NONBLOCK flag" +:+ nl) ;;;
  eprintf (tab +:+ "-t" +:+ tab +:+ tab +:+ "Timeout in seconds" +:+ nl) ;;;
  exit EXIT_FAILURE.

(** The deadline as seconds and nanoseconds. *)
Definition getAbsTime (relSecond : Z) : prog posix (Z * Z) :=
  '(c, (sec, nsec)) <- sys ClockGettime;;
  if (ret c =? -1)%Z then perror "clock_gettime" (errno c) ;;; exit EXIT_FAILURE
  else if bool_decide (in_long (sec + relSecond)) then Ret (sec + relSecond, nsec)%Z else undef "signed overflow".

(** ["nt:"] *)
Definition pmsg_spec (c : ascii) : option has_arg :=
  if Ascii.eqb c "n" then Some NoArg else if Ascii.eqb c "t" then Some RequiredArg else None.

(** The [switch]; the state is [flags] and [timeout], an [unsigned int]. *)
Definition pmsg_option (r : gresult) (argv : list string) (s : Z * Z) : prog posix (Z * Z) :=
  match r with
  | Option c optarg =>
      if Ascii.eqb c "n" then Ret (Z.lor s.1 O_NONBLOCK, s.2)
      else match optarg with
           | Some a => Ret (s.1, to_uint (atoi (to_bytes a)))
           | None => undef "atoi of a null pointer"
           end
  | _ => usageError (argv_0 argv)
  end.

(** From [mq_open] on. *)
Definition pmsg_receive (flags timeout : Z) (name : string) : prog posix unit :=
  q <- sys (MqOpen name flags);;
  if (ret q =? -1)%Z then perror "mqd_open" (errno q) ;;; exit EXIT_FAILURE else
  '(a, mq_msgsize) <- sys (MqGetattr (ret q));;
  if (ret a =? -1)%Z then perror "mq_getattr" (errno a) ;;; exit EXIT_FAILURE else
  m <- sys (Malloc (mq_msgsize + 1));;
  if (ret m =? 0)%Z then perror "malloc" (errno m) ;;; exit EXIT_FAILURE else
  tS <- getAbsTime (to_int timeout);;
  '(numRead, (buffer, prio)) <- sys (MqTimedreceive (ret q) mq_msgsize tS);;
  if (ret numRead =? -1)%Z then perror "mq_receive" (errno numRead) ;;; exit EXIT_FAILURE else
  printf ("Read " +:+ zstr (ret numRead) +:+ " bytes; priority = " +:+ zstr prio +:+ nl) ;;;
  w <- sys (Write STDOUT_FILENO (take (Z.to_nat (ret numRead)) buffer));;
  if (ret w =? -1)%Z then perror "write" (errno w) ;;; exit EXIT_FAILURE else
  sys (Write STDOUT_FILENO [LF]) ;;;
  exit EXIT_SUCCESS.

(** [timeout] is what the variable holds before it is assigned. *)
Definition pmsg_main (timeout : Z) (argv : list string) : prog posix unit :=
  '(g, (flags, timeout)) <- getopt_loop pmsg_spec (getopt_fuel argv) pmsg_option (getopt_start argv) (O_RDONLY, timeout);;
  match g_argv g !! optind g with
  | None => usageError (argv_0 (g_argv g))
  | Some name => pmsg_receive flags timeout name
  end.

(** ** A terminal that sends and one that displays *)

(** The lines still to be typed, every message sent so far, how many of them have
    been taken from the queue, and what the receiver has written. *)
Record talk := Talk { typed : list bytes; sent_msgs : list bytes; taken : nat; displayed : list string }.

Definition MQ_CAP : nat := 8.
Definition EMSGSIZE : Z := 90.

(** [getline]: the line with its NUL; a line that does not fit gets a buffer of
    twice the size, or as long as it is. *)
Definition getline_size (n : Z) (line : bytes) : Z :=
  if (Z.of_nat (length line) + 1 <=? n)%Z then n else Z.max (2 * n) (Z.of_nat (length line) + 1).
Definition getline_data (n : Z) (line : bytes) : bytes :=
  line ++ NUL :: (if (Z.of_nat (length line) + 1 <=? n)%Z then []
                  else repeat NUL (Z.to_nat (getline_size n line) - length line - 1)).

Definition talk_step (i : nat) (c : posix_op) (s : talk) : mresult (posix_ans c) talk :=
  match c as c return mresult (posix_ans c) talk with
  | Getline n =>
      if decide (i = 0) then
        match typed s with
        | [] => MOk (Rc (-1) 0, ([], n)) s
        | l :: ls => MOk (Rc (Z.of_nat (length l)) 0, (getline_data n l, getline_size n l))
                       (Talk ls (sent_msgs s) (taken s) (displayed s))
        end
      else MFault
  | MqSend _ m =>
      if decide (i = 0) then
        if (MQ_MSG_LEN <? Z.of_nat (length m))%Z then MOk (Rc (-1) EMSGSIZE) s
        else if MQ_CAP <=? length (sent_msgs s) - taken s then MBlocked
        else MOk (Rc 0 0) (Talk (typed s) (sent_msgs s ++ [m]) (taken s) (displayed s))
      else MFault
  | MqReceive _ _ =>
      if decide (i = 1) then
        match sent_msgs s !! taken s with
        | None => MOk (Rc (-1) EAGAIN, []) s
        | Some m => MOk (Rc (Z.of_nat (length m)) 0, m) (Talk (typed s) (sent_msgs s) (S (taken s)) (displayed s))
        end
      else MFault
  | Usleep _ => MOk (Rc 0 0) s
  | Malloc _ => MOk (Rc 1 0) s
  | _ => MFault
  end.

Definition talk_emit (i : nat) (o : output) (s : talk) : talk :=
  match i, o with
  | 1, Out x => Talk (typed s) (sent_msgs s) (taken s) (displayed s ++ [x])
  | _, _ => s
  end.

Definition talk_machine : machine posix talk := Machine posix talk talk_step talk_emit.

(** What is displayed for a line. *)
Definition banner : string := "Receiver thread started..." +:+ nl.
Definition shown_as (line : bytes) : string := nl +:+ "[Received]: " +:+ of_bytes line.

(** The lines that are sent: up to the first that does not fit into a message. *)
Fixpoint sendable (lines : list bytes) : list bytes :=
  match lines with
  | [] => []
  | l :: ls => if (Z.of_nat (length l) <? MQ_MSG_LEN)%Z then l :: sendable ls else []
  end.

Definition message_of (line : bytes) : bytes := line ++ repeat NUL (Z.to_nat MQ_MSG_LEN - length line).

Section dialogue.
Context (lines : list bytes) (Hlines : Forall no_nul lines).

Record talk_inv (s : talk) : Prop := {
  t_sent : ∃ rest, sendable lines = (cstr <$> sent_msgs s) ++ rest;
  t_msgs : Forall (λ m, Z.of_nat (length m) = MQ_MSG_LEN ∧ NUL ∈ m) (sent_msgs s);
  t_taken : taken s ≤ length (sent_msgs s);
  t_shown : displayed s `prefix_of` banner :: ((λ m, shown_as (cstr m)) <$> take (taken s) (sent_msgs s)) }.

Definition talk_rely (i : nat) (s s' : talk) : Prop :=
  match i with
  | 0 => typed s' = typed s ∧ sent_msgs s' = sent_msgs s ∧ taken s ≤ taken s'
  | 1 => taken s' = taken s ∧ displayed s' = displayed s ∧ sent_msgs s `prefix_of` sent_msgs s'
  | _ => True
  end.

#[local] Instance talk_rely_preorder i : PreOrder (talk_rely i).
Proof.
  split.
  - intros s. destruct i as [|[|i]]; cbn; [split_and!; done|by split_and!|done].
  - intros a b c. destruct i as [|[|i]]; cbn; [| |done].
    + intros (-> & -> & H1) (-> & -> & H2). split_and!; [done|done|lia].
    + intros (-> & -> & H1) (-> & -> & H2). split_and!; [done|done|by etrans].
Qed.

(** The sender waits while the queue is full; the receiver never waits. *)
Definition talk_waits (i : nat) (s : talk) : Prop := i = 0 ∧ MQ_CAP ≤ length (sent_msgs s) - taken s.

Abbreviation trg := (rg talk_machine talk_inv talk_rely talk_waits).

Definition talk_post (i : nat) (r : outcome unit) (s : talk) : Prop :=
  match i, r with
  | 0, Returned _ => cstr <$> sent_msgs s = sendable lines
  | 0, Halted h => h = Cut
  | _, Halted Cut => displayed s = banner :: ((λ m, shown_as (cstr m)) <$> take (taken s) (sent_msgs s))
  | _, _ => False
  end.

(** What is left to send. *)
Definition to_send (s : talk) : Prop :=
  sendable lines = (cstr <$> sent_msgs s) ++ sendable (typed s) ∧ Forall no_nul (typed s).

Lemma to_send_stable s s' : to_send s → talk_rely 0 s s' → to_send s'.
Proof. unfold to_send. intros H (-> & -> & _). exact H. Qed.

Lemma message_of_ok l : no_nul l → (Z.of_nat (length l) < MQ_MSG_LEN)%Z →
  Z.of_nat (length (message_of l)) = MQ_MSG_LEN ∧ NUL ∈ message_of l ∧ cstr (message_of l) = l.
Proof.
  unfold message_of, MQ_MSG_LEN. intros Hl Hlen. rewrite length_app, repeat_length. split; [lia|].
  destruct (Z.to_nat 512 - length l) as [|k] eqn:E; [lia|]. cbn [repeat]. split; [|by apply cstr_app_nul].
  apply elem_of_app. right. left.
Qed.

Lemma fitting_line l : (Z.of_nat (length l) < MQ_MSG_LEN)%Z →
  getline_size MQ_MSG_LEN l = MQ_MSG_LEN ∧
  take (Z.to_nat MQ_MSG_LEN) (buf_store (getline_data MQ_MSG_LEN l) (repeat NUL (Z.to_nat MQ_MSG_LEN))) = message_of l.
Proof.
  intros Hl. unfold getline_size, getline_data. rewrite (proj2 (Z.leb_le _ _)) by lia. split; [done|].
  assert (buf_store (l ++ [NUL]) (repeat NUL (Z.to_nat MQ_MSG_LEN)) = message_of l) as ->.
  { unfold buf_store, message_of. rewrite <- app_assoc. f_equal. rewrite length_app. cbn [length app]. unfold MQ_MSG_LEN in *.
    replace (Z.to_nat 512) with (length l + 1 + (Z.to_nat 512 - length l - 1)) at 1 by lia.
    rewrite repeat_app, drop_app_exact by (by rewrite repeat_length).
    destruct (Z.to_nat 512 - length l) as [|k] eqn:E; [lia|]. cbn [Nat.sub repeat]. by rewrite Nat.sub_0_r. }
  apply take_ge. unfold message_of. rewrite length_app, repeat_length. lia.
Qed.

Lemma long_line l buf : ¬ (Z.of_nat (length l) < MQ_MSG_LEN)%Z → length buf = Z.to_nat MQ_MSG_LEN →
  (MQ_MSG_LEN < Z.of_nat (length (take (Z.to_nat (getline_size MQ_MSG_LEN l)) (buf_store (getline_data MQ_MSG_LEN l) buf))))%Z.
Proof.
  intros Hl Hb. unfold getline_size, getline_data. rewrite (proj2 (Z.leb_gt _ _)) by lia. unfold buf_store.
  repeat (rewrite ?length_take, ?length_app, ?length_drop, ?repeat_length; cbn [length]).
  unfold getline_size. rewrite (proj2 (Z.leb_gt _ _)) by lia. unfold MQ_MSG_LEN in *. lia.
Qed.

Lemma sender_ok their fuel : ∀ buf s, to_send s → talk_inv s →
  trg 0 (loop fuel (send_round their) (buf, MQ_MSG_LEN)) (talk_post 0) s.
Proof.
  induction fuel as [|fuel IH]; intros buf s Hs HI; cbn [loop]; [by intros s' Hr HI'|].
  unfold send_round at 1, printf, put. cbn [bind].
  assert (∀ s, talk_inv s → guar talk_inv talk_rely 0 s s) as Hid.
  { intros s0 H0. split; [done|]. intros [|[|j]] Hj; [done|by split_and!|done]. }
  intros s1 Hr1 HI1. split; [by apply Hid|]. pose proof (to_send_stable _ _ Hs Hr1) as Hs1. clear s Hs Hr1 HI.
  intros s2 Hr2 HI2. split; [by apply Hid|]. pose proof (to_send_stable _ _ Hs1 Hr2) as Hs2. clear s1 Hs1 Hr2 HI1.
  unfold sys at 1. cbn [bind]. intros s3 Hr3 HI3. pose proof (to_send_stable _ _ Hs2 Hr3) as [E3 F3]. clear s2 Hs2 Hr3 HI2.
  change (talk_emit 0 _ ?s) with s in *. cbn [mstep talk_machine talk_step]. rewrite decide_True by done.
  destruct (typed s3) as [|l ls] eqn:Et.
  { split; [by apply Hid|]. cbn [bind ret Z.eqb]. change (-1 =? -1)%Z with true. cbv iota. unfold perror, put. cbn [bind].
    intros s4 Hr4 HI4. split; [by apply Hid|]. cbn [bind]. intros s5 Hr5 HI5. unfold talk_post.
    destruct Hr4 as (_ & H4 & _), Hr5 as (_ & H5 & _). cbn in H4, H5. rewrite H5, H4, E3.
    cbn [sendable]. by rewrite app_nil_r. }
  apply Forall_cons in F3 as [Hl F3]. set (s4 := Talk ls (sent_msgs s3) (taken s3) (displayed s3)).
  assert (talk_inv s4) as HI4 by (destruct HI3; by constructor).
  split; [split; [done|]; intros [|[|j]] Hj; [done|by split_and!|done]|].
  cbn [bind ret]. rewrite (proj2 (Z.eqb_neq _ _)) by lia. unfold sys at 1. cbn [bind].
  intros s5 (Ht5 & Hm5 & _) HI5. cbn in Ht5, Hm5. cbn [mstep talk_machine talk_step]. rewrite decide_True by done.
  cbn [sendable] in E3. destruct (Z.of_nat (length l) <? MQ_MSG_LEN)%Z eqn:El; zbool.
  - destruct (fitting_line l El) as [-> ->]. destruct (message_of_ok l Hl El) as (Hm & Hn & Hc).
    rewrite (proj2 (Z.ltb_ge _ _)) by lia. destruct (MQ_CAP <=? _) eqn:Eq.
    { split; [done|]. by apply Nat.leb_le in Eq. }
    set (s6 := Talk _ _ _ _). assert (talk_inv s6) as HI6.
    { destruct HI5 as [H1 H2 H3 H4]. constructor; cbn.
      - exists (sendable ls). rewrite fmap_app. cbn. rewrite Hc, <- app_assoc, Hm5. exact E3.
      - apply Forall_app. split; [done|]. by apply Forall_singleton.
      - rewrite length_app. lia.
      - by rewrite take_app_le by done. }
    split; [split; [done|]; intros [|[|j]] Hj; [done|split_and!; [done|done|by eexists]|done]|].
    cbn [bind ret]. change (0 =? -1)%Z with false. cbn [bind]. apply IH; [|done].
    split; cbn; rewrite ?Ht5; [|done]. rewrite fmap_app. cbn. by rewrite Hc, <- app_assoc, Hm5.
  - rewrite (proj2 (Z.ltb_lt _ _)) by (apply long_line; [lia|by rewrite repeat_length]).
    split; [by apply Hid|]. cbn [bind ret]. change (-1 =? -1)%Z with true. unfold perror, put. cbn [bind].
    intros s6 Hr6 HI6. split; [by apply Hid|]. cbn [bind]. intros s7 Hr7 HI7. unfold talk_post.
    destruct Hr6 as (_ & H6 & _), Hr7 as (_ & H7 & _). cbn in H6, H7. rewrite H7, H6, Hm5.
    by rewrite app_nil_r in E3.
Qed.

(** Before a round of the receiver everything taken has been displayed. *)
Definition up_to_date (s : talk) : Prop :=
  displayed s = banner :: ((λ m, shown_as (cstr m)) <$> take (taken s) (sent_msgs s)).

Lemma up_to_date_stable s s' : up_to_date s → talk_inv s → talk_rely 1 s s' → up_to_date s'.
Proof.
  unfold up_to_date. intros H [_ _ Ht _] (-> & -> & [k ->]). by rewrite take_app_le by done.
Qed.

Lemma cstr_store m buf : NUL ∈ m → NUL ∈ buf_store m buf ∧ cstr (buf_store m buf) = cstr m.
Proof.
  intros H. unfold buf_store. split; [apply elem_of_app; by left|]. revert H. generalize (drop (length m) buf). intros x.
  induction m as [|c m IH]; intros H; [by apply not_elem_of_nil in H|]. cbn. destruct (Ascii.eqb_spec c NUL) as [->|Hc]; [done|].
  rewrite IH; [done|]. apply elem_of_cons in H as [E|E]; [congruence|done].
Qed.

Lemma receiver_ok mq fuel : ∀ buf s, up_to_date s → talk_inv s →
  trg 1 (loop fuel (receive_round mq MQ_MSG_LEN) buf) (talk_post 1) s.
Proof.
  induction fuel as [|fuel IH]; intros buf s Hs HI; cbn [loop]; [intros s' Hr _; by apply (up_to_date_stable s)|].
  unfold receive_round at 1, sys at 1. cbn [bind]. intros s1 Hr1 HI1. pose proof (up_to_date_stable _ _ Hs HI Hr1) as Hs1. clear s Hs HI Hr1.
  assert (∀ s, talk_inv s → guar talk_inv talk_rely 1 s s) as Hid.
  { intros s0 H0. split; [done|]. intros [|[|j]] Hj; [by split_and!|done|done]. }
  cbn [mstep talk_machine talk_step]. rewrite decide_True by done. destruct (sent_msgs s1 !! taken s1) as [m|] eqn:Em.
  - pose proof HI1 as [H1 H2 H3 H4]. destruct (proj1 (Forall_lookup _ _) H2 _ _ Em) as [Hm Hn]. pose proof (lookup_lt_Some _ _ _ Em) as Hlt.
    set (s2 := Talk _ _ _ _). assert (talk_inv s2) as HI2.
    { constructor; cbn; [done|done|lia|]. rewrite (take_S_r _ _ m Em), fmap_app. rewrite Hs1. apply prefix_cons, prefix_app_r. done. }
    split; [split; [done|]; intros [|[|j]] Hj; [split_and!; [done|done|cbn; lia]|done|done]|].
    cbn [bind ret]. rewrite (proj2 (Z.eqb_neq _ _)) by (unfold MQ_MSG_LEN in Hm; lia).
    destruct (cstr_store m buf Hn) as [Hb Hc]. rewrite bool_decide_eq_true_2 by done. rewrite Hc. unfold printf, put. cbn [bind].
    intros s3 (E1 & E2 & [k E3]) HI3. set (s4 := memit _ _ _ _).
    assert (up_to_date s4) as Hs4.
    { unfold up_to_date. cbn. rewrite E1, E2, E3. cbn. rewrite take_app_le by lia. rewrite (take_S_r _ _ m Em), fmap_app, Hs1. done. }
    assert (talk_inv s4) as HI4 by (destruct HI3 as [X1 X2 X3 X4]; constructor; [exact X1|exact X2|exact X3|by rewrite Hs4]).
    split; [split; [done|]; intros [|[|j]] Hj; [by split_and!|done|done]|].
    intros s5 Hr5 HI5. pose proof (up_to_date_stable _ _ Hs4 HI4 Hr5) as Hs5. split; [by apply Hid|]. by apply IH.
  - split; [by apply Hid|]. cbn [bind ret errno]. change (-1 =? -1)%Z with true. change (EAGAIN =? EAGAIN)%Z with true. cbv iota.
    unfold sys. cbn [bind]. intros s2 Hr2 HI2. pose proof (up_to_date_stable _ _ Hs1 HI1 Hr2) as Hs2. cbn [mstep talk_machine talk_step].
    split; [by apply Hid|]. cbn [bind]. by apply IH.
Qed.

Lemma receiver_thread_ok mq heap fuel s : displayed s = [] → taken s = 0 → talk_inv s →
  trg 1 (receiver_thread fuel heap mq MQ_MSG_LEN) (talk_post 1) s.
Proof.
  intros Hd Ht HI. unfold receiver_thread, sys at 1. cbn [bind]. intros s1 (E1 & E2 & _) HI1. cbn [mstep talk_machine talk_step].
  assert (∀ s, talk_inv s → guar talk_inv talk_rely 1 s s) as Hid.
  { intros s0 H0. split; [done|]. intros [|[|j]] Hj; [by split_and!|done|done]. }
  split; [by apply Hid|]. cbn [bind ret]. change (1 =? 0)%Z with false. cbv iota. unfold printf, put. cbn [bind].
  intros s2 (E3 & E4 & _) HI2. set (s3 := memit _ _ _ _).
  assert (up_to_date s3) as Hs3 by (unfold up_to_date; cbn; rewrite E3, E1, Ht, E4, E2, Hd; done).
  assert (talk_inv s3) as HI3 by (destruct HI2 as [X1 X2 X3 X4]; constructor; [exact X1|exact X2|exact X3|by rewrite Hs3]).
  split; [split; [done|]; intros [|[|j]] Hj; [by split_and!|done|done]|]. by apply receiver_ok.
Qed.

Definition talk_start (N M : nat) (their mq : Z) (buf : bytes) (heap : Z → bytes) : config (S := posix) (W := talk) (A := unit) :=
  (Talk lines [] 0 [], [loop N (send_round their) (buf, MQ_MSG_LEN); receiver_thread M heap mq MQ_MSG_LEN]).

(** What was sent and displayed in a reachable configuration. *)
Lemma dialogue_ok N M their mq buf heap c : rtc (cstep talk_machine) (talk_start N M their mq buf heap) c →
  (∀ i, ¬ faulty talk_machine i c) ∧ (∀ i why, c.2 !! i ≠ Some (Stop (Undef why))) ∧
  displayed c.1 `prefix_of` banner :: (shown_as <$> sendable lines) ∧
  (c.2 !! 0 = Some (Ret tt) → cstr <$> sent_msgs c.1 = sendable lines) ∧
  (c.2 !! 1 = Some (Stop Cut) → displayed c.1 = banner :: (shown_as <$> take (taken c.1) (sendable lines))) ∧
  (∀ p, c.2 !! 1 = Some p → p ≠ Stop Cut → ∃ c', cstep talk_machine c c').
Proof.
  intros Hs. assert (talk_inv (Talk lines [] 0 [])) as HI0.
  { constructor; cbn; [by exists (sendable lines)|done|lia|apply prefix_nil]. }
  assert (good talk_machine talk_inv talk_rely talk_waits talk_post 2 (talk_start N M their mq buf heap)) as Hgood.
  { split; [done|]. split; [done|]. intros [|[|i]] p [= <-]; [|by apply receiver_thread_ok].
    by apply sender_ok; [split|]. }
  destruct (rg_sound _ _ _ _ _ _ _ _ Hgood Hs) as ((HI & _ & Hg) & Hfault & Hret & Hstop). pose proof HI as [[rest Hrest] H2 H3 H4].
  assert ((λ m, shown_as (cstr m)) <$> take (taken c.1) (sent_msgs c.1) = shown_as <$> take (taken c.1) (sendable lines)) as E.
  { rewrite Hrest, take_app_le by (by rewrite length_fmap). rewrite <- fmap_take, <- list_fmap_compose. done. }
  split; [done|]. split_and!.
  - intros [|[|i]] why Hi; by pose proof (Hstop _ _ Hi).
  - rewrite E in H4. etrans; [exact H4|]. apply prefix_cons. exists (shown_as <$> drop (taken c.1) (sendable lines)).
    by rewrite <- fmap_app, take_drop.
  - intros Hi. exact (Hret 0 tt Hi).
  - intros Hi. pose proof (Hstop 1 Cut Hi) as H. cbn in H. by rewrite H, E.
  - intros p Hp Hne. destruct p as [a|h|o k|op k].
    + by destruct (Hret 1 a Hp).
    + pose proof (Hstop 1 h Hp) as H'. by destruct h.
    + eexists. exists 1. unfold sched_step. by rewrite Hp.
    + pose proof (Hg 1 _ Hp c.1 ltac:(reflexivity) HI) as H. destruct (mstep talk_machine 1 op c.1) as [a s| |] eqn:Eq; [|by destruct H|done].
      eexists. exists 1. unfold sched_step. by rewrite Hp, Eq.
Qed.
End dialogue.

(** ** The program around the dialogue *)

Definition keeps_queue (e : event posix) : Prop :=
  match e with ECall (MqUnlink _) _ | EGone (MqUnlink _) => False | _ => True end.

(** What the end of talk.c says: with status 0 the queue has been removed after
    a call that failed, with any other end it is still there. *)
Definition talk_end (r : outcome unit) (t : list (event posix)) : Prop :=
  match r with
  | Halted (Exited 0) => ∃ t0 pid our their theirPID c1 c2 c3 c4 c5,
      t = t0 ++ [ECall PthreadCancel c1; ECall PthreadJoin c2; ECall (MqClose our) c3;
                 ECall (MqUnlink (mq_name pid)) c4; ECall (MqClose their) c5] ∧
      Forall keeps_queue t0 ∧ perror_last t0 ∧ called t0 Getpid (λ a, ret a = pid) ∧
      called t0 (MqOpen (mq_name pid) MQ_FLAGS) (λ a, ret a = our ∧ our ≠ -1)%Z ∧
      called t0 PthreadCreate (λ a, ret a = 0)%Z ∧
      called t0 ScanInt (λ a, ret a.1 = 1 ∧ a.2 = theirPID ∧ 0 < theirPID)%Z ∧
      called t0 (MqOpen (mq_name theirPID) O_WRONLY) (λ a, ret a = their ∧ their ≠ -1)%Z
  | Halted (Exited 1) => Forall keeps_queue t ∧ (perror_last t ∨ ∃ m, last t = Some (EOut (Err m)))
  | Halted Cut => Forall keeps_queue t
  | Gone => True
  | _ => False
  end.

Section whole.
Context {W : Type} (K : kernel posix W).

Ltac keeps := repeat (apply Forall_app; split; [|by apply Forall_singleton]); done.

Lemma send_loop_ok fuel their s t w : Forall keeps_queue t →
  wpa K t (loop fuel (send_round their) s) w (λ r _ t', Forall keeps_queue t' ∧ (∃ u, t' = t ++ u) ∧
    match r with Returned _ => perror_last t' | Halted h => h = Cut | Gone => True end).
Proof.
  intros Ht. apply (wpa_loop K (λ _ _ t', Forall keeps_queue t' ∧ ∃ u, t' = t ++ u)); [| |split; [done|exists []; by rewrite app_nil_r]].
  - intros [buf n] w1 t1 [H1 [u ->]]. unfold send_round. cbv zeta. acc_steps. acc_call.
    2:{ split; [keeps|]. split; [|done]. eexists. by rewrite <- !app_assoc. }
    destruct a as [g [d n']]. destruct (ret g =? -1)%Z eqn:Eg; zbool; [acc_steps|].
    { split; [keeps|]. split; [|eauto with posix]. eexists. by rewrite <- !app_assoc. }
    acc_call; [|split; [keeps|]; split; [|done]; eexists; by rewrite <- !app_assoc].
    destruct (ret a =? -1)%Z eqn:Ea; zbool; acc_steps.
    + split; [keeps|]. split; [|eauto with posix]. eexists. by rewrite <- !app_assoc.
    + split; [keeps|]. eexists. by rewrite <- !app_assoc.
  - intros s1 w1 t1 [H1 H2]. done.
Qed.

Lemma talk_main_ok fuel heap w : wpa K [] (talk_main fuel heap) w (λ r _ t, talk_end r t).
Proof.
  unfold talk_main. acc_call; [|done]. destruct (ret a =? 0)%Z eqn:E1; zbool; acc_steps.
  { cbn [talk_end]. split; [|left; auto with posix]. repeat constructor. }
  acc_call; [|done]. cbv zeta. acc_call; [|done]. destruct (ret a1 =? -1)%Z eqn:E2; zbool; acc_steps.
  { cbn [talk_end]. split; [|left; auto with posix]. repeat constructor. }
  acc_call; [|done]. destruct (negb (ret a2 =? 0)%Z) eqn:E3; zbool; acc_steps.
  { cbn [talk_end]. split; [|left; auto with posix]. repeat constructor. }
  unfold talk_to. acc_call; [|done]. destruct a3 as [n their]. cbn [fst snd] in *.
  destruct (negb (ret n =? 1)%Z || (their <=? 0)%Z) eqn:E4; zbool; acc_steps.
  { cbn [talk_end]. split; [repeat constructor|]. right. eexists. by rewrite last_snoc. }
  acc_call; [|done]. destruct (ret a3 =? -1)%Z eqn:E5; zbool; acc_steps.
  { cbn [talk_end]. split; [|left; auto with posix]. repeat constructor. }
  match goal with |- wpa _ ?x _ _ _ => set (t := x) end.
  apply wpa_bind. eapply wpa_mono; [apply send_loop_ok; repeat constructor|].
  intros [u|h|] w1 t1 (Ht & [v ->] & Hlast); [|by subst h|done].
  acc_call; [|done]. acc_call; [|done]. acc_call; [|done]. acc_call; [|done]. acc_call; [|done]. acc_steps.
  cbn [talk_end]. exists (t ++ v), (ret a0), (ret a1), (ret a3), their, a4, a5, a6, a7, a8.
  split; [by rewrite <- !app_assoc|]. split; [done|]. split; [done|].
  assert (∀ c P, called t c P → called (t ++ v) c P) as Hl by (intros; by apply called_app_l).
  split_and!; apply Hl; [exists a0|exists a1|exists a2|exists (n, their)|exists a3]; (split; [unfold t; cbn [app]; repeat first [left|right]|]);
    [done|done|done|split_and!; done || lia|done].
Qed.
End whole.

(** ** Receiving one message *)

#[local] Arguments atoi : simpl never.

Section pmsg.
Context {W : Type} (K : kernel posix W).

(** With status 0 one message has been taken before the deadline and written. *)
Definition pmsg_post (flags timeout : Z) (name : string) (r : outcome unit) (t : list (event posix)) : Prop :=
  match r with
  | Halted (Exited 0) => ∃ q size now m prio,
      called t (MqOpen name flags) (λ a, ret a = q ∧ q ≠ -1)%Z ∧ called t (MqGetattr q) (λ a, ret a.1 ≠ -1 ∧ a.2 = size)%Z ∧
      called t ClockGettime (λ a, ret a.1 ≠ -1 ∧ a.2 = now)%Z ∧
      called t (MqTimedreceive q size (now.1 + to_int timeout, now.2)%Z)
        (λ a, ret a.1 ≠ (-1)%Z ∧ m = take (Z.to_nat (ret a.1)) a.2.1 ∧ prio = a.2.2 ∧
              outs t = ["Read " +:+ zstr (ret a.1) +:+ " bytes; priority = " +:+ zstr prio +:+ nl]) ∧
      called t (Write STDOUT_FILENO m) (λ a, ret a ≠ (-1)%Z)
  | Halted (Exited 1) => perror_last t
  | Halted (Undef _) => ∃ now, called t ClockGettime (λ a, a.2 = now) ∧ ¬ in_long (now.1 + to_int timeout)
  | Gone => True
  | _ => False
  end.

Lemma pmsg_receive_ok flags timeout name w :
  wpa K [] (pmsg_receive flags timeout name) w (λ r _ t, pmsg_post flags timeout name r t).
Proof.
  unfold pmsg_receive, getAbsTime. acc_call; [|done]. destruct (ret a =? -1)%Z eqn:E1; zbool; acc_steps; [apply perror_last_snoc|].
  acc_call; [|done]. destruct a0 as [g size]. destruct (ret g =? -1)%Z eqn:E2; zbool; acc_steps; [apply perror_last_snoc|].
  acc_call; [|done]. destruct (ret a0 =? 0)%Z eqn:E3; zbool; acc_steps; [apply perror_last_snoc|].
  acc_call; [|done]. destruct a1 as [c [sec nsec]]. destruct (ret c =? -1)%Z eqn:E4; zbool; [acc_steps; apply perror_last_snoc|].
  destruct (bool_decide _) eqn:Eb; acc_steps.
  2:{ apply bool_decide_eq_false in Eb. exists (sec, nsec). split; [by apply called_last|done]. }
  acc_call; [|done]. destruct a1 as [n [buf prio]]. destruct (ret n =? -1)%Z eqn:E5; zbool; acc_steps; [apply perror_last_snoc|].
  acc_call; [|done]. destruct (ret a1 =? -1)%Z eqn:E6; zbool; acc_steps; [apply perror_last_snoc|].
  acc_call; [|done]. acc_steps. cbn [app pmsg_post]. exists (ret a), size, (sec, nsec), (take (Z.to_nat (ret n)) buf), prio.
  split_and!; [exists a|exists (g, size)|exists (c, (sec, nsec))|exists (n, (buf, prio))|exists a1]; (split; [repeat first [left|right]|]); done.
Qed.

(** The command lines. *)
Section command.
Context (timeout : Z) (a : string).

Lemma pmsg_plain q : nonoption q = true → pmsg_main timeout [a; q] = pmsg_receive O_RDONLY timeout q.
Proof.
  intros Hq. unfold pmsg_main, getopt_fuel. rewrite (getopt_loop_end _ _ _ _ (GState [a; q] 1 1 2 "")); [done|]. words.
Qed.

Lemma pmsg_nonblock q : nonoption q = true → pmsg_main timeout [a; "-n"%string; q] = pmsg_receive (Z.lor O_RDONLY O_NONBLOCK) timeout q.
Proof.
  intros Hq. unfold pmsg_main, getopt_fuel.
  rewrite (getopt_loop_option _ _ _ _ "n" None (GState [a; "-n"; q]%string 2 1 1 "")) by words. cbn [pmsg_option bind].
  change (Ascii.eqb "n" "n") with true. cbn [bind fst snd].
  destruct (sum_list _) as [|k] eqn:E; [cbn in E; lia|].
  rewrite (getopt_loop_end _ _ _ _ (GState [a; "-n"; q]%string 2 2 3 "")); [done|]. words.
Qed.

(** The scan of a command line with [-t N]. *)
Lemma pmsg_scan argv N g1 g2 q : (∃ k, sum_list (String.length <$> argv) = S k) →
  getopt pmsg_spec (getopt_start argv) = (Option "t" (Some N), g1) → getopt pmsg_spec g1 = (NoMore, g2) →
  g_argv g2 !! optind g2 = Some q →
  pmsg_main timeout argv = pmsg_receive O_RDONLY (to_uint (atoi (to_bytes N))) q.
Proof.
  intros [k Hk] H1 H2 Hq. unfold pmsg_main, getopt_fuel. rewrite Hk, (getopt_loop_option _ _ _ _ _ _ _ _ H1).
  unfold pmsg_option at 2. change (Ascii.eqb "t" "n") with false. cbn [bind fst snd].
  rewrite (getopt_loop_end _ _ _ _ _ _ H2). cbn [bind]. by rewrite Hq.
Qed.

Lemma pmsg_timeout N q : nonoption q = true →
  pmsg_main timeout [a; "-t"%string; N; q] = pmsg_receive O_RDONLY (to_uint (atoi (to_bytes N))) q ∧
  pmsg_main timeout [a; q; "-t"%string; N] = pmsg_receive O_RDONLY (to_uint (atoi (to_bytes N))) q.
Proof.
  intros Hq. split.
  - apply (pmsg_scan _ N (GState [a; "-t"; N; q]%string 3 1 1 "") (GState [a; "-t"; N; q]%string 3 3 4 "")); [|words|words|reflexivity].
    destruct (sum_list _) as [|k] eqn:E; [cbn in E; lia|by exists k].
  - apply (pmsg_scan _ N (GState [a; q; "-t"; N]%string 4 1 2 "") (GState [a; "-t"; N; q]%string 3 3 4 "")); [|words|words|reflexivity].
    destruct (sum_list _) as [|k] eqn:E; [cbn in E; lia|by exists k].
Qed.
End command.

(** Every command line is dealt with: the scan of the options ends. *)
Lemma pmsg_main_ends timeout argv w : argv ≠ [] → wp K (pmsg_main timeout argv) w (λ r _ _, match r with
  | Returned _ | Halted Cut => False | _ => True end).
Proof.
  intros Hne. destruct (getopt_start_wf argv Hne) as [Hg Hf]. unfold pmsg_main. apply wp_bind.
  eapply wp_mono; [apply (wp_getopt_loop pmsg_spec K pmsg_option (λ _ _, True) (λ h, h = Exited 1)); [|done|done|done]|].
  - intros r av s w0 Hr Ha _. destruct r as [c o|m|]; [|unfold pmsg_option, usageError; prog_steps; done|done].
    unfold pmsg_option. destruct (Ascii.eqb c "n") eqn:Ec; [by apply wp_ret|]. destruct o as [x|]; [by apply wp_ret|].
    unfold allowed, pmsg_spec in Ha. rewrite Ec in Ha. by destruct (Ascii.eqb c "t").
  - intros [[g [flags tm]]|h|] w1 t1 H; [|by subst h|done]. destruct (g_argv g !! optind g) as [name|].
    + eapply wp_mono; [apply wpa_wp, pmsg_receive_ok|]. intros r w2 t2 HH. destruct r as [u|h|]; [done|by destruct h|done].
    + unfold usageError. prog_steps. done.
Qed.
End pmsg.


(** ** The programs at work *)

(** A queue with one message of priority 3; the clock is at 1000 seconds. *)
Definition one_message : kernel posix nat := λ c n,
  match c as c return reaction (posix_ans c) nat with
  | MqOpen _ _ => Answer (Rc 3 0) n
  | MqGetattr _ => Answer (Rc 0 0, 8%Z) n
  | Malloc _ => Answer (Rc 1 0) n
  | ClockGettime => Answer (Rc 0 0, (1000, 7)%Z) n
  | MqTimedreceive _ _ _ => Answer (Rc 2 0, (to_bytes "hi", 3%Z)) n
  | Write _ b => Answer (Rc (Z.of_nat (length b)) 0) n
  | Getpid => Answer (Rc 42 0) n
  | PthreadCreate => Answer (Rc 0 0) n
  | ScanInt => Answer (Rc 0 0, 0%Z) n
  | _ => NoReturn n
  end.

Definition two_lines : list bytes := [to_bytes ("hello" +:+ nl); to_bytes ("you" +:+ nl)].

