(* ===== verification/SigSpeed.v ===== *)
(** * Two processes that exchange signals

    CH22/Exercise_22-3: sig_speed_sigsuspend.c and sig_speed_sigwaitinfo.c.
    Parent and child send each other SIGUSR1 in turn and wait for it, one with
    [sigsuspend] and a handler, the other with [sigwaitinfo].  After [fork] the
    two sides are two threads of control of a machine whose state is what is
    pending for each process; standard signals do not queue. *)
From Stdlib Require Import ZArith Lia Ascii String.
From stdpp Require Import base gmap strings list relations.
From S2P Require Import Prelude Prog CString Posix GetNum ErrorFunctions Conc.
Local Open Scope prog_scope.

Definition TESTSIG : Z := SIGUSR1.
(** The set of TESTSIG alone, and the empty one. *)
Definition blockedMask : Z := 512.
Definition emptyMask : Z := 0.

Definition handler (sig : Z) : prog posix unit := Ret tt.

(** [sigsuspend] returns after the handler of the signal it let in. *)
Definition sigsuspend (mask : Z) : prog posix rc :=
  a <- sys (Sigsuspend mask);; handler TESTSIG ;;; Ret a.
Definition sigwaitinfo (set : Z) : prog posix rc := sys (Sigwaitinfo set).

Section programs.
Context (ename strerror : Z → string).
Local Abbreviation errExit := (errExit ename strerror).

(** The two loops, then [exit]; [wait] is the call that waits for a signal. *)
Fixpoint child_rounds (wait : prog posix rc) (n : nat) : prog posix Z :=
  match n with
  | O => exit EXIT_SUCCESS
  | S n' =>
      p <- sys Getppid;;
      k <- sys (Kill (ret p) TESTSIG);;
      if (ret k =? -1)%Z then errExit (errno k) "kill" [] else
      s <- wait;;
      if (ret s =? -1)%Z && negb (errno s =? EINTR)%Z then errExit (errno s) "sigsuspend" [] else
      child_rounds wait n'
  end.

Fixpoint parent_rounds (wait : prog posix rc) (childPid : Z) (n : nat) : prog posix Z :=
  match n with
  | O => exit EXIT_SUCCESS
  | S n' =>
      s <- wait;;
      if (ret s =? -1)%Z && negb (errno s =? EINTR)%Z then errExit (errno s) "sigsuspend" [] else
      k <- sys (Kill childPid TESTSIG);;
      if (ret k =? -1)%Z then errExit (errno k) "kill" [] else
      parent_rounds wait childPid n'
  end.

(** The two programs differ in the call that waits and in what [sa_handler]
    holds. *)
Definition exchange (sa_handler : disposition) (wait : prog posix rc) (argv : list string) : prog posix Z :=
  if negb (Z.of_nat (length argv) =? 2)%Z || streq (default "" (argv !! 1)) "--help"
  then usageErr ("%s num-sigs" +:+ nl) [AStr (argv_0 argv)] else
  numSigs <- getInt (argv !! 1) GN_GT_0 (Some "num-sigs"%string);;
  a <- sys (Sigaction TESTSIG (Sigact sa_handler 0 0));;
  if (ret a =? -1)%Z then errExit (errno a) "sigaction" [] else
  '(b, _) <- sys (Sigprocmask SIG_SETMASK blockedMask);;
  if (ret b =? -1)%Z then errExit (errno b) "sigprocmask" [] else
  f <- sys Fork;;
  if (ret f =? -1)%Z then errExit (errno f) "fork" []
  else if (ret f =? 0)%Z then child_rounds wait (Z.to_nat numSigs)
  else parent_rounds wait (ret f) (Z.to_nat numSigs).

Definition sig_speed_sigsuspend_main (argv : list string) : prog posix Z :=
  exchange (Handler "handler") (sigsuspend emptyMask) argv.

(** [sa_handler] is never assigned: [garbage] is what it holds. *)
Definition sig_speed_sigwaitinfo_main (garbage : disposition) (argv : list string) : prog posix Z :=
  exchange garbage (sigwaitinfo emptyMask) argv.

(** ** The machine *)

(** A signal sent by a process, or received by it. *)
Inductive sig_event := Sent (i : nat) | Got (i : nat).

(** Whether TESTSIG is pending for the parent and the child, and what happened. *)
Record sigs := Sigs { pend_p : bool; pend_c : bool; log : list sig_event }.

Section machine.
Context (parent child grandparent : Z).

Definition sig_kill (i : nat) (pid : Z) (s : sigs) : rc * sigs :=
  if (pid =? parent)%Z then (Rc 0 0, Sigs true (pend_c s) (log s ++ [Sent i]))
  else if (pid =? child)%Z then (Rc 0 0, Sigs (pend_p s) true (log s ++ [Sent i]))
  else (Rc (-1) ESRCH, s).

(** Process [i] accepts the pending signal, or waits for it. *)
Definition sig_take (i : nat) (a : rc) (s : sigs) : mresult rc sigs :=
  match i with
  | 0 => if pend_p s then MOk a (Sigs false (pend_c s) (log s ++ [Got 0])) else MBlocked
  | _ => if pend_c s then MOk a (Sigs (pend_p s) false (log s ++ [Got 1])) else MBlocked
  end.

(** Process 0 is the parent, process 1 the child.  TESTSIG is blocked in both:
    [sigsuspend] lets it in when its mask does not hold it, [sigwaitinfo] takes
    it when its set does. *)
Definition sig_step (i : nat) (c : posix_op) (s : sigs) : mresult (posix_ans c) sigs :=
  match c as c return mresult (posix_ans c) sigs with
  | Getppid => MOk (Rc (match i with 0 => grandparent | _ => parent end) 0) s
  | Kill pid _ => let '(a, s') := sig_kill i pid s in MOk a s'
  | Sigsuspend mask => if Z.testbit mask (TESTSIG - 1) then MBlocked else sig_take i (Rc (-1) EINTR) s
  | Sigwaitinfo set => if Z.testbit set (TESTSIG - 1) then sig_take i (Rc TESTSIG 0) s else MBlocked
  | _ => MFault
  end.

Definition sig_machine : machine posix sigs := Machine posix sigs sig_step (λ _ _ s, s).

Definition sigs0 : sigs := Sigs false false [].

(** ** The exchange of [n] signals *)

(** One round, and the rounds done when [k] of [n] are left. *)
Definition round : list sig_event := [Sent 1; Got 0; Sent 0; Got 1].
Definition rounds (n : nat) : list sig_event := concat (replicate n round).

(** The ways to wait that let TESTSIG in. *)
Inductive waiting := BySuspend | ByWaitinfo.
Definition wait_call (how : waiting) : prog posix rc :=
  match how with BySuspend => sigsuspend emptyMask | ByWaitinfo => sigwaitinfo blockedMask end.

Local Abbreviation P how k := (parent_rounds (wait_call how) child k).
Local Abbreviation C how k := (child_rounds (wait_call how) k).

(** What is left of a round: of the child's after [getppid] and after [kill], of
    the parent's after its wait. *)
Definition child_sends (how : waiting) (k : nat) : prog posix Z :=
  k0 <- sys (Kill parent TESTSIG);;
  if (ret k0 =? -1)%Z then errExit (errno k0) "kill" [] else
  s <- wait_call how;;
  if (ret s =? -1)%Z && negb (errno s =? EINTR)%Z then errExit (errno s) "sigsuspend" [] else C how k.
Definition child_waits (how : waiting) (k : nat) : prog posix Z :=
  s <- wait_call how;;
  if (ret s =? -1)%Z && negb (errno s =? EINTR)%Z then errExit (errno s) "sigsuspend" [] else C how k.
Definition parent_sends (how : waiting) (k : nat) : prog posix Z :=
  k0 <- sys (Kill child TESTSIG);;
  if (ret k0 =? -1)%Z then errExit (errno k0) "kill" [] else P how k.

Local Abbreviation config := (Conc.config (S := posix) (W := sigs) (A := Z)).
Local Abbreviation step := (cstep sig_machine).

(** The only executions there are: [k] rounds left, and the stages of a round. *)
Definition stage (how : waiting) (n k : nat) (j : nat) : config :=
  let l := rounds (n - S k) in
  match j with
  | 0 => (Sigs false false l, [P how (S k); C how (S k)])
  | 1 => (Sigs false false l, [P how (S k); child_sends how k])
  | 2 => (Sigs true false (l ++ [Sent 1]), [P how (S k); child_waits how k])
  | 3 => (Sigs false false (l ++ [Sent 1; Got 0]), [parent_sends how k; child_waits how k])
  | _ => (Sigs false true (l ++ [Sent 1; Got 0; Sent 0]), [P how k; child_waits how k])
  end.
Definition all_done (n : nat) : config :=
  (Sigs false false (rounds n), [Stop (Exited 0); Stop (Exited 0)]).
Definition after (how : waiting) (n k j : nat) : config :=
  match j with
  | 0 | 1 | 2 | 3 => stage how n k (S j)
  | _ => match k with 0 => all_done n | S k' => stage how n k' 0 end
  end.

Lemma rounds_snoc n k : S k ≤ n → rounds (n - S k) ++ round = rounds (n - k).
Proof.
  intros H. replace (n - k) with (S (n - S k)) by lia. unfold rounds.
  by rewrite replicate_S_end, concat_app.
Qed.

Context (Hpc : parent ≠ child).

Lemma step_ok {i op} {k : posix_ans op → prog posix Z} {ts s a s'} : ts !! i = Some (Sys op k) →
  sig_step i op s = MOk a s' → sched_step sig_machine i (s, ts) = Some (s', <[i := k a]> ts).
Proof. intros H E. unfold sched_step. cbn [snd fst]. rewrite H. change (mstep sig_machine i op s) with (sig_step i op s). by rewrite E. Qed.

Lemma step_blocked {i op} {k : posix_ans op → prog posix Z} {ts s} : ts !! i = Some (Sys op k) →
  sig_step i op s = MBlocked → sched_step sig_machine i (s, ts) = None.
Proof. intros H E. unfold sched_step. cbn [snd fst]. rewrite H. change (mstep sig_machine i op s) with (sig_step i op s). by rewrite E. Qed.

Lemma kill_parent i sig s : sig_step i (Kill parent sig) s = MOk (Rc 0 0) (Sigs true (pend_c s) (log s ++ [Sent i])).
Proof. cbn. unfold sig_kill. by rewrite Z.eqb_refl. Qed.
Lemma kill_child i sig s : sig_step i (Kill child sig) s = MOk (Rc 0 0) (Sigs (pend_p s) true (log s ++ [Sent i])).
Proof. cbn. unfold sig_kill. by rewrite (proj2 (Z.eqb_neq _ _) (not_eq_sym Hpc)), Z.eqb_refl. Qed.

Ltac moves := unfold stage; eapply eq_trans; [eapply step_ok; [reflexivity|]|].

(** The process that moves in a stage. *)
Definition mover (j : nat) : nat := match j with 0 | 1 | 4 => 1 | _ => 0 end.

Lemma stage_moves how n k j : S k ≤ n → j ≤ 4 →
  sched_step sig_machine (mover j) (stage how n k j) = Some (after how n k j).
Proof.
  intros Hk Hj. destruct j as [|[|[|[|[|j]]]]]; [| | | | |lia]; cbn [mover].
  - by destruct how.
  - moves; [apply kill_parent|]. by destruct how.
  - destruct how; (moves; [reflexivity|]); cbn [pend_p pend_c log]; rewrite <- app_assoc; reflexivity.
  - destruct how; (moves; [apply kill_child|]); cbn [pend_p pend_c log]; rewrite <- app_assoc; reflexivity.
  - destruct how; (moves; [reflexivity|]); cbn [pend_p pend_c log]; rewrite <- app_assoc;
      change ([Sent 1; Got 0; Sent 0] ++ [Got 1]) with round; rewrite rounds_snoc by done;
      (destruct k as [|k]; [by rewrite Nat.sub_0_r|reflexivity]).
Qed.

Lemma stage_waits how n k j i : S k ≤ n → j ≤ 4 → i ≠ mover j → sched_step sig_machine i (stage how n k j) = None.
Proof.
  intros Hk Hj Hi. destruct i as [|[|i]]; [| |by destruct j as [|[|[|[|]]]]];
    (destruct j as [|[|[|[|[|j]]]]]; cbn [mover] in Hi; [| | | | |lia]; try done);
    destruct how; try (by (unfold stage; eapply step_blocked; [reflexivity|reflexivity])); destruct k; try done; by (unfold stage; eapply step_blocked; [reflexivity|reflexivity]).
Qed.

Lemma done_waits n i : sched_step sig_machine i (all_done n) = None.
Proof. by destruct i as [|[|i]]. Qed.

(** What can be reached, and that every step stays there. *)
Inductive exchanging (how : waiting) (n : nat) : config → Prop :=
| in_stage k j : S k ≤ n → j ≤ 4 → exchanging how n (stage how n k j)
| at_end : exchanging how n (all_done n).

Lemma exchanging_start how n : exchanging how n (sigs0, [P how n; C how n]).
Proof.
  destruct n as [|n]; [apply at_end|]. replace (sigs0, _) with (stage how (S n) n 0); [apply in_stage; lia|].
  unfold stage. by rewrite Nat.sub_diag.
Qed.

Lemma exchanging_step how n c c' : exchanging how n c → step c c' → exchanging how n c'.
Proof.
  intros H [i Hi]. destruct H as [k j Hk Hj|]; [|by rewrite done_waits in Hi].
  destruct (decide (i = mover j)) as [->|Hne]; [|by rewrite stage_waits in Hi].
  rewrite stage_moves in Hi by done. injection Hi as <-.
  destruct j as [|[|[|[|[|j]]]]]; [apply in_stage; lia..| |lia].
  destruct k as [|k]; [apply at_end|apply in_stage; lia].
Qed.

Lemma exchanging_next how n c : exchanging how n c → (∃ c', step c c') ∨ c = all_done n.
Proof.
  intros [k j Hk Hj|]; [left|by right]. eexists. exists (mover j). by apply stage_moves.
Qed.

Lemma exchanging_det how n c c1 c2 : exchanging how n c → step c c1 → step c c2 → c1 = c2.
Proof.
  intros H [i Hi] [j Hj]. destruct H as [k m Hk Hm|]; [|by rewrite done_waits in Hi].
  destruct (decide (i = mover m)) as [->|Hne]; [|by rewrite stage_waits in Hi].
  destruct (decide (j = mover m)) as [->|Hne]; [congruence|by rewrite stage_waits in Hj].
Qed.

Lemma exchanging_safe how n c : exchanging how n c → (∀ i, ¬ faulty sig_machine i c) ∧
  (∀ k, c.2 !! 1 = Some (Sys Getppid k) → ∃ p, c.2 !! 0 = Some p ∧ Conc.finished p = false).
Proof.
  intros H. split.
  - intros i (op & q & Hi & Hf). destruct H as [k j Hk Hj|]; [|by destruct i as [|[|i]]].
    destruct i as [|[|i]]; (destruct j as [|[|[|[|[|j]]]]]; [| | | | |lia]); destruct how, k; try done;
      cbn -[sig_kill] in Hi; injection Hi as <-; cbn in Hf; try done; unfold sig_kill in Hf; repeat case_match; done.
  - intros q Hq. destruct H as [k j Hk Hj|]; [|done].
    destruct j as [|[|[|[|[|j]]]]]; [| | | | |lia]; eexists; (split; [reflexivity|]); destruct how; try done.
Qed.

(** *** Waiting for the empty set *)

(** The parent waits for ever, and so does the child once it has sent. *)
Definition empty_wait : prog posix rc := sigwaitinfo emptyMask.
Local Abbreviation P0 n := (parent_rounds empty_wait child n).
Definition deaf_sends (k : nat) : prog posix Z :=
  k0 <- sys (Kill parent TESTSIG);;
  if (ret k0 =? -1)%Z then errExit (errno k0) "kill" [] else
  s <- empty_wait;;
  if (ret s =? -1)%Z && negb (errno s =? EINTR)%Z then errExit (errno s) "sigsuspend" [] else child_rounds empty_wait k.
Definition deaf_waits (k : nat) : prog posix Z :=
  s <- empty_wait;;
  if (ret s =? -1)%Z && negb (errno s =? EINTR)%Z then errExit (errno s) "sigsuspend" [] else child_rounds empty_wait k.

Definition deaf (n : nat) (j : nat) : config :=
  match j with
  | 0 => (sigs0, [P0 (S n); child_rounds empty_wait (S n)])
  | 1 => (sigs0, [P0 (S n); deaf_sends n])
  | _ => (Sigs true false [Sent 1], [P0 (S n); deaf_waits n])
  end.

Lemma deaf_steps n j i c : sched_step sig_machine i (deaf n j) = Some c → ∃ j', c = deaf n j'.
Proof.
  intros H. destruct i as [|[|i]]; [by destruct j as [|[|j]]| |by destruct j as [|[|j]]].
  destruct j as [|[|j]]; [| |done].
  - injection H as <-. by exists 1.
  - exists 2. assert (sched_step sig_machine 1 (deaf n 1) = Some (deaf n 2)) as E; [|congruence].
    eapply eq_trans; [eapply step_ok; [reflexivity|apply kill_parent]|]. reflexivity.
Qed.

Lemma deaf_reached n c : rtc step (sigs0, [P0 (S n); child_rounds empty_wait (S n)]) c → ∃ j, c = deaf n j.
Proof.
  intros H. remember (sigs0, _) as c0 eqn:E in H. assert (∃ j, c0 = deaf n j) as Hc by (exists 0; done). clear E.
  induction H as [c|c c1 c2 [i Hi] _ IH]; [done|]. apply IH. destruct Hc as [j ->]. by eapply deaf_steps.
Qed.
End machine.

(** ** The program up to [fork] *)

Lemma errExit_forkless {A} e f ap : forkless (@ErrorFunctions.errExit ename strerror A e f ap).
Proof.
  unfold ErrorFunctions.errExit, outputError. destruct (vformat _ _); [|done]. unfold when, put, eprintf. cbn.
  split; [done|]. intros a. by repeat case_match.
Qed.

Lemma rounds_forkless wait pid n : forkless wait → forkless (child_rounds wait n) ∧ forkless (parent_rounds wait pid n).
Proof.
  intros Hw. induction n as [|n [IH1 IH2]]; [by split|]. cbn [child_rounds parent_rounds]. unfold sys. cbn [bind]. split.
  - split; [done|]. intros p. split; [done|]. intros k. cbn [bind]. destruct (ret k =? -1)%Z; [apply errExit_forkless|].
    apply forkless_bind; [done|]. intros s. destruct (_ && _); [apply errExit_forkless|done].
  - apply forkless_bind; [done|]. intros s. destruct (_ && _); [apply errExit_forkless|]. cbn [bind].
    split; [done|]. intros k. destruct (ret k =? -1)%Z; [apply errExit_forkless|done].
Qed.

(** TESTSIG has its disposition and is blocked. *)
Definition prepared (d : disposition) (t : list (event posix)) : Prop :=
  ∃ a b o, t = [ECall (S := posix) (Sigaction TESTSIG (Sigact d 0 0)) a;
                ECall (S := posix) (Sigprocmask SIG_SETMASK blockedMask) (b, o)] ∧
  ret a ≠ (-1)%Z ∧ ret b ≠ (-1)%Z.

Lemma exchange_prepared {W} (K : kernel posix W) d wait argv w : forkless wait →
  wp K (exchange d wait argv) w (λ _ _ t, before_each is_fork (prepared d) t).
Proof.
  intros Hw. unfold exchange. destruct (_ || _).
  { apply wpa_wp, forkless_ok; [|apply before_each_nil]. unfold usageErr. by destruct (vformat _ _). }
  destruct (getInt_or_diagnoses (S := posix) (argv !! 1) GN_GT_0 (Some "num-sigs")) as [(z & Hz & ->)|[_ Hd]].
  2: { apply wpa_wp, forkless_ok; [|apply before_each_nil]. induction Hd as [|s k Hk IH]; [done|]. exact IH. }
  cbn [bind]. apply wpa_wp.
  assert (∀ t e, before_each is_fork (prepared d) t → ¬ is_fork e → before_each is_fork (prepared d) (t ++ [e])) as Hs by (intros; by apply before_each_snoc).
  pose proof (before_each_nil is_fork (prepared d)) as H0.
  acc_call; [|apply Hs; [done|by intros []]].
  match goal with |- wpa _ ?t _ _ _ => assert (before_each is_fork (prepared d) t) as H1 by (apply Hs; [done|by intros []]) end.
  destruct (ret a =? -1)%Z eqn:E1; zbool; [by apply forkless_ok; [apply errExit_forkless|]|].
  acc_call; [|apply Hs; [done|by intros []]]. destruct a0 as [b o].
  match goal with |- wpa _ ?t _ _ _ => assert (before_each is_fork (prepared d) t) as H3 by (apply Hs; [done|by intros []]) end.
  destruct (ret b =? -1)%Z eqn:E2; zbool; [by apply forkless_ok; [apply errExit_forkless|]|].
  match goal with |- wpa _ ?t _ _ _ => assert (∀ e, before_each is_fork (prepared d) (t ++ [e])) as Hf end.
  { intros e. apply before_each_snoc; [done|]. intros _. by exists a, b, o. }
  acc_call; [|apply Hf]. destruct (ret a0 =? -1)%Z; [apply forkless_ok; [apply errExit_forkless|apply Hf]|].
  destruct (rounds_forkless wait (ret a0) (Z.to_nat z) Hw) as [Hc Hp].
  by destruct (ret a0 =? 0)%Z; apply forkless_ok.
Qed.

End programs.

