(* ===== verification/FileRaces.v ===== *)
(** * Processes that share files

    CH05/atomic_append/atomic_append.c: several instances append to one file;
    with O_APPEND no interleaving of them loses a byte, without it one does.
    CH55/flock_deadlock/flock_deadlock.c: parent and child lock two files in
    opposite orders, through descriptors opened before [fork].  The processes
    are threads of control of a machine that holds the file, or the locks. *)
From Stdlib Require Import ZArith Lia Ascii String.
From stdpp Require Import base gmap strings list relations.
From S2P Require Import Prelude Prog CString Posix Conc.
Local Open Scope prog_scope.

(** ** atomic_append.c *)

(** [char character = (i + 33) % 127], for [i] not negative. *)
Definition character (i : Z) : ascii := chr ((i + 33) mod 127).

(** The loop with [n] bytes left to write; [i] is an [int]. *)
Fixpoint append_bytes (fd flag : Z) (n : nat) (i : Z) : prog posix Z :=
  match n with
  | O => exit EXIT_SUCCESS
  | S n' =>
      when (Z.land flag O_APPEND =? 0)%Z (sys (Lseek fd 0 SEEK_END) ;;; Ret tt) ;;;
      w <- sys (Write fd [character i]);;
      if negb (ret w =? 1)%Z then printf ("could not write the file" +:+ nl) ;;; exit EXIT_FAILURE
      else if (i =? INT_MAX)%Z then undef "signed overflow"
      else append_bytes fd flag n' (i + 1)
  end.

Definition append_flag (argv : list string) : Z :=
  let flag := Z.lor O_CREAT O_RDWR in
  if (length argv =? 4) && streq (default "" (argv !! 3)) "x" then Z.lor flag O_APPEND else flag.

Definition atomic_append_main (argv : list string) : prog posix Z :=
  if (length argv <? 3) || (5 <? length argv) || streq (default "" (argv !! 1)) "--help"
  then printf ("Usage: " +:+ argv_0 argv +:+ " filename numBytes [x]" +:+ nl) ;;; exit EXIT_FAILURE else
  let flag := append_flag argv in
  fd <- sys (Open (default "" (argv !! 1)) flag MODE_0666);;
  if (ret fd =? -1)%Z then perror "could not open file" (errno fd) ;;; exit EXIT_FAILURE else
  let numBytes := st_val (strtol (to_bytes (default "" (argv !! 2))) 10) in
  append_bytes (ret fd) flag (Z.to_nat numBytes) 0.

(** *** One file, several processes *)

(** The contents, the offset and the flag of each process's open file
    description, and which process wrote which byte, in order. *)
Record shared := Shared { content : bytes; opened : gmap nat (Z * bool); wrote : list (nat * ascii) }.

(** A write of one byte at offset [pos] of a file. *)
Definition put_at (f : bytes) (pos : nat) (b : ascii) : bytes :=
  take pos f ++ replicate (pos - length f) NUL ++ b :: drop (S pos) f.

(** The descriptor every process gets. *)
Definition FD : Z := 3.

Section one_file.
Context (path : string).

Definition append_step (i : nat) (c : posix_op) (s : shared) : mresult (posix_ans c) shared :=
  match c as c return mresult (posix_ans c) shared with
  | Open p flags _ => if negb (streq p path) then MFault else
      MOk (Rc FD 0) (Shared (content s) (<[i := (0, negb (Z.land flags O_APPEND =? 0))%Z]> (opened s)) (wrote s))
  | Lseek fd off whence =>
      match opened s !! i with
      | Some (_, a) =>
          if (fd =? FD)%Z && (whence =? SEEK_END)%Z then
            let pos := (Z.of_nat (length (content s)) + off)%Z in
            MOk (Rc pos 0) (Shared (content s) (<[i := (pos, a)]> (opened s)) (wrote s))
          else MFault
      | None => MFault
      end
  | Write fd [b] =>
      match opened s !! i with
      | Some (pos, a) =>
          if (fd =? FD)%Z then
            let at_ := if a : bool then length (content s) else Z.to_nat pos in
            MOk (Rc 1 0) (Shared (put_at (content s) at_ b)
              (<[i := (Z.of_nat at_ + 1, a)%Z]> (opened s)) (wrote s ++ [(i, b)]))
          else MFault
      | None => MFault
      end
  | _ => MFault
  end.

Definition append_machine : machine posix shared := Machine posix shared append_step (λ _ _ s, s).

(** *** Correctness *)

(** What process [i] wrote, in order, and the first [n] characters from [k]. *)
Definition mine (i : nat) (s : shared) : bytes := (filter (λ e, e.1 = i) (wrote s)).*2.
Definition pattern (k n : nat) : bytes := (λ j, character (Z.of_nat j)) <$> seq k n.

Lemma pattern_snoc k n : pattern k (S n) = pattern k n ++ [character (Z.of_nat (k + n))].
Proof. unfold pattern. by rewrite seq_S, fmap_app. Qed.
Lemma pattern_cons k n : pattern k (S n) = character (Z.of_nat k) :: pattern (S k) n.
Proof. done. Qed.

Lemma put_at_end f b : put_at f (length f) b = f ++ [b].
Proof. unfold put_at. rewrite Nat.sub_diag, drop_ge, firstn_all by lia. done. Qed.
Lemma put_at_last f a b : put_at (f ++ [a]) (length f) b = f ++ [b].
Proof.
  unfold put_at. rewrite length_app. cbn [length]. replace (length f - (length f + 1)) with 0 by lia.
  rewrite take_app_length, drop_ge by (rewrite length_app; cbn; lia). done.
Qed.

Lemma counted (N : nat) (l : list (nat * ascii)) : Forall (λ e, e.1 < N) l →
  length l = sum_list ((λ i, length (filter (λ e, e.1 = i) l)) <$> seq 0 N).
Proof.
  induction 1 as [|[j b] l Hj _ IH]; cbn [fst] in *.
  - cbn. induction (seq 0 N) as [|x xs IHx]; [done|]. cbn. by rewrite <- IHx.
  - cbn [length]. rewrite IH. clear IH.
    assert (∀ xs, NoDup xs → sum_list ((λ i, length (filter (λ e : nat * ascii, e.1 = i) ((j, b) :: l))) <$> xs) =
      (if decide (j ∈ xs) then 1 else 0) + sum_list ((λ i, length (filter (λ e : nat * ascii, e.1 = i) l)) <$> xs)) as H.
    { induction 1 as [|x xs Hx Hn IHx]; [done|]. cbn [fmap list_fmap sum_list]. rewrite IHx, filter_cons. cbn [fst].
      destruct (decide (j = x)) as [->|Hne].
      - rewrite (decide_False (P := x ∈ xs)), (decide_True (P := x ∈ x :: xs)) by (done || by left). cbn. lia.
      - destruct (decide (j ∈ xs)) as [Hin|Hout].
        + rewrite (decide_True (P := j ∈ x :: xs)) by by right. lia.
        + rewrite (decide_False (P := j ∈ x :: xs)) by (intros [->|?]%elem_of_cons; done). lia. }
    rewrite H by apply NoDup_seq. rewrite decide_True; [done|]. apply elem_of_seq. lia.
Qed.

Section appending.
Context (old : bytes) (N : nat).

Record append_inv (s : shared) : Prop := {
  ai_content : content s = old ++ (wrote s).*2;
  ai_flags : ∀ i pos a, opened s !! i = Some (pos, a) → a = true;
  ai_known : Forall (λ e, e.1 < N) (wrote s) }.

Definition append_rely (i : nat) (s s' : shared) : Prop :=
  mine i s' = mine i s ∧ opened s' !! i = opened s !! i.

#[global] Instance append_rely_preorder i : PreOrder (append_rely i).
Proof. split; [by split|]. intros a b c [H1 H2] [H3 H4]. split; congruence. Qed.

Abbreviation append_rg := (rg append_machine append_inv append_rely (λ _ _, False)).

Lemma mine_other i j b l o w : j ≠ i → mine j (Shared l o (w ++ [(i, b)])) = (filter (λ e : nat * ascii, e.1 = j) w).*2.
Proof.
  intros H. unfold mine. cbn [wrote]. rewrite filter_app, filter_cons_False by (cbn; congruence). cbn. by rewrite app_nil_r.
Qed.
Lemma mine_same i b l o w : mine i (Shared l o (w ++ [(i, b)])) = (filter (λ e : nat * ascii, e.1 = i) w).*2 ++ [b].
Proof. unfold mine. cbn [wrote]. by rewrite filter_app, filter_cons_True, fmap_app. Qed.

Lemma append_write_ok i s b pos (k : rc → prog posix Z) Q : i < N → opened s !! i = Some (pos, true) →
  (∀ s', mine i s' = mine i s ++ [b] → (∃ pos', opened s' !! i = Some (pos', true)) → append_rg i (k (Rc 1 0)) Q s') →
  append_rg i (Sys (Write FD [b]) k) Q s.
Proof.
  intros Hi Ho Hk s1 [Hm Hr] HI. rewrite Ho in Hr.
  change (mstep append_machine i (Write FD [b]) s1) with (append_step i (Write FD [b]) s1). cbn [append_step].
  rewrite Hr. change (FD =? FD)%Z with true. cbn match.
  set (s2 := Shared _ _ _). assert (mine i s2 = mine i s ++ [b]) as Hm2 by (rewrite <- Hm; apply mine_same).
  split; [split|].
  - destruct HI as [H1 H2 H3]. constructor; cbn [content opened wrote s2].
    + rewrite put_at_end, H1, fmap_app. cbn. by rewrite <- app_assoc.
    + intros j p a. destruct (decide (i = j)) as [<-|Hne]; [rewrite lookup_insert_eq; congruence|].
      rewrite lookup_insert_ne by done. apply H2.
    + apply Forall_app. split; [done|]. by repeat constructor.
  - intros j Hj. split; [by apply mine_other|]. cbn [opened s2]. by rewrite lookup_insert_ne.
  - apply Hk; [done|]. eexists. cbn [opened s2]. apply lookup_insert_eq.
Qed.

Definition append_post (n : nat) (i : nat) (r : outcome Z) (s : shared) : Prop :=
  r = Halted (Exited 0) ∧ mine i s = pattern 0 n.

Lemma append_bytes_ok flag i n z s pos : i < N → (Z.land flag O_APPEND =? 0)%Z = false →
  (Z.of_nat (z + n) <= INT_MAX)%Z → opened s !! i = Some (pos, true) → mine i s = pattern 0 z →
  append_rg i (append_bytes FD flag n (Z.of_nat z)) (append_post (z + n) i) s.
Proof.
  intros Hi Hf. revert z s pos. induction n as [|n IH]; intros z s pos Hz Ho Hm; cbn [append_bytes].
  - intros s' [Hm' _] _. split; [done|]. rewrite Nat.add_0_r. congruence.
  - rewrite Hf. unfold when, sys. cbn [bind]. eapply append_write_ok; [done|done|]. intros s' Hm' [pos' Ho'].
    cbn [ret]. change (negb (1 =? 1)%Z) with false. cbv iota.
    destruct (Z.of_nat z =? INT_MAX)%Z eqn:E; zbool; [lia|].
    replace (Z.of_nat z + 1)%Z with (Z.of_nat (S z)) by lia. rewrite <- Nat.add_succ_comm.
    apply (IH (S z) s' pos'); [lia|done|]. by rewrite Hm', Hm, pattern_snoc.
Qed.
End appending.

(** An instance: the words of its command line after the program's name. *)
Definition with_append (job : string * string) : list string := [job.1; path; job.2; "x"].
Definition without_append (job : string * string) : list string := [job.1; path; job.2].
Definition count (job : string * string) : nat := Z.to_nat (st_val (strtol (to_bytes job.2) 10)).

Context (Hpath : path ≠ "--help").

Lemma path_ok : streq path "--help" = false.
Proof. apply not_true_is_false. by intros H%streq_true. Qed.

Lemma main_ok old N i job s : i < N → (Z.of_nat (count job) <= INT_MAX)%Z → mine i s = [] →
  rg append_machine (append_inv old N) append_rely (λ _ _, False) i
    (atomic_append_main (with_append job)) (append_post (count job) i) s.
Proof.
  intros Hi Hn Hm. unfold atomic_append_main, with_append. cbn [length Nat.ltb Nat.leb orb list_lookup lookup default].
  cbn. rewrite path_ok. unfold append_flag. cbn [length Nat.eqb andb]. cbn.
  intros s1 [Hm1 _] HI. change (mstep append_machine i ?c s1) with (append_step i c s1). cbn [append_step].
  rewrite streq_refl. change (streq "x" "x") with true. cbn match. cbn [negb].
  change (FD =? -1)%Z with false. cbv iota. cbn [ret].
  match goal with |- guar _ _ _ _ ?s' ∧ _ => set (s2 := s') end.
  assert (mine i s2 = []) as Hm2 by (rewrite <- Hm, <- Hm1; done).
  split; [split|].
  - destruct HI as [H1 H2 H3]. constructor; cbn [content opened wrote s2]; [done| |done].
    intros j p a. destruct (decide (i = j)) as [<-|Hne]; [rewrite lookup_insert_eq; by intros [= <- <-]|].
    rewrite lookup_insert_ne by done. apply H2.
  - intros j Hj. split; [done|]. cbn [opened s2]. by rewrite lookup_insert_ne.
  - change 0%Z with (Z.of_nat 0). apply (append_bytes_ok old N _ i (count job) 0 s2 0); [done|done|done| |done].
    cbn [opened s2]. by rewrite lookup_insert_eq.
Qed.

Definition seek_flag : Z := Z.lor O_CREAT O_RDWR.
Definition after_lseek (n : nat) (i : Z) : prog posix Z :=
  w <- sys (Write FD [character i]);;
  if negb (ret w =? 1)%Z then printf ("could not write the file" +:+ nl) ;;; exit EXIT_FAILURE
  else if (i =? INT_MAX)%Z then undef "signed overflow" else append_bytes FD seek_flag n (i + 1).

Lemma step_lseek i n z c pos : c.2 !! i = Some (append_bytes FD seek_flag (S n) z) →
  opened c.1 !! i = Some (pos, false) →
  sched_step append_machine i c =
    Some (Shared (content c.1) (<[i := (Z.of_nat (length (content c.1)), false)]> (opened c.1)) (wrote c.1),
          <[i := after_lseek n z]> c.2).
Proof.
  intros H Ho. unfold sched_step. rewrite H. cbn [append_bytes]. change (Z.land seek_flag O_APPEND =? 0)%Z with true.
  unfold when, sys. cbn [bind]. change (mstep append_machine i (Lseek FD 0 SEEK_END) c.1) with (append_step i (Lseek FD 0 SEEK_END) c.1). cbn [append_step].
  rewrite Ho. change ((FD =? FD)%Z && (SEEK_END =? SEEK_END)%Z) with true. cbn match. by rewrite Z.add_0_r.
Qed.

Lemma step_write i n z c pos : c.2 !! i = Some (after_lseek n z) → (z < INT_MAX)%Z →
  opened c.1 !! i = Some (pos, false) →
  sched_step append_machine i c =
    Some (Shared (put_at (content c.1) (Z.to_nat pos) (character z))
            (<[i := (Z.of_nat (Z.to_nat pos) + 1, false)%Z]> (opened c.1)) (wrote c.1 ++ [(i, character z)]),
          <[i := append_bytes FD seek_flag n (z + 1)]> c.2).
Proof.
  intros H Hz Ho. unfold sched_step. rewrite H. unfold after_lseek, sys. cbn [bind].
  change (mstep append_machine i (Write FD [character z]) c.1) with (append_step i (Write FD [character z]) c.1). cbn [append_step].
  rewrite Ho. change (FD =? FD)%Z with true. cbn match. cbn [ret]. change (negb (1 =? 1)%Z) with false. cbv iota.
  by rewrite (proj2 (Z.eqb_neq z INT_MAX)) by lia.
Qed.

(** Two instances without O_APPEND in step with one another: the second writes
    over what the first wrote. *)
Lemma in_step_rounds n z s pos0 pos1 :
  (Z.of_nat (z + n) <= INT_MAX)%Z → opened s !! 0 = Some (pos0, false) → opened s !! 1 = Some (pos1, false) →
  let p := append_bytes FD seek_flag n (Z.of_nat z) in
  let c := schedule append_machine (concat (replicate n [0; 1; 0; 1])) (s, [p; p]) in
  content c.1 = content s ++ pattern z n ∧ c.2 = [Stop (Exited 0); Stop (Exited 0)].
Proof.
  revert z s pos0 pos1. induction n as [|n IH]; intros z s pos0 pos1 Hz H0 H1; cbv zeta.
  { cbn. by rewrite app_nil_r. }
  cbn [replicate concat app schedule].
  erewrite (step_lseek 0 n (Z.of_nat z)); [|reflexivity|exact H0]. cbn [default id fst snd].
  erewrite (step_lseek 1 n (Z.of_nat z)); [|reflexivity|cbn; by rewrite lookup_insert_ne]. cbn [default id fst snd content].
  erewrite (step_write 0 n (Z.of_nat z)); [|reflexivity|lia|cbn; rewrite lookup_insert_ne by done; apply lookup_insert_eq].
  cbn [default id fst snd]. erewrite (step_write 1 n (Z.of_nat z)); [|reflexivity|lia|cbn; rewrite lookup_insert_ne by done; apply lookup_insert_eq].
  cbn [default id fst snd content opened wrote]. rewrite !Nat2Z.id, put_at_end, put_at_last.
  rewrite pattern_cons.
  replace (Z.of_nat z + 1)%Z with (Z.of_nat (S z)) by lia.
  match goal with |- context [schedule _ _ (?s2, _)] => destruct (IH (S z) s2 (Z.of_nat (length (content s)) + 1) (Z.of_nat (length (content s)) + 1))%Z as [E1 E2] end.
  - lia.
  - cbn. rewrite lookup_insert_ne by done. apply lookup_insert_eq.
  - apply lookup_insert_eq.
  - split; [etrans; [exact E1|]; cbn; by rewrite <- app_assoc|exact E2].
Qed.


(** All instances started on a file that holds [old]. *)
Definition instances (argv : string * string → list string) (old : bytes) (jobs : list (string * string)) : Conc.config :=
  (Shared old ∅ [], (λ job, atomic_append_main (argv job)) <$> jobs).

(** Two instances in step: open both, then seek, seek, write, write, ... *)
Definition in_step (n : nat) : list nat := [0; 1] ++ concat (replicate n [0; 1; 0; 1]).

Definition after_open (n : nat) (fd : rc) : prog posix Z :=
  if (ret fd =? -1)%Z then perror "could not open file" (errno fd) ;;; exit EXIT_FAILURE
  else append_bytes (ret fd) seek_flag n 0.

Lemma in_step_loses old name1 name2 num : (Z.of_nat (count (name1, num)) <= INT_MAX)%Z →
  let c := schedule append_machine (in_step (count (name1, num))) (instances without_append old [(name1, num); (name2, num)]) in
  content c.1 = old ++ pattern 0 (count (name1, num)) ∧ c.2 = [Stop (Exited 0); Stop (Exited 0)].
Proof.
  intros Hn c. subst c. unfold in_step. cbn [app].
  assert (∀ name, atomic_append_main (without_append (name, num)) = Sys (Open path seek_flag MODE_0666) (after_open (count (name1, num)))) as Hmain.
  { intros name. unfold atomic_append_main, without_append. cbn. by rewrite path_ok. }
  unfold instances. cbn [fmap list_fmap]. rewrite !Hmain.
  assert (∀ i s ts, ts !! i = Some (Sys (Open path seek_flag MODE_0666) (after_open (count (name1, num)))) → sched_step append_machine i (s, ts) =
    Some (Shared (content s) (<[i := (0, false)%Z]> (opened s)) (wrote s),
          <[i := append_bytes FD seek_flag (count (name1, num)) (Z.of_nat 0)]> ts)) as Ho.
  { intros i s ts H. unfold sched_step. cbn [fst snd]. rewrite H.
    change (mstep append_machine i (Open path seek_flag MODE_0666) s) with (append_step i (Open path seek_flag MODE_0666) s). cbn [append_step].
    rewrite streq_refl. reflexivity. }
  cbn [schedule]. erewrite Ho by reflexivity. cbn [default id]. erewrite Ho by reflexivity. cbn [default id content opened wrote].
  match goal with |- context [schedule _ _ (?s2, _)] => destruct (in_step_rounds (count (name1, num)) 0 s2 0 0)%Z as [E1 E2] end.
  - lia.
  - cbn. rewrite lookup_insert_ne by done. apply lookup_insert_eq.
  - apply lookup_insert_eq.
  - split; [exact E1|exact E2].
Qed.

(** With O_APPEND every interleaving keeps all bytes. *)
Lemma append_good old jobs : Forall (λ job, Z.of_nat (count job) <= INT_MAX)%Z jobs →
  good append_machine (append_inv old (length jobs)) append_rely (λ _ _, False)
    (λ i, append_post (default 0 (count <$> jobs !! i)) i) (length jobs) (instances with_append old jobs).
Proof.
  intros Hj. split; [constructor; cbn; [by rewrite app_nil_r|done|done]|]. split; [cbn; by rewrite length_fmap|].
  intros i p Hi. cbn in Hi. rewrite list_lookup_fmap in Hi. apply fmap_Some in Hi as (job & Hi & ->). rewrite Hi. cbn [default fmap option_fmap option_map].
  rewrite Forall_lookup in Hj. apply main_ok; [by eapply lookup_lt_Some|by eapply Hj|done].
Qed.

Lemma append_results old jobs c : Forall (λ job, Z.of_nat (count job) <= INT_MAX)%Z jobs →
  rtc (cstep append_machine) (instances with_append old jobs) c →
  (∀ i, ¬ faulty append_machine i c) ∧ content c.1 = old ++ (wrote c.1).*2 ∧
  (∃ c', rtc (cstep append_machine) c c' ∧ Forall (λ p, Conc.finished p = true) c'.2) ∧
  (Forall (λ p, Conc.finished p = true) c.2 →
    (∀ i job, jobs !! i = Some job → c.2 !! i = Some (Stop (Exited 0)) ∧ mine i c.1 = pattern 0 (count job)) ∧
    length (content c.1) = length old + sum_list (count <$> jobs)).
Proof.
  intros Hj Hs. pose proof (append_good old jobs Hj) as H0.
  destruct (rg_sound _ _ _ _ _ _ _ _ H0 Hs) as (Hgood & Hf & Hret & Hstop).
  split_and!; [done|apply Hgood| |].
  { eapply rg_completes; [exact append_rely_preorder|by intros ?? _ Hno; destruct (Hno : False)|exact Hgood]. }
  intros Hfin. assert (∀ i job, jobs !! i = Some job → c.2 !! i = Some (Stop (Exited 0)) ∧ mine i c.1 = pattern 0 (count job)) as Hall.
  { intros i job Hi. pose proof (lookup_lt_Some _ _ _ Hi) as Hlt. rewrite <- (proj1 (proj2 Hgood)) in Hlt.
    apply lookup_lt_is_Some in Hlt as [p Hp]. pose proof (Forall_lookup_1 _ _ _ _ Hfin Hp) as Hp'.
    destruct p as [a|h|o k|op k]; [by destruct (Hret i a Hp)|destruct (Hstop i h Hp) as [E1 E2]|done|done].
    injection E1 as ->. by rewrite Hi in E2. }
  split; [done|]. destruct Hgood as ([H1 _ H3] & _ & _). rewrite H1, length_app, length_fmap, (counted _ _ H3). f_equal.
  f_equal. apply list_eq. intros i. rewrite !list_lookup_fmap.
  destruct (jobs !! i) as [job|] eqn:Hi.
  - rewrite lookup_seq_lt by (by eapply lookup_lt_Some). cbn. f_equal. destruct (Hall i job Hi) as [_ Hm].
    apply (f_equal length) in Hm. unfold mine in Hm. rewrite length_fmap in Hm. rewrite Hm. unfold pattern. by rewrite length_fmap, length_seq.
  - rewrite lookup_seq_ge; [done|]. by apply lookup_ge_None.
Qed.

End one_file.

Lemma atomic_append_ok (path : string) (old : bytes) : path ≠ "--help" →
  let M := append_machine path in
  (∀ jobs c, Forall (λ job, Z.of_nat (count job) <= INT_MAX)%Z jobs →
    rtc (cstep M) (instances (with_append path) old jobs) c →
    (∀ i, ¬ faulty M i c) ∧ content c.1 = old ++ (wrote c.1).*2 ∧ Acc (flip (cstep M)) c ∧
    (∃ c', rtc (cstep M) c c' ∧ Forall (λ p, Conc.finished p = true) c'.2) ∧
    (Forall (λ p, Conc.finished p = true) c.2 →
      (∀ i job, jobs !! i = Some job → c.2 !! i = Some (Stop (Exited 0)) ∧ mine i c.1 = pattern 0 (count job)) ∧
      length (content c.1) = length old + sum_list (count <$> jobs))) ∧
  (∀ name1 name2 num, (Z.of_nat (count (name1, num)) <= INT_MAX)%Z →
    ∃ c, rtc (cstep M) (instances (without_append path) old [(name1, num); (name2, num)]) c ∧
      c.2 = [Stop (Exited 0); Stop (Exited 0)] ∧ length (content c.1) = length old + count (name1, num)).
Proof.
  intros Hp M. split.
  - intros jobs c Hj Hs. destruct (append_results path Hp old jobs c Hj Hs) as (H1 & H2 & H3 & H4).
    split_and!; [done|done|apply cstep_terminates|done|done].
  - intros name1 name2 num Hn. destruct (in_step_loses path Hp old name1 name2 num Hn) as [E1 E2].
    eexists. split; [apply schedule_steps|]. split; [exact E2|]. etrans; [exact (f_equal length E1)|]. rewrite length_app.
    unfold pattern. by rewrite length_fmap, length_seq.
Qed.


(** ** flock_deadlock.c *)

Definition LOCK_EX : Z := 2.
Definition LOCK_NB : Z := 4.
Definition LOCK_UN : Z := 8.

Definition flock_child (file1FD file2FD : Z) : prog posix Z :=
  a <- sys (Flock file1FD LOCK_EX);;
  if (ret a =? -1)%Z then perror "flock child lock file1" (errno a) ;;; quick_exit EXIT_FAILURE else
  sys (Sleep 1) ;;;
  b <- sys (Flock file2FD (Z.lor LOCK_EX LOCK_NB));;
  if (ret b =? -1)%Z then
    (if (errno b =? EWOULDBLOCK)%Z then printf ("Child detected a potential deadlock" +:+ nl)
     else perror "flock child lock file2" (errno b)) ;;;
    quick_exit EXIT_FAILURE
  else
  sys (Flock file1FD LOCK_UN) ;;;
  sys (Flock file2FD LOCK_UN) ;;;
  quick_exit EXIT_SUCCESS.

Definition flock_parent (file1FD file2FD : Z) : prog posix Z :=
  a <- sys (Flock file2FD LOCK_EX);;
  if (ret a =? -1)%Z then perror "flock parent lock file2" (errno a) ;;; exit EXIT_FAILURE else
  sys (Sleep 1) ;;;
  b <- sys (Flock file1FD (Z.lor LOCK_EX LOCK_NB));;
  if (ret b =? -1)%Z then
    (if (errno b =? EWOULDBLOCK)%Z then printf ("Parent detected a potential deadlock" +:+ nl)
     else perror "flock parent lock file1" (errno b)) ;;;
    exit EXIT_FAILURE
  else
  sys (Flock file2FD LOCK_UN) ;;;
  sys (Flock file1FD LOCK_UN) ;;;
  exit EXIT_SUCCESS.

Definition flock_main : prog posix Z :=
  f1 <- sys (Open "/tmp/file1" (Z.lor O_CREAT O_RDWR) MODE_0600);;
  if (ret f1 =? -1)%Z then perror "open file1" (errno f1) ;;; exit EXIT_FAILURE else
  f2 <- sys (Open "/tmp/file2" (Z.lor O_CREAT O_RDWR) MODE_0600);;
  if (ret f2 =? -1)%Z then perror "open file2" (errno f2) ;;; exit EXIT_FAILURE else
  f <- sys Fork;;
  if (ret f =? -1)%Z then perror "fork" (errno f) ;;; exit EXIT_FAILURE
  else if (ret f =? 0)%Z then flock_child (ret f1) (ret f2) else flock_parent (ret f1) (ret f2).

(** *** The locks

    A lock belongs to an open file description: [ofd i fd] is the one the
    descriptor [fd] of process [i] refers to, [inode d] its file. *)
Record locks := Locks { holder : gmap nat nat; said : list (nat * output) }.

Section locking.
Context (ofd : nat → Z → option nat) (inode : nat → nat).

Definition flock_op (i : nat) (fd op : Z) (s : locks) : mresult rc locks :=
  match ofd i fd with
  | None => MOk (Rc (-1) EBADF) s
  | Some d =>
      let other := match holder s !! inode d with Some d' => negb (d' =? d) | None => false end in
      if negb (Z.land op LOCK_UN =? 0)%Z then
        MOk (Rc 0 0) (if other then s else Locks (delete (inode d) (holder s)) (said s))
      else if other then
        if (Z.land op LOCK_NB =? 0)%Z then MBlocked else MOk (Rc (-1) EWOULDBLOCK) s
      else MOk (Rc 0 0) (Locks (<[inode d := d]> (holder s)) (said s))
  end.

Definition flock_step (i : nat) (c : posix_op) (s : locks) : mresult (posix_ans c) locks :=
  match c as c return mresult (posix_ans c) locks with
  | Flock fd op => flock_op i fd op s
  | Sleep _ => MOk (Rc 0 0) s
  | _ => MFault
  end.

Definition flock_machine : machine posix locks :=
  Machine posix locks flock_step (λ i o s, Locks (holder s) (said s ++ [(i, o)])).
End locking.

Definition locks0 : locks := Locks ∅ [].

(** Process 0 is the parent, process 1 the child. *)
Definition both (fd1 fd2 : Z) : Conc.config (S := posix) (W := locks) := (locks0, [flock_parent fd1 fd2; flock_child fd1 fd2]).

(** [fork] after the files were opened: both have the same descriptions... *)
Definition inherited (fd1 fd2 : Z) (_ : nat) (fd : Z) : option nat :=
  if (fd =? fd1)%Z then Some 1 else if (fd =? fd2)%Z then Some 2 else None.
(** ...and if each had opened the files itself. *)
Definition separate (fd1 fd2 : Z) (i : nat) (fd : Z) : option nat :=
  if (fd =? fd1)%Z then Some (2 * i + 1) else if (fd =? fd2)%Z then Some (2 * i + 2) else None.
Definition two_files (d : nat) : nat := (d - 1) mod 2.

(** *** Correctness *)

Section inherited.
Context (fd1 fd2 : Z).
Abbreviation M := (flock_machine (inherited fd1 fd2) id).

Definition own_locks (s : locks) : Prop := (∀ d d', holder s !! d = Some d' → d' = d) ∧ said s = [].

Abbreviation lock_rg := (rg M own_locks (λ _ _ _, True) (λ _ _, False)).

#[local] Instance always_preorder {W} : nat → PreOrder (λ _ _ : W, True).
Proof. by split. Qed.

Lemma lock_ok i fd op (k : rc → prog posix Z) Q s : fd = fd1 ∨ fd = fd2 →
  (∀ s', lock_rg i (k (Rc 0 0)) Q s') → lock_rg i (Sys (Flock fd op) k) Q s.
Proof.
  intros Hfd Hk s' _ [HI Hs]. change (mstep M i (Flock fd op) s') with (flock_op (inherited fd1 fd2) id i fd op s').
  unfold flock_op. assert (∃ d, inherited fd1 fd2 i fd = Some d) as [d ->].
  { unfold inherited. destruct Hfd as [-> | ->]; rewrite Z.eqb_refl; [by eexists|]. destruct (_ =? _)%Z; by eexists. }
  cbv zeta. cbn [id]. assert (match holder s' !! d with Some d' => negb (d' =? d) | None => false end = false) as ->.
  { destruct (holder s' !! d) as [d'|] eqn:E; [|done]. by rewrite (HI d d' E), Nat.eqb_refl. }
  destruct (negb _); (split; [|apply Hk]); (split; [|done]); (split; [cbn|done]); intros x y.
  - intros [_ H]%lookup_delete_Some. by apply HI.
  - intros [[-> ->]|[_ H]]%lookup_insert_Some; [done|]. by apply HI.
Qed.

Lemma sleep_ok i n (k : rc → prog posix Z) Q s : (∀ s', lock_rg i (k (Rc 0 0)) Q s') → lock_rg i (Sys (Sleep n) k) Q s.
Proof. intros Hk s' _ HI. by split. Qed.

Definition flock_post (i : nat) (r : outcome Z) (_ : locks) : Prop :=
  r = Halted (if i is 0 then Exited 0 else QuickExited 0).

Lemma both_good : good M own_locks (λ _ _ _, True) (λ _ _, False) flock_post 2 (both fd1 fd2).
Proof.
  split; [by split|]. split; [done|]. intros [|[|i]] p [= <-]; unfold flock_parent, flock_child, sys; cbn [bind];
    (apply lock_ok; [auto|]; intros s1; cbn [ret]; change (0 =? -1)%Z with false; cbv iota; cbn [bind];
     apply sleep_ok; intros s2; apply lock_ok; [auto|]; intros s3; cbn [ret]; change (0 =? -1)%Z with false; cbv iota; cbn [bind];
     apply lock_ok; [auto|]; intros s4; apply lock_ok; [auto|]; intros s5; by intros s6 _ _).
Qed.

Lemma both_results c : rtc (cstep M) (both fd1 fd2) c →
  (∀ i, ¬ faulty M i c) ∧ said c.1 = [] ∧
  (∀ i p, c.2 !! i = Some p → Conc.finished p = true → p = Stop (if i is 0 then Exited 0 else QuickExited 0)) ∧
  ((∃ i p, c.2 !! i = Some p ∧ Conc.finished p = false) → ∃ c', cstep M c c').
Proof.
  intros Hs. destruct (rg_sound _ _ _ _ _ _ _ _ both_good Hs) as (Hgood & Hf & Hret & Hstop).
  split_and!; [done|apply Hgood| |].
  - intros i [a|h|o k|op k] Hp Hfin; [by pose proof (Hret i a Hp)|pose proof (Hstop i h Hp) as [= ->]; done|done|done].
  - eapply rg_progress; [exact always_preorder|by intros ?? _ Hno; destruct (Hno : False)|exact Hgood].
Qed.
End inherited.

Lemma flock_deadlock_ok (fd1 fd2 : Z) :
  let M := flock_machine (inherited fd1 fd2) id in
  (∀ c, rtc (cstep M) (both fd1 fd2) c →
    (∀ i, ¬ faulty M i c) ∧ said c.1 = [] ∧ Acc (flip (cstep M)) c ∧
    (∀ i p, c.2 !! i = Some p → Conc.finished p = true → p = Stop (if i is 0 then Exited 0 else QuickExited 0)) ∧
    ((∃ i p, c.2 !! i = Some p ∧ Conc.finished p = false) → ∃ c', cstep M c c')) ∧
  (∃ c, rtc (cstep (flock_machine (inherited 3 4) id)) (both 3 4) c ∧
    ∃ k0 k1, c.2 = [Sys (Flock 4 LOCK_UN) k0; Sys (Flock 3 LOCK_UN) k1] ∧
      holder c.1 !! 1 = Some 1 ∧ holder c.1 !! 2 = Some 2) ∧
  (∃ c, rtc (cstep (flock_machine (separate 3 4) two_files)) (both 3 4) c ∧
    c.2 = [Stop (Exited 1); Stop (QuickExited 1)] ∧
    said c.1 = [(0, Out ("Parent detected a potential deadlock" +:+ nl)); (1, Out ("Child detected a potential deadlock" +:+ nl))]).
Proof.
  intros M. split_and!.
  - intros c Hs. destruct (both_results fd1 fd2 c Hs) as (H1 & H2 & H3 & H4). split_and!; [done|done|apply cstep_terminates|done|done].
  - eexists. split; [apply (schedule_steps _ [0; 1; 0; 1; 0; 1])|]. eexists _, _. split; [reflexivity|]. split; reflexivity.
  - eexists. split; [apply (schedule_steps _ [0; 1; 0; 1; 0; 1; 0; 1])|]. split; reflexivity.
Qed.


