(* ===== verification/SignalDemos.v ===== *)
(** * Signal dispositions

    Two functions rebuilt from others, [my_abort] (CH21/abort/abort.c) and
    [my_siginterrupt] (CH20/siginterrupt/siginterrupt.c), and the programs that
    show what a disposition or a mask does: real_vs_standard.c and sigcont.c
    (CH22), verify_nodefer.c, verify_resethand.c and disposition.c (CH20).
    Handlers run where the environment delivers a signal ([deliveries]). *)
From Stdlib Require Import ZArith Lia Ascii String.
From stdpp Require Import base gmap strings list.
From S2P Require Import Prelude Prog CString Posix.
Local Open Scope prog_scope.

(** [sigaddset]: signal [n] is bit [n - 1] of the set. *)
Definition sigaddset (set sig : Z) : rc * Z :=
  if (1 <=? sig)%Z && (sig <? NSIG)%Z then (Rc 0 0, Z.lor set (Z.shiftl 1 (sig - 1))) else (Rc (-1) EINVAL, set).

(** ** abort.c *)

Definition abort_mask : Z := (sigaddset 0 SIGABRT).2.

Definition my_abort : prog posix unit :=
  '(a, sa) <- sys (Sigaction_get SIGABRT);;
  if (ret a =? -1)%Z then perror "sigaction" (errno a) ;;; exit EXIT_FAILURE else
  '(m, _) <- sys (Sigprocmask SIG_UNBLOCK abort_mask);;
  if (ret m =? -1)%Z then perror "sigprocmask" (errno m) ;;; exit EXIT_FAILURE else
  r <- sys (Raise SIGABRT);;
  if negb (ret r =? 0)%Z then perror "raise" (errno r) ;;; exit EXIT_FAILURE else
  put (Flush 0) ;;;
  sys (Signal SIGABRT SigDfl) ;;;
  r <- sys (Raise SIGABRT);;
  if negb (ret r =? 0)%Z then perror "raise" (errno r) ;;; exit EXIT_FAILURE else
  Ret tt.

Definition abort_main : prog posix Z :=
  printf ("TESTING MY ABORT" +:+ nl) ;;;
  my_abort ;;;
  printf ("MY ABORT DID NOT WORK CORRECTLY" +:+ nl) ;;;
  Ret 0%Z.

(** ** siginterrupt.c *)

Definition my_siginterrupt (sig flag : Z) : prog posix Z :=
  if negb (flag =? 0)%Z && negb (flag =? 1)%Z then Ret (-1)%Z else
  '(g, sa) <- sys (Sigaction_get sig);;
  if (ret g =? -1)%Z then Ret (-1)%Z else
  let sa' := Sigact (sa_handler sa) (sa_mask sa)
    (if negb (flag =? 0)%Z then Z.ldiff (sa_flags sa) SA_RESTART else Z.lor (sa_flags sa) SA_RESTART) in
  s <- sys (Sigaction sig sa');;
  if (ret s =? -1)%Z then Ret (-1)%Z else Ret 0%Z.

(** ** real_vs_standard.c *)

Definition SIGRTMIN : Z := 34.
Definition SA_SIGINFO : Z := 4.
Definition SA_NODEFER : Z := 1073741824.
Definition SA_RESETHAND : Z := 2147483648.

(** The signals in [sigs] may be delivered at a point of the program, in any
    order and at most [rounds] times each. *)
Definition deliveries (rounds : nat) (sigs : list Z) (handler : Z → prog posix unit) (point : nat) : prog posix unit :=
  for_each (concat (replicate rounds sigs)) (λ sig _,
    d <- sys (Deliver sig point);; when (negb (ret d =? 0)%Z) (handler sig)) tt.

Section programs.
Context (strsignal : Z → string) (rounds : nat).

Definition handler (sigNum : Z) : prog posix unit :=
  if (32 <? sigNum)%Z
  then printf ("Caught realtime signal " +:+ zstr sigNum +:+ " (" +:+ strsignal sigNum +:+ ")" +:+ nl)
  else printf ("Caugh standard signal " +:+ zstr sigNum +:+ " (" +:+ strsignal sigNum +:+ ")" +:+ nl).

Definition demo_act : sigact := Sigact (Handler "handler") 0 (Z.lor SA_RESTART SA_SIGINFO).

(** The signals in the order their handlers are set, with the text of an error,
    and in the order they are put into the set. *)
Definition handled : list (Z * string) :=
  [(SIGRTMIN + 1, "sigaction SIGRTMIN + 1"); (SIGINT, "sigaction SIGINT");
   (SIGRTMIN + 3, "sigaction SIGRTMIN + 3"); (SIGCONT, "sigaction SIGCONT")]%Z.
Definition in_set : list Z := [SIGRTMIN + 1; SIGRTMIN + 3; SIGCONT; SIGINT]%Z.
Definition raised : list Z := [SIGRTMIN + 1; SIGCONT; SIGRTMIN + 3; SIGINT]%Z.

(** [signalSet] is never emptied: [garbage] is what it holds. *)
Definition real_vs_standard_main (garbage : Z) : prog posix Z :=
  for_each handled (λ '(sig, text) _,
    a <- sys (Sigaction sig demo_act);;
    if (ret a =? -1)%Z then perror text (errno a) ;;; exit EXIT_FAILURE else
    deliveries rounds in_set handler 0) tt ;;;
  signalSet <- for_each in_set (λ sig set,
    let '(r, set') := sigaddset set sig in
    if (ret r =? -1)%Z then perror "sigaddset" (errno r) ;;; exit EXIT_FAILURE else Ret set') garbage;;
  '(b, _) <- sys (Sigprocmask SIG_BLOCK signalSet);;
  if (ret b =? -1)%Z then perror "sigprocmask" (errno b) ;;; exit EXIT_FAILURE else
  printf ("A mix of real-time and standard signals are blocked" +:+ nl) ;;;
  sys (Sleep 20) ;;;
  for_each raised (λ sig _, sys (Raise sig) ;;; Ret tt) tt ;;;
  '(u, _) <- sys (Sigprocmask SIG_UNBLOCK signalSet);;
  if (ret u =? -1)%Z then perror "sigprocmask" (errno u) ;;; exit EXIT_FAILURE else
  deliveries rounds in_set handler 1 ;;;
  printf ("Signals are unblocked" +:+ nl) ;;;
  exit EXIT_SUCCESS.

(** ** sigcont.c *)

Definition sigcontHandler (signum : Z) : prog posix unit :=
  put (Flush 0) ;;; printf ("SIGCONT IS HANDLED" +:+ nl).

Definition sigcont_main : prog posix Z :=
  a <- sys (Sigaction SIGCONT (Sigact (Handler "sigcontHandler") 0 0));;
  if (ret a =? -1)%Z then perror "sigaction" (errno a) ;;; exit EXIT_FAILURE else
  deliveries rounds [SIGCONT] sigcontHandler 0 ;;;
  let '(r, blocked_sig) := sigaddset 0 SIGCONT in
  if (ret r =? -1)%Z then perror "sigaddset" (errno r) ;;; exit EXIT_FAILURE else
  '(b, _) <- sys (Sigprocmask SIG_BLOCK blocked_sig);;
  if (ret b =? -1)%Z then perror "sigprocmask" (errno b) ;;; exit EXIT_FAILURE else
  put (Flush 0) ;;;
  printf ("SIGCONT is now blocked" +:+ nl) ;;;
  sys (Sleep 30) ;;;
  '(u, _) <- sys (Sigprocmask SIG_UNBLOCK blocked_sig);;
  if (ret u =? -1)%Z then perror "sigprocmask" (errno u) ;;; exit EXIT_FAILURE else
  deliveries rounds [SIGCONT] sigcontHandler 1 ;;;
  printf ("SIGCONT is now unblocked handler invoked before this text" +:+ nl) ;;;
  exit EXIT_SUCCESS.

(** ** verify_nodefer.c, verify_resethand.c, disposition.c *)

(** With SA_NODEFER the signal is not blocked while its handler runs: it may
    interrupt the handler's sleep, [depth] times inside one another. *)
Fixpoint nodefer_handler (depth : nat) (signum : Z) : prog posix unit :=
  match depth with
  | O => Stop Cut
  | S d =>
      printf ("signal handled" +:+ nl) ;;;
      sys (Sleep 10) ;;;
      deliveries rounds [SIGINT] (nodefer_handler d) 1
  end.

(** [for (;;) pause();] *)
Definition pause_loop (fuel : nat) (handler : Z → prog posix unit) : prog posix Z :=
  loop fuel (λ _ : unit, sys Pause ;;; deliveries rounds [SIGINT] handler 0 ;;; Ret (inl tt)) tt.

Definition verify_nodefer_main (depth fuel : nat) : prog posix Z :=
  sys (Sigaction SIGINT (Sigact (Handler "handler") 0 SA_NODEFER)) ;;;
  pause_loop fuel (nodefer_handler depth).

Definition resethand_handler (signum : Z) : prog posix unit :=
  printf ("catched signal in handler " +:+ zstr signum +:+ " : " +:+ strsignal signum +:+ nl).

Definition verify_resethand_main (fuel : nat) : prog posix Z :=
  sys (Sigaction 2 (Sigact (Handler "handler") 0 SA_RESETHAND)) ;;;
  pause_loop fuel resethand_handler.

Definition disposition_main : prog posix Z :=
  for_each (Z.of_nat <$> seq 1 64) (λ i _, sys (Sigaction i (Sigact SigIgn 0 0)) ;;; Ret tt) tt ;;;
  sys Pause ;;;
  exit EXIT_SUCCESS.

End programs.

(** ** Running handlers *)

(** Events that change no disposition and send no signal. *)
Definition quiet (e : event posix) : Prop :=
  match e with
  | EOut (Out _) | EOut (Flush _) => True
  | ECall (Deliver _ _) _ | EGone (Deliver _ _) | ECall (Sleep _) _ | EGone (Sleep _) => True
  | ECall Pause _ | EGone Pause => True
  | _ => False
  end.

Section runs.
Context {W : Type} (K : kernel posix W).

(** [p] adds quiet events whose texts satisfy [P], and then goes on, unless a
    call does not return or a bound of the model is used up. *)
Definition chatters {A} (P : string → Prop) (p : prog posix A) : Prop :=
  ∀ t w, wpa K t p w (λ r _ t', ∃ u, t' = t ++ u ∧ Forall quiet u ∧ Forall P (outs u) ∧
    match r with Halted h => h = Cut | _ => True end).

Lemma chatters_ret {A} P (a : A) : chatters P (Ret a).
Proof. intros t w. apply wpa_ret. exists []. rewrite app_nil_r. by split_and!; [|apply Forall_nil|apply Forall_nil|]. Qed.

Lemma chatters_cut {A} P : chatters (A := A) P (Stop Cut).
Proof. intros t w. apply wpa_stop. exists []. rewrite app_nil_r. by split_and!; [|apply Forall_nil|apply Forall_nil|]. Qed.

Lemma chatters_put {A} P o (k : prog posix A) : quiet (EOut o) → Forall P (outs [EOut o : event posix]) → chatters P k → chatters P (Put o k).
Proof.
  intros Hq Ho Hk t w. apply wpa_put. eapply wpa_mono; [apply Hk|]. intros r w' t' (u & -> & H1 & H2 & H3).
  exists (EOut o :: u). split_and!; [by rewrite <- app_assoc|by constructor| |done].
  change (EOut o :: u) with ([EOut o] ++ u). rewrite outs_app. by apply Forall_app.
Qed.

Lemma chatters_sys {A} P c (k : posix_ans c → prog posix A) : (∀ a, quiet (ECall c a)) → quiet (EGone c) →
  (∀ a, chatters P (k a)) → chatters P (Sys c k).
Proof.
  intros Hq Hg Hk t w. apply wpa_sys.
  - intros a w' _. eapply wpa_mono; [apply Hk|]. intros r w2 t' (u & -> & H1 & H2 & H3).
    exists (ECall (S := posix) c a :: u). split_and!; [by rewrite <- app_assoc|by constructor|done|done].
  - intros w' _. exists [EGone (S := posix) c]. split_and!; [done|by repeat constructor|apply Forall_nil; done|done].
Qed.

Lemma chatters_bind {A B} P (f : A → prog posix B) p : chatters P p → (∀ a, chatters P (f a)) → chatters P (bind f p).
Proof.
  intros Hp Hf t w. apply wpa_bind. eapply wpa_mono; [apply Hp|]. intros [a|h|] w' t' (u & -> & H1 & H2 & H3); [|by exists u..].
  eapply wpa_mono; [apply Hf|]. intros r w2 t2 (u2 & -> & K1 & K2 & K3). exists (u ++ u2).
  split_and!; [by rewrite app_assoc|by apply Forall_app|rewrite outs_app; by apply Forall_app|done].
Qed.

Lemma deliveries_chatter P rounds sigs h point : (∀ s, chatters P (h s)) → chatters P (deliveries rounds sigs h point).
Proof.
  intros Hh. unfold deliveries. induction (concat _) as [|x xs IH]; cbn [for_each]; [apply chatters_ret|].
  apply chatters_bind; [|intros []; apply IH]. unfold sys. cbn [bind]. apply chatters_sys; [done|done|]. intros a.
  unfold when. destruct (negb _); [apply Hh|apply chatters_ret].
Qed.

Lemma nodefer_chatters rounds depth sig : chatters (λ s, s = "signal handled" +:+ nl) (nodefer_handler rounds depth sig).
Proof.
  revert sig. induction depth as [|d IH]; intros sig; cbn [nodefer_handler]; [apply chatters_cut|].
  unfold printf, put, sys. cbn [bind]. apply chatters_put; [done|by repeat constructor|].
  apply chatters_sys; [done|done|]. intros _. apply deliveries_chatter, IH.
Qed.

Lemma pause_chatters P rounds fuel h : (∀ s, chatters P (h s)) → chatters P (pause_loop rounds fuel h).
Proof.
  intros Hh. unfold pause_loop. induction fuel as [|fuel IH]; cbn [loop]; [apply chatters_cut|].
  unfold sys. cbn [bind]. apply chatters_sys; [done|done|]. intros _. apply chatters_bind; [|intros [[]|b]; [apply IH|apply chatters_ret]].
  apply chatters_bind; [by apply deliveries_chatter|]. intros []. apply chatters_ret.
Qed.

Lemma pause_endless rounds fuel h t w : wpa K t (pause_loop rounds fuel h) w (λ r _ _, ∀ z, r ≠ Returned z).
Proof.
  unfold pause_loop. apply (wpa_loop K (λ _ _ _, True)); [|done|done]. intros [] w1 t1 _.
  apply wpa_bind. unfold sys. apply wpa_sys; [intros a w2 _|done]. apply wpa_ret, wpa_bind.
  eapply wpa_mono; [apply wpa_true|]. intros [[]|x|] w3 t3 _; [by apply wpa_ret|done|done].
Qed.
End runs.

(** ** Correctness *)

(** What the documentation says of SIGABRT, for a process whose disposition is
    [disp] and that blocks it or not: [raise] of an unblocked signal only
    returns when the action is not the default one; a handler that returns
    leaves the mask as it was. *)
Record AbortKernel {W} (K : kernel posix W) (disp : W → disposition) (blocked : W → bool) : Prop := {
  ak_get w r sa w' : K (Sigaction_get SIGABRT) w = Answer (r, sa) w' → disp w' = disp w ∧ blocked w' = blocked w;
  ak_unblock w set r o w' : K (Sigprocmask SIG_UNBLOCK set) w = Answer (r, o) w' →
    ret r ≠ (-1)%Z → Z.testbit set (SIGABRT - 1) = true → blocked w' = false;
  ak_raise w r w' : K (Raise SIGABRT) w = Answer r w' → blocked w = false → ret r = 0%Z →
    disp w ≠ SigDfl ∧ blocked w' = false;
  ak_signal w d r w' : K (Signal SIGABRT d) w = Answer r w' → disp w' = d ∧ blocked w' = blocked w }.

Definition is_raise (e : event posix) : Prop := match e with ECall (Raise _) _ | EGone (Raise _) => True | _ => False end.

(** The handlers are set and the signals blocked. *)
Definition set_and_blocked (t : list (event posix)) : Prop :=
  ∃ set, (∀ s, s ∈ raised → Z.testbit set (s - 1) = true) ∧
    called t (Sigprocmask SIG_BLOCK set) (λ a, ret a.1 ≠ (-1)%Z) ∧
    ∀ s, s ∈ raised → called t (Sigaction s demo_act) (λ a, ret a ≠ (-1)%Z).

(** A raise of SIGABRT that does not return; after an earlier one that did, the
    streams were flushed. *)
Definition raise_kills (e : event posix) : Prop := e = EGone (Raise SIGABRT).
Definition not_raised (t : list (event posix)) : Prop := ∀ a, ECall (Raise SIGABRT) a ∉ t.
Definition flushed (t : list (event posix)) : Prop := (∃ a, ECall (Raise SIGABRT) a ∈ t) → EOut (Flush 0) ∈ t.

Section mains.
Context {W : Type} (K : kernel posix W).

Lemma my_abort_ok disp blocked t w : AbortKernel K disp blocked → not_raised t →
  wpa K t my_abort w (λ r _ t', outs t' = outs t ∧ (r = Gone ∨ (r = Halted (Exited 1) ∧ perror_last t')) ∧
    before_each raise_kills flushed t').
Proof.
  intros HA Ht.
  assert (∀ t e, (∀ a, e ≠ ECall (Raise SIGABRT) a) → not_raised t → not_raised (t ++ [e])) as Hs.
  { intros t0 e He H0 a [H|H]%elem_of_app; [by apply (H0 a)|]. apply list_elem_of_singleton in H. by apply (He a). }
  assert (∀ t, not_raised t → flushed t) as Hf by (intros t0 H0 [a Ha]; by apply H0 in Ha).
  assert (∀ t e, before_each raise_kills flushed t → e ≠ EGone (Raise SIGABRT) → before_each raise_kills flushed (t ++ [e])) as Hb.
  { intros t0 e H0 He. by apply before_each_snoc. }
  assert (∀ t, not_raised t → before_each raise_kills flushed t) as Hn.
  { intros t0 H0 t1 e t2 -> _. apply Hf. intros a Ha. apply (H0 a). apply elem_of_app. by left. }
  unfold my_abort. acc_call.
  2: { split_and!; [by rewrite outs_app, app_nil_r|by left|apply Hn, Hs; done]. }
  destruct a as [a sa]. destruct (ret a =? -1)%Z eqn:E1.
  { acc_steps. split_and!; [by rewrite !outs_app, !app_nil_r|right; auto with posix|apply Hn; repeat apply Hs; done]. }
  match goal with H : K _ _ = _ |- _ => pose proof (ak_get _ _ _ HA _ _ _ _ H) as [Hd1 _] end.
  assert (not_raised (t ++ [ECall (S := posix) (Sigaction_get SIGABRT) (a, sa)])) as H1 by by apply Hs.
  acc_call.
  2: { split_and!; [by rewrite !outs_app, !app_nil_r|by left|apply Hn, Hs; done]. }
  destruct a0 as [m o]. destruct (ret m =? -1)%Z eqn:E2.
  { acc_steps. split_and!; [by rewrite !outs_app, !app_nil_r|right; auto with posix|apply Hn; repeat apply Hs; done]. }
  zbool. match goal with H : K (Sigprocmask _ _) _ = _ |- _ => pose proof (ak_unblock _ _ _ HA _ _ _ _ _ H E2 eq_refl) as Hb2 end.
  assert (∀ u, not_raised ((t ++ [ECall (S := posix) (Sigaction_get SIGABRT) (a, sa)]) ++ [ECall (S := posix) (Sigprocmask SIG_UNBLOCK u) (m, o)])) as H2 by (intros; by apply Hs).
  acc_call.
  2: { split_and!; [by rewrite !outs_app, !app_nil_r|by left|]. apply before_each_snoc; [apply Hn, H2|]. intros _. apply Hf, H2. }
  destruct (negb (ret a0 =? 0)%Z) eqn:E3.
  { acc_steps. split_and!; [by rewrite !outs_app, !app_nil_r|right; auto with posix|]. apply Hb; [apply Hb; [apply Hn, H2|done]|done]. }
  apply negb_false_iff in E3. zbool.
  match goal with H : K (Raise _) _ = _ |- _ => pose proof (ak_raise _ _ _ HA _ _ _ H Hb2 E3) as [_ Hb3] end.
  acc_call.
  2: { split_and!; [by rewrite !outs_app, !app_nil_r|by left|]. do 3 (apply Hb; [|done]). apply Hn, H2. }
  match goal with H : K (Signal _ _) _ = _ |- _ => pose proof (ak_signal _ _ _ HA _ _ _ _ H) as [Hd4 Hb4] end.
  acc_call.
  2: { split_and!; [by rewrite !outs_app, !app_nil_r|by left|]. apply before_each_snoc; [do 3 (apply Hb; [|done]); apply Hn, H2|].
       intros _ _. apply elem_of_app. left. apply elem_of_app. right. by left. }
  match goal with H : K (Raise _) ?w1 = Answer ?x _, H' : blocked ?w1 = _ |- _ => pose proof (ak_raise _ _ _ HA _ _ _ H) as Hr5; rewrite Hb4 in Hr5; specialize (Hr5 Hb3) end.
  match goal with |- wpa _ _ (if negb (ret ?x =? 0)%Z then _ else _) _ _ => destruct (negb (ret x =? 0)%Z) eqn:E5 end.
  - acc_steps. split_and!; [by rewrite !outs_app, !app_nil_r|right; auto with posix|]. do 5 (apply Hb; [|done]). apply Hn, H2.
  - exfalso. apply negb_false_iff in E5. zbool. by destruct (Hr5 E5).
Qed.

Lemma abort_main_ok disp blocked w : AbortKernel K disp blocked →
  wpa K [] abort_main w (λ r _ t, outs t = ["TESTING MY ABORT" +:+ nl] ∧
    (r = Gone ∨ (r = Halted (Exited 1) ∧ perror_last t)) ∧ before_each raise_kills flushed t).
Proof.
  intros HA. unfold abort_main, printf, put. cbn [bind]. apply wpa_put, wpa_bind.
  eapply wpa_mono; [apply (my_abort_ok disp blocked _ _ HA)|].
  - intros a [H|H]%elem_of_app; [by apply not_elem_of_nil in H|]. by apply list_elem_of_singleton in H.
  - intros r w' t' (H1 & [-> |[-> H2]] & H3); (split_and!; [done|auto|done]).
Qed.

Lemma siginterrupt_ok sig flag w :
  wp K (my_siginterrupt sig flag) w (λ r _ t,
    if decide (flag = 0 ∨ flag = 1)%Z then
      match r with
      | Returned z => (z = -1 ∧ ∃ g, t = [ECall (Sigaction_get sig) g] ∧ ret g.1 = -1)%Z ∨
          ∃ g s fl, t = [ECall (Sigaction_get sig) g; ECall (Sigaction sig (Sigact (sa_handler g.2) (sa_mask g.2) fl)) s] ∧
            (∀ k, (0 <= k)%Z → Z.testbit fl k = if decide (k = 28)%Z then (flag =? 0)%Z else Z.testbit (sa_flags g.2) k) ∧
            z = (if (ret s =? -1)%Z then -1 else 0)%Z
      | Halted _ => False
      | Gone => True
      end
    else r = Returned (-1)%Z ∧ t = []).
Proof.
  unfold my_siginterrupt. destruct (decide _) as [Hf|Hf].
  2: { assert (negb (flag =? 0)%Z && negb (flag =? 1)%Z = true) as ->; [|by prog_steps].
       apply andb_true_iff. split; apply negb_true_iff, Z.eqb_neq; tauto. }
  assert (negb (flag =? 0)%Z && negb (flag =? 1)%Z = false) as -> by (by destruct Hf as [-> | ->]).
  prog_call. destruct a as [g sa]. destruct (ret g =? -1)%Z eqn:E1; zbool.
  { prog_steps. left. split; [done|]. by eexists. }
  cbv zeta. prog_call.
  match goal with |- wp _ (if (ret ?x =? -1)%Z then _ else _) _ _ => set (v := x) end.
  assert (∀ z, z = (if (ret v =? -1)%Z then -1 else 0)%Z → ∀ g0 : rc * sigact, g0 = (g, sa) → ∃ g1 s fl,
    [ECall (S := posix) (Sigaction_get sig) g0; ECall (S := posix) (Sigaction sig (Sigact (sa_handler sa) (sa_mask sa)
      (if negb (flag =? 0)%Z then Z.ldiff (sa_flags sa) SA_RESTART else Z.lor (sa_flags sa) SA_RESTART))) v] =
    [ECall (S := posix) (Sigaction_get sig) g1; ECall (S := posix) (Sigaction sig (Sigact (sa_handler g1.2) (sa_mask g1.2) fl)) s] ∧
    (∀ k, (0 <= k)%Z → Z.testbit fl k = if decide (k = 28)%Z then (flag =? 0)%Z else Z.testbit (sa_flags g1.2) k) ∧
    z = (if (ret s =? -1)%Z then -1 else 0)%Z) as Hr.
  { intros z Hz g0 ->. eexists (g, sa), v, _. split; [reflexivity|]. split; [|done]. intros k Hk. cbn [snd].
    assert (Z.testbit SA_RESTART k = bool_decide (k = 28)%Z) as Hb.
    { change SA_RESTART with (2 ^ 28)%Z. rewrite Z.pow2_bits_eqb by lia. case_bool_decide; [by subst|]. apply Z.eqb_neq. lia. }
    destruct Hf as [-> | ->]; cbn [Z.eqb negb].
    - rewrite Z.lor_spec, Hb. destruct (decide _); [rewrite bool_decide_eq_true_2 by done; by rewrite orb_true_r|].
      rewrite bool_decide_eq_false_2 by done. by rewrite orb_false_r.
    - rewrite Z.ldiff_spec, Hb. destruct (decide _); [rewrite bool_decide_eq_true_2 by done; by rewrite andb_false_r|].
      rewrite bool_decide_eq_false_2 by done. by rewrite andb_true_r. }
  destruct (ret v =? -1)%Z eqn:E2; prog_steps; right; by apply Hr.
Qed.

Definition full_set (garbage : Z) : Z :=
  Z.lor (Z.lor (Z.lor (Z.lor garbage (Z.shiftl 1 34)) (Z.shiftl 1 36)) (Z.shiftl 1 17)) (Z.shiftl 1 1).

Lemma full_set_ok garbage s : s ∈ raised → Z.testbit (full_set garbage) (s - 1) = true.
Proof.
  intros H. unfold full_set. rewrite !Z.lor_spec.
  repeat (apply elem_of_cons in H as [->|H]; [rewrite ?orb_true_r; by rewrite ?orb_true_r|]). by apply not_elem_of_nil in H.
Qed.

Definition handler_text (strsignal : Z → string) (s : string) : Prop := ∃ sig, handler strsignal sig = printf s.

Lemma handler_chatters strsignal sig : chatters K (handler_text strsignal) (handler strsignal sig).
Proof.
  assert (∃ s, handler strsignal sig = printf s) as [s E] by (unfold handler; destruct (32 <? sig)%Z; by eexists).
  rewrite E. apply chatters_put; [done|constructor; [by exists sig|by apply Forall_nil]|apply chatters_ret].
Qed.

(** The handlers that are set, and nothing raised. *)
Definition setting (strsignal : Z → string) (xs : list (Z * string)) (t : list (event posix)) : Prop :=
  Forall (λ e, ¬ is_raise e) t ∧ Forall (handler_text strsignal) (outs t) ∧
  ∀ p, p ∈ handled → p ∈ xs ∨ called t (Sigaction p.1 demo_act) (λ a, ret a ≠ (-1)%Z).

Lemma quiet_no_raise u : Forall quiet u → Forall (λ e, ¬ is_raise e) u.
Proof. intros H. eapply Forall_impl; [exact H|]. intros [[]|[]|[]]; cbn; tauto. Qed.

Lemma no_raise_snoc t e : Forall (λ e, ¬ is_raise e) t → ¬ is_raise e → Forall (λ e, ¬ is_raise e) (t ++ [e]).
Proof. intros H He. apply Forall_app. split; [done|]. constructor; [done|by apply Forall_nil]. Qed.

Lemma setting_ok strsignal rounds t w : setting strsignal handled t →
  wpa K t (for_each handled (λ '(sig, text) _,
    a <- sys (Sigaction sig demo_act);;
    if (ret a =? -1)%Z then perror text (errno a) ;;; exit EXIT_FAILURE else
    deliveries rounds in_set (handler strsignal) 0) tt) w
  (λ r _ t', Forall (λ e, ¬ is_raise e) t' ∧ r ≠ Halted (Exited 0) ∧ (r = Returned tt → setting strsignal [] t')).
Proof.
  intros Ht.
  apply (wpa_for_each K (λ xs _ _ t, setting strsignal xs t)); [|intros [] w1 t1 H; split_and!; [apply H|done|done]|done].
  intros [sig text] xs [] w1 t1 (H1 & H2 & H3).
  acc_call; [|split_and!; [by apply no_raise_snoc; [|intros []]|done|done]].
  destruct (ret a =? -1)%Z eqn:E; zbool.
  { acc_steps. split_and!; [|done|done]. apply no_raise_snoc; [|by intros []]. by apply no_raise_snoc; [|intros []]. }
  eapply wpa_mono; [apply deliveries_chatter, handler_chatters|].
  intros r w2 t2 (u & -> & Hq & Hu & Hr).
  assert (Forall (λ e, ¬ is_raise e) ((t1 ++ [ECall (S := posix) (Sigaction sig demo_act) a]) ++ u)) as Hn.
  { apply Forall_app. split; [|by apply quiet_no_raise]. by apply no_raise_snoc; [|intros []]. }
  destruct r as [[]|h|]; [|by subst|by split_and!].
  split; [done|]. split; [rewrite !outs_app; apply Forall_app; split; [|done]; cbn; by rewrite app_nil_r|].
  intros p Hp. destruct (H3 p Hp) as [[->|Hin]%elem_of_cons|Hin].
  - right. apply called_app_l, called_last. done.
  - by left.
  - right. by do 2 apply called_app_l.
Qed.

Lemma set_and_blocked_mono t e : set_and_blocked t → set_and_blocked (t ++ [e]).
Proof.
  intros (set & H1 & H2 & H3). exists set. split_and!; [done|by apply called_app_l|]. intros s Hs. by apply called_app_l, H3.
Qed.

Lemma no_raise_before t : Forall (λ e, ¬ is_raise e) t → before_each is_raise set_and_blocked t.
Proof. intros H t1 e t2 -> He. apply Forall_app in H as [_ H]. by apply Forall_cons in H as [H _]. Qed.
(** What remains after the handlers are set. *)
Definition real_rest (strsignal : Z → string) (rounds : nat) (signalSet : Z) : prog posix Z :=
  '(b, _) <- sys (Sigprocmask SIG_BLOCK signalSet);;
  if (ret b =? -1)%Z then perror "sigprocmask" (errno b) ;;; exit EXIT_FAILURE else
  printf ("A mix of real-time and standard signals are blocked" +:+ nl) ;;;
  sys (Sleep 20) ;;;
  for_each raised (λ sig _, sys (Raise sig) ;;; Ret tt) tt ;;;
  '(u, _) <- sys (Sigprocmask SIG_UNBLOCK signalSet);;
  if (ret u =? -1)%Z then perror "sigprocmask" (errno u) ;;; exit EXIT_FAILURE else
  deliveries rounds in_set (handler strsignal) 1 ;;;
  printf ("Signals are unblocked" +:+ nl) ;;;
  exit EXIT_SUCCESS.

Lemma real_rest_safe strsignal rounds garbage t w : setting strsignal [] t →
  wpa K t (real_rest strsignal rounds (full_set garbage)) w (λ _ _ t', before_each is_raise set_and_blocked t').
Proof.
  intros (H1 & H2 & H3). pose proof (no_raise_before t H1) as Hb.
  unfold real_rest. acc_call; [|apply before_each_snoc; [done|by intros []]]. destruct a as [b o].
  assert (before_each is_raise set_and_blocked (t ++ [ECall (S := posix) (Sigprocmask SIG_BLOCK (full_set garbage)) (b, o)])) as Hb2.
  { apply before_each_snoc; [done|by intros []]. }
  destruct (ret b =? -1)%Z eqn:E; zbool.
  { acc_steps. apply before_each_snoc; [done|by intros []]. }
  apply wpa_before; [apply set_and_blocked_mono| |done]. exists (full_set garbage). split_and!.
  - apply full_set_ok.
  - by apply called_last.
  - intros s Hs. apply called_app_l.
    assert (∃ p, p ∈ handled ∧ p.1 = s) as (p & Hp & <-).
    { assert (Forall (λ s, s ∈ handled.*1) raised) as Hall by (apply (bool_decide_eq_true_1 _); reflexivity).
      rewrite Forall_forall in Hall. apply Hall, list_elem_of_fmap in Hs as (p & -> & Hp). by exists p. }
    destruct (H3 p Hp) as [Hin|Hin]; [by apply not_elem_of_nil in Hin|done].
Qed.

Lemma real_rest_outs strsignal rounds set t w : Forall (handler_text strsignal) (outs t) →
  wpa K t (real_rest strsignal rounds set) w (λ r _ t', r = Halted (Exited 0) →
    ∃ l0 l1, outs t' = l0 ++ ["A mix of real-time and standard signals are blocked" +:+ nl] ++ l1 ++ ["Signals are unblocked" +:+ nl] ∧
      Forall (handler_text strsignal) (l0 ++ l1)).
Proof.
  intros Ht. unfold real_rest. acc_call; [|done]. destruct a as [b o]. destruct (ret b =? -1)%Z; [by acc_steps|].
  acc_call; [|done]. unfold raised, sys. cbn [for_each bind].
  do 4 (apply wpa_sys; [intros ???|done]).
  acc_call; [|done]. match goal with a5 : ans posix (Sigprocmask SIG_UNBLOCK _) |- _ => destruct a5 as [c o1] end. destruct (ret c =? -1)%Z; [by acc_steps|].
  apply wpa_bind. eapply wpa_mono; [apply deliveries_chatter, handler_chatters|].
  intros [[]|h|] w2 t2 (u2 & -> & _ & Hu2 & Hh2); [|by subst|done].
  acc_steps. intros _. exists (outs t), (outs u2). split; [|by apply Forall_app].
  rewrite !outs_app. cbn. by rewrite ?app_nil_r, <- ?app_assoc.
Qed.

Lemma real_ok strsignal rounds garbage w :
  wpa K [] (real_vs_standard_main strsignal rounds garbage) w (λ r _ t,
    before_each is_raise set_and_blocked t ∧
    (r = Halted (Exited 0) → ∃ l0 l1, outs t = l0 ++ ["A mix of real-time and standard signals are blocked" +:+ nl] ++ l1 ++ ["Signals are unblocked" +:+ nl] ∧
      Forall (handler_text strsignal) (l0 ++ l1))).
Proof.
  change (real_vs_standard_main strsignal rounds garbage) with (bind (λ _ : unit, real_rest strsignal rounds (full_set garbage))
    (for_each handled (λ '(sig, text) _,
      a <- sys (Sigaction sig demo_act);;
      if (ret a =? -1)%Z then perror text (errno a) ;;; exit EXIT_FAILURE else
      deliveries rounds in_set (handler strsignal) 0) tt)).
  apply wpa_bind. eapply wpa_mono; [apply setting_ok|].
  - split_and!; [by apply Forall_nil|by apply Forall_nil|]. intros p Hp. by left.
  - intros [[]|h|] w1 t1 (H1 & H2 & H3); [|split; [by apply no_raise_before|by intros [= ->]]|split; [by apply no_raise_before|done]].
    destruct (H3 eq_refl) as (K1 & K2 & K3).
    apply wpa_both; [by apply real_rest_safe|by apply real_rest_outs].
Qed.
Lemma sigcont_chatters sig : chatters K (λ s, s = "SIGCONT IS HANDLED" +:+ nl) (sigcontHandler sig).
Proof.
  unfold sigcontHandler, put, printf. cbn [bind]. apply chatters_put; [done|by apply Forall_nil|].
  apply chatters_put; [done|by repeat constructor|apply chatters_ret].
Qed.

Lemma sigcont_ok rounds w :
  wpa K [] (sigcont_main rounds) w (λ r _ t, r = Halted (Exited 0) →
    ∃ l0 l1, outs t = l0 ++ ["SIGCONT is now blocked" +:+ nl] ++ l1 ++ ["SIGCONT is now unblocked handler invoked before this text" +:+ nl] ∧
      Forall (λ s, s = "SIGCONT IS HANDLED" +:+ nl) (l0 ++ l1)).
Proof.
  unfold sigcont_main. acc_call; [|done]. destruct (ret a =? -1)%Z; [by acc_steps|].
  apply wpa_bind. eapply wpa_mono; [apply deliveries_chatter, sigcont_chatters|].
  intros [[]|h|] w1 t1 (u & -> & _ & Hu & Hh1); [|by subst|done].
  change (sigaddset 0 SIGCONT) with (Rc 0 0, 131072%Z). cbn match. cbn [ret]. change (0 =? -1)%Z with false. cbv iota.
  acc_call; [|done]. destruct a0 as [b o]. destruct (ret b =? -1)%Z; [by acc_steps|].
  acc_call; [|done]. acc_call; [|done]. destruct a1 as [c o1]. destruct (ret c =? -1)%Z; [by acc_steps|].
  apply wpa_bind. eapply wpa_mono; [apply deliveries_chatter, sigcont_chatters|].
  intros [[]|h|] w2 t2 (u2 & -> & _ & Hu2 & Hh2); [|by subst|done].
  acc_steps. intros _. exists (outs u), (outs u2). split; [|by apply Forall_app].
  rewrite !outs_app. cbn. by rewrite !app_nil_r, <- !app_assoc.
Qed.

Lemma resethand_chatters strsignal sig : chatters K (λ s, ∃ n, resethand_handler strsignal n = printf s) (resethand_handler strsignal sig).
Proof.
  apply chatters_put; [done|constructor; [by exists sig|by apply Forall_nil]|apply chatters_ret].
Qed.

(** A program that sets a handler and pauses for ever. *)
Lemma looping P sig act rounds fuel h w : (∀ s, chatters K P (h s)) →
  wpa K [] (sys (Sigaction sig act) ;;; pause_loop rounds fuel h) w
    (λ r _ t, (r = Gone ∨ r = Halted Cut) ∧ Forall P (outs t)).
Proof.
  intros Hh. unfold sys. cbn [bind]. apply wpa_sys; [intros a w1 _|intros w1 _; split; [by left|by apply Forall_nil]].
  eapply wpa_mono.
  - apply wpa_both; [by apply (pause_chatters K P)|apply (pause_endless K rounds fuel h)].
  - intros r w2 t2 [(u & -> & _ & Hu & Hr) He]. split; [|done]. destruct r as [z|hh|]; [by destruct (He z)|right; by subst|by left].
Qed.

Lemma disposition_ok w :
  wpa K [] disposition_main w (λ r _ t,
    calls t `prefix_of` (((λ i, Sigaction i (Sigact SigIgn 0 0)) <$> (Z.of_nat <$> seq 1 64)) ++ [Pause]) ∧
    (r = Gone ∨ (r = Halted (Exited 0) ∧ length (calls t) = 65))).
Proof.
  unfold disposition_main. set (l := Z.of_nat <$> seq 1 64). assert (length l = 64) as Hl by done.
  set (f := λ i, Sigaction i (Sigact SigIgn 0 0)).
  assert (∀ t c, calls (t ++ [c]) = calls t ++ calls [c]) as Hc by (intros; apply calls_app).
  apply wpa_bind. eapply wpa_mono.
  - apply (wpa_for_each K (λ xs _ _ t, f <$> l = calls t ++ (f <$> xs)) _
      (λ r _ t, match r with Returned _ => calls t = f <$> l | Halted _ => False | Gone => calls t `prefix_of` (f <$> l) end)).
    + intros i xs [] w1 t HI. acc_call.
      * acc_steps. by rewrite Hc, HI, <- app_assoc.
      * rewrite Hc, HI. cbn. exists (f <$> xs). by rewrite <- app_assoc.
    + intros [] w1 t HI. cbn in HI. by rewrite app_nil_r in HI.
    + done.
  - intros [[]|h|] w1 t HI; [|done|split; [by apply prefix_app_r|by left]].
    acc_call.
    + acc_steps. rewrite Hc, HI. split; [done|]. right. by rewrite length_app, length_fmap, Hl.
    + rewrite Hc, HI. split; [done|by left].
Qed.
End mains.


(** A process: its disposition of SIGABRT and whether it blocks it. *)
Definition abort_kernel : kernel posix (disposition * bool) := λ c w,
  match c as c return reaction (posix_ans c) (disposition * bool) with
  | Sigaction_get _ => Answer (Rc 0 0, Sigact w.1 0 0) w
  | Sigprocmask _ set => Answer (Rc 0 0, 0%Z) (w.1, if Z.testbit set 5 then false else w.2)
  | Raise _ => if w.2 : bool then Answer (Rc 0 0) w else match w.1 with SigDfl => NoReturn w | _ => Answer (Rc 0 0) w end
  | Signal _ d => Answer (Rc 0 0) (d, w.2)
  | _ => NoReturn w
  end.

Lemma abort_kernel_ok : AbortKernel abort_kernel fst snd.
Proof.
  constructor.
  - intros w r sa w' [= <- <- <-]. done.
  - intros w set r o w' E _ H. change (Z.testbit set 5 = true) in H. unfold abort_kernel in E. rewrite H in E. by injection E as <- <- <-.
  - intros [d b] r w' H Hb _. cbn in Hb, H. subst b. cbn in H. by destruct d; [done|injection H as <- <-..].
  - intros w d r w' [= <- <-]. done.
Qed.

