(* ===== verification/ProcDemos.v ===== *)
(** * Children, zombies, sessions

    Programs that show what becomes of a child process: child_exit_n1.c (CH25),
    orphan_child.c, zombie_parent.c, make_zombie.c (CH26), Exercise_27-6.c
    (CH27), vfork_close_fd.c (CH24), fork_benchmark.c, vfork_benchmark.c (CH28),
    thread_join_self.c (CH29), the two programs of Exercise_34-2, Exercise_34-3.c,
    disc_SIGHUP.c, Exercise_34-6.c and Exercise_34-7.c (CH34).  [fork] has two
    answers, and a program is both sides. *)
From Stdlib Require Import ZArith Lia Ascii String.
From stdpp Require Import base gmap strings list.
From S2P Require Import Prelude Prog CString Posix.
From S2P Require TsdPaths.
Local Open Scope prog_scope.

(** ** child_exit_n1.c *)

(** [WEXITSTATUS] of a status, and the status of a child that ended with
    [exit(code)]. *)
Definition WEXITSTATUS (status : Z) : Z := Z.shiftr (Z.land status 65280) 8.
Definition exit_status (code : Z) : Z := Z.shiftl (Z.land code 255) 8.

Definition child_exit_main : prog posix Z :=
  f <- sys Fork;;
  if (ret f =? -1)%Z then perror "fork" (errno f) ;;; exit EXIT_FAILURE
  else if (ret f =? 0)%Z then
    p <- sys Getpid;;
    printf ("Child with pid : " +:+ zstr (ret p) +:+ " about to exit with -1 status" +:+ nl) ;;;
    exit (-1)
  else
    '(w, st) <- sys Wait;;
    let childExitStatus := if (ret w =? -1)%Z then 0%Z else st in
    printf ("Child exited with " +:+ zstr childExitStatus +:+ nl) ;;;
    printf ("Child exited with " +:+ zstr (WEXITSTATUS childExitStatus) +:+ nl) ;;;
    exit EXIT_SUCCESS.

(** ** orphan_child.c *)

Definition orphan_main : prog posix Z :=
  f <- sys Fork;;
  if (ret f =? -1)%Z then perror "fork" (errno f) ;;; exit EXIT_FAILURE
  else if (ret f =? 0)%Z then
    p <- sys Getppid;;
    printf ("Child executing current PPID (parent alive) = " +:+ zstr (ret p) +:+ nl) ;;;
    sys (Sleep 5) ;;;
    q <- sys Getppid;;
    printf ("Parent dead, new parent pid is " +:+ zstr (ret q) +:+ nl) ;;;
    exit EXIT_SUCCESS
  else
    sys (Sleep 3) ;;;
    p <- sys Getpid;;
    printf ("Parent executing current PID = " +:+ zstr (ret p) +:+ " . I am about to die" +:+ nl) ;;;
    quick_exit EXIT_FAILURE.

(** ** zombie_parent.c *)

(** [default:] of the inner switch, which the grandchild falls into. *)
Definition about_to_exit (parentPID : Z) : prog posix Z :=
  printf ("Parent here with PID = " +:+ zstr parentPID +:+ " about to exit" +:+ nl) ;;;
  quick_exit EXIT_SUCCESS.

Definition grandchild (fuel : nat) (childPID parentPID : Z) : prog posix Z :=
  sys (Sleep 10) ;;;
  printf ("Child is here with PID = " +:+ zstr childPID +:+ nl) ;;;
  loop fuel (λ _ : unit,
    p <- sys Getppid;;
    if (ret p =? parentPID)%Z then printf ("Parent still alive" +:+ nl) ;;; Ret (inl tt) else Ret (inr tt)) tt ;;;
  p <- sys Getppid;;
  printf ("Parent gone new parent's PID = " +:+ zstr (ret p) +:+ nl) ;;;
  about_to_exit parentPID.

Definition zombie_parent_main (fuel : nat) : prog posix Z :=
  g <- sys Getpid;;
  f <- sys Fork;;
  if (ret f =? -1)%Z then perror "fork" (errno f) ;;; exit EXIT_FAILURE
  else if (ret f =? 0)%Z then
    p <- sys Getpid;;
    c <- sys Fork;;
    if (ret c =? -1)%Z then perror "fork" (errno c) ;;; exit EXIT_FAILURE
    else if (ret c =? 0)%Z then grandchild fuel (ret c) (ret p)
    else about_to_exit (ret p)
  else
    printf ("Grandparent here with PID = " +:+ zstr (ret g) +:+ nl) ;;;
    sys (Sleep 3) ;;;
    sys Wait ;;;
    Ret 0%Z.

(** ** make_zombie.c *)

Definition CMD_SIZE : nat := 200.

(** [WEXITED | WSTOPPED | WCONTINUED | WNOWAIT]. *)
Definition WAIT_OPTIONS : Z := 16777230.

Definition zombie_command (name : string) : string :=
  of_bytes (take (CMD_SIZE - 1) (to_bytes "ps | grep " ++ TsdPaths.posix_basename (to_bytes name))).

Definition make_zombie_main (argv : list string) : prog posix Z :=
  p <- sys Getpid;;
  printf ("Parent PID=" +:+ zstr (ret p) +:+ nl) ;;;
  f <- sys Fork;;
  if (ret f =? -1)%Z then perror "fork" (errno f) ;;; exit EXIT_FAILURE
  else if (ret f =? 0)%Z then
    c <- sys Getpid;;
    printf ("Child (PID=" +:+ zstr (ret c) +:+ ") exiting" +:+ nl) ;;;
    quick_exit EXIT_SUCCESS
  else
    '(w, _) <- sys (Waitid WAIT_OPTIONS);;
    if (ret w =? -1)%Z then perror "waitid()" (errno w) ;;; exit EXIT_FAILURE else
    let cmd := zombie_command (argv_0 argv) in
    sys (System cmd) ;;;
    k <- sys (Kill (ret f) SIGKILL);;
    when (ret k =? -1)%Z (perror "kill" (errno k)) ;;;
    sys (Sleep 3) ;;;
    printf ("After sending SIGKILL to zombie (PID=" +:+ zstr (ret f) +:+ "):" +:+ nl) ;;;
    sys (System cmd) ;;;
    exit EXIT_SUCCESS.

(** ** Exercise_27-6.c *)

Definition blockset : Z := 65536.

Definition chld_handler : prog posix unit := printf ("handler" +:+ nl).

(** SIGCHLD may be delivered at a point of the program; [garbage] is what
    [status] holds when [wait] fails. *)
Definition chld_point (point : nat) : prog posix unit :=
  d <- sys (Deliver SIGCHLD point);; when (negb (ret d =? 0)%Z) chld_handler.

Definition exercise_27_6_main (garbage : Z) : prog posix Z :=
  a <- sys (Sigaction SIGCHLD (Sigact (Handler "sighandler") 0 0));;
  if (ret a =? -1)%Z then perror "sigaction" (errno a) ;;; exit EXIT_FAILURE else
  sys (Sigprocmask SIG_BLOCK blockset) ;;;
  f <- sys Fork;;
  if (ret f =? -1)%Z then perror "fork" (errno f) ;;; exit EXIT_FAILURE
  else if (ret f =? 0)%Z then printf ("I am child, exiting now" +:+ nl) ;;; quick_exit EXIT_SUCCESS
  else
    sys (Sleep 5) ;;;
    printf ("I am parent, my child is gone :(" +:+ nl) ;;;
    '(w, st) <- sys Wait;;
    let status := if (ret w =? -1)%Z then garbage else st in
    printf ("SIGCHLD unblocked by parent" +:+ nl) ;;;
    sys (Sigprocmask SIG_UNBLOCK blockset) ;;;
    chld_point 0 ;;;
    printf ("Child's exit status: " +:+ zstr status +:+ nl) ;;;
    exit EXIT_SUCCESS.

(** ** vfork_close_fd.c, fork_benchmark.c, vfork_benchmark.c, thread_join_self.c *)

Definition vfork_close_main : prog posix Z :=
  f <- sys Vfork;;
  if (ret f =? -1)%Z then perror "vfork" (errno f) ;;; exit EXIT_FAILURE
  else if (ret f =? 0)%Z then
    printf ("Child is about to close its stdout descriptor" +:+ nl) ;;;
    sys (Close STDOUT_FILENO) ;;;
    quick_exit EXIT_SUCCESS
  else
    sys Wait ;;;
    printf "hello from parent" ;;;
    exit EXIT_SUCCESS.

(** The loop of the two benchmarks, with [n] children left to make. *)
Fixpoint benchmark (vf : bool) (n : nat) : prog posix Z :=
  match n with
  | O => exit EXIT_SUCCESS
  | S n' =>
      f <- (if vf then sys Vfork else sys Fork);;
      if (ret f =? -1)%Z then perror (if vf then "vfork" else "fork") (errno f) ;;; exit EXIT_FAILURE
      else if (ret f =? 0)%Z then quick_exit EXIT_SUCCESS
      else sys Wait ;;; benchmark vf n'
  end.
Definition CHILDREN : nat := Z.to_nat 100000.
Definition fork_benchmark_main : prog posix Z := benchmark false CHILDREN.
Definition vfork_benchmark_main : prog posix Z := benchmark true CHILDREN.

(** The thread that waits for itself, and [main], which does not wait for it. *)
Definition threadFunc : prog posix Z := sys PthreadSelf ;;; sys PthreadJoin ;;; Ret 0%Z.
Definition thread_join_main : prog posix Z := sys PthreadCreate ;;; Ret 0%Z.

(** ** Exercises 34-2 and 34-3 *)

Definition after_exec_main : prog posix Z :=
  f <- sys Fork;;
  if (ret f =? -1)%Z then perror "fork" (errno f) ;;; exit EXIT_FAILURE
  else if (ret f =? 0)%Z then
    e <- sys (Execvp "/usr/bin/sleep" ["sleep"; "10"]);;
    perror "execvp" (errno e) ;;; exit EXIT_FAILURE
  else
    sys (Sleep 10) ;;;
    g <- sys Getpgrp;;
    printf ("Hello from parent my PGID: " +:+ zstr (ret g) +:+ nl) ;;;
    s <- sys (Setpgid (ret f) (ret f));;
    if negb (ret s =? 0)%Z then perror "setpgid" (errno s) ;;; exit EXIT_FAILURE else
    exit EXIT_SUCCESS.

(** [default:], which the child falls into as well. *)
Definition set_group (childPid : Z) : prog posix Z :=
  s <- sys (Setpgid childPid childPid);;
  if negb (ret s =? 0)%Z then perror "setpgid" (errno s) ;;; exit EXIT_FAILURE else
  g <- sys Getpgrp;;
  printf ("Hello from parent my PGID: " +:+ zstr (ret g) +:+ nl) ;;;
  sys (Waitpid childPid 0) ;;;
  exit EXIT_SUCCESS.

Definition no_exec_main : prog posix Z :=
  f <- sys Fork;;
  if (ret f =? -1)%Z then perror "fork" (errno f) ;;; exit EXIT_FAILURE
  else if (ret f =? 0)%Z then
    sys (Sleep 10) ;;;
    g <- sys Getpgrp;;
    printf ("Hello from child my PGID: " +:+ zstr (ret g) +:+ nl) ;;;
    set_group (ret f)
  else set_group (ret f).

Definition setsid_main : prog posix Z :=
  s <- sys Setsid;;
  if negb (ret s =? 0)%Z then perror "setsid" (errno s) ;;; exit EXIT_FAILURE else Ret 0%Z.

(** ** disc_SIGHUP.c *)

Section strings.
Context (strsignal : Z → string).

Definition hup_handler (sig : Z) : prog posix unit :=
  p <- sys Getpid;;
  let n := zstr sig in
  printf ("PID " +:+ zstr (ret p) +:+ ": caught signal " +:+ (if String.length n <? 2 then " " +:+ n else n) +:+
          " (" +:+ strsignal sig +:+ ")" +:+ nl).

Definition hup_point (point : nat) : prog posix unit :=
  d <- sys (Deliver SIGHUP point);; when (negb (ret d =? 0)%Z) (hup_handler SIGHUP).

Definition catch_hup : prog posix unit :=
  a <- sys (Sigaction SIGHUP (Sigact (Handler "handler") 0 0));;
  if (ret a =? -1)%Z then perror "sigaction" (errno a) ;;; exit EXIT_FAILURE else hup_point 0.

(** The loop that creates the children; a child leaves it. *)
Fixpoint hup_children (args : list string) : prog posix unit :=
  match args with
  | [] => Ret tt
  | a :: args' =>
      f <- sys Fork;;
      if (ret f =? -1)%Z then perror "fork" (errno f) ;;; exit EXIT_FAILURE
      else if (ret f =? 0)%Z then
        (if match a with String c _ => Ascii.eqb c "d" | EmptyString => false end then
           s <- sys (Setpgid 0 0);;
           if (ret s =? -1)%Z then perror "setpgid" (errno s) ;;; exit EXIT_FAILURE else Ret tt
         else Ret tt) ;;;
        catch_hup
      else catch_hup ;;; hup_children args'
  end.

Definition disc_SIGHUP_main (fuel : nat) (argv : list string) : prog posix Z :=
  if (Z.of_nat (length argv) <? 2)%Z || streq (default "" (argv !! 1)) "--help"
  then printf (argv_0 argv +:+ " {d|s}... [ > sig.log 2>&1 ]" +:+ nl) ;;; exit EXIT_FAILURE else
  p <- sys Getpid;;
  printf ("PID of parent process is:       " +:+ zstr (ret p) +:+ nl) ;;;
  g <- sys (Tcgetpgrp STDIN_FILENO);;
  printf ("Foreground process group ID is: " +:+ zstr (ret g) +:+ nl) ;;;
  hup_children (tail argv) ;;;
  sys (Alarm 60) ;;;
  q <- sys Getpid;;
  h <- sys Getpgrp;;
  printf ("PID=" +:+ zstr (ret q) +:+ " PGID=" +:+ zstr (ret h) +:+ nl) ;;;
  loop fuel (λ _ : unit, sys Pause ;;; hup_point 1 ;;; Ret (inl tt)) tt.

(** ** Exercises 34-6 and 34-7 *)

Definition orphan_read_main : prog posix Z :=
  f <- sys Fork;;
  if (ret f =? -1)%Z then perror "fork" (errno f) ;;; exit EXIT_FAILURE
  else if (ret f =? 0)%Z then
    sys (Sleep 10) ;;;
    printf ("Child: parent exited, will try to read from stdin" +:+ nl) ;;;
    '(r, _) <- sys (Read STDIN_FILENO 9);;
    if (ret r =? -1)%Z then perror "read" (errno r) ;;; exit EXIT_FAILURE else exit EXIT_SUCCESS
  else printf ("Parent:  exiting now" +:+ nl) ;;; quick_exit 0.

Definition sigHandler (signum : Z) : prog posix unit :=
  printf ("At signal handler with signal : " +:+ strsignal signum +:+ nl).

Definition ttin_point (point : nat) : prog posix unit :=
  d <- sys (Deliver SIGTTIN point);; when (negb (ret d =? 0)%Z) (sigHandler SIGTTIN).

(** [getpid_address] is the address of the function, which the second message of
    the child prints. *)
Definition orphan_signals_main (fuel : nat) (getpid_address : Z) : prog posix Z :=
  g <- sys Getpgrp;;
  printf ("PGRPID: " +:+ zstr (ret g) +:+ nl) ;;;
  a <- sys (Sigaction SIGTTIN (Sigact (Handler "sigHandler") 0 0));;
  if negb (ret a =? 0)%Z then perror "sigaction" (errno a) ;;; exit EXIT_FAILURE else
  f <- sys Fork;;
  if (ret f =? -1)%Z then perror "fork" (errno f) ;;; exit EXIT_FAILURE
  else if (ret f =? 0)%Z then
    p <- sys Getpid;;
    printf ("Child[" +:+ zstr (ret p) +:+ "]: sleeping for 10 secs" +:+ nl) ;;;
    sys (Sleep 10) ;;;
    g <- sys Getpgrp;;
    printf ("Child[" +:+ zstr getpid_address +:+ "]: sleeping done sending signal to PGRPID " +:+ zstr (ret g) +:+ nl) ;;;
    p1 <- sys Getpid;;
    k1 <- sys (Kill (ret p1) SIGTTIN);;
    if (ret k1 =? -1)%Z then perror "kill" (errno k1) ;;; exit EXIT_FAILURE else
    ttin_point 0 ;;;
    p2 <- sys Getpid;;
    k2 <- sys (Kill (ret p2) SIGTSTP);;
    if (ret k2 =? -1)%Z then perror "kill" (errno k2) ;;; exit EXIT_FAILURE else
    p3 <- sys Getpid;;
    printf ("Child[" +:+ zstr (ret p3) +:+ "]: Signals are sent waiting" +:+ nl) ;;;
    loop fuel (λ _ : unit, sys Pause ;;; ttin_point 1 ;;; Ret (inl tt)) tt
  else
    p <- sys Getpid;;
    printf ("Parent[" +:+ zstr (ret p) +:+ "]: exiting now" +:+ nl) ;;;
    quick_exit EXIT_SUCCESS.
End strings.

(** ** Correctness *)

Lemma WEXITSTATUS_exit code : WEXITSTATUS (exit_status code) = Z.land code 255.
Proof.
  unfold WEXITSTATUS, exit_status. change 65280%Z with (Z.shiftl 255 8). rewrite <- Z.shiftl_land, Z.shiftr_shiftl_l by lia.
  rewrite Z.sub_diag, Z.shiftl_0_r, <- Z.land_assoc. done.
Qed.

Definition is_pause (e : event posix) : Prop := match e with ECall Pause _ | EGone Pause => True | _ => False end.
Definition is_deliver (e : event posix) : Prop := match e with ECall (Deliver _ _) _ | EGone (Deliver _ _) => True | _ => False end.

(** The process catches SIGHUP and its alarm is set. *)
Definition armed (t : list (event posix)) : Prop :=
  called t (Sigaction SIGHUP (Sigact (Handler "handler") 0 0)) (λ a, ret a ≠ (-1)%Z) ∧ called t (Alarm 60) (λ _, True).
Definition unblocked (t : list (event posix)) : Prop := called t (Sigprocmask SIG_UNBLOCK blockset) (λ _, True).

Section runs.
Context {W : Type} (K : kernel posix W).

Lemma child_exit_ok w : wp K child_exit_main w (λ r _ t,
  r = Gone ∨ (r = Halted (Exited 1) ∧ perror_last t) ∨ r = Halted (Exited (-1)) ∨
  (r = Halted (Exited 0) ∧ ∃ f a, let st := if (ret a.1 =? -1)%Z then 0%Z else a.2 in
    t = [ECall Fork f; ECall Wait a; EOut (Out ("Child exited with " +:+ zstr st +:+ nl));
         EOut (Out ("Child exited with " +:+ zstr (WEXITSTATUS st) +:+ nl))])).
Proof.
  apply wpa_wp. unfold child_exit_main. acc_call; [|by left].
  destruct (ret a =? -1)%Z; [acc_steps; right; left; auto with posix|].
  destruct (ret a =? 0)%Z.
  - acc_call; [|by left]. acc_steps. by right; right; left.
  - acc_call; [|by left]. destruct a0 as [r st]. acc_steps. right; right; right. split; [done|]. by exists a, (r, st).
Qed.

Lemma setsid_ok w : (∀ w r w', K Setsid w = Answer r w' → ret r = (-1)%Z ∨ (0 < ret r)%Z) →
  wp K setsid_main w (λ r _ t, r = Gone ∨ (r = Halted (Exited 1) ∧ perror_last t)).
Proof.
  intros HK. apply wpa_wp. unfold setsid_main. acc_call; [|by left].
  destruct (negb (ret a =? 0)%Z) eqn:E.
  - acc_steps. right. auto with posix.
  - apply negb_false_iff in E. zbool. destruct (HK _ _ _ H); lia.
Qed.

Lemma grandchild_ok fuel c p w : wp K (grandchild fuel c p) w (λ r _ t,
  r = Gone ∨ r = Halted Cut ∨ (r = Halted (QuickExited 0) ∧ ∃ n q, outs t =
    ["Child is here with PID = " +:+ zstr c +:+ nl] ++ replicate n ("Parent still alive" +:+ nl) ++
    ["Parent gone new parent's PID = " +:+ zstr q +:+ nl; "Parent here with PID = " +:+ zstr p +:+ " about to exit" +:+ nl])).
Proof.
  apply wpa_wp. unfold grandchild. acc_call; [|by left]. acc_steps. apply wpa_bind.
  set (first := "Child is here with PID = " +:+ zstr c +:+ nl).
  eapply wpa_mono.
  - apply (wpa_loop K (λ _ _ t, ∃ n, outs t = [first] ++ replicate n ("Parent still alive" +:+ nl)) _
      (λ r _ t, match r with Returned _ => ∃ n, outs t = [first] ++ replicate n ("Parent still alive" +:+ nl)
                | Halted h => h = Cut | Gone => True end)); [|done|by exists 0].
    intros [] w1 t1 [n HI]. acc_call; [|done]. destruct (ret a0 =? p)%Z; acc_steps.
    + exists (S n). rewrite !outs_app, HI, replicate_S_end. cbn. by rewrite app_nil_r.
    + exists n. by rewrite outs_app, HI, app_nil_r.
  - intros [[]|h|] w1 t1 HI; [|subst; by right; left|by left]. destruct HI as [n HI].
    acc_call; [|by left]. unfold about_to_exit. acc_steps. right; right. split; [done|]. exists n, (ret a0).
    rewrite !outs_app, HI. cbn. by rewrite app_nil_r, <- !app_assoc.
Qed.

Lemma make_zombie_ok argv w : wp K (make_zombie_main argv) w (λ r _ t,
  r = Gone ∨ (r = Halted (Exited 1) ∧ perror_last t) ∨ r = Halted (QuickExited 0) ∨
  (r = Halted (Exited 0) ∧ ∃ pid, called t (Waitid WAIT_OPTIONS) (λ a, ret a.1 ≠ (-1)%Z) ∧
    calls t = [Getpid; Fork; Waitid WAIT_OPTIONS; System (zombie_command (argv_0 argv)); Kill pid SIGKILL; Sleep 3;
               System (zombie_command (argv_0 argv))])).
Proof.
  apply wpa_wp. unfold make_zombie_main. acc_call; [|by left]. acc_call; [|by left].
  destruct (ret a0 =? -1)%Z; [acc_steps; right; left; auto with posix|].
  destruct (ret a0 =? 0)%Z; [acc_call; [|by left]; acc_steps; by right; right; left|].
  acc_call; [|by left]. destruct a1 as [wr si]. destruct (ret wr =? -1)%Z eqn:E; zbool; [acc_steps; right; left; auto with posix|].
  cbv zeta. acc_call; [|by left]. acc_call; [|by left]. unfold when.
  match goal with |- wpa _ _ (bind _ (if ?b then _ else _)) _ _ => destruct b end;
    (acc_steps; acc_call; [|by left]; acc_call; [|by left]; acc_steps; right; right; right; split; [done|]; exists (ret a0); split;
     [|by rewrite !calls_app];
     repeat first [apply called_last; exact E | apply called_app_l]).
Qed.

Ltac bs Hs := repeat (apply Hs; [|by intros []]); done.

Lemma exercise_27_6_ok garbage w : wp K (exercise_27_6_main garbage) w (λ r _ t,
  before_each is_deliver unblocked t ∧
  (r = Halted (Exited 0) → ∃ l st, (l = [] ∨ l = ["handler" +:+ nl]) ∧ outs t =
    ["I am parent, my child is gone :(" +:+ nl; "SIGCHLD unblocked by parent" +:+ nl] ++ l ++ ["Child's exit status: " +:+ zstr st +:+ nl])).
Proof.
  assert (∀ t e, before_each is_deliver unblocked t → ¬ is_deliver e → before_each is_deliver unblocked (t ++ [e])) as Hs by (intros; by apply before_each_snoc).
  pose proof (before_each_nil is_deliver unblocked) as H0.
  apply wpa_wp. unfold exercise_27_6_main.
  acc_call; [|split; [bs Hs|done]]. destruct (ret a =? -1)%Z; [acc_steps; split; [bs Hs|done]|].
  acc_call; [|split; [bs Hs|done]]. acc_call; [|split; [bs Hs|done]].
  destruct (ret a1 =? -1)%Z; [acc_steps; split; [bs Hs|done]|].
  destruct (ret a1 =? 0)%Z; [acc_steps; split; [bs Hs|done]|].
  acc_call; [|split; [bs Hs|done]]. acc_call; [|split; [bs Hs|done]]. destruct a3 as [wr st]. cbv zeta.
  acc_call; [|split; [bs Hs|done]]. unfold chld_point.
  match goal with |- wpa _ ?t _ _ _ => assert (before_each is_deliver unblocked t) as Hb by (bs Hs) end.
  match goal with |- wpa _ (?t ++ [?e]) _ _ _ => assert (∀ u, unblocked ((t ++ [e]) ++ u)) as Hu by (intros u; apply called_app_l; by apply called_last) end.
  acc_call; [|split; [apply before_each_snoc; [done|]; intros _; rewrite <- (app_nil_r (_ ++ _)); apply Hu|done]].
  match goal with |- wpa _ ?t _ _ _ => assert (before_each is_deliver unblocked t) as Hb2 end.
  { apply before_each_snoc; [done|]. intros _. rewrite <- (app_nil_r (_ ++ _)). apply Hu. }
  unfold when, chld_handler. match goal with |- wpa _ _ (if ?b then _ else _) _ _ => destruct b end; acc_steps; (split; [bs Hs|]); intros _.
  - eexists ["handler" +:+ nl], _. split; [by right|]. rewrite !outs_app. reflexivity.
  - eexists [], _. split; [by left|]. rewrite !outs_app. reflexivity.
Qed.

(** The calls made for [n] children. *)
Definition fork_calls (vf : bool) (n : nat) : list posix_op :=
  concat (replicate n [if vf then Vfork else Fork; Wait]).

Lemma fork_calls_snoc vf n : fork_calls vf n ++ [if vf then Vfork else Fork; Wait] = fork_calls vf (S n).
Proof. unfold fork_calls. by rewrite replicate_S_end, concat_app. Qed.

Lemma benchmark_ok vf n k t w : calls t = fork_calls vf k → wpa K t (benchmark vf n) w (λ r _ t',
  r = Gone ∨ (r = Halted (Exited 1) ∧ perror_last t') ∨
  (r = Halted (QuickExited 0) ∧ ∃ j, k <= j < k + n ∧ calls t' = fork_calls vf j ++ [if vf then Vfork else Fork]) ∨
  (r = Halted (Exited 0) ∧ calls t' = fork_calls vf (k + n))).
Proof.
  revert k t w. induction n as [|n IH]; intros k t w Hk; cbn [benchmark].
  { acc_steps. right; right; right. by rewrite Nat.add_0_r. }
  assert (∀ f : rc, ∃ e : event posix, calls [e] = [if vf then Vfork else Fork] ∧
    e = (if vf then ECall (S := posix) Vfork f else ECall (S := posix) Fork f)) as He by (intros f; destruct vf; (eexists; split; [|reflexivity]; reflexivity)).
  assert (∀ w0 (f : rc), wpa K (t ++ [if vf then ECall (S := posix) Vfork f else ECall (S := posix) Fork f])
    (if (ret f =? -1)%Z then perror (if vf then "vfork" else "fork") (errno f) ;;; exit EXIT_FAILURE
     else if (ret f =? 0)%Z then quick_exit EXIT_SUCCESS else sys Wait ;;; benchmark vf n) w0 (λ r _ t',
    r = Gone ∨ (r = Halted (Exited 1) ∧ perror_last t') ∨
    (r = Halted (QuickExited 0) ∧ ∃ j, k <= j < k + S n ∧ calls t' = fork_calls vf j ++ [if vf then Vfork else Fork]) ∨
    (r = Halted (Exited 0) ∧ calls t' = fork_calls vf (k + S n)))) as Hrest.
  { intros w0 f. destruct (He f) as (e & E1 & <-). destruct (ret f =? -1)%Z; [acc_steps; right; left; auto with posix|].
    destruct (ret f =? 0)%Z; [acc_steps; right; right; left; split; [done|]; exists k; split; [lia|by rewrite calls_app, E1, Hk]|].
    acc_call; [|by left]. eapply wpa_mono.
    - apply (IH (S k)). by rewrite !calls_app, E1, Hk, <- app_assoc, <- fork_calls_snoc.
    - intros r w2 t2 [H1|[H1|[(H1 & j & Hj & E)|[H1 E]]]]; [by left|by right; left| |].
      + right; right; left. split; [done|]. exists j. split; [lia|done].
      + right; right; right. split; [done|]. by rewrite <- Nat.add_succ_comm. }
  destruct vf; unfold sys at 1; cbn [bind]; (apply wpa_sys; [intros f w1 _; apply Hrest|by left]).
Qed.

Lemma no_exec_ok w : wp K no_exec_main w (λ r _ t, r = Halted (Exited 0) →
  ∃ f, (ECall Fork f : event posix) ∈ t ∧ ret f ≠ (-1)%Z ∧ called t (Setpgid (ret f) (ret f)) (λ a, ret a = 0%Z) ∧
    ∃ g, outs t = (if (ret f =? 0)%Z then ["Hello from child my PGID: " +:+ zstr (ret g.1) +:+ nl] else []) ++
      ["Hello from parent my PGID: " +:+ zstr (ret g.2) +:+ nl]).
Proof.
  apply wpa_wp. unfold no_exec_main. acc_call; [|done]. destruct (ret a =? -1)%Z eqn:E; zbool; [by acc_steps|].
  assert (∀ t w (u : list string), (ECall Fork a : event posix) ∈ t → wpa K t (set_group (ret a)) w (λ r _ t', r = Halted (Exited 0) →
    (ECall Fork a : event posix) ∈ t' ∧ called t' (Setpgid (ret a) (ret a)) (λ x, ret x = 0%Z) ∧
    ∃ g, outs t' = outs t ++ ["Hello from parent my PGID: " +:+ zstr (ret g) +:+ nl])) as Hg.
  { intros t w0 u Ht. unfold set_group. acc_call; [|done]. destruct (negb (ret a0 =? 0)%Z) eqn:E0; [by acc_steps|].
    apply negb_false_iff in E0. zbool. acc_call; [|done]. acc_call; [|done]. acc_steps. intros _. split_and!.
    - do 4 (apply elem_of_app; left). done.
    - do 3 apply called_app_l. by apply called_last.
    - exists a1. rewrite !outs_app. cbn. by rewrite !app_nil_r. }
  destruct (ret a =? 0)%Z eqn:E0.
  - acc_call; [|done]. acc_call; [|done]. acc_steps. eapply wpa_mono; [apply (Hg _ _ [])|].
    + do 3 (apply elem_of_app; left). left.
    + intros r w2 t2 Hr ->. destruct (Hr eq_refl) as (K1 & K2 & g & K3). exists a. split_and!; [done|done|done|]. rewrite E0. by exists (a1, g).
  - eapply wpa_mono; [apply (Hg _ _ [])|].
    + left.
    + intros r w2 t2 Hr ->. destruct (Hr eq_refl) as (K1 & K2 & g & K3). exists a. split_and!; [done|done|done|]. rewrite E0. by exists (g, g).
Qed.

(** What the processes of disc_SIGHUP.c add to the trace before they wait. *)
Definition catching (r : outcome unit) (u : list (event posix)) : Prop :=
  Forall (λ e, ¬ is_pause e) u ∧
  match r with
  | Returned _ => called u (Sigaction SIGHUP (Sigact (Handler "handler") 0 0)) (λ a, ret a ≠ (-1)%Z)
  | Halted h => h = Exited 1
  | Gone => True
  end.

Lemma no_pause_snoc t e : Forall (λ e, ¬ is_pause e) t → ¬ is_pause e → Forall (λ e, ¬ is_pause e) (t ++ [e]).
Proof. intros H He. apply Forall_app. split; [done|]. constructor; [done|by apply Forall_nil]. Qed.

Ltac np := repeat first [apply no_pause_snoc; [|by intros []] | apply Forall_cons; split; [by intros []|]]; first [done | by apply Forall_nil].

Lemma hup_point_ok strsignal point t w : wpa K t (hup_point strsignal point) w (λ r _ t', ∃ u, t' = t ++ u ∧ Forall (λ e, ¬ is_pause e) u ∧
  match r with Halted _ => False | _ => True end).
Proof.
  unfold hup_point, hup_handler, when.
  assert (∀ v : list (event posix), Forall (λ e, ¬ is_pause e) v → ∃ u, t ++ v = t ++ u ∧ Forall (λ e, ¬ is_pause e) u ∧ True) as Hv by (intros v Hv; by exists v).
  acc_call; [|apply Hv; np]. destruct (negb _); [|acc_steps; apply Hv; np].
  acc_call; [|rewrite <- app_assoc; apply Hv; np]. cbv zeta. acc_steps. rewrite <- !app_assoc. apply Hv. cbn. by repeat (constructor; [by intros []|]).
Qed.

Lemma catch_hup_ok strsignal t w : wpa K t (catch_hup strsignal) w (λ r _ t', ∃ u, t' = t ++ u ∧ catching r u).
Proof.
  unfold catch_hup. acc_call; [|eexists; split; [reflexivity|]; split; [np|done]].
  destruct (ret a =? -1)%Z eqn:E; zbool.
  { acc_steps. rewrite <- app_assoc. eexists; split; [reflexivity|]. split; [np|done]. }
  eapply wpa_mono; [apply hup_point_ok|]. intros r w2 t2 (u & -> & Hu & Hr). rewrite <- app_assoc.
  eexists; split; [reflexivity|]. split; [by apply Forall_app; split; [np|]|].
  destruct r as [[]|h|]; [|done|done]. apply called_app_l. by apply (called_last []).
Qed.

Lemma hup_children_ok strsignal args t w : args ≠ [] →
  wpa K t (hup_children strsignal args) w (λ r _ t', ∃ u, t' = t ++ u ∧ catching r u).
Proof.
  revert t w. induction args as [|a args IH]; intros t w Hne; [done|]. cbn [hup_children].
  acc_call; [|eexists; split; [reflexivity|]; split; [np|done]].
  destruct (ret a0 =? -1)%Z.
  { acc_steps. rewrite <- app_assoc. eexists; split; [reflexivity|]. split; [np|done]. }
  assert (∀ (r : outcome unit) v u, Forall (λ e, ¬ is_pause e) v → catching r u → catching r (v ++ u)) as Hcat.
  { intros r v u Hv [H1 H2]. split; [by apply Forall_app|]. destruct r; [by apply called_app_r|done|done]. }
  destruct (ret a0 =? 0)%Z.
  - destruct (match a with String c _ => Ascii.eqb c "d" | EmptyString => false end).
    + acc_call; [|rewrite <- app_assoc; eexists; split; [reflexivity|]; split; [np|done]].
      destruct (ret a1 =? -1)%Z.
      { acc_steps. rewrite <- !app_assoc. eexists; split; [reflexivity|]. split; [np|done]. }
      acc_steps. eapply wpa_mono; [apply catch_hup_ok|]. intros r w2 t2 (u & -> & Hu). rewrite <- !app_assoc. eexists; split; [reflexivity|].
      apply Hcat; [np|]. apply Hcat; [np|done].
    + cbn [bind]. eapply wpa_mono; [apply catch_hup_ok|]. intros r w2 t2 (u & -> & Hu). rewrite <- !app_assoc. eexists; split; [reflexivity|].
      apply Hcat; [np|done].
  - apply wpa_bind. eapply wpa_mono; [apply catch_hup_ok|]. intros [[]|h|] w2 t2 (u & -> & Hu).
    + destruct args as [|b args].
      * apply wpa_ret. rewrite <- app_assoc. eexists; split; [reflexivity|]. apply Hcat; [np|done].
      * eapply wpa_mono; [by apply IH|]. intros r w3 t3 (u3 & -> & Hu3). rewrite <- !app_assoc. eexists; split; [reflexivity|].
        apply Hcat; [np|]. apply Hcat; [apply Hu|done].
    + rewrite <- app_assoc. eexists; split; [reflexivity|]. destruct Hu as [H1 H2]. split; [by apply Forall_app; split; [np|]|done].
    + rewrite <- app_assoc. eexists; split; [reflexivity|]. destruct Hu as [H1 H2]. split; [by apply Forall_app; split; [np|]|done].
Qed.

Lemma disc_SIGHUP_ok strsignal fuel argv w : wp K (disc_SIGHUP_main strsignal fuel argv) w (λ r _ t,
  before_each is_pause armed t ∧ (r = Gone ∨ r = Halted Cut ∨ r = Halted (Exited 1))).
Proof.
  assert (∀ t, Forall (λ e, ¬ is_pause e) t → before_each is_pause armed t) as Hn.
  { intros t Ht t1 e t2 -> He. apply Forall_app in Ht as [_ Ht]. by apply Forall_cons in Ht as [Ht _]. }
  apply wpa_wp. unfold disc_SIGHUP_main. destruct (_ || _) eqn:Eargs.
  { acc_steps. split; [apply Hn; np|by right; right]. }
  assert (tail argv ≠ []) as Hargs.
  { apply orb_false_iff in Eargs as [E1 _]. zbool. destruct argv as [|x [|y argv]]; cbn in E1; [lia|lia|done]. }
  acc_call; [|split; [apply Hn; np|by left]]. acc_call; [|split; [apply Hn; np|by left]].
  acc_steps. match goal with |- wpa _ ?t _ _ _ => assert (Forall (λ e, ¬ is_pause e) t) as H1 by np; generalize dependent t; intros t0 H1 end.
  apply wpa_bind. eapply wpa_mono; [by apply hup_children_ok|]. intros r w1 t1 (u & -> & Hu & Hr).
  assert (Forall (λ e, ¬ is_pause e) (t0 ++ u)) as H2 by by apply Forall_app.
  destruct r as [[]|h|]; [|split; [by apply Hn|subst; by right; right]|split; [by apply Hn|by left]].
  acc_call; [|split; [apply Hn; np|by left]].
  match goal with |- wpa _ (_ ++ [?e]) _ _ _ => assert (∀ v, armed (((t0 ++ u) ++ [e]) ++ v)) as Harm end.
  { intros v. split; apply called_app_l; [apply called_app_l; by apply called_app_r|by apply called_last]. }
  match goal with |- wpa _ ?t _ _ _ => assert (Forall (λ e, ¬ is_pause e) t) as H4 by np; set (t3 := t) in * end.
  acc_call; [|split; [apply Hn; np|by left]]. acc_call; [|split; [apply Hn; np|by left]]. acc_steps.
  apply (wpa_loop K (λ _ _ t, before_each is_pause armed t ∧ ∃ v, t = t3 ++ v)); [|by intros [] w2 t2 [HI _]; split; [|right; left]|].
  - intros [] w2 t2 [HI [v ->]].
    assert (∀ e, before_each is_pause armed ((t3 ++ v) ++ [e])) as Hb by (intros e; apply before_each_snoc; [done|]; intros _; apply Harm).
    acc_call; [|split; [apply Hb|by left]].
    match goal with |- wpa _ (_ ++ [?e]) _ _ _ => set (ep := e) in * end.
    apply wpa_bind. eapply wpa_mono; [apply hup_point_ok|]. intros r w3 t4 (u4 & -> & Hu4 & Hr4).
    assert (before_each is_pause armed (((t3 ++ v) ++ [ep]) ++ u4)) as Hb4.
    { clear Hr4. induction u4 as [|e u4 IH] using rev_ind; [by rewrite app_nil_r|]. apply Forall_app in Hu4 as [Hu4 He]. apply Forall_cons in He as [He _].
      rewrite app_assoc. apply before_each_snoc; [by apply IH|done]. }
    destruct r as [[]|h|]; [|done|split; [done|by left]].
    apply wpa_ret. split; [done|]. eexists. by rewrite <- !app_assoc.
  - split; [apply Hn; np|]. eexists. by rewrite <- !app_assoc.
Qed.
End runs.


(** A process that is not a group leader: [setsid] returns the new session. *)
Definition session_kernel : kernel posix unit := λ c w,
  match c as c return reaction (posix_ans c) unit with
  | Setsid => Answer (Rc 100 0) w
  | Fork => Answer (Rc 101 0) w
  | Wait => Answer (Rc 101 0, exit_status (-1)) w
  | _ => NoReturn w
  end.

