(* ===== verification/SysTools.v ===== *)
(** * Scheduling, limits, memory, semaphores

    psem_timedwait.c (CH53), rtsched.c and sched_fifo/main.c (CH35), rusage.c and
    Exercise_36-1/main.c (CH36), rlimit_memlock.c (CH50), free_and_sbrk.c (CH07)
    and pipe_bandwidth.c (CH43).  Times are what the environment answers;
    [fuel] bounds the loops that wait for CPU time to pass. *)
From Stdlib Require Import ZArith Lia Ascii String.
From stdpp Require Import base gmap strings list.
From S2P Require Import Prelude Prog CString Posix GetNum ErrorFunctions.
Local Open Scope prog_scope.

(** ** psem_timedwait.c *)

Definition psem_main (argv : list string) : prog posix Z :=
  if (length argv <? 3) || streq (argv_0 argv) "--help"
  then eprintf (argv_0 argv +:+ " sem-name timeout-sec" +:+ nl) ;;; exit EXIT_FAILURE else
  timeoutSec <- getInt (argv !! 2) GN_GT_0 (Some "timeout-sec"%string);;
  '(c, now) <- sys ClockGettime;;
  if (ret c =? -1)%Z then perror "clock_gettime" (errno c) ;;; exit EXIT_FAILURE else
  if (LONG_MAX <? now.1 + timeoutSec)%Z then undef "signed overflow" else
  let timeout := (now.1 + timeoutSec, now.2)%Z in
  sem <- sys (SemOpen (default "" (argv !! 1)));;
  if (ret sem =? 0)%Z then perror "sem_open" (errno sem) ;;; exit EXIT_FAILURE else
  w <- sys (SemTimedwait (ret sem) timeout);;
  if (ret w =? -1)%Z then perror "sem_wait" (errno w) ;;; exit EXIT_FAILURE else
  p <- sys Getpid;;
  printf (zstr (ret p) +:+ " sem_wait() succeeded" +:+ nl) ;;;
  exit EXIT_SUCCESS.

(** ** rtsched.c *)

Definition SCHED_FIFO : Z := 1.
Definition SCHED_RR : Z := 2.

(** [strchr("fr", argv[1][0]) == NULL]: the terminator of the string counts. *)
Definition bad_policy (arg : string) : bool :=
  match arg with EmptyString => false | String c _ => negb (Ascii.eqb c "f" || Ascii.eqb c "r") end.
Definition policy_of (arg : string) : Z := if streq arg "r" then SCHED_RR else SCHED_FIFO.

Definition rtsched_main (argv : list string) : prog posix Z :=
  match argv with
  | name :: policyArg :: priorityArg :: commandArg :: args =>
      if bad_policy policyArg
      then printf ("Usage: " +:+ name +:+ " policy (r|f) priority command arg...") ;;; exit EXIT_FAILURE else
      let policy := policy_of policyArg in
      let priority := to_int (st_val (strtol (to_bytes priorityArg) 10)) in
      if (priority =? EINVAL)%Z then perror "strtol" 0 ;;; exit EXIT_FAILURE else
      command <- sys (Malloc (Z.of_nat (String.length commandArg) + 1));;
      if (ret command =? 0)%Z then perror "strdup" (errno command) ;;; exit EXIT_FAILURE else
      sys Getpid ;;;
      s <- sys (SchedSetscheduler policy priority);;
      if (ret s =? -1)%Z then perror "sched_setscheduler" (errno s) ;;; exit EXIT_FAILURE else
      e <- sys (Execvp commandArg (commandArg :: args));;
      perror "execve" (errno e) ;;;
      Ret 0%Z
  | _ => printf ("Usage: " +:+ argv_0 argv +:+ " policy (r|f) priority command arg...") ;;; exit EXIT_FAILURE
  end.

(** ** sched_fifo/main.c *)

Definition SC_CLK_TCK : Z := 2.
Definition totalQuarters : nat := 12.

(** [(long)((0.25) * freq)], for an [int] [freq]. *)
Definition quarter (freq : Z) : Z := Z.quot freq 4.

(** One iteration of the loop of [job]; the state is [currentQuarter]. *)
Definition job_step (freq : Z) (doer : string) (currentQuarter : nat) : prog posix (nat + unit) :=
  '(t, utime) <- sys Times;;
  if (ret t =? -1)%Z then perror "times" (errno t) ;;; exit EXIT_FAILURE else
  if (quarter freq =? 0)%Z then undef "division by zero" else
  if (Z.rem utime (quarter freq) =? 0)%Z then
    printf (doer +:+ " a quarter of second passed" +:+ nl) ;;;
    let q := S currentQuarter in
    (if Nat.modulo q 4 =? 0 then
       printf (doer +:+ " yielding" +:+ nl) ;;;
       y <- sys SchedYield;;
       if (ret y =? -1)%Z then perror "sched_yield" (errno y) ;;; exit EXIT_FAILURE else Ret tt
     else Ret tt) ;;;
    if q =? totalQuarters then printf (doer +:+ " DONE" +:+ nl) ;;; Ret (inr tt) else Ret (inl q)
  else Ret (inl currentQuarter).

Definition job (fuel : nat) (doer : string) : prog posix unit :=
  freq <- sys (Sysconf SC_CLK_TCK);;
  loop fuel (job_step (to_int (ret freq)) doer) 0.

Definition sched_fifo_main (fuel : nat) : prog posix Z :=
  p <- sys Getpid;;
  a <- sys (SchedSetaffinity (ret p) 1);;
  if (ret a =? -1)%Z then perror "sched_setaffinity" (errno a) ;;; exit EXIT_FAILURE else
  m <- sys (SchedGetPriorityMin SCHED_FIFO);;
  sys Getpid ;;;
  s <- sys (SchedSetscheduler SCHED_FIFO (ret m));;
  if (ret s =? -1)%Z then perror "sched_setscheduler" (errno s) ;;; exit EXIT_FAILURE else
  f <- sys Fork;;
  (if (ret f =? 0)%Z then job fuel "child" else job fuel "parent") ;;;
  sys Wait ;;;
  exit EXIT_SUCCESS.

(** ** rusage.c *)

Definition RUSAGE_CHILDREN : Z := (-1)%Z.

(** ["%06ld"]. *)
Definition pad6 (z : Z) : string := of_bytes (replicate (6 - length (zdec z)) "0"%char) +:+ zstr z.

Definition rusage_main (argv : list string) : prog posix Z :=
  match argv !! 1 with
  | None => undef "strdup of a null pointer"
  | Some command =>
      sys (Malloc (Z.of_nat (String.length command) + 1)) ;;;
      f <- sys Fork;;
      if (ret f =? -1)%Z then perror "fork" (errno f) ;;; exit EXIT_FAILURE
      else if (ret f =? 0)%Z then
        e <- sys (Execvp command (tail argv));;
        perror "execvp" (errno e) ;;; exit EXIT_FAILURE
      else
        '(g, _) <- sys (Getrusage RUSAGE_CHILDREN);;
        if (ret g =? -1)%Z then perror "getrusage" (errno g) ;;; exit EXIT_FAILURE else
        '(w, _) <- sys Wait;;
        if (ret w =? -1)%Z then perror "wait" (errno w) ;;; exit EXIT_FAILURE else
        '(h, (ut, st)) <- sys (Getrusage RUSAGE_CHILDREN);;
        if (ret h =? -1)%Z then perror "getrusage" (errno h) ;;; exit EXIT_FAILURE else
        printf ("User time: " +:+ zstr ut.1 +:+ "." +:+ pad6 ut.2 +:+ " secs" +:+ nl) ;;;
        printf ("System time: " +:+ zstr st.1 +:+ "." +:+ pad6 st.2 +:+ " secs" +:+ nl) ;;;
        printf ("Executed in " +:+ zstr (ut.1 + st.1) +:+ "." +:+ pad6 (ut.2 + st.2) +:+ " secs" +:+ nl) ;;;
        exit EXIT_SUCCESS
  end.

(** ** Exercise_36-1/main.c *)

(** [t.tms_utime / sysconf(_SC_CLK_TCK)]. *)
Definition ticks_per_second : prog posix Z :=
  f <- sys (Sysconf SC_CLK_TCK);;
  if (ret f =? 0)%Z then undef "division by zero" else Ret (ret f).

Definition burn_child (fuel : nat) : prog posix Z :=
  loop fuel (λ _ : unit,
    '(t, utime) <- sys Times;;
    if (ret t =? -1)%Z then perror "times" (errno t) ;;; quick_exit EXIT_FAILURE else
    f <- ticks_per_second;;
    if (3 <=? Z.quot utime f)%Z then quick_exit EXIT_SUCCESS else Ret (inl tt)) tt.

(** The loop of the parent; its state is [tp.tms_utime], which is read before
    [times] has filled it. *)
Definition burn_parent (fuel : nat) (garbage : Z) : prog posix Z :=
  loop fuel (λ utime,
    f <- ticks_per_second;;
    if (Z.quot utime f <? 2)%Z then
      '(t, utime') <- sys Times;;
      if (ret t =? -1)%Z then perror "times" (errno t) ;;; exit EXIT_FAILURE else Ret (inl utime')
    else Ret (inr utime)) garbage.

Definition rusage_children : prog posix Z :=
  '(g, (ut, _)) <- sys (Getrusage RUSAGE_CHILDREN);;
  if (ret g =? -1)%Z then perror "getrusage" (errno g) ;;; exit EXIT_FAILURE else Ret ut.1.

Definition exercise_36_1_main (fuel : nat) (garbage : Z) : prog posix Z :=
  f <- sys Fork;;
  if (ret f =? -1)%Z then perror "fork" (errno f) ;;; exit EXIT_FAILURE
  else if (ret f =? 0)%Z then burn_child fuel
  else
    utime <- burn_parent fuel garbage;;
    f <- ticks_per_second;;
    printf ("Parent waited for " +:+ zstr (Z.quot utime f) +:+ " seconds" +:+ nl) ;;;
    before <- rusage_children;;
    printf ("From parent for child: system user time BEFORE wait: " +:+ zstr before +:+ nl) ;;;
    sys Wait ;;;
    after <- rusage_children;;
    printf ("From parent for child: system user time AFTER wait: " +:+ zstr after +:+ nl) ;;;
    exit EXIT_SUCCESS.

(** ** rlimit_memlock.c *)

Definition RLIMIT_MEMLOCK : Z := 8.
Definition SC_PAGESIZE : Z := 30.
(** [PROT_READ | PROT_WRITE] and [MAP_PRIVATE | MAP_ANONYMOUS]. *)
Definition LOCK_PROT : Z := 3.
Definition LOCK_MAP : Z := 34.

Definition rlimit_memlock_main : prog posix Z :=
  '(g, (cur, max)) <- sys (Getrlimit RLIMIT_MEMLOCK);;
  if (ret g =? -1)%Z then perror "getrlimit" (errno g) ;;; exit EXIT_FAILURE else
  printf ("Current RLIMIT_MEMLOCK " +:+ zstr cur +:+ nl) ;;;
  printf ("Current Maximum RLIMIT_MEMLOCK " +:+ zstr max +:+ nl) ;;;
  pageSize <- sys (Sysconf SC_PAGESIZE);;
  if (ret pageSize =? -1)%Z then perror "sysconf" (errno pageSize) ;;; exit EXIT_FAILURE else
  s <- sys (Setrlimit RLIMIT_MEMLOCK (to_size (ret pageSize)) (to_size (ret pageSize)));;
  if (ret s =? -1)%Z then perror "setrlimit" (errno s) ;;; exit EXIT_FAILURE else
  addr <- sys (Mmap 8 LOCK_PROT LOCK_MAP (-1));;
  if (ret addr =? 0)%Z then perror "mmap" (errno addr) ;;; exit EXIT_FAILURE else
  m <- sys (Mlock (ret addr) (2 * ret pageSize));;
  if (ret m =? -1)%Z then perror "mlock" (errno m) ;;; exit EXIT_FAILURE else
  Ret 0%Z.

(** ** free_and_sbrk.c *)

Definition MAX_ALLOCS : Z := 1000000.

Section free_and_sbrk.
Context (ename strerror : Z → string).
(** ["%10p"]. *)
Context (pointer : Z → string).
Local Abbreviation errExit := (errExit ename strerror).

Definition print_break (text : string) : prog posix unit :=
  b <- sys Sbrk;; printf (text +:+ pointer (ret b) +:+ nl).

(** The blocks allocated, in order: the array [ptr] as far as it is filled. *)
Fixpoint allocate (n : nat) (blockSize : Z) (ptr : list Z) : prog posix (list Z) :=
  match n with
  | O => Ret ptr
  | S n' =>
      m <- sys (Malloc (to_size blockSize));;
      if (ret m =? 0)%Z then errExit (errno m) "malloc" [] else
      print_break ("Malloc Executed: Program break is now:" +:+ tab) ;;;
      allocate n' blockSize (ptr ++ [ret m])
  end.

(** [for (j = freeMin; j < freeMax; j += freeStep) free(ptr[j])]. *)
Definition free_step (freeStep freeMax : Z) (ptr : list Z) (j : Z) : prog posix (Z + unit) :=
  if (j <? freeMax)%Z then
    match ptr !! Z.to_nat j with
    | None => undef "ptr[j] is indeterminate"
    | Some p =>
        sys (Free p) ;;;
        if (INT_MAX <? j + freeStep)%Z then undef "signed overflow" else Ret (inl (j + freeStep)%Z)
    end
  else Ret (inr tt).

Definition opt_int (argv : list string) (i : nat) (name : string) (dflt : Z) : prog posix Z :=
  if i <? length argv then getInt (argv !! i) GN_GT_0 (Some name) else Ret dflt.

Definition free_and_sbrk_main (argv : list string) : prog posix Z :=
  printf nl ;;;
  if (length argv <? 3) || streq (default "" (argv !! 1)) "--help"
  then usageErr ("%s num-allocs block-size [step [min [max]]]" +:+ nl) [AStr (argv_0 argv)] else
  numAllocs <- getInt (argv !! 1) GN_GT_0 (Some "num_allocs"%string);;
  if (MAX_ALLOCS <? numAllocs)%Z then cmdLineErr ("num_allocs > %d" +:+ nl) [AInt MAX_ALLOCS] else
  blockSize <- getInt (argv !! 2) (Z.lor GN_GT_0 GN_ANY_BASE) (Some "block-size"%string);;
  freeStep <- opt_int argv 3 "step" 1;;
  freeMin <- opt_int argv 4 "min" 1;;
  freeMax <- opt_int argv 5 "max" numAllocs;;
  if (numAllocs <? freeMax)%Z then cmdLineErr "free_max > numAllocs" [] else
  print_break ("Initial program break:" +:+ tab) ;;;
  printf ("Allocating " +:+ zstr numAllocs +:+ "*" +:+ zstr blockSize +:+ " bytes" +:+ nl) ;;;
  ptr <- allocate (Z.to_nat numAllocs) blockSize [];;
  print_break ("Program break is now:" +:+ tab) ;;;
  printf ("Freeing blocks from " +:+ zstr freeMin +:+ " to " +:+ zstr freeMax +:+ " in steps of " +:+ zstr freeStep +:+ nl) ;;;
  loop (S (Z.to_nat freeMax)) (free_step freeStep freeMax ptr) freeMin ;;;
  print_break ("After free(), program break is:" +:+ tab) ;;;
  exit EXIT_SUCCESS.
End free_and_sbrk.

(** ** pipe_bandwidth.c *)

Section pipe_bandwidth.
(** The last message, from the two times, the frequency and the bytes: its
    floating-point numbers are a parameter. *)
Context (rate : Z → Z → Z → Z → string).

Definition start_clock : prog posix Z := '(t, _) <- sys Times;; Ret (ret t).
Definition end_clock (st_time totalSize : Z) : prog posix unit :=
  '(en, _) <- sys Times;;
  f <- sys (Sysconf SC_CLK_TCK);;
  printf (rate st_time (ret en) (ret f) totalSize).

(** [writeBuf] is never assigned: [garbage] is what it holds. *)
Definition bandwidth_child (garbage : bytes) (rfd wfd blockSize : Z) (blockCount : nat) : prog posix Z :=
  sys (Close rfd) ;;;
  for_each (seq 0 blockCount) (λ _ _, sys (Write wfd (take (Z.to_nat blockSize) garbage)) ;;; Ret tt) tt ;;;
  sys (Close wfd) ;;;
  quick_exit EXIT_SUCCESS.

Definition bandwidth_parent (rfd wfd blockSize blockCount : Z) : prog posix Z :=
  st_time <- start_clock;;
  sys (Close wfd) ;;;
  for_each (seq 0 (Z.to_nat blockCount)) (λ _ _, sys (Read rfd blockSize) ;;; Ret tt) tt ;;;
  '(w, _) <- sys Wait;;
  if (ret w =? -1)%Z then perror "wait" (errno w) ;;; exit EXIT_FAILURE else
  if decide (in_long (blockCount * blockSize)) then
    end_clock st_time (blockCount * blockSize) ;;;
    exit EXIT_SUCCESS
  else undef "signed overflow".

Definition bandwidth_main (garbage : bytes) (argv : list string) : prog posix Z :=
  if negb (length argv =? 3) || streq (argv_0 argv) "--help"
  then printf ("Usage: " +:+ argv_0 argv +:+ " number_of_block block_size" +:+ nl) ;;; exit EXIT_FAILURE else
  let b := strtol (to_bytes (default "" (argv !! 1))) 10 in
  if negb (st_errno b =? 0)%Z then perror "strtol" (st_errno b) ;;; exit EXIT_FAILURE else
  let n := strtol (to_bytes (default "" (argv !! 2))) 10 in
  if negb (st_errno n =? 0)%Z then perror "strtol" (st_errno n) ;;; exit EXIT_FAILURE else
  let blockSize := st_val b in
  let blockCount := to_int (st_val n) in
  if (blockSize <=? 0)%Z then undef "size of an array" else
  '(p, (rfd, wfd)) <- sys Pipe;;
  if (ret p =? -1)%Z then perror "pipe" (errno p) ;;; exit EXIT_FAILURE else
  f <- sys Fork;;
  if (ret f =? -1)%Z then perror "fork" (errno f) ;;; exit EXIT_FAILURE
  else if (ret f =? 0)%Z then bandwidth_child garbage rfd wfd blockSize (Z.to_nat blockCount)
  else bandwidth_parent rfd wfd blockSize blockCount.
End pipe_bandwidth.

(** ** Correctness *)

(** What [job] has written when [q] quarters are counted. *)
Definition quarter_text (doer : string) (q : nat) : list string :=
  (doer +:+ " a quarter of second passed" +:+ nl) :: if Nat.modulo q 4 =? 0 then [doer +:+ " yielding" +:+ nl] else [].
Definition job_text (doer : string) (q : nat) : list string := concat (quarter_text doer <$> seq 1 q).

Lemma job_text_snoc doer q : job_text doer (S q) = job_text doer q ++ quarter_text doer (S q).
Proof. unfold job_text. rewrite seq_S, fmap_app, concat_app. cbn. by rewrite app_nil_r. Qed.

(** The elements of [ptr] at [j], [j + step], ... below [max]. *)
Fixpoint picked (fuel : nat) (step max : Z) (ptr : list Z) (j : Z) : list Z :=
  match fuel with
  | O => []
  | S f => if (j <? max)%Z then match ptr !! Z.to_nat j with Some p => p :: picked f step max ptr (j + step) | None => [] end else []
  end.

Definition freed (t : list (event posix)) : list Z :=
  omap (λ c, match c with Free p => Some p | _ => None end) (calls t).
Definition blocks (t : list (event posix)) : list Z :=
  omap (λ e, match e with ECall (Malloc _) a => Some (ret a) | _ => None end) t.

Lemma freed_app t1 t2 : freed (t1 ++ t2) = freed t1 ++ freed t2.
Proof. unfold freed. by rewrite calls_app, omap_app. Qed.
Lemma blocks_app t1 t2 : blocks (t1 ++ t2) = blocks t1 ++ blocks t2.
Proof. apply omap_app. Qed.

(** How often a trace looks at the clock. *)
Definition looks (t : list (event posix)) : nat :=
  length (omap (λ c, match c with Times => Some () | _ => None end) (calls t)).

Lemma looks_app t1 t2 : looks (t1 ++ t2) = looks t1 + looks t2.
Proof. unfold looks. by rewrite calls_app, omap_app, length_app. Qed.

Section runs.
Context {W : Type} (K : kernel posix W).

(** No execution in a trace, or the one it holds; and none in a new event. *)
Ltac nocall := intros ?? Hin; cbn in Hin;
  repeat (apply elem_of_cons in Hin as [Hin|Hin]; [first [discriminate Hin | by injection Hin as -> ->]|]); by apply not_elem_of_nil in Hin.
Ltac nosel := let H := fresh in intros (? & ? & [H|[? H]]); discriminate H.
Ltac quietly Hs := repeat (apply Hs; [|nosel]); done.

Lemma psem_ok argv w : wp K (psem_main argv) w (λ r _ t, r = Halted (Exited 0) →
  ∃ n now sem pid, int_arg (argv !! 2) GN_GT_0 n ∧ called t ClockGettime (λ a, a.2 = now) ∧
    called t (SemTimedwait sem (now.1 + n, now.2)%Z) (λ a, ret a ≠ (-1)%Z) ∧
    last t = Some (EOut (Out (zstr pid +:+ " sem_wait() succeeded" +:+ nl)))).
Proof.
  unfold psem_main. destruct (_ || _); [by prog_steps|].
  apply wp_getInt; [|done]. intros n Hn. apply wpa_wp.
  acc_call; [|done]. destruct a as [c now]. destruct (ret c =? -1)%Z; [by acc_steps|].
  destruct (LONG_MAX <? now.1 + n)%Z; [by acc_steps|]. cbv zeta.
  acc_call; [|done]. destruct (ret a =? 0)%Z; [by acc_steps|].
  acc_call; [|done]. destruct (ret a0 =? -1)%Z eqn:E; zbool; [by acc_steps|].
  acc_call; [|done]. acc_steps. intros _. exists n, now, (ret a), (ret a1). split_and!; [done| | |by rewrite last_snoc].
  - do 4 apply called_app_l. by apply called_last.
  - do 2 apply called_app_l. by apply called_last.
Qed.

Lemma rtsched_ok name pol prio c args w :
  let p := to_int (st_val (strtol (to_bytes prio) 10)) in
  wp K (rtsched_main (name :: pol :: prio :: c :: args)) w (λ r _ t,
    (bad_policy pol = true ∨ p = EINVAL → r = Halted (Exited 1) ∧ calls t = []) ∧
    (∀ z, r = Returned z → z = 0%Z ∧ perror_last t) ∧
    before_each (λ e, ∃ f l, e = EGone (Execvp f l) ∨ ∃ a, e = ECall (Execvp f l) a)
      (λ t1, called t1 (SchedSetscheduler (policy_of pol) p) (λ a, ret a ≠ (-1)%Z)) t ∧
    (∀ f l, Execvp f l ∈ calls t → f = c ∧ l = c :: args)).
Proof.
  intros p. apply wpa_wp. cbn [rtsched_main].
  set (sel := λ e : event posix, ∃ f l, e = EGone (Execvp f l) ∨ ∃ a, e = ECall (Execvp f l) a).
  set (P := λ t1 : list (event posix), called t1 (SchedSetscheduler (policy_of pol) p) (λ a, ret a ≠ (-1)%Z)).
  assert (∀ t e, before_each sel P t → ¬ sel e → before_each sel P (t ++ [e])) as Hs by (intros; by apply before_each_snoc).
  pose proof (before_each_nil sel P) as H0.
  assert (∀ t, calls t = [] → ∀ f l, Execvp f l ∈ calls t → f = c ∧ l = c :: args) as Hnil.
  { intros t -> f l H. by apply not_elem_of_nil in H. }
  destruct (bad_policy pol) eqn:Ep.
  { acc_steps. split_and!; [done|done|quietly Hs|by apply Hnil]. }
  cbv zeta. fold p. destruct (p =? EINVAL)%Z eqn:Ev; zbool.
  { acc_steps. split_and!; [done|done|quietly Hs|by apply Hnil]. }
  assert (∀ X : Prop, (false = true ∨ p = EINVAL → X)) as Hno by (intros X [?|?]; done).
  assert (∀ t, (∀ f l, Execvp f l ∉ calls t) → ∀ f l, Execvp f l ∈ calls t → f = c ∧ l = c :: args) as Hnone by (intros t Ht f l Hin; by apply Ht in Hin).
  acc_call; [|split_and!; [by apply Hno|done|quietly Hs|apply Hnone; nocall]].
  destruct (ret a =? 0)%Z.
  { acc_steps. split_and!; [by apply Hno|done|quietly Hs|apply Hnone; nocall]. }
  acc_call; [|split_and!; [by apply Hno|done|quietly Hs|apply Hnone; nocall]].
  acc_call; [|split_and!; [by apply Hno|done|quietly Hs|apply Hnone; nocall]].
  destruct (ret a1 =? -1)%Z eqn:Es; zbool.
  { acc_steps. split_and!; [by apply Hno|done|quietly Hs|apply Hnone; nocall]. }
  match goal with |- wpa _ ?t _ _ _ => assert (P t ∧ before_each sel P t) as [HP Hb] by (split; [by apply called_last|quietly Hs]) end.
  acc_call.
  - acc_steps. split_and!; [by apply Hno|intros z [= <-]; auto with posix| |nocall].
    apply Hs; [|nosel]. by apply before_each_snoc.
  - split_and!; [by apply Hno|done|by apply before_each_snoc|nocall].
Qed.

(** *** sched_fifo/main.c *)

Lemma job_step_ok freq doer q t w base : outs t = base ++ job_text doer q → q < totalQuarters →
  wpa K t (job_step freq doer q) w (λ r _ t', match r with
    | Returned (inl q') => q' < totalQuarters ∧ outs t' = base ++ job_text doer q'
    | Returned (inr _) => outs t' = base ++ job_text doer totalQuarters ++ [doer +:+ " DONE" +:+ nl]
    | Halted h => h = Exited 1 ∨ ∃ why, h = Undef why
    | Gone => True
    end).
Proof.
  intros Ht Hq. unfold job_step. acc_call; [|done]. destruct a as [tk ut]. destruct (ret tk =? -1)%Z; [acc_steps; by left|].
  destruct (quarter freq =? 0)%Z; [acc_steps; right; by eexists|].
  destruct (Z.rem ut (quarter freq) =? 0)%Z; [|acc_steps; split; [done|]; by rewrite outs_app, Ht, app_nil_r].
  acc_steps. cbv zeta.
  assert (∀ t1 w1, outs t1 = base ++ job_text doer (S q) →
    wpa K t1 (if S q =? totalQuarters then printf (doer +:+ " DONE" +:+ nl) ;;; Ret (inr tt) else Ret (inl (S q))) w1 (λ r _ t', match r with
    | Returned (inl q') => q' < totalQuarters ∧ outs t' = base ++ job_text doer q'
    | Returned (inr _) => outs t' = base ++ job_text doer totalQuarters ++ [doer +:+ " DONE" +:+ nl]
    | Halted h => h = Exited 1 ∨ ∃ why, h = Undef why
    | Gone => True
    end)) as Hend.
  { intros t1 w1 H1. destruct (S q =? totalQuarters) eqn:E.
    - apply Nat.eqb_eq in E. acc_steps. by rewrite outs_app, H1, E, <- app_assoc.
    - apply Nat.eqb_neq in E. acc_steps. split; [lia|done]. }
  destruct (Nat.modulo (S q) 4 =? 0) eqn:E4.
  - acc_call; [|done]. destruct (ret a =? -1)%Z; [acc_steps; by left|]. cbn [bind]. apply Hend.
    rewrite job_text_snoc. unfold quarter_text. rewrite E4, !outs_app, Ht. cbn. by rewrite !app_nil_r, <- !app_assoc.
  - cbn [bind]. apply Hend. rewrite job_text_snoc. unfold quarter_text. rewrite E4, !outs_app, Ht. cbn. by rewrite !app_nil_r, <- !app_assoc.
Qed.

Lemma job_ok fuel doer t w : wpa K t (job fuel doer) w (λ r _ t', match r with
    | Returned _ => outs t' = outs t ++ job_text doer totalQuarters ++ [doer +:+ " DONE" +:+ nl]
    | Halted h => h = Cut ∨ h = Exited 1 ∨ ∃ why, h = Undef why
    | Gone => True
    end).
Proof.
  unfold job. acc_call; [|done].
  apply (wpa_loop K (λ q _ t', q < totalQuarters ∧ outs t' = outs t ++ job_text doer q)).
  - intros q w1 t1 [Hq HI]. eapply wpa_mono; [by apply (job_step_ok _ doer q t1 w1 (outs t))|].
    intros [[q'|[]]|h|] w2 t2 H'; [done|done|by right|done].
  - intros q w1 t1 _. by left.
  - split; [unfold totalQuarters; lia|]. by rewrite outs_app.
Qed.

(** A clock that has not moved: every look at it counts a quarter. *)
Section still_clock.
Context (freq : Z) (Hfreq : (4 <= freq)%Z) (Hint : in_int freq).
Context (HS : ∀ w, ∃ w', K (Sysconf SC_CLK_TCK) w = Answer (Rc freq 0) w').
Context (HT : ∀ w, ∃ tk w', K Times w = Answer (tk, 0%Z) w' ∧ ret tk ≠ (-1)%Z).
Context (HY : ∀ w, ∃ y w', K SchedYield w = Answer y w' ∧ ret y ≠ (-1)%Z).

Lemma step_at_once doer q w : wp K (job_step freq doer q) w (λ r _ t,
  looks t = 1 ∧ r = Returned (if S q =? totalQuarters then inr tt else inl (S q))).
Proof.
  unfold job_step, sys at 1. cbn [bind]. destruct (HT w) as (tk & w1 & E & Htk). eapply wp_answer; [exact E|].
  cbv beta iota. match goal with |- context [(?x =? -1)%Z] => replace (x =? -1)%Z with false by (symmetry; by apply Z.eqb_neq) end.
  assert (quarter freq ≠ 0%Z) as Hq.
  { unfold quarter. rewrite Z.quot_div_nonneg by lia. pose proof (Z.div_le_lower_bound freq 4 1 ltac:(lia) ltac:(lia)). lia. }
  destruct (quarter freq =? 0)%Z eqn:E2; zbool; [done|]. rewrite Z.rem_0_l by done. cbn [Z.eqb].
  assert (∀ w2, wp K (if S q =? totalQuarters then printf (doer +:+ " DONE" +:+ nl) ;;; Ret (inr tt) else Ret (inl (S q))) w2
    (λ r _ t, looks t = 0 ∧ r = Returned (if S q =? totalQuarters then inr tt else inl (S q)))) as Hend.
  { intros w2. destruct (S q =? totalQuarters); by prog_steps. }
  unfold printf, put. cbn [bind]. apply wp_put. cbv zeta. destruct (Nat.modulo (S q) 4 =? 0).
  - cbn [bind]. apply wp_put. unfold sys. cbn [bind]. destruct (HY w1) as (y & w3 & Ey & Hy). eapply wp_answer; [exact Ey|].
    cbv beta iota. match goal with |- context [(?x =? -1)%Z] => replace (x =? -1)%Z with false by (symmetry; by apply Z.eqb_neq) end. cbn [bind]. eapply wp_mono; [apply Hend|]. intros r w4 t [H1 H2]. split; [|done].
    exact (f_equal S H1).
  - cbn [bind]. eapply wp_mono; [apply Hend|]. intros r w4 t [H1 H2]. split; [|done]. exact (f_equal S H1).
Qed.

Lemma loop_at_once doer k q w : q + S k = totalQuarters →
  wp K (loop (S k) (job_step freq doer) q) w (λ r _ t, r = Returned tt ∧ looks t = S k).
Proof.
  revert q w. induction k as [|k IH]; intros q w Hk; cbn [loop]; apply wp_bind; (eapply wp_mono; [apply step_at_once|]); intros r w1 t [H1 ->].
  - rewrite (proj2 (Nat.eqb_eq (S q) totalQuarters)) by lia. apply wp_ret. by rewrite app_nil_r.
  - rewrite (proj2 (Nat.eqb_neq (S q) totalQuarters)) by lia. eapply wp_mono; [apply (IH (S q)); lia|].
    intros r2 w2 t2 [-> H2]. split; [done|]. by rewrite looks_app, H1, H2.
Qed.

Lemma job_at_once doer w : wp K (job totalQuarters doer) w (λ r _ t, r = Returned tt ∧ looks t = totalQuarters).
Proof.
  unfold job, sys. cbn [bind]. destruct (HS w) as (w1 & E). eapply wp_answer; [exact E|]. cbn [ret]. rewrite to_int_id by done.
  eapply wp_mono; [by apply (loop_at_once doer 11 0)|]. intros r w2 t [H1 H2]. split; [done|]. unfold looks in *. cbn in *. done.
Qed.
End still_clock.

(** *** free_and_sbrk.c *)

Lemma gt0_positive arg z : int_arg arg GN_GT_0 z → (0 < z)%Z.
Proof. intros [(a & _ & _ & _ & Hf) _]. by apply Hf. Qed.

(** The outcomes of the loops that are not failures. *)
Definition sane {A} (r : outcome A) : Prop :=
  match r with Halted (Undef why) => why = "signed overflow" | Halted Cut => False | Halted (Exited c) => c ≠ 0%Z | _ => True end.

Lemma failed_sane {A} (r : outcome A) : failed r → sane r.
Proof. by destruct r as [a|[]|]. Qed.

Section heap.
Context (ename strerror : Z → string) (pointer : Z → string).

Lemma print_break_ok text t w : wpa K t (print_break pointer text) w (λ r _ t',
  blocks t' = blocks t ∧ freed t' = freed t ∧ match r with Halted _ => False | _ => True end).
Proof.
  unfold print_break. acc_call.
  - acc_steps. rewrite !blocks_app, !freed_app. cbn. by rewrite !app_nil_r.
  - rewrite blocks_app, freed_app. cbn. by rewrite !app_nil_r.
Qed.

Lemma allocate_ok n size ptr t w : blocks t = ptr → wpa K t (allocate ename strerror pointer n size ptr) w (λ r _ t', match r with
  | Returned p => p = blocks t' ∧ length p = length ptr + n ∧ freed t' = freed t
  | r => sane r
  end).
Proof.
  revert ptr t w. induction n as [|n IH]; intros ptr t w Ht; cbn [allocate]; [acc_steps; by rewrite Nat.add_0_r|].
  acc_call; [|done]. destruct (ret a =? 0)%Z.
  { unfold wpa. eapply wp_mono; [by eapply wp_errExit|]. intros r w2 t2 [H1 _]. by destruct r as [x|[]|]. }
  apply wpa_bind. eapply wpa_mono; [apply print_break_ok|]. intros [[]|h|] w2 t2 (H1 & H2 & Hr); [|done|done].
  eapply wpa_mono; [apply IH|].
  - rewrite H1, blocks_app, Ht. done.
  - intros r w3 t3 H3. destruct r as [p|h|]; [|done|done]. destruct H3 as (-> & H3 & H4). split_and!; [done| |].
    + rewrite H3, length_app. cbn. lia.
    + rewrite H4, H2, freed_app. cbn. by rewrite app_nil_r.
Qed.

Lemma free_loop_ok fuel step max ptr j t w : (1 <= step)%Z → (0 <= j)%Z → (max <= Z.of_nat (length ptr))%Z → 1 ≤ fuel → (max < j + Z.of_nat fuel)%Z →
  wpa K t (loop fuel (free_step step max ptr) j) w (λ r _ t', match r with
    | Returned _ => blocks t' = blocks t ∧ freed t' = freed t ++ picked fuel step max ptr j
    | r => sane r
    end).
Proof.
  intros Hs. revert j t w. induction fuel as [|fuel IH]; intros j t w Hj Hm H1 Hf; [lia|]. cbn [loop picked]. unfold free_step at 2.
  destruct (j <? max)%Z eqn:E; zbool; [|cbn [bind]; acc_steps; by rewrite app_nil_r].
  destruct (lookup_lt_is_Some_2 ptr (Z.to_nat j)) as [p Hp]; [lia|]. rewrite Hp.
  acc_call; [|done]. destruct (INT_MAX <? j + step)%Z eqn:E2; zbool; [by acc_steps|]. apply wpa_ret.
  eapply wpa_mono; [apply IH; lia|]. intros r w2 t2 H2. destruct r as [x|h|]; [|done|done]. destruct H2 as [H2 H3].
  rewrite H2, H3, blocks_app, freed_app. cbn. by rewrite app_nil_r, <- app_assoc.
Qed.
End heap.

Lemma wpa_usageErr {A} fmt ap text t w (Q : outcome A → W → list (event posix) → Prop) : vformat (to_bytes fmt) ap = Some text →
  (∀ t', Q (Halted (Exited 1)) w t') → wpa K t (usageErr fmt ap) w Q.
Proof. intros E HQ. unfold usageErr. rewrite E. acc_steps. apply HQ. Qed.

Lemma wpa_cmdLineErr {A} fmt ap text t w (Q : outcome A → W → list (event posix) → Prop) : vformat (to_bytes fmt) ap = Some text →
  (∀ t', Q (Halted (Exited 1)) w t') → wpa K t (cmdLineErr fmt ap) w Q.
Proof. intros E HQ. unfold cmdLineErr. rewrite E. acc_steps. apply HQ. Qed.

Lemma opt_int_ok {A} argv i name dflt (f : Z → prog posix A) t w (Q : outcome A → W → list (event posix) → Prop) :
  (0 < dflt)%Z → (∀ z, (0 < z)%Z → wpa K t (f z) w Q) → (∀ t', Q (Halted (Exited 1)) w t') → wpa K t (z <- opt_int argv i name dflt;; f z) w Q.
Proof.
  intros Hd Hf HQ. unfold opt_int. destruct (i <? length argv); [|cbn [bind]; by apply Hf].
  unfold wpa. apply wp_getInt; [|by intros t'; apply HQ]. intros z Hz. apply Hf. by eapply gt0_positive.
Qed.

Definition free_done (argv : list string) (t : list (event posix)) : Prop :=
  ∃ n step min max, int_arg (argv !! 1) GN_GT_0 n ∧ (n <= MAX_ALLOCS)%Z ∧ (max <= n)%Z ∧ (0 < step)%Z ∧ (0 < min)%Z ∧
    length (blocks t) = Z.to_nat n ∧ freed t = picked (S (Z.to_nat max)) step max (blocks t) min.

Definition sane_or {A} (P : Prop) (r : outcome A) : Prop :=
  match r with Halted (Exited 0) => P | r => sane r end.

Lemma sane_sane_or {A B} P (r : outcome A) : sane r → match r with Returned _ => True | Halted h => sane_or (A := B) P (Halted h) | Gone => sane_or (A := B) P Gone end.
Proof. destruct r as [a|[[]| | | |]|]; cbn; try done. Qed.

Lemma free_main_ok ename strerror pointer argv w :
  wpa K [] (free_and_sbrk_main ename strerror pointer argv) w (λ r _ t, sane_or (free_done argv t) r).
Proof.
  unfold free_and_sbrk_main. acc_steps. destruct (_ || _).
  { first [eapply wpa_usageErr|eapply wpa_cmdLineErr]; [reflexivity|by intros t']. }
  unfold wpa at 1. apply wp_getInt; [|done]. intros n Hn.
  match goal with |- wp K ?p w ?Q => change (wpa K [EOut (Out nl)] p w (λ r _ t, sane_or (free_done argv t) r)) end.
  destruct (MAX_ALLOCS <? n)%Z eqn:En; zbool.
  { first [eapply wpa_usageErr|eapply wpa_cmdLineErr]; [reflexivity|by intros t']. }
  unfold wpa at 1. apply wp_getInt; [|done]. intros size Hsize.
  match goal with |- wp K ?p w ?Q => change (wpa K [EOut (Out nl)] p w (λ r _ t, sane_or (free_done argv t) r)) end.
  pose proof (gt0_positive _ _ Hn) as Hn0.
  apply opt_int_ok; [lia| |done]. intros step Hstep. apply opt_int_ok; [lia| |done]. intros mn Hmin.
  apply opt_int_ok; [lia| |done]. intros mx Hmax.
  destruct (n <? mx)%Z eqn:Em; zbool.
  { first [eapply wpa_usageErr|eapply wpa_cmdLineErr]; [reflexivity|by intros t']. }
  apply wpa_bind. eapply wpa_mono; [apply print_break_ok|]. intros [[]|h|] w1 t1 (B1 & F1 & R1); [|done|done].
  acc_steps. apply wpa_bind. eapply wpa_mono; [apply (allocate_ok ename strerror pointer _ _ [])|].
  { rewrite blocks_app, B1. done. }
  intros r w2 t2 H2. destruct r as [ptr|h|]; [|exact (sane_sane_or (B := Z) _ _ H2)|done].
  destruct H2 as (Hp & Hl & F2). cbn in Hl.
  apply wpa_bind. eapply wpa_mono; [apply print_break_ok|]. intros [[]|h|] w3 t3 (B3 & F3 & R3); [|done|done].
  acc_steps. apply wpa_bind. eapply wpa_mono; [apply free_loop_ok; [lia|lia|rewrite Hl; lia|lia|lia]|].
  intros r w4 t4 H4. destruct r as [u|h|]; [|exact (sane_sane_or (B := Z) _ _ H4)|done]. destruct H4 as [B4 F4].
  acc_steps. apply wpa_bind. eapply wpa_mono; [apply print_break_ok|]. intros [[]|h|] w5 t5 (B5 & F5 & R5); [|done|done].
  acc_steps. rewrite blocks_app in B4. rewrite freed_app in F4. cbn in B4, F4. rewrite app_nil_r in B4, F4.
  assert (blocks t5 = ptr) as Hb by congruence. exists n, step, mn, mx. split_and!; [done|lia|lia|lia|lia| |].
  - by rewrite Hb, Hl.
  - rewrite F5, F4, F3, F2, Hb. rewrite freed_app, F1. reflexivity.
Qed.

(** *** pipe_bandwidth.c *)

Lemma repeat_calls (c : posix_op) (xs : list nat) t w :
  wpa K t (for_each xs (λ _ _, sys c ;;; Ret tt) tt) w (λ r _ t', match r with
    | Returned _ => calls t' = calls t ++ replicate (length xs) c ∧ outs t' = outs t
    | Halted _ => False
    | Gone => outs t' = outs t
    end).
Proof.
  revert t w. induction xs as [|x xs IH]; intros t w; cbn [for_each]; [acc_steps; by rewrite app_nil_r|].
  acc_call; [|by rewrite outs_app, app_nil_r]. acc_steps. eapply wpa_mono; [apply IH|].
  intros r w2 t2 H2. rewrite calls_app, outs_app, app_nil_r in H2. destruct r as [u|h|]; [|done|done]. destruct H2 as [H2 H3].
  split; [|done]. by rewrite H2, <- app_assoc.
Qed.

Lemma bandwidth_child_ok garbage rfd wfd size n w : wp K (bandwidth_child garbage rfd wfd size n) w (λ r _ t,
  r = Gone ∨ (r = Halted (QuickExited 0) ∧
    calls t = Close rfd :: replicate n (Write wfd (take (Z.to_nat size) garbage)) ++ [Close wfd])).
Proof.
  apply wpa_wp. unfold bandwidth_child. acc_call; [|by left]. apply wpa_bind. eapply wpa_mono; [apply repeat_calls|].
  intros [[]|h|] w1 t1 H1; [|done|by left]. destruct H1 as [H1 _]. acc_call; [|by left]. acc_steps. right. split; [done|].
  rewrite calls_app, H1, length_seq. done.
Qed.

Lemma bandwidth_parent_ok rate rfd wfd size n w : wp K (bandwidth_parent rate rfd wfd size n) w (λ r _ t,
  r = Gone ∨ (r = Halted (Exited 1) ∧ perror_last t) ∨ (r = Halted (Undef "signed overflow") ∧ ¬ in_long (n * size)) ∨
  (r = Halted (Exited 0) ∧ (∃ st en f, outs t = [rate st en f (n * size)%Z]) ∧
    calls t = [Times; Close wfd] ++ replicate (Z.to_nat n) (Read rfd size) ++ [Wait; Times; Sysconf SC_CLK_TCK])).
Proof.
  apply wpa_wp. unfold bandwidth_parent, start_clock. acc_call; [|by left]. destruct a as [st u]. apply wpa_ret.
  acc_call; [|by left]. apply wpa_bind. eapply wpa_mono; [apply repeat_calls|].
  intros [[]|h|] w1 t1 H1; [|done|by left]. destruct H1 as [H1 O1].
  acc_call; [|by left]. destruct a0 as [wr x]. destruct (ret wr =? -1)%Z; [acc_steps; right; left; auto with posix|].
  destruct (decide (in_long (n * size))) as [Hl|Hl]; [|acc_steps; by right; right; left].
  unfold end_clock. acc_call; [|by left]. destruct a0 as [en y]. acc_call; [|by left]. acc_steps.
  right; right; right. split; [done|]. split.
  - exists (ret st), (ret en), (ret a0). rewrite !outs_app, O1. reflexivity.
  - rewrite !calls_app, H1, length_seq. cbn. by rewrite <- !app_assoc.
Qed.

(** *** rusage.c, Exercise_36-1 *)

Lemma rusage_ok name command args w :
  wp K (rusage_main (name :: command :: args)) w (λ r _ t,
    (∀ f l, Execvp f l ∈ calls t → f = command ∧ l = command :: args) ∧
    (r = Halted (Exited 0) → ∃ ut st, outs t =
      ["User time: " +:+ zstr ut.1 +:+ "." +:+ pad6 ut.2 +:+ " secs" +:+ nl;
       "System time: " +:+ zstr st.1 +:+ "." +:+ pad6 st.2 +:+ " secs" +:+ nl;
       "Executed in " +:+ zstr (ut.1 + st.1) +:+ "." +:+ pad6 (ut.2 + st.2) +:+ " secs" +:+ nl])).
Proof.
  apply wpa_wp. unfold rusage_main. cbn [lookup list_lookup tail].
  acc_call; [|split; [nocall|done]]. acc_call; [|split; [nocall|done]].
  destruct (ret a0 =? -1)%Z; [acc_steps; split; [nocall|done]|].
  destruct (ret a0 =? 0)%Z.
  - acc_call; [acc_steps|]; (split; [nocall|done]).
  - acc_call; [|split; [nocall|done]]. destruct a1 as [g x]. destruct (ret g =? -1)%Z; [acc_steps; split; [nocall|done]|].
    acc_call; [|split; [nocall|done]]. destruct a1 as [wr y]. destruct (ret wr =? -1)%Z; [acc_steps; split; [nocall|done]|].
    acc_call; [|split; [nocall|done]]. destruct a1 as [h [ut st]]. destruct (ret h =? -1)%Z; [acc_steps; split; [nocall|done]|].
    acc_steps. split; [nocall|]. intros _. by exists ut, st.
Qed.

Lemma burn_child_ok fuel w : wp K (burn_child fuel) w (λ r _ t, r = Halted (QuickExited 0) →
  ∃ tk utime f t0, t = t0 ++ [ECall Times (tk, utime); ECall (Sysconf SC_CLK_TCK) f] ∧ (3 <= Z.quot utime (ret f))%Z).
Proof.
  apply wpa_wp. unfold burn_child. apply (wpa_loop K (λ _ _ _, True)); [|done|done].
  intros [] w1 t1 _. acc_call; [|done]. destruct a as [tk ut]. destruct (ret tk =? -1)%Z; [by acc_steps|].
  unfold ticks_per_second. acc_call; [|done]. destruct (ret a =? 0)%Z; [by acc_steps|]. acc_steps.
  destruct (3 <=? Z.quot ut (ret a))%Z eqn:E; zbool; acc_steps; [|done]. intros _. exists tk, ut, a, t1. by rewrite <- app_assoc.
Qed.
End runs.


(** A machine at the very start of the process's time. *)
Definition idle_kernel : kernel posix unit := λ c w,
  match c as c return reaction (posix_ans c) unit with
  | Sysconf _ => Answer (Rc 100 0) w
  | Times => Answer (Rc 5 0, 0%Z) w
  | SchedYield => Answer (Rc 0 0) w
  | _ => NoReturn w
  end.

