(* ===== verification/LibTools.v ===== *)
(** * Functions of the C library and their effects

    Functions rebuilt: isatty.c, ttyname.c (CH62), getpwnam.c (CH08).  Programs:
    termmodinfo.c (CH62), dynload.c (CH42), test.c of Exercise_13-4 (what stdio
    buffers and what [write] does not), mem_segments.c and faulty_longjump.c
    (CH06), signal_test/main.c (CH49) and threads_and_signals.c (CH33). *)
From Stdlib Require Import ZArith Lia Ascii String.
From stdpp Require Import base gmap strings list.
From S2P Require Import Prelude Prog CString Posix.
From S2P Require SignalTools.
Local Open Scope prog_scope.

(** ** isatty.c, ttyname.c, termmodinfo.c *)

(** The result and [errno]. *)
Definition isatty (fd : Z) : prog posix (Z * Z) :=
  '(r, _) <- sys (Tcgetattr fd);;
  if (ret r =? -1)%Z then Ret (0, if (errno r =? ENOTTY)%Z then 0 else errno r)%Z
  else Ret (1, errno r)%Z.

Definition PATH_MAX : nat := 4096.

Definition ttyname (fd : Z) : prog posix (option bytes * Z) :=
  '(r, _) <- sys (Tcgetattr fd);;
  if (ret r <? 0)%Z then Ret (None, ENOTTY) else
  let procPath := of_bytes (take 63 (to_bytes ("/proc/self/fd/" +:+ zstr fd))) in
  '(n, buf) <- sys (Readlink procPath (Z.of_nat PATH_MAX - 1));;
  if (ret n <? 0)%Z then Ret (None, errno n) else
  Ret (Some (cstr (take (Z.to_nat (ret n)) buf ++ [NUL])), errno n).

Definition ICANON : Z := 2.

Definition termmodinfo_main : prog posix Z :=
  '(r, (c_lflag, (vtime, vmin))) <- sys (Tcgetattr STDIN_FILENO);;
  if (ret r =? -1)%Z then perror "tcgetattr" (errno r) ;;; exit EXIT_FAILURE else
  (if negb (Z.land c_lflag ICANON =? 0)%Z then printf ("Terminal in canonical mode" +:+ nl)
   else
     printf ("Terminal in non-canonical mode" +:+ nl) ;;;
     printf ("TIME: " +:+ zstr vtime +:+ nl +:+ "MIN: " +:+ zstr vmin +:+ nl)) ;;;
  exit EXIT_SUCCESS.

(** ** getpwnam.c *)

Definition my_getpwnam (fuel : nat) (name : string) : prog posix (option passwd) :=
  loop fuel (λ _ : unit,
    e <- sys Getpwent;;
    match e with
    | None => sys Endpwent ;;; Ret (inr None)
    | Some p => if streq (pw_name p) name then sys Endpwent ;;; Ret (inr (Some p)) else Ret (inl tt)
    end) tt.

(** ** dynload.c *)

Definition RTLD_LAZY : Z := 1.

Section dynload.
(** ["%p"]. *)
Context (pointer : Z → string).

Definition dynload_main (argv : list string) : prog posix Z :=
  if negb (length argv =? 3) || streq (default "" (argv !! 1)) "--help"
  then printf ("Usage " +:+ argv_0 argv +:+ " lib-path func-name" +:+ nl) ;;; exit EXIT_FAILURE else
  libHandle <- sys (Dlopen (default "" (argv !! 1)) RTLD_LAZY);;
  if (ret libHandle =? 0)%Z then
    e <- sys Dlerror;;
    match e with Some text => eprintf ("dlopen: " +:+ text) ;;; exit EXIT_FAILURE | None => undef "%s of a null pointer" end
  else
  sys Dlerror ;;;
  funcp <- sys (Dlsym (ret libHandle) (default "" (argv !! 2)));;
  err <- sys Dlerror;;
  match err with
  | Some text => eprintf ("dlsym: " +:+ text) ;;; exit EXIT_FAILURE
  | None =>
      '(d, info) <- sys (Dladdr (ret libHandle));;
      if (ret d =? 0)%Z then undef "%s of a null pointer" else
      match dli_sname info with
      | None => undef "%s of a null pointer"
      | Some sname =>
          printf ("Library " +:+ dli_fname info +:+ " at address " +:+ pointer (dli_fbase info) +:+ nl +:+
                  "Symbol " +:+ sname +:+ " at address " +:+ pointer (dli_saddr info) +:+ nl) ;;;
          sys (CallAddr (ret funcp)) ;;;
          sys (Dlclose (ret libHandle)) ;;;
          exit EXIT_SUCCESS
      end
  end.
End dynload.

(** ** Exercise_13-4/test.c *)

Definition more_time : bytes := to_bytes "If I had mode time, ".
Definition letter : bytes := to_bytes ("I would have written you a shorter letter." +:+ nl).

(** [printf] adds to the buffer of stdout, which holds no newline and so is not
    written; [exit], and the return from [main], write it. *)
Definition exit_stdio (buffer : bytes) (code : Z) : prog posix Z :=
  sys (Write STDOUT_FILENO buffer) ;;; exit code.

Definition stdio_main : prog posix Z :=
  let buffer := more_time in
  sys (Write STDOUT_FILENO letter) ;;;
  fd <- sys (Open "testoutput.txt" (Z.lor O_RDWR O_CREAT) MODE_0666);;
  if (ret fd =? -1)%Z then perror "open" (errno fd) ;;; exit_stdio buffer EXIT_FAILURE else
  d <- sys (Dup2 (ret fd) STDOUT_FILENO);;
  if (ret d =? -1)%Z then perror "dup2" (errno d) ;;; exit_stdio buffer EXIT_FAILURE else
  let buffer := buffer ++ more_time in
  sys (Write STDOUT_FILENO letter) ;;;
  exit_stdio buffer 0.

(** ** mem_segments.c, faulty_longjump.c *)

(** An [int], or signed overflow. *)
Definition as_int (z : Z) : prog posix Z := if decide (in_int z) then Ret z else undef "signed overflow".

Definition square (x : Z) : prog posix Z := as_int (x * x).

Definition doCalc (val : Z) : prog posix unit :=
  s <- square val;;
  printf ("The square of " +:+ zstr val +:+ " is " +:+ zstr s +:+ nl) ;;;
  if (val <? 1000)%Z then
    t0 <- as_int (val * val);;
    t <- as_int (t0 * val);;
    printf ("the cube of " +:+ zstr val +:+ " is " +:+ zstr t +:+ nl)
  else Ret tt.

Definition key : Z := 9973.

Definition mem_segments_main : prog posix Z := sys (Malloc 1024) ;;; doCalc key ;;; exit EXIT_SUCCESS.

(** [setjmp] returns 0 when it is called; the function that called it has
    returned when [longjmp] runs. *)
Definition longjump_x : prog posix unit := printf ("In x() setjmp called first time" +:+ nl).
Definition longjump_main : prog posix Z := longjump_x ;;; undef "longjmp into a function that has returned".

(** ** signal_test/main.c *)

(** [mode] is the argument of [open] that is missing. *)
Definition signal_test_main (mode : Z) : prog posix Z :=
  dummyFile <- sys (Open "testfile.txt" (Z.lor O_CREAT O_RDWR) mode);;
  if (ret dummyFile =? -1)%Z then perror "open" (errno dummyFile) ;;; exit EXIT_SUCCESS else
  t <- sys (Ftruncate (ret dummyFile) 2048);;
  if (ret t =? -1)%Z then perror "ftruncate" (errno t) ;;; exit EXIT_FAILURE else
  m <- sys (Mmap 6144 3 1 (ret dummyFile));;
  if (ret m =? -1)%Z then perror "mmap" (errno m) ;;; exit EXIT_FAILURE else
  exit EXIT_SUCCESS.

(** ** threads_and_signals.c *)

Section threads.
Context (strsignal : Z → string).

(** The signals SIGUSR1 and SIGUSR2. *)
Definition thread_block : Z := 2560.

Definition printfSigset (out : string → output) (prefix : string) (sigset : Z) : prog posix unit :=
  SignalTools.printSigset strsignal out prefix sigset.

Definition thread_pending (out : string → output) (msg : option string) : prog posix Z :=
  (match msg with Some m => put (out m) | None => Ret tt end) ;;;
  '(r, pendingSigs) <- sys Sigpending;;
  if (ret r =? -1)%Z then Ret (-1)%Z else
  printfSigset out (tab +:+ tab) pendingSigs ;;;
  Ret 0%Z.

Definition signal_thread : prog posix Z :=
  '(b, _) <- sys (Sigprocmask SIG_BLOCK thread_block);;
  if negb (ret b =? 0)%Z then perror "sigprocmask" (errno b) ;;; exit EXIT_FAILURE else
  self <- sys PthreadSelf;;
  sys (Sleep 10) ;;;
  thread_pending Out (Some ("At thead " +:+ zstr (ret self) +:+ ", its pending signals are:" +:+ nl)) ;;;
  Ret 0%Z.

(** [t1] and [t2] are what [pthread_create] stores. *)
Definition threads_main (t1 t2 : Z) : prog posix Z :=
  sys PthreadCreate ;;;
  sys PthreadCreate ;;;
  sys (Sleep 1) ;;;
  sys (PthreadKill t1 SIGUSR1) ;;;
  sys (PthreadKill t2 SIGUSR2) ;;;
  sys PthreadJoin ;;;
  sys PthreadJoin ;;;
  exit EXIT_SUCCESS.
End threads.

(** ** Correctness *)

(** The user database: what [getpwent] has still to give, and all of it. *)
Definition pw_kernel : kernel posix (list passwd * list passwd) := λ c w,
  match c as c return reaction (posix_ans c) (list passwd * list passwd) with
  | Getpwent => match w.1 with [] => Answer None w | p :: rest => Answer (Some p) (rest, w.2) end
  | Endpwent => Answer (Rc 0 0) (w.2, w.2)
  | _ => NoReturn w
  end.

(** The first entry of that name. *)
Definition entry_of (name : string) (db : list passwd) : option passwd :=
  snd <$> list_find (λ p, pw_name p = name) db.

Lemma getpwnam_ok fuel name rest db : length rest < fuel →
  wp pw_kernel (my_getpwnam fuel name) (rest, db) (λ r w _, r = Returned (entry_of name rest) ∧ w = (db, db)).
Proof.
  revert rest. induction fuel as [|fuel IH]; intros rest Hf; [lia|]. unfold my_getpwnam. cbn [loop]. unfold sys. cbn [bind].
  destruct rest as [|p rest].
  - eapply wp_answer; [reflexivity|]. cbn [bind]. eapply wp_answer; [reflexivity|]. by apply wp_ret.
  - eapply wp_answer; [reflexivity|]. cbv beta iota. unfold entry_of. cbn [list_find].
    destruct (streq (pw_name p) name) eqn:E.
    + apply streq_true in E. rewrite decide_True by done. cbn [bind]. eapply wp_answer; [reflexivity|]. by apply wp_ret.
    + assert (pw_name p ≠ name) as Hne by (intros H; apply streq_true in H; congruence). rewrite decide_False by done.
      cbn [bind]. eapply wp_mono; [apply (IH rest); cbn in Hf; lia|]. intros r w t [-> ->]. split; [|done].
      unfold entry_of. by destruct (list_find _ rest) as [[]|].
Qed.

(** A terminal and one file; [fd1] says whether stdout is the file. *)
Record outputs := Outputs { fd1 : bool; term : bytes; file : bytes }.
Definition outputs_kernel : kernel posix outputs := λ c w,
  match c as c return reaction (posix_ans c) outputs with
  | Write fd b =>
      if (fd =? STDOUT_FILENO)%Z then
        Answer (Rc (Z.of_nat (length b)) 0) (if fd1 w then Outputs true (term w) (file w ++ b) else Outputs false (term w ++ b) (file w))
      else NoReturn w
  | Open _ _ _ => Answer (Rc 3 0) w
  | Dup2 _ fd => Answer (Rc fd 0) (Outputs true (term w) (file w))
  | _ => NoReturn w
  end.

Lemma stdio_ok t f : (run outputs_kernel stdio_main (Outputs false t f)).1 =
  (Halted (Exited 0), Outputs true (t ++ letter) (f ++ letter ++ more_time ++ more_time)).
Proof. cbn -[letter more_time]. by rewrite <- app_assoc. Qed.

Section runs.
Context {W : Type} (K : kernel posix W).

Lemma isatty_ok fd w : wp K (isatty fd) w (λ r _ t, match r with
  | Returned (z, e) => ∃ a, t = [ECall (Tcgetattr fd) a] ∧
      if decide (ret a.1 = -1)%Z then z = 0%Z ∧ e = (if decide (errno a.1 = ENOTTY) then 0 else errno a.1)%Z else z = 1%Z
  | Halted _ => False
  | Gone => True
  end).
Proof.
  apply wpa_wp. unfold isatty. acc_call; [|done]. destruct a as [r x]. destruct (ret r =? -1)%Z eqn:E; zbool; acc_steps.
  - eexists. split; [reflexivity|]. cbn [fst]. rewrite decide_True by done. split; [done|].
    destruct (errno r =? ENOTTY)%Z eqn:E2; zbool; [by rewrite decide_True|by rewrite decide_False].
  - eexists. split; [reflexivity|]. cbn [fst]. by rewrite decide_False.
Qed.

Lemma ttyname_ok fd w : wp K (ttyname fd) w (λ r _ t, match r with
  | Returned (None, e) => (∃ a, t = [ECall (Tcgetattr fd) a] ∧ (ret a.1 < 0)%Z ∧ e = ENOTTY) ∨
      (∃ a p n b, t = [ECall (Tcgetattr fd) a; ECall (Readlink p n) b] ∧ (ret b.1 < 0)%Z ∧ e = errno b.1)
  | Returned (Some s, _) => ∃ a b, t = [ECall (Tcgetattr fd) a;
        ECall (Readlink (of_bytes (take 63 (to_bytes ("/proc/self/fd/" +:+ zstr fd)))) 4095) b] ∧
      (0 <= ret a.1)%Z ∧ (0 <= ret b.1)%Z ∧ s = cstr (take (Z.to_nat (ret b.1)) b.2)
  | Halted _ => False
  | Gone => True
  end).
Proof.
  apply wpa_wp. unfold ttyname. acc_call; [|done]. destruct a as [r x]. destruct (ret r <? 0)%Z eqn:E; zbool; acc_steps.
  { left. by exists (r, x). }
  cbv zeta. acc_call; [|done]. destruct a as [n buf]. destruct (ret n <? 0)%Z eqn:E2; zbool; acc_steps.
  - right. by eexists (r, x), _, _, (n, buf).
  - exists (r, x), (n, buf). split_and!; [done|done|done|]. cbn [fst snd].
    generalize (take (Z.to_nat (ret n)) buf). intros l. induction l as [|c l IH]; [done|]. cbn. destruct (Ascii.eqb c NUL); [done|]. by rewrite IH.
Qed.

(** The call through the pointer, and what came before it. *)
Definition calls_symbol (path fn : string) (t : list (event posix)) : Prop :=
  ∀ addr, CallAddr addr ∈ calls t → ∃ h, h ≠ 0%Z ∧ called t (Dlopen path RTLD_LAZY) (λ a, ret a = h) ∧
    called t (Dlsym h fn) (λ a, ret a = addr) ∧ called t (Dladdr h) (λ a, ret a.1 ≠ 0%Z).

Ltac nocalladdr := intros ? Hin; cbn in Hin; repeat (apply elem_of_cons in Hin as [Hin|Hin]; [discriminate Hin|]); by apply not_elem_of_nil in Hin.

Ltac one_call := intros ? Hin; cbn in Hin; repeat (apply elem_of_cons in Hin as [->|Hin]; [auto|]); by apply not_elem_of_nil in Hin.

Lemma dynload_ok pointer name path fn w : path ≠ "--help" →
  wp K (dynload_main pointer [name; path; fn]) w (λ r _ t, calls_symbol path fn t ∧ (r = Halted (Exited 0) → ∃ addr, CallAddr addr ∈ calls t)).
Proof.
  intros Hp. assert (streq path "--help" = false) as Hs by (apply not_true_is_false; by intros H%streq_true).
  apply wpa_wp. unfold dynload_main. cbn [length Nat.eqb negb orb lookup list_lookup default id]. rewrite Hs.
  acc_call; [|split; [nocalladdr|done]]. destruct (ret a =? 0)%Z eqn:E; zbool.
  { acc_call; [|split; [nocalladdr|done]]. destruct a0; acc_steps; (split; [nocalladdr|done]). }
  acc_call; [|split; [nocalladdr|done]]. acc_call; [|split; [nocalladdr|done]]. acc_call; [|split; [nocalladdr|done]].
  destruct a2; [acc_steps; split; [nocalladdr|done]|]. acc_call; [|split; [nocalladdr|done]]. destruct a2 as [d info].
  destruct (ret d =? 0)%Z eqn:E2; zbool; [acc_steps; split; [nocalladdr|done]|].
  destruct (dli_sname info); [|acc_steps; split; [nocalladdr|done]].
  acc_steps. match goal with |- wpa _ ?t _ _ _ => assert (∀ u, CallAddr (ret a1) ∈ calls u → (∀ c, c ∈ calls u → c = CallAddr (ret a1) ∨ c = Dlclose (ret a)) → calls_symbol path fn (t ++ u)) as Hc end.
  { intros u Hu Hall addr Hin. rewrite calls_app in Hin. apply elem_of_app in Hin as [Hin|Hin].
    - exfalso. revert Hin. cbn. intros Hin. repeat (apply elem_of_cons in Hin as [Hin|Hin]; [discriminate Hin|]). by apply not_elem_of_nil in Hin.
    - destruct (Hall _ Hin) as [[= ->]|[=]]. exists (ret a). split_and!; [done| | |]; apply called_app_l.
      + exists a. split; [left|done].
      + exists a1. split; [do 2 right; left|done].
      + exists (d, info). split; [do 4 right; left|done]. }
  acc_call; [|split; [refine (Hc [_] _ _); [left|one_call]|done]].
  acc_call; [|split; [refine (Hc [_; _] _ _); [left|one_call]|done]].
  acc_steps. split; [refine (Hc [_; _] _ _); [left|one_call]|]. intros _. exists (ret a1). cbn. do 5 right. left.
Qed.

Lemma as_int_ok {A} z (f : Z → prog posix A) : in_int z → (x <- as_int z;; f x) = f z.
Proof. intros H. unfold as_int. by rewrite decide_True. Qed.

Lemma doCalc_ok val w : in_int val → wp K (doCalc val) w (λ r _ t,
  if decide (in_int (val * val) ∧ ((val < 1000)%Z → in_int (val * val * val))) then
    r = Returned tt ∧ outs t = ("The square of " +:+ zstr val +:+ " is " +:+ zstr (val * val) +:+ nl) ::
      (if (val <? 1000)%Z then ["the cube of " +:+ zstr val +:+ " is " +:+ zstr (val * val * val) +:+ nl] else [])
  else r = Halted (Undef "signed overflow")).
Proof.
  intros Hv. unfold doCalc, square. destruct (decide (in_int (val * val))) as [H1|H1].
  - rewrite as_int_ok by done. unfold printf, put. cbn [bind]. apply wp_put. destruct (val <? 1000)%Z eqn:E; zbool.
    + rewrite as_int_ok by done. destruct (decide (in_int (val * val * val))) as [H2|H2].
      * rewrite as_int_ok by done. apply wp_put, wp_ret. cbv beta. by rewrite decide_True.
      * unfold as_int. rewrite decide_False by done. apply wp_stop. cbv beta. rewrite decide_False; [done|]. intros [_ H]. by apply H2, H.
    + apply wp_ret. cbv beta. rewrite decide_True; [done|]. split; [done|]. lia.
  - assert (as_int (val * val) = undef "signed overflow") as -> by (unfold as_int; by rewrite decide_False).
    apply wp_stop. cbv beta. rewrite decide_False; [done|]. by intros [H _].
Qed.

Lemma signal_thread_ok strsignal w : wp K (signal_thread strsignal) w (λ r _ t, match r with
  | Returned z => z = 0%Z ∧ ∃ self, head (outs t) = Some ("At thead " +:+ zstr self +:+ ", its pending signals are:" +:+ nl) ∧
      (tail (outs t) = [] ∨ ∃ a, (ECall Sigpending a : event posix) ∈ t ∧ tail (outs t) = SignalTools.sigset_lines strsignal (tab +:+ tab) a.2)
  | Halted h => h = Exited 1 ∧ perror_last t
  | Gone => True
  end).
Proof.
  apply wpa_wp. unfold signal_thread. acc_call; [|done]. destruct a as [b x].
  destruct (negb (ret b =? 0)%Z); [acc_steps; auto with posix|].
  acc_call; [|done]. acc_call; [|done]. unfold thread_pending. apply wpa_bind. acc_call; [|done]. destruct a1 as [r set].
  destruct (ret r =? -1)%Z.
  { acc_steps. split; [done|]. exists (ret a). split; [done|]. by left. }
  apply wpa_bind, SignalTools.printSigset_ok. acc_steps. split; [done|]. exists (ret a). rewrite !outs_app. cbn. split; [done|]. right.
  eexists. split; [do 4 right; left|]. cbn [snd].
  unfold SignalTools.puts. apply outs_says.
Qed.
End runs.


(** A library at 16 whose every function is at 32. *)
Definition one_library : kernel posix unit := λ c w,
  match c as c return reaction (posix_ans c) unit with
  | Dlopen _ _ => Answer (Rc 16 0) w
  | Dlerror => Answer None w
  | Dlsym _ _ => Answer (Rc 32 0) w
  | Dladdr _ => Answer (Rc 1 0, Dlinfo "libx" 16 (Some "f") 32) w
  | CallAddr _ => Answer (Rc 0 0) w
  | Dlclose _ => Answer (Rc 0 0) w
  | _ => NoReturn w
  end.

